(* ===== verification/_CoqProject ===== *)
-Q . S2P
Prelude.v
Exceptions.v
GraphModel.v
GraphChecks.v
GraphDirty.v
GraphCycle.v
BuildPlan.v
BuildCore.v
BuildSchedule.v
GraphConsistency.v
DepfileParser.v
EventNotifier.v
StreamServer.v
StreamBuild.v
StreamLoop.v
Fs.v
Cache.v
Watchman.v
World.v
CacheRoundtrip.v
Hash.v
HashRecompute.v
Scan.v
ScanExact.v
SubProcess.v
Spawn.v
InterruptRace.v
LazyCache.v
Builder.v
EventLog.v
StreamConsumer.v
GraphParser.v
Json.v
JsonText.v
JsonErrors.v
JsonSafety.v
JsonPrinter.v
GraphFile.v
GraphReloader.v
ReloadUnchanged.v
GraphPrinters.v
Daemon.v
CommandServer.v
ReloadBroken.v
BuildCommand.v
StartRace.v
Startup.v
CommandLine.v
