(* ===== verification/Prelude.v ===== *)
(** * Falcon: verification of the build system's core

    Falcon is a build daemon in C++: it keeps the graph of a project in memory, marks
    what becomes out of date as files change, and builds by running the commands of
    rules.  This library models its core and proves what makes it correct.

    ** How the program is put together

    The graph file is read (json/json.c, json/parser.cpp, [GraphParser]) into a [Graph] of [Node]s
    and [Rule]s (graph.cpp).  At start [GraphDependencyScan] compares timestamps,
    loads depfiles and computes hashes (graph_hash.cpp, depfile.cpp).  Watchman
    (watchman.cpp) reports changed files and [Node::markDirty] propagates them.  A
    build makes a [BuildPlan], fetches what the cache has ([LazyCache],
    [CacheManager]), and [GraphParallelBuilder] runs the rules as subprocesses
    (posix_subprocess*.cpp), whose output a [StreamServer] sends to its clients.
    [GraphConsistencyChecker] re-checks the invariants of the graph in debug builds.

    ** Conventions

    Every stateful function is a computation in the state and exception monad [M] of
    this file: it returns, throws, or aborts ([AssertFailed], [BadAccess],
    [Blocked], [Killed], [OutOfFuel]).  An [assert] of the source is a [massert], active as in
    the source's builds (NDEBUG is not defined); LOG(FATAL) aborts.  Logging is left out.
    [wp] is total correctness: [returns m Q s] says that [m] neither aborts nor throws
    and ends in [Q].  Pointers are addresses ([N]) into a heap (GState); the
    [Allocator] may hand out any fresh address, and what depends on the order of a
    [std::set] of pointers is the order of the addresses.  Components work on their
    own state and are placed in a larger one by lenses ([zoom]).
    Counters of the source that are unsigned and bounded by the size of a vector are
    [nat], with the assertions that guard them; the [unsigned] casts that do wrap
    (Watchman) and the signed [char]s of the depfile scanner are written out.

    ** The files and what they model

    - Prelude: the monad, loops, lenses, counting; Exceptions: the class of exceptions.h,
      of which the rest keeps code and message ([exn]).  GraphModel: graph.h, graph.cpp
      ([GState] is the heap and the [Graph]); GraphChecks: executable tests of the
      invariants, sound, used to evaluate; GraphDirty: the theorems about markDirty.
    - Json: the tokenizer json/json.c with its tables, the callbacks that build the
      tree, and JsonParser; JsonText: a grammar of JSON, and that every text of it is
      read; JsonErrors: what happens to some texts outside of it; JsonSafety: no text of
      moderate nesting makes it leave its memory; JsonPrinter: the printer of json.c.
      GraphParser: the tree (json/parser.cpp) and processJson of graphparser.cpp;
      GraphFile: processFile, from the text to the graph.
    - GraphCycle: graph_cycle.cpp.  GraphConsistency: graph_consistency_checker.cpp.
    - Hash: graph_hash.cpp and depfile.cpp; HashRecompute: theorems about them.
      DepfileParser: the scanner generated by re2c, label by label.
    - Scan, ScanExact: graph_dependency_scan.cpp and its theorems.
    - BuildPlan: build_plan.cpp.  BuildCore, BuildSchedule: the part of
      graph_parallel_builder.cpp that finishes rules, and the build loop as a
      transition system.  Builder: the whole build thread, refining it.  EventLog: what
      the thread reports, whoever listens.
    - Fs: fs.cpp over a model of the file system.  Cache: cache_fs.cpp,
      cache_git_directory.cpp.  World: the shared state of the daemon ([World]: graph,
      files, git directory, policy, watchman) and cache_manager.cpp.  CacheRoundtrip:
      its theorems.  LazyCache: lazy_cache.cpp.
    - SubProcess: posix_subprocess.cpp, posix_subprocess_manager.cpp, from the parent's
      side; Spawn: both sides of PosixSubProcess::start, on a table of descriptors.
      InterruptRace: the manager between two threads, the build's and one that interrupts
      it.  StreamConsumer: stream_consumer.cpp.  StreamServer: stream_server.cpp;
      StreamBuild: a whole build's events on it; StreamLoop: its poll loop, interleaved
      with the thread of a build.  EventNotifier: util/event.cpp.  Watchman: watchman.cpp.
    - GraphReloader: graph_reloader.cpp; ReloadUnchanged: a graph that did not change;
      ReloadBroken: a graph file that is none.
      Daemon: the commands of daemon_instance.cpp over [World], the stream server and
      the builder.  CommandServer: the handler of the thrift service
      (command_server.cpp) and sessions of requests.  BuildCommand: a build from the
      request to the last byte of its stream, which composes Daemon, Builder and
      StreamServer.  StartRace: two clients that start a build at once.
      GraphPrinters: graph_printers.cpp.  Startup: GlobalConfig of
      options.cpp, and main.cpp from the options on, which puts the components together.
      CommandLine: the rest of options.cpp, setOptions of main.cpp, and logging.cpp.

    ** Interfaces

    [Consumer] (the client of the output of commands; [TotalConsumer]: it never
    fails) is what SubProcess, LazyCache and Builder need of the stream server; a state
    with a consumer in it is a [Holder], and [replays] says that an operation does the
    same with any consumer, which is how BuildCommand uses the theorems of Builder.
    [BuildCache] (Builder) is what the build thread needs of the cache, discharged by the cache
    manager under the policies without git.  [BuildEnv], [WatchEnv] and the arguments
    of SubProcess are the answers of the kernel, of watchman and of the children,
    with [SHA256] the digest of OpenSSL, all arbitrary but for documented behaviour;
    [Boost] is boost::program_options, with what its documentation says ([BoostLaws]);
    [NodeOrder] is the iteration order of an unordered_map, [DirTime] the timestamps
    of directories.

    ** What the theorems show

    - The graph: markDirty marks exactly what depends on a node and keeps the
      counters (markDirty_correct); the checker and
      the loop detection are exact (check_exact, checkGraphLoop_exact); the parser returns
      the graph the document describes or rejects it for one of two reasons
      (processFile_exact).
    - The graph file: every object or array of the JSON grammar, less an exponent behind a
      leading zero and escapes for half of a surrogate pair, which json.c refuses
      (zero_exponent_refused, lone_surrogate_refused), is read into its tree without an
      access outside of a buffer, however it is cut into chunks (read_document); a
      printed tree is read back (print_then_read); whatever the bytes are, reading them
      ends with a tree or an error (read_safe), unless the nesting is too deep
      (deep_nesting_aborts).  Start-up as a whole: from the bytes
      of the graph file to the marked and hashed graph of a new daemon (main_exact).
    - The scan, without depfiles: it finds what a definition without states calls outdated
      and hashes everything (scan_exact); the checks pass afterwards under one condition on
      shared sources, and not without it (scanned_consistent,
      shared_source_inconsistent).
    - Building: the plan holds what is needed (makePlan_exact); on a [settled] graph
      (a consistent one in which nothing was fetched lazily is, consistent_settled; one
      in which a single output of a rule was changed or fetched is not) and with at least
      one thread, rules are started once, in dependency order, without deadlock, and
      leave the targets up to date
      (schedule_order, schedule_progress), and the real build thread is a run of that
      system (buildThread_refines, without depfiles); lazy fetching keeps the graph consistent
      (fetch_exact, fetch_then_plan).
    - The daemon: a changed source leaves the graph marked, hashed and consistent
      (setDirty_source), a changed output marks its rule (setDirty_output); a build is
      refused for stated reasons or gets the plan of what is needed (startBuild_exact);
      run to its end on a daemon that is [ready], for a client that asks for at least one
      thread, it leaves the daemon ready, the targets up to date and the client with a
      whole JSON document (build_exact);
      reloading a graph that did not change changes nothing (reload_unchanged), nor
      does a graph file that is broken (broken_file_refused).
    - The service: every question is answered with what the graph says
      (question_exact); over a session of questions and changes the daemon stays
      healthy and knows what is out of date (session_exact).
    - The command line: options have the types they are read with and come from the
      command line, the file or the defaults, in this order (command_line_exact).
      Exceptions keep their code and message when they are forwarded (forwarded_exact).
    - Hashes and the cache: recomputeNodeHash_exact; cache_roundtrip, save_restore,
      register_exact.
    - Text: Parse_refines and Parse_print for depfiles, escape_json_roundtrip,
      updateTargetPath_correct.
    - Processes and clients: what a command finds and what the daemon keeps
      (start_exact), waitForNext_exact, addProcess_exact, collected, server_safe,
      loop_safe, server_delivers, watchNode_delivers, createPath_correct; an interruption
      in any interleaving (interrupt_interleaved; waitForNext_pieces says that the
      build thread's operations are made of the pieces that are interleaved).
    - Where the code does not do what it means to, a theorem says what it does:
      Parse_high_byte, partial_send_repeats, destroy_waiting_client,
      flush_after_raises, restore_detached_aborts, error_answer_aborts, no_answer_aborts,
      updateTargetPath_past_root, fetched_output_aborts, interrupted_succeeds,
      no_threads_spins, missing_field_aborts, graph_file_replaced,
      setDirty_output_aborts, removed_output_aborts, reload_loses_rule,
      deep_nesting_aborts, extra_bracket_ignored, fork_failed_leaks, interrupt_crashes,
      two_clients_abort, and the examples
      depfile_dependency_unseen, parse_depfile_utf8, removed_output_reload,
      output_to_source_reload, stale_order_matters, closed_stdin_stays, no_pwd_aborts.

    ** Fuel

    Recursive functions over the graph take a bound on the depth of the recursion.
    The theorems ask for the number of nodes ([size (g_nodes s)], plus one where a
    level is spent on noticing a loop) or of rules, which is enough because an acyclic
    graph has a rank below it ([acyclic_bounded]).  Loops over a buffer or a queue take a bound
    on its length, stated in their theorems; [no_threads_spins] is about every fuel.

    ** Not modelled

    The parsers of boost are parameters, and of logging only the flags are there, not
    the messages.  Commands are modelled from the handler on: what is around it is
    generated by thrift.  The daemon is modelled up to the start of its threads and
    servers, without the two forks of daemonize; sockets and poll are the kernel's, whose
    answers are arguments.  Allocation does not fail.  Of the scan, depfiles are modelled
    but the theorem is for graphs without them; of the cache, the git policy is modelled
    but the build thread's theorem is for the other policies.  The theorem about
    processFile starts from an empty heap, that about reloading from two graphs in memory.
    Concurrency is sequentially consistent and reduced to the pieces that the mutexes
    and the shared accesses make, where it is modelled at all (StreamLoop, InterruptRace,
    StartRace, the flag of Builder); the memory model, the delivery of signals and thread
    creation are not modelled. *)

From stdpp Require Export base tactics decidable option list gmap strings sorting.
From stdpp Require Export fin_maps fin_sets sets.
From Stdlib Require Export ZArith Lia.

#[export] Set Default Goal Selector "!".

(** ** Outcomes

    A C++ function of the program either returns, throws, or ends the process:
    an [assert] that does not hold, a null or dangling pointer that is
    dereferenced (or any other undefined behaviour the code runs into), a system
    call that waits for something nobody will provide ([Blocked]), a signal that
    ends the process ([Killed]).
    [OutOfFuel] is an artefact of the model: a recursive function whose
    recursion is not structural is given a [nat] bound on its depth, and the
    theorems show which bound is enough. *)

Inductive exn :=
  | Exception (code : Z) (message : string)   (* falcon::Exception *)
  | InvalidBuildError (desc : string)         (* FalconService.thrift *)
  | TargetNotFound.                           (* FalconService.thrift *)

Inductive abort_reason := AssertFailed | BadAccess | Blocked | Killed | OutOfFuel.

Inductive outcome (S A : Type) :=
  | Ret (a : A) (s : S)
  | Throw (e : exn) (s : S)
  | Abort (r : abort_reason).
Arguments Ret {S A} a s.
Arguments Throw {S A} e s.
Arguments Abort {S A} r.

(** The state and exception monad of the model: a thrown exception keeps the
    state reached when it was thrown, as the heap of the program does. *)
Definition M (S A : Type) : Type := S → outcome S A.

#[export] Instance M_ret S : MRet (M S) := λ A a s, Ret a s.
#[export] Instance M_bind S : MBind (M S) := λ A B f m s,
  match m s with
  | Ret a s' => f a s'
  | Throw e s' => Throw e s'
  | Abort r => Abort r
  end.

Section operations.
Context {S : Type}.

Definition mget : M S S := λ s, Ret s s.
Definition mput (s' : S) : M S unit := λ _, Ret tt s'.
Definition gets {A} (f : S → A) : M S A := λ s, Ret (f s) s.
Definition modify (f : S → S) : M S unit := λ s, Ret tt (f s).
Definition mthrow {A} (e : exn) : M S A := λ s, Throw e s.
Definition mabort {A} (r : abort_reason) : M S A := λ _, Abort r.

(** [assert(b)] of <cassert>. *)
Definition massert (b : bool) : M S unit :=
  λ s, if b then Ret tt s else Abort AssertFailed.

(** Following a pointer: [None] is a null or dangling one. *)
Definition deref {A} (o : option A) : M S A :=
  λ s, match o with Some a => Ret a s | None => Abort BadAccess end.

(** [try { m } catch (e) { h e }]. *)
Definition catch {A} (m : M S A) (h : exn → M S A) : M S A := λ s,
  match m s with
  | Ret a s' => Ret a s'
  | Throw e s' => h e s'
  | Abort r => Abort r
  end.

(** [for (it = l.begin(); it != l.end(); ++it) body( *it )]. *)
Fixpoint foreach {A} (l : list A) (body : A → M S unit) : M S unit :=
  match l with
  | [] => mret tt
  | x :: l' => body x ;; foreach l' body
  end.

(** The same loop with a local variable threaded through it. *)
Fixpoint foldM {A B} (l : list A) (b : B) (body : B → A → M S B) : M S B :=
  match l with
  | [] => mret b
  | x :: l' => b' ← body b x; foldM l' b' body
  end.

(** A loop that leaves the function with [false] at the first failure. *)
Fixpoint allM {A} (l : list A) (body : A → M S bool) : M S bool :=
  match l with
  | [] => mret true
  | x :: l' => ok ← body x; if (ok : bool) then allM l' body else mret false
  end.

(** [if (b) { m }]. *)
Definition mwhen (b : bool) (m : M S unit) : M S unit := if b then m else mret tt.
End operations.

(** A component works on its own state; [zoom] runs it inside a larger one. *)
Record lens (S T : Type) := Lens { lget : S → T; lset : T → S → S }.
Arguments Lens {S T}.
Arguments lget {S T}.
Arguments lset {S T}.

Definition zoom {S T A} (l : lens S T) (m : M T A) : M S A := λ s,
  match m (lget l s) with
  | Ret a t => Ret a (lset l t s)
  | Throw e t => Throw e (lset l t s)
  | Abort r => Abort r
  end.

(** ** Total correctness

    [wp m Q E s]: run from [s], [m] does not abort; it returns in a state where
    [Q] holds or throws in one where [E] holds. *)

Definition wp {S A} (m : M S A) (Q : A → S → Prop) (E : exn → S → Prop)
    (s : S) : Prop :=
  match m s with
  | Ret a s' => Q a s'
  | Throw e s' => E e s'
  | Abort _ => False
  end.

(** The run returns (no exception, no abort) and [Q] holds. *)
Definition returns {S A} (m : M S A) (Q : A → S → Prop) (s : S) : Prop :=
  wp m Q (λ _ _, False) s.

Section wp.
Context {S : Type}.
Implicit Types s : S.

Lemma wp_ret {A} (a : A) Q E s : Q a s → wp (mret a) Q E s.
Proof. done. Qed.

Lemma wp_bind {A B} (m : M S A) (f : A → M S B) Q E s :
  wp m (λ a s', wp (f a) Q E s') E s → wp (m ≫= f) Q E s.
Proof. unfold wp, mbind, M_bind. by destruct (m s). Qed.

Lemma wp_bind_inv {A B} (m : M S A) (f : A → M S B) Q E s :
  wp (m ≫= f) Q E s → wp m (λ a s', wp (f a) Q E s') E s.
Proof. unfold wp, mbind, M_bind. by destruct (m s). Qed.

Lemma wp_mono {A} (m : M S A) (Q Q' : A → S → Prop) (E E' : exn → S → Prop) s :
  wp m Q E s → (∀ a s', Q a s' → Q' a s') → (∀ e s', E e s' → E' e s') →
  wp m Q' E' s.
Proof. unfold wp. destruct (m s); naive_solver. Qed.

Lemma wp_mget Q E s : Q s s → wp mget Q E s.
Proof. done. Qed.
Lemma wp_gets {A} (f : S → A) Q E s : Q (f s) s → wp (gets f) Q E s.
Proof. done. Qed.
Lemma wp_mput s' Q E s : Q tt s' → wp (mput s') Q E s.
Proof. done. Qed.
Lemma wp_modify f Q E s : Q tt (f s) → wp (modify f) Q E s.
Proof. done. Qed.
Lemma wp_massert b Q E s : b = true → Q tt s → wp (massert b) Q E s.
Proof. intros ->. done. Qed.
Lemma wp_deref {A} (o : option A) a Q E s :
  o = Some a → Q a s → wp (deref o) Q E s.
Proof. intros ->. done. Qed.
Lemma wp_mthrow {A} e Q E s : E e s → wp (mthrow e : M S A) Q E s.
Proof. done. Qed.
Lemma wp_catch {A} (m : M S A) h Q E s :
  wp m Q (λ e s', wp (h e) Q E s') s → wp (catch m h) Q E s.
Proof. unfold wp, catch. by destruct (m s). Qed.

(** A loop: [I done s] is the invariant after the elements of [done]. *)
Lemma wp_foreach {A} (I : list A → S → Prop) (l : list A) body Q E s :
  I [] s →
  (∀ pre x post s', l = pre ++ x :: post → I pre s' →
     wp (body x) (λ _ s'', I (pre ++ [x]) s'') E s') →
  (∀ s', I l s' → Q tt s') →
  wp (foreach l body) Q E s.
Proof.
  intros H0 Hstep Hend.
  cut (∀ post pre s', l = pre ++ post → I pre s' →
         wp (foreach post body) Q E s').
  { intros H. by apply (H l [] s). }
  induction post as [|x post IH]; intros pre s' Hl Hpre; simpl.
  - apply wp_ret, Hend. by rewrite Hl, app_nil_r.
  - apply wp_bind. eapply wp_mono; [by eapply Hstep| |done].
    intros [] s'' Hx. apply (IH (pre ++ [x])); [|done].
    by rewrite <- app_assoc.
Qed.

Lemma wp_foldM {A B} (I : list A → B → S → Prop) (l : list A) (b : B) body Q E s :
  I [] b s →
  (∀ pre x post b' s', l = pre ++ x :: post → I pre b' s' →
     wp (body b' x) (λ b'' s'', I (pre ++ [x]) b'' s'') E s') →
  (∀ b' s', I l b' s' → Q b' s') →
  wp (foldM l b body) Q E s.
Proof.
  intros H0 Hstep Hend.
  cut (∀ post pre b' s', l = pre ++ post → I pre b' s' →
         wp (foldM post b' body) Q E s').
  { intros H. by apply (H l [] b s). }
  induction post as [|x post IH]; intros pre b' s' Hl Hpre; simpl.
  - apply wp_ret, Hend. by rewrite Hl, app_nil_r.
  - apply wp_bind. eapply wp_mono; [by eapply Hstep| |done].
    intros b'' s'' Hx. apply (IH (pre ++ [x])); [|done].
    by rewrite <- app_assoc.
Qed.

Lemma wp_allM {A} (I : list A → S → Prop) (l : list A) body Q E s :
  I [] s →
  (∀ pre x post s', l = pre ++ x :: post → I pre s' →
     wp (body x) (λ ok s'', ok = true ∧ I (pre ++ [x]) s'') E s') →
  (∀ s', I l s' → Q true s') →
  wp (allM l body) Q E s.
Proof.
  intros H0 Hstep Hend.
  cut (∀ post pre s', l = pre ++ post → I pre s' → wp (allM post body) Q E s').
  { intros H. by apply (H l [] s). }
  induction post as [|x post IH]; intros pre s' Hl Hpre; simpl.
  - apply wp_ret, Hend. by rewrite Hl, app_nil_r.
  - apply wp_bind. eapply wp_mono; [by eapply Hstep| |done].
    intros ok s'' [-> Hx]. apply (IH (pre ++ [x])); [|done].
    by rewrite <- app_assoc.
Qed.

Lemma wp_allM_any {A} (I : S → Prop) (l : list A) body E s :
  I s → (∀ x s', x ∈ l → I s' → wp (body x) (λ _ s'', I s'') E s') →
  wp (allM l body) (λ _ s', I s') E s.
Proof.
  intros H0 Hstep. revert s H0. induction l as [|x l IH]; intros s H0; simpl; [done|].
  apply wp_bind. eapply wp_mono; [apply Hstep; [set_solver|done]| |done].
  intros [] s' Hs'; [|done]. apply IH; [|done]. intros y s'' Hy. apply Hstep. set_solver.
Qed.

Lemma returns_inv {A} (m : M S A) Q s :
  returns m Q s ↔ ∃ a s', m s = Ret a s' ∧ Q a s'.
Proof. unfold returns, wp. destruct (m s); naive_solver. Qed.
End wp.

(** The run fails an assertion, or returns with [Q]. *)
Definition asserts {S A} (m : M S A) (Q : A → S → Prop) (s : S) : Prop :=
  match m s with Ret a s' => Q a s' | Throw _ _ => False | Abort r => r = AssertFailed end.

Section asserts.
Context {S : Type}.
Implicit Types s : S.

Lemma asserts_returns {A} (m : M S A) Q s : returns m Q s → asserts m Q s.
Proof. unfold returns, wp, asserts. by destruct (m s). Qed.

Lemma asserts_bind {A B} (m : M S A) (f : A → M S B) Q s :
  asserts m (λ a s', asserts (f a) Q s') s → asserts (m ≫= f) Q s.
Proof. unfold asserts, mbind, M_bind. by destruct (m s). Qed.

Lemma asserts_mono {A} (m : M S A) (Q Q' : A → S → Prop) s :
  asserts m Q s → (∀ a s', Q a s' → Q' a s') → asserts m Q' s.
Proof. unfold asserts. destruct (m s); auto. Qed.

Lemma asserts_foreach {A} (I : list A → S → Prop) (l : list A) body Q s :
  I [] s →
  (∀ pre x post s', l = pre ++ x :: post → I pre s' → asserts (body x) (λ _ s'', I (pre ++ [x]) s'') s') →
  (∀ s', I l s' → Q tt s') →
  asserts (foreach l body) Q s.
Proof.
  intros H0 Hstep Hend.
  cut (∀ post pre s', l = pre ++ post → I pre s' → asserts (foreach post body) Q s').
  { intros H. by apply (H l [] s). }
  induction post as [|x post IH]; intros pre s' Hl Hpre; simpl.
  - apply Hend. by rewrite Hl, app_nil_r.
  - apply asserts_bind. eapply asserts_mono; [by eapply Hstep|].
    intros [] s'' Hx. apply (IH (pre ++ [x])); [|done]. by rewrite <- app_assoc.
Qed.

Lemma asserts_foldM {A B} (I : list A → B → S → Prop) (l : list A) (b : B) body Q s :
  I [] b s →
  (∀ pre x post b' s', l = pre ++ x :: post → I pre b' s' → asserts (body b' x) (λ b'' s'', I (pre ++ [x]) b'' s'') s') →
  (∀ b' s', I l b' s' → Q b' s') →
  asserts (foldM l b body) Q s.
Proof.
  intros H0 Hstep Hend.
  cut (∀ post pre b' s', l = pre ++ post → I pre b' s' → asserts (foldM post b' body) Q s').
  { intros H. by apply (H l [] b s). }
  induction post as [|x post IH]; intros pre b' s' Hl Hpre; simpl.
  - apply Hend. by rewrite Hl, app_nil_r.
  - apply asserts_bind. eapply asserts_mono; [by eapply Hstep|].
    intros b'' s'' Hx. apply (IH (pre ++ [x])); [|done]. by rewrite <- app_assoc.
Qed.

Lemma asserts_fails {A} (m : M S A) s : asserts m (λ _ _, False) s → m s = Abort AssertFailed.
Proof. unfold asserts. destruct (m s); try done. by intros ->. Qed.
End asserts.

Lemma wp_zoom {S T A} (l : lens S T) (m : M T A) Q E s :
  wp m (λ a t, Q a (lset l t s)) (λ e t, E e (lset l t s)) (lget l s) →
  wp (zoom l m) Q E s.
Proof. unfold wp, zoom. by destruct (m (lget l s)). Qed.

Lemma asserts_zoom {S T A} (l : lens S T) (m : M T A) Q s :
  asserts m (λ a t, Q a (lset l t s)) (lget l s) → asserts (zoom l m) Q s.
Proof. unfold asserts, zoom. by destruct (m (lget l s)). Qed.

(** [wp_go] walks through the straight-line part of a computation. *)
Ltac wp_step :=
  lazymatch goal with
  | |- wp (mbind _ _) _ _ _ => apply wp_bind
  | |- wp (mret _) _ _ _ => apply wp_ret
  | |- wp mget _ _ _ => apply wp_mget
  | |- wp (gets _) _ _ _ => apply wp_gets
  | |- wp (mput _) _ _ _ => apply wp_mput
  | |- wp (modify _) _ _ _ => apply wp_modify
  | |- wp (zoom _ _) _ _ _ => apply wp_zoom; cbn [lget lset]
  | |- wp (deref _) _ _ _ => eapply wp_deref; [eassumption|]
  end.
Ltac wp_go := repeat (wp_step; cbv beta).

(** ** Pointers and ordered sets

    Objects of the heap are named by their addresses.  [operator new] returns
    an address no live object has, and nothing more is known of it (in
    particular the address of a deleted object may come back); a member that a
    constructor leaves uninitialised has an indeterminate value. *)

Class Allocator := {
  new_addr : gset N → N;
  new_addr_fresh X : new_addr X ∉ X;
  indeterminate_bool : bool;
}.

(** An allocator to evaluate with. *)
Definition first_fit : Allocator :=
  {| new_addr := fresh; new_addr_fresh := is_fresh; indeterminate_bool := false |}.

(** [std::set<T*>] iterates by increasing address. *)
Definition set_elems (X : gset N) : list N := merge_sort N.le (elements X).

Lemma set_elems_perm X : set_elems X ≡ₚ elements X.
Proof. apply merge_sort_Permutation. Qed.

Lemma elem_of_set_elems X x : x ∈ set_elems X ↔ x ∈ X.
Proof. by rewrite set_elems_perm, elem_of_elements. Qed.

Lemma NoDup_set_elems X : NoDup (set_elems X).
Proof. rewrite set_elems_perm. apply NoDup_elements. Qed.

Lemma set_elems_nil X : set_elems X = [] ↔ X = ∅.
Proof.
  split.
  - intros H. apply set_eq. intros x. rewrite <- elem_of_set_elems, H. set_solver.
  - intros ->. done.
Qed.

(** ** Vectors

    [v.erase(std::find(v.begin(), v.end(), x))]: the first occurrence goes;
    [None] when there is none. *)
Fixpoint erase_first (x : N) (l : list N) : option (list N) :=
  match l with
  | [] => None
  | y :: l' => if decide (x = y) then Some l' else cons y <$> erase_first x l'
  end.

Lemma erase_first_None x l : erase_first x l = None ↔ x ∉ l.
Proof.
  induction l as [|y l IH]; simpl; [set_solver|].
  case_decide; [set_solver|]. rewrite fmap_None, IH. set_solver.
Qed.

Lemma erase_first_perm x l l' : erase_first x l = Some l' → l ≡ₚ x :: l'.
Proof.
  revert l'. induction l as [|y l IH]; simpl; intros l' H; [done|].
  case_decide; [by simplify_eq|].
  apply fmap_Some in H as (k & Hk & ->). rewrite (IH k Hk). apply Permutation_swap.
Qed.

(** ** Counting

    The number of elements of a vector for which a test holds. *)
Definition countb {A} (p : A → bool) (l : list A) : nat := length (filter p l).

Section countb.
Context {A : Type}.
Implicit Types (p q : A → bool) (l : list A).

Lemma countb_nil p : countb p [] = 0.
Proof. done. Qed.

Lemma countb_cons p x l : countb p (x :: l) = (if p x then 1 else 0) + countb p l.
Proof. unfold countb. rewrite filter_cons. by destruct (p x). Qed.

Lemma countb_app p l k : countb p (l ++ k) = countb p l + countb p k.
Proof. unfold countb. by rewrite filter_app, length_app. Qed.

Lemma countb_le_length p l : countb p l ≤ length l.
Proof. unfold countb. apply length_filter. Qed.

Lemma countb_ext p q l : (∀ x, x ∈ l → p x = q x) → countb p l = countb q l.
Proof.
  intros H. induction l as [|x l IH]; [done|].
  rewrite !countb_cons, IH by set_solver. by rewrite H by set_solver.
Qed.

Lemma countb_mono p q l :
  (∀ x, x ∈ l → p x = true → q x = true) → countb p l ≤ countb q l.
Proof.
  intros H. induction l as [|x l IH]; [done|]. rewrite !countb_cons.
  assert (p x = true → q x = true) by (apply H; set_solver).
  specialize (IH ltac:(set_solver)). destruct (p x), (q x); naive_solver lia.
Qed.

Lemma countb_split p q r l :
  (∀ x, x ∈ l → p x = q x || r x) → (∀ x, x ∈ l → q x && r x = false) →
  countb p l = countb q l + countb r l.
Proof.
  intros H1 H2. induction l as [|x l IH]; [done|]. rewrite !countb_cons.
  rewrite IH by set_solver. rewrite H1 by set_solver.
  specialize (H2 x ltac:(set_solver)). destruct (q x), (r x); naive_solver lia.
Qed.

Lemma countb_disjoint p q r l :
  (∀ x, x ∈ l → q x = true → p x = true) → (∀ x, x ∈ l → r x = true → p x = true) →
  (∀ x, x ∈ l → q x && r x = false) → countb q l + countb r l ≤ countb p l.
Proof.
  intros Hq Hr Hd. rewrite <- (countb_split (λ x, q x || r x) q r l); [|done|done].
  apply countb_mono. intros x Hx [?|?]%orb_true_iff; auto.
Qed.

Lemma countb_all p l : countb p l = length l ↔ ∀ x, x ∈ l → p x = true.
Proof.
  induction l as [|x l IH]; [set_solver|]. rewrite countb_cons. simpl.
  pose proof (countb_le_length p l). split.
  - intros H0 y [->|Hy]%elem_of_cons; destruct (p x) eqn:E; try done; try lia.
    + apply IH; [lia|done].
  - intros H0. rewrite (H0 x) by set_solver. simpl. f_equal. apply IH. set_solver.
Qed.

Lemma countb_not_all p l : countb p l ≠ length l → ∃ x, x ∈ l ∧ p x = false.
Proof.
  induction l as [|x l IH]; [done|]. rewrite countb_cons. simpl. intros H.
  destruct (p x) eqn:E; [|exists x; set_solver].
  destruct IH as (y & Hy & Hp); [lia|]. exists y. set_solver.
Qed.

Lemma countb_0 p l : countb p l = 0 ↔ ∀ x, x ∈ l → p x = false.
Proof.
  induction l as [|x l IH]; [set_solver|]. rewrite countb_cons. split.
  - intros H0 y [->|Hy]%elem_of_cons; destruct (p x) eqn:E; try done; try lia.
    apply IH; [lia|done].
  - intros H0. rewrite (H0 x) by set_solver. simpl. apply IH. set_solver.
Qed.
End countb.

(** What two vectors without repetitions share is counted on either side. *)
Lemma countb_common (l k : list N) :
  NoDup l → NoDup k → countb (λ x, bool_decide (x ∈ k)) l = countb (λ x, bool_decide (x ∈ l)) k.
Proof.
  intros Hl Hk. unfold countb. apply Permutation_length, NoDup_Permutation; [by apply NoDup_filter|by apply NoDup_filter|].
  intros x. rewrite !list_elem_of_filter, !bool_decide_spec. tauto.
Qed.

Lemma countb_one (l : list N) (n : N) (b : bool) :
  NoDup l →
  countb (λ i, bool_decide (i = n) && b) l = if bool_decide (n ∈ l) && b then 1 else 0.
Proof.
  induction 1 as [|x l Hx Hl IH]; [done|]. rewrite countb_cons, IH.
  destruct b; [|by rewrite !andb_false_r]. rewrite !andb_true_r.
  destruct (decide (x = n)) as [->|Hne].
  - rewrite (bool_decide_eq_true_2 (n = n)) by done.
    rewrite (bool_decide_eq_false_2 (n ∈ l)) by done.
    by rewrite bool_decide_eq_true_2 by set_solver.
  - rewrite (bool_decide_eq_false_2 (x = n)) by done. simpl.
    by rewrite (bool_decide_ext (n ∈ x :: l) (n ∈ l)) by set_solver.
Qed.

(** [unsigned int]. *)
Definition wrap32 (z : Z) : Z := (z mod 2 ^ 32)%Z.
Lemma wrap32_small z : (0 <= z < 2 ^ 32)%Z → wrap32 z = z.
Proof. apply Z.mod_small. Qed.

(** The number of entries of a map with a given property. *)
Definition mcount {A} (P : A → Prop) `{∀ a, Decision (P a)} `{Countable K} (m : gmap K A) : nat :=
  size (filter (λ kv : K * A, P kv.2) m).
Definition one_if (P : Prop) `{Decision P} : nat := if decide P then 1 else 0.

Section mcount.
Context {A : Type} (P : A → Prop) `{∀ a, Decision (P a)} `{Countable K}.
Implicit Types m : gmap K A.

Lemma mcount_insert m k a : m !! k = None → mcount P (<[k := a]> m) = one_if (P a) + mcount P m.
Proof.
  intros Hk. unfold mcount, one_if. case_decide as Hp.
  - rewrite map_filter_insert_True by done. rewrite map_size_insert_None; [done|].
    apply map_lookup_filter_None. by left.
  - rewrite map_filter_insert_False by done. by rewrite delete_id.
Qed.

Lemma mcount_delete m k a : m !! k = Some a → mcount P m = one_if (P a) + mcount P (delete k m).
Proof.
  intros Hk. rewrite <- (mcount_insert (delete k m) k a) by apply lookup_delete_eq.
  by rewrite insert_delete_id.
Qed.

Lemma mcount_update m k a a' :
  m !! k = Some a → mcount P (<[k := a']> m) + one_if (P a) = mcount P m + one_if (P a').
Proof.
  intros Hk. rewrite (mcount_delete m k a Hk), <- (insert_delete_eq m k a').
  rewrite mcount_insert by apply lookup_delete_eq. lia.
Qed.

Lemma mcount_zero m k a : mcount P m = 0 → m !! k = Some a → ¬ P a.
Proof.
  intros Hz Hk Hp. rewrite (mcount_delete m k a Hk) in Hz. unfold one_if in Hz.
  rewrite decide_True in Hz by done. lia.
Qed.

Lemma mcount_pos m k a : m !! k = Some a → P a → 0 < mcount P m.
Proof. intros Hk Hp. rewrite (mcount_delete m k a Hk). unfold one_if. rewrite decide_True by done. lia. Qed.

Lemma mcount_none m : (∀ k a, m !! k = Some a → ¬ P a) → mcount P m = 0.
Proof.
  intros Hn. apply map_size_empty_iff, map_empty. intros k. apply map_lookup_filter_None. right.
  intros a Ha. by eapply Hn.
Qed.

Lemma mcount_pos_inv m : 0 < mcount P m → ∃ k a, m !! k = Some a ∧ P a.
Proof.
  induction m as [|k a m Hk IH] using map_ind; intros Hpos; [by vm_compute in Hpos; lia|].
  rewrite mcount_insert in Hpos by done. unfold one_if in Hpos. case_decide as Ha.
  - exists k, a. by rewrite lookup_insert_eq.
  - destruct IH as (k' & a' & Hk' & Ha'); [lia|]. exists k', a'. split; [|done].
    rewrite lookup_insert_ne; [done|congruence].
Qed.

Lemma mcount_le m : mcount P m ≤ size m.
Proof. apply map_size_filter. Qed.
End mcount.

Create HintDb falcon.
#[export] Hint Resolve NoDup_set_elems new_addr_fresh : falcon.
#[export] Hint Rewrite elem_of_set_elems : falcon.

(** The sum of a measure over the entries of a map. *)
Definition msum {A} `{Countable K} (f : A → nat) (m : gmap K A) : nat :=
  map_fold (λ _ a n, f a + n) 0 m.

Section msum.
Context {A : Type} (f : A → nat) `{Countable K}.
Implicit Types m : gmap K A.

Lemma msum_insert m k a : m !! k = None → msum f (<[k := a]> m) = f a + msum f m.
Proof. intros Hk. unfold msum. rewrite map_fold_insert_L; [done| |done]. intros. lia. Qed.

Lemma msum_delete m k a : m !! k = Some a → msum f m = f a + msum f (delete k m).
Proof.
  intros Hk. rewrite <- (msum_insert (delete k m) k a) by apply lookup_delete_eq.
  by rewrite insert_delete_id.
Qed.

Lemma msum_update m k a a' : m !! k = Some a → msum f (<[k := a']> m) + f a = msum f m + f a'.
Proof.
  intros Hk. rewrite (msum_delete m k a Hk), <- (insert_delete_eq m k a').
  rewrite msum_insert by apply lookup_delete_eq. lia.
Qed.

Lemma msum_le m k a : m !! k = Some a → f a ≤ msum f m.
Proof. intros Hk. rewrite (msum_delete m k a Hk). lia. Qed.

Lemma msum_pos m : 0 < msum f m → ∃ k a, m !! k = Some a ∧ 0 < f a.
Proof.
  induction m as [|k a m Hk IH] using map_ind; intros Hpos; [by vm_compute in Hpos; lia|].
  rewrite msum_insert in Hpos by done. destruct (decide (0 < f a)) as [Ha|Ha].
  - exists k, a. by rewrite lookup_insert_eq.
  - destruct IH as (k' & a' & Hk' & Ha'); [lia|]. exists k', a'. split; [|done].
    rewrite lookup_insert_ne; [done|congruence].
Qed.
End msum.
