(* ===== verification/Exceptions.v ===== *)
(** * Exceptions (exceptions.h)

    The class Exception with the trace of places it was forwarded through.  The rest of
    the development keeps of an exception its code and message ([exn]); the theorem
    says why this is enough: forwarding changes neither in a release build, and in a debug
    build the code is kept and every place is added to the text. *)

From stdpp Require Import pretty.
From S2P Require Import Prelude.

(** Where a macro is expanded: __func__, __FILE__ and __LINE__. *)
Record place := mkPlace { func : string; file : string; line : N }.

Module Exception.
Record t := mk {
  _have_upper : bool;
  _upper : string;
  _function : string;
  _file : string;
  _line : N;
  _code : Z;
  _message : string;
}.

Section exception.
(** [strerror], and whether DEBUG is defined. *)
Variables (strerror : Z → string) (debug : bool).

(** The four constructors. *)
Definition of_code (p : place) (code : Z) : t := mk false "" (func p) (file p) (line p) code (strerror code).
Definition of_message (p : place) (code : Z) (message : string) : t := mk false "" (func p) (file p) (line p) code message.
Definition upper_code (upper : string) (p : place) (code : Z) : t := mk true upper (func p) (file p) (line p) code "".
Definition upper_message (upper : string) (p : place) (code : Z) (message : string) : t := mk true upper (func p) (file p) (line p) code message.

Definition getCode (e : t) : Z := _code e.
Definition getMessage (e : t) : string := _message e.
Definition newline : string := String (Ascii.ascii_of_nat 10) "".
Definition getErrorMessage (e : t) : string :=
  ((if _have_upper e then _upper e +:+ newline +:+ "[FORWARD] " else "") +:+
   (if debug then "[" +:+ _function e +:+ "]" +:+ "[" +:+ _file e +:+ ":" +:+ pretty (_line e) +:+ "]" +:+ "[" +:+ strerror (_code e) +:+ "] " +:+ _message e
    else "[" +:+ strerror (_code e) +:+ "] " +:+ _message e))%string.

(** The macros. *)
Definition THROW_ERROR_CODE (p : place) (code : Z) : t := of_code p code.
Definition THROW_ERROR (p : place) (code : Z) (message : string) : t := of_message p code message.
Definition THROW_FORWARD_ERROR (p : place) (e : t) : t :=
  if debug then upper_code (getErrorMessage e) p (getCode e) else THROW_ERROR p (getCode e) (getMessage e).

(** ** Forwarding *)

(** An exception that is caught and forwarded at each of the places, the first one first. *)
Definition forwarded (e : t) (ps : list place) : t := foldl (λ e p, THROW_FORWARD_ERROR p e) e ps.
(** The line that a debug build adds for a place. *)
Definition trace_line (code : Z) (p : place) : string :=
  (newline +:+ "[FORWARD] " +:+ "[" +:+ func p +:+ "]" +:+ "[" +:+ file p +:+ ":" +:+ pretty (line p) +:+ "]" +:+ "[" +:+ strerror code +:+ "] ")%string.
Definition trace (code : Z) (ps : list place) : string := foldr (λ p s, (trace_line code p +:+ s)%string) "" ps.

Lemma app_assoc_string (a b c : string) : ((a +:+ b) +:+ c = a +:+ (b +:+ c))%string.
Proof. induction a as [|x a IH]; [done|]. exact (f_equal (String x) IH). Qed.
Lemma app_nil_string (a : string) : (a +:+ "" = a)%string.
Proof. induction a as [|x a IH]; [done|]. exact (f_equal (String x) IH). Qed.

(** Forwarding keeps the code.  In a release build it keeps the message and the text,
    too; in a debug build the text gets a line for each place. *)
Theorem forwarded_exact e ps :
  getCode (forwarded e ps) = getCode e ∧
  (debug = false → _have_upper e = false → getMessage (forwarded e ps) = getMessage e ∧ getErrorMessage (forwarded e ps) = getErrorMessage e) ∧
  (debug = true → getErrorMessage (forwarded e ps) = (getErrorMessage e +:+ trace (getCode e) ps)%string).
Proof.
  revert e. induction ps as [|p ps IH]; intros e; cbn [forwarded foldl trace foldr]; [by rewrite app_nil_string|].
  destruct (IH (THROW_FORWARD_ERROR p e)) as (H1 & H2 & H3). fold (forwarded (THROW_FORWARD_ERROR p e) ps).
  assert (Hc : getCode (THROW_FORWARD_ERROR p e) = getCode e) by (unfold THROW_FORWARD_ERROR; by destruct debug).
  split; [congruence|]. split.
  - intros Hd Hu. unfold THROW_FORWARD_ERROR in *. rewrite Hd in *. destruct (H2 eq_refl eq_refl) as [-> ->]. split; [done|].
    unfold getErrorMessage. rewrite Hd, Hu. done.
  - intros Hd. rewrite H3, Hc by done. unfold THROW_FORWARD_ERROR, getErrorMessage, trace_line. rewrite Hd. cbn.
    by rewrite !app_assoc_string.
Qed.
End exception.
End Exception.

(** The example in the comment of the class: the message of the forwarded exception is not
    repeated, and the line begins with FORWARD, which the comment does not show. *)
Example commented_example :
  Exception.getErrorMessage (λ _, "Invalid argument") true
    (Exception.THROW_FORWARD_ERROR (λ _, "Invalid argument") true (mkPlace "func2" "main.cc" 10)
      (Exception.THROW_ERROR (mkPlace "func1" "main.cc" 3) 22 "bad args..."))
  = ("[func1][main.cc:3][Invalid argument] bad args..." +:+ Exception.newline +:+ "[FORWARD] [func2][main.cc:10][Invalid argument] ")%string.
Proof. vm_compute. reflexivity. Qed.
