(* ===== verification/GraphModel.v ===== *)
(** * The graph of nodes and rules (graph.h, graph.cpp)

    [Node.t], [Rule.t] and [Graph.t] are the classes of graph.h, with their
    members under the names of the source.  Nodes and rules live on a heap
    ([GState]) and point to each other by address; the methods of a single
    object are functions on records, the ones that follow pointers are
    computations on the heap.  [structure_ok], [counters_ok] and [acyclic] are
    the invariants the rest of the development is about. *)

From S2P Require Import Prelude.

Inductive State := UP_TO_DATE | OUT_OF_DATE.

#[export] Instance State_eq_dec : EqDecision State.
Proof. solve_decision. Defined.

Definition EINVAL : Z := 22.

Module Node.
Record t := mk {
  path_ : string;
  hash_ : string;
  hashDepfile_ : string;
  childRule_ : option N;
  parentRules_ : list N;
  isExplicitDependency_ : bool;
  isLazyFetched_ : bool;
  state_ : State;
  timestamp_ : Z;
}.

(** The constructor initialises neither [isLazyFetched_] nor the hash of the
    depfile (a [std::string], hence empty). *)
Definition new `{Allocator} (path : string) (isExplicitDependency : bool) : t :=
  mk path "" "" None [] isExplicitDependency indeterminate_bool UP_TO_DATE 0.

Definition isSource (n : t) : bool := bool_decide (childRule_ n = None).
Definition isDirty (n : t) : bool := bool_decide (state_ n = OUT_OF_DATE).
Definition hasParent (rule : N) (n : t) : bool :=
  bool_decide (rule ∈ parentRules_ n).
Definition equal (n m : t) : bool := bool_decide (path_ n = path_ m).

(** [setState] also resets [isLazyFetched_]. *)
Definition setState (st : State) (n : t) : t :=
  mk (path_ n) (hash_ n) (hashDepfile_ n) (childRule_ n) (parentRules_ n)
     (isExplicitDependency_ n) false st (timestamp_ n).
Definition setTimestamp (ts : Z) (n : t) : t :=
  mk (path_ n) (hash_ n) (hashDepfile_ n) (childRule_ n) (parentRules_ n)
     (isExplicitDependency_ n) (isLazyFetched_ n) (state_ n) ts.
Definition setHash (h : string) (n : t) : t :=
  mk (path_ n) h (hashDepfile_ n) (childRule_ n) (parentRules_ n)
     (isExplicitDependency_ n) (isLazyFetched_ n) (state_ n) (timestamp_ n).
Definition setHashDepfile (h : string) (n : t) : t :=
  mk (path_ n) (hash_ n) h (childRule_ n) (parentRules_ n)
     (isExplicitDependency_ n) (isLazyFetched_ n) (state_ n) (timestamp_ n).
Definition setLazyFetched (b : bool) (n : t) : t :=
  mk (path_ n) (hash_ n) (hashDepfile_ n) (childRule_ n) (parentRules_ n)
     (isExplicitDependency_ n) b (state_ n) (timestamp_ n).
(** Plain assignments to the members [childRule_] and [parentRules_]. *)
Definition assignChild (r : option N) (n : t) : t :=
  mk (path_ n) (hash_ n) (hashDepfile_ n) r (parentRules_ n)
     (isExplicitDependency_ n) (isLazyFetched_ n) (state_ n) (timestamp_ n).
Definition assignParents (l : list N) (n : t) : t :=
  mk (path_ n) (hash_ n) (hashDepfile_ n) (childRule_ n) l
     (isExplicitDependency_ n) (isLazyFetched_ n) (state_ n) (timestamp_ n).
Definition addParentRule (rule : N) (n : t) : t :=
  assignParents (parentRules_ n ++ [rule]) n.
End Node.

Module Rule.
Record t := mk {
  inputs_ : list N;
  outputs_ : list N;
  numImplicitDeps_ : nat;
  command_ : string;
  depfile_ : string;
  state_ : State;
  hash_ : string;
  hashDepfile_ : string;
  timestamp_ : Z;
  numInputsReady_ : nat;
}.

Definition new (inputs outputs : list N) : t :=
  mk inputs outputs 0 "" "" UP_TO_DATE "" "" 0 0.

Definition isInput (node : N) (r : t) : bool := bool_decide (node ∈ inputs_ r).
Definition isPhony (r : t) : bool := bool_decide (command_ r = "").
Definition hasDepfile (r : t) : bool := negb (bool_decide (depfile_ r = "")).
Definition isDirty (r : t) : bool := bool_decide (state_ r = OUT_OF_DATE).
Definition ready (r : t) : bool :=
  bool_decide (numInputsReady_ r = length (inputs_ r)).

Definition setState (st : State) (r : t) : t :=
  mk (inputs_ r) (outputs_ r) (numImplicitDeps_ r) (command_ r) (depfile_ r)
     st (hash_ r) (hashDepfile_ r) (timestamp_ r) (numInputsReady_ r).
Definition setCommand (c : string) (r : t) : t :=
  mk (inputs_ r) (outputs_ r) (numImplicitDeps_ r) c (depfile_ r)
     (state_ r) (hash_ r) (hashDepfile_ r) (timestamp_ r) (numInputsReady_ r).
Definition setDepfile (d : string) (r : t) : t :=
  mk (inputs_ r) (outputs_ r) (numImplicitDeps_ r) (command_ r) d
     (state_ r) (hash_ r) (hashDepfile_ r) (timestamp_ r) (numInputsReady_ r).
Definition setHash (h : string) (r : t) : t :=
  mk (inputs_ r) (outputs_ r) (numImplicitDeps_ r) (command_ r) (depfile_ r)
     (state_ r) h (hashDepfile_ r) (timestamp_ r) (numInputsReady_ r).
Definition setHashDepfile (h : string) (r : t) : t :=
  mk (inputs_ r) (outputs_ r) (numImplicitDeps_ r) (command_ r) (depfile_ r)
     (state_ r) (hash_ r) h (timestamp_ r) (numInputsReady_ r).
Definition setTimestamp (ts : Z) (r : t) : t :=
  mk (inputs_ r) (outputs_ r) (numImplicitDeps_ r) (command_ r) (depfile_ r)
     (state_ r) (hash_ r) (hashDepfile_ r) ts (numInputsReady_ r).
(** Assignments to [inputs_], [numImplicitDeps_] and [numInputsReady_]. *)
Definition assignInputs (l : list N) (implicits : nat) (r : t) : t :=
  mk l (outputs_ r) implicits (command_ r) (depfile_ r)
     (state_ r) (hash_ r) (hashDepfile_ r) (timestamp_ r) (numInputsReady_ r).
Definition assignOutputs (l : list N) (r : t) : t :=
  mk (inputs_ r) l (numImplicitDeps_ r) (command_ r) (depfile_ r)
     (state_ r) (hash_ r) (hashDepfile_ r) (timestamp_ r) (numInputsReady_ r).
Definition assignReady (k : nat) (r : t) : t :=
  mk (inputs_ r) (outputs_ r) (numImplicitDeps_ r) (command_ r) (depfile_ r)
     (state_ r) (hash_ r) (hashDepfile_ r) (timestamp_ r) k.

Definition addImplicitInput (node : N) (r : t) : t :=
  assignInputs (inputs_ r ++ [node]) (S (numImplicitDeps_ r)) r.
End Rule.

Module Graph.
Record t := mk {
  roots_ : gset N;
  sources_ : gset N;
  nodes_ : gmap string N;
  rules_ : list N;
}.
Definition new : t := mk ∅ ∅ ∅ [].

Definition setRoots (X : gset N) (g : t) : t :=
  mk X (sources_ g) (nodes_ g) (rules_ g).
Definition setSources (X : gset N) (g : t) : t :=
  mk (roots_ g) X (nodes_ g) (rules_ g).
Definition setNodes (m : gmap string N) (g : t) : t :=
  mk (roots_ g) (sources_ g) m (rules_ g).
Definition setRules (l : list N) (g : t) : t :=
  mk (roots_ g) (sources_ g) (nodes_ g) l.
End Graph.

(** The heap of nodes and rules, and the graph being worked on. *)
Record GState := mkG {
  g_nodes : gmap N Node.t;
  g_rules : gmap N Rule.t;
  g_graph : Graph.t;
}.

Definition set_nodes (m : gmap N Node.t) (s : GState) : GState :=
  mkG m (g_rules s) (g_graph s).
Definition set_rules (m : gmap N Rule.t) (s : GState) : GState :=
  mkG (g_nodes s) m (g_graph s).
Definition set_graph (g : Graph.t) (s : GState) : GState :=
  mkG (g_nodes s) (g_rules s) g.

(** [*p], [p->f = ...] for a node and a rule. *)
Definition readNode (p : N) : M GState Node.t := λ s, deref (g_nodes s !! p) s.
Definition readRule (p : N) : M GState Rule.t := λ s, deref (g_rules s !! p) s.
Definition updNode (p : N) (f : Node.t → Node.t) : M GState unit := λ s,
  match g_nodes s !! p with
  | Some n => Ret tt (set_nodes (<[p := f n]> (g_nodes s)) s)
  | None => Abort BadAccess
  end.
Definition updRule (p : N) (f : Rule.t → Rule.t) : M GState unit := λ s,
  match g_rules s !! p with
  | Some r => Ret tt (set_rules (<[p := f r]> (g_rules s)) s)
  | None => Abort BadAccess
  end.
Definition updGraph (f : Graph.t → Graph.t) : M GState unit :=
  modify (λ s, set_graph (f (g_graph s)) s).

(** [new Node(...)], [new Rule(...)], [delete]. *)
Definition newNode `{Allocator} (n : Node.t) : M GState N := λ s,
  let p := new_addr (dom (g_nodes s) ∪ dom (g_rules s)) in
  Ret p (set_nodes (<[p := n]> (g_nodes s)) s).
Definition newRule `{Allocator} (r : Rule.t) : M GState N := λ s,
  let p := new_addr (dom (g_nodes s) ∪ dom (g_rules s)) in
  Ret p (set_rules (<[p := r]> (g_rules s)) s).
Definition deleteNode (p : N) : M GState unit := λ s,
  match g_nodes s !! p with
  | Some _ => Ret tt (set_nodes (delete p (g_nodes s)) s)
  | None => Abort BadAccess
  end.
Definition deleteRule (p : N) : M GState unit := λ s,
  match g_rules s !! p with
  | Some _ => Ret tt (set_rules (delete p (g_rules s)) s)
  | None => Abort BadAccess
  end.

(** ** Node *)

Definition Node_setChild (p rule : N) : M GState unit :=
  n ← readNode p;
  match Node.childRule_ n with
  | Some _ => mthrow (Exception EINVAL
      ("Invalid Graph -> Node '" +:+ Node.path_ n +:+ "' already has a child"))
  | None => updNode p (Node.assignChild (Some rule))
  end.

Definition Node_removeParentRule (p rule : N) : M GState unit :=
  n ← readNode p;
  match erase_first rule (Node.parentRules_ n) with
  | None => mabort AssertFailed
  | Some l => updNode p (Node.assignParents l)
  end.

(** ** Rule *)

Definition Rule_addInput (p node : N) : M GState unit :=
  r ← readRule p;
  massert (bool_decide (Rule.numImplicitDeps_ r = 0));;
  updRule p (λ r, Rule.assignInputs (Rule.inputs_ r ++ [node]) (Rule.numImplicitDeps_ r) r).

Definition Rule_markInputReady (p : N) : M GState unit :=
  r ← readRule p;
  updRule p (Rule.assignReady (S (Rule.numInputsReady_ r)));;
  massert (bool_decide (S (Rule.numInputsReady_ r) ≤ length (Rule.inputs_ r))).

Definition Rule_markInputDirty (p : N) : M GState unit :=
  r ← readRule p;
  massert (bool_decide (0 < Rule.numInputsReady_ r));;
  updRule p (Rule.assignReady (pred (Rule.numInputsReady_ r))).

(** [Node::markDirty] and [Rule::markDirty] call each other: the second one is
    written over the function that marks a node, and the first one ties the
    knot. *)
Definition Rule_markDirty_with (nodeMarkDirty : N → M GState unit) (p : N) : M GState unit :=
  r ← readRule p;
  foreach (Rule.outputs_ r) nodeMarkDirty;;
  updRule p (Rule.setState OUT_OF_DATE).

Fixpoint Node_markDirty (fuel : nat) (p : N) : M GState unit :=
  match fuel with
  | O => mabort OutOfFuel
  | S fuel =>
    n ← readNode p;
    foreach (Node.parentRules_ n) (λ rule,
      Rule_markDirty_with (Node_markDirty fuel) rule;;
      n' ← readNode p;
      if negb (Node.isSource n') && negb (Node.isDirty n')
      then Rule_markInputDirty rule else mret tt);;
    updNode p (Node.setState OUT_OF_DATE)
  end.

Definition Rule_markDirty (fuel : nat) : N → M GState unit :=
  Rule_markDirty_with (Node_markDirty fuel).

(** ** Graph *)

(** The node enters [roots_] and [sources_] before the duplicate is found. *)
Definition Graph_addNode (p : N) : M GState unit :=
  n ← readNode p;
  (if bool_decide (Node.parentRules_ n = [])
   then updGraph (λ g, Graph.setRoots ({[p]} ∪ Graph.roots_ g) g) else mret tt);;
  (if Node.isSource n
   then updGraph (λ g, Graph.setSources ({[p]} ∪ Graph.sources_ g) g) else mret tt);;
  g ← gets g_graph;
  match Graph.nodes_ g !! Node.path_ n with
  | Some _ => mthrow (Exception EINVAL
      ("Invalid Graph -> Node '" +:+ Node.path_ n +:+ "' is already present"))
  | None => updGraph (λ g, Graph.setNodes (<[Node.path_ n := p]> (Graph.nodes_ g)) g)
  end.

(** [~Graph]: the rules from the last one, then the nodes of the map. *)
Definition Graph_destroy : M GState unit :=
  g ← gets g_graph;
  foreach (reverse (Graph.rules_ g)) deleteRule;;
  updGraph (Graph.setRules []);;
  foreach (map_to_list (Graph.nodes_ g)) (λ kv, deleteNode kv.2).

(** ** Rules of the program logic for the heap *)

Section heap_wp.
Implicit Types s : GState.

Lemma wp_readNode p n Q E s :
  g_nodes s !! p = Some n → Q n s → wp (readNode p) Q E s.
Proof. unfold wp, readNode. by intros ->. Qed.
Lemma wp_readRule p r Q E s :
  g_rules s !! p = Some r → Q r s → wp (readRule p) Q E s.
Proof. unfold wp, readRule. by intros ->. Qed.
Lemma wp_updNode p f n Q E s :
  g_nodes s !! p = Some n → Q tt (set_nodes (<[p := f n]> (g_nodes s)) s) →
  wp (updNode p f) Q E s.
Proof. unfold wp, updNode. by intros ->. Qed.
Lemma wp_updRule p f r Q E s :
  g_rules s !! p = Some r → Q tt (set_rules (<[p := f r]> (g_rules s)) s) →
  wp (updRule p f) Q E s.
Proof. unfold wp, updRule. by intros ->. Qed.
Lemma wp_updGraph f Q E s :
  Q tt (set_graph (f (g_graph s)) s) → wp (updGraph f) Q E s.
Proof. done. Qed.

Lemma wp_markInputDirty p r Q E s :
  g_rules s !! p = Some r → 0 < Rule.numInputsReady_ r →
  Q tt (set_rules (<[p := Rule.assignReady (pred (Rule.numInputsReady_ r)) r]> (g_rules s)) s) →
  wp (Rule_markInputDirty p) Q E s.
Proof.
  intros Hr Hpos HQ. apply wp_bind. eapply wp_readRule; [done|].
  apply wp_bind, wp_massert; [by apply bool_decide_eq_true|].
  by eapply wp_updRule.
Qed.

Lemma wp_markInputReady p r Q E s :
  g_rules s !! p = Some r → Rule.numInputsReady_ r < length (Rule.inputs_ r) →
  Q tt (set_rules (<[p := Rule.assignReady (S (Rule.numInputsReady_ r)) r]> (g_rules s)) s) →
  wp (Rule_markInputReady p) Q E s.
Proof.
  intros Hr Hpos HQ. apply wp_bind. eapply wp_readRule; [done|].
  apply wp_bind. eapply wp_updRule; [done|].
  apply wp_massert; [apply bool_decide_eq_true; lia|done].
Qed.
End heap_wp.

Ltac heap_step :=
  lazymatch goal with
  | |- wp (readNode _) _ _ _ => eapply wp_readNode; [eassumption|]
  | |- wp (readRule _) _ _ _ => eapply wp_readRule; [eassumption|]
  | |- wp (updNode _ _) _ _ _ => eapply wp_updNode; [eassumption|]
  | |- wp (updRule _ _) _ _ _ => eapply wp_updRule; [eassumption|]
  | |- wp (updGraph _) _ _ _ => apply wp_updGraph
  | |- _ => wp_step
  end.
Ltac heap_go := repeat (heap_step; cbv beta).

(** ** Invariants *)

(** Pointers are valid and go both ways; no edge is stored twice. *)
Record structure_ok (s : GState) : Prop := {
  so_parent n nd r : g_nodes s !! n = Some nd → r ∈ Node.parentRules_ nd →
    ∃ rd, g_rules s !! r = Some rd ∧ n ∈ Rule.inputs_ rd;
  so_input r rd n : g_rules s !! r = Some rd → n ∈ Rule.inputs_ rd →
    ∃ nd, g_nodes s !! n = Some nd ∧ r ∈ Node.parentRules_ nd;
  so_child n nd r : g_nodes s !! n = Some nd → Node.childRule_ nd = Some r →
    ∃ rd, g_rules s !! r = Some rd ∧ n ∈ Rule.outputs_ rd;
  so_output r rd n : g_rules s !! r = Some rd → n ∈ Rule.outputs_ rd →
    ∃ nd, g_nodes s !! n = Some nd ∧ Node.childRule_ nd = Some r;
  so_parents_nodup n nd : g_nodes s !! n = Some nd → NoDup (Node.parentRules_ nd);
  so_inputs_nodup r rd : g_rules s !! r = Some rd → NoDup (Rule.inputs_ rd);
  so_outputs_nodup r rd : g_rules s !! r = Some rd → NoDup (Rule.outputs_ rd);
  so_implicit r rd : g_rules s !! r = Some rd →
    Rule.numImplicitDeps_ rd ≤ length (Rule.inputs_ rd);
}.

(** What graph.h says of the members of [Graph]. *)
Record graph_ok (s : GState) : Prop := {
  go_nodes p n : Graph.nodes_ (g_graph s) !! p = Some n ↔
    ∃ nd, g_nodes s !! n = Some nd ∧ Node.path_ nd = p;
  go_roots n : n ∈ Graph.roots_ (g_graph s) ↔
    ∃ nd, g_nodes s !! n = Some nd ∧ Node.parentRules_ nd = [];
  go_sources n : n ∈ Graph.sources_ (g_graph s) ↔
    ∃ nd, g_nodes s !! n = Some nd ∧ Node.childRule_ nd = None;
  go_rules r : r ∈ Graph.rules_ (g_graph s) ↔ is_Some (g_rules s !! r);
  go_rules_nodup : NoDup (Graph.rules_ (g_graph s));
}.

(** A ready input is a source file, or an output that is up to date. *)
Definition node_ready (s : GState) (n : N) : bool :=
  match g_nodes s !! n with
  | Some nd => Node.isSource nd || negb (Node.isDirty nd)
  | None => false
  end.

(** [numInputsReady_] is the number of inputs that are ready. *)
Definition counters_ok (s : GState) : Prop :=
  ∀ r rd, g_rules s !! r = Some rd →
    Rule.numInputsReady_ rd = countb (node_ready s) (Rule.inputs_ rd).

(** An output that is up to date: it counts as ready, and stops being so when
    it is marked dirty. *)
Definition clean_output (s : GState) (n : N) : bool :=
  match g_nodes s !! n with
  | Some nd => negb (Node.isSource nd) && negb (Node.isDirty nd)
  | None => false
  end.

(** [feeds s i o]: some rule reads [i] and writes [o]. *)
Definition feeds (s : GState) (i o : N) : Prop :=
  ∃ r rd, g_rules s !! r = Some rd ∧ i ∈ Rule.inputs_ rd ∧ o ∈ Rule.outputs_ rd.

Definition acyclic (s : GState) : Prop :=
  ∃ rank : N → nat, ∀ i o, feeds s i o → rank i < rank o.

(** ** States *)

Definition node_dirty (s : GState) (n : N) : bool :=
  match g_nodes s !! n with Some nd => Node.isDirty nd | None => false end.
Definition rule_dirty (s : GState) (r : N) : bool :=
  match g_rules s !! r with Some rd => Rule.isDirty rd | None => false end.
Definition node_lazy (s : GState) (n : N) : bool :=
  match g_nodes s !! n with Some nd => Node.isLazyFetched_ nd | None => false end.

(** The three rules on states that GraphConsistencyChecker checks. *)
Definition dirty_inputs_ok (s : GState) : Prop := ∀ r rd i,
  g_rules s !! r = Some rd → i ∈ Rule.inputs_ rd → node_dirty s i = true →
  rule_dirty s r = true.
Definition dirty_outputs_ok (s : GState) : Prop := ∀ r rd o,
  g_rules s !! r = Some rd → rule_dirty s r = true → o ∈ Rule.outputs_ rd →
  node_lazy s o = true ∨ node_dirty s o = true.
Definition dirty_child_ok (s : GState) : Prop := ∀ n nd r,
  g_nodes s !! n = Some nd → Node.childRule_ nd = Some r → node_dirty s n = true →
  rule_dirty s r = true.

Record consistent (s : GState) : Prop := {
  c_structure : structure_ok s;
  c_counters : counters_ok s;
  c_inputs : dirty_inputs_ok s;
  c_outputs : dirty_outputs_ok s;
  c_child : dirty_child_ok s;
}.

(** Two heaps with the same objects and the same edges. *)
Definition node_shape (nd : Node.t) :=
  (Node.path_ nd, Node.childRule_ nd, Node.parentRules_ nd).
Definition rule_shape (rd : Rule.t) :=
  (Rule.inputs_ rd, Rule.outputs_ rd, Rule.numImplicitDeps_ rd,
   Rule.command_ rd, Rule.depfile_ rd).

Record same_shape (s s' : GState) : Prop := {
  ss_nodes n : node_shape <$> g_nodes s !! n = node_shape <$> g_nodes s' !! n;
  ss_rules r : rule_shape <$> g_rules s !! r = rule_shape <$> g_rules s' !! r;
  ss_graph : g_graph s = g_graph s';
}.

#[export] Instance same_shape_equiv : Equivalence same_shape.
Proof.
  split.
  - by split.
  - intros s s' []. by split.
  - intros s1 s2 s3 [] []. split; congruence.
Qed.

Lemma same_shape_node s s' n nd :
  same_shape s s' → g_nodes s !! n = Some nd →
  ∃ nd', g_nodes s' !! n = Some nd' ∧ node_shape nd' = node_shape nd.
Proof.
  intros [Hn _ _] H. specialize (Hn n). rewrite H in Hn. simpl in Hn.
  symmetry in Hn. apply fmap_Some in Hn as (nd' & -> & ->). eauto.
Qed.

Lemma same_shape_rule s s' r rd :
  same_shape s s' → g_rules s !! r = Some rd →
  ∃ rd', g_rules s' !! r = Some rd' ∧ rule_shape rd' = rule_shape rd.
Proof.
  intros [_ Hr _] H. specialize (Hr r). rewrite H in Hr. simpl in Hr.
  symmetry in Hr. apply fmap_Some in Hr as (rd' & -> & ->). eauto.
Qed.

(** [shape_node Hs H] and [shape_rule Hs H] move a lookup [H] from one heap to
    the other and split the equality of shapes. *)
Ltac shape_node Hs H :=
  let H1 := fresh "Hl" in let H2 := fresh "Hsh" in
  destruct (same_shape_node _ _ _ _ Hs H) as (? & H1 & H2);
  unfold node_shape in H2; injection H2 as ???.
Ltac shape_rule Hs H :=
  let H1 := fresh "Hl" in let H2 := fresh "Hsh" in
  destruct (same_shape_rule _ _ _ _ Hs H) as (? & H1 & H2);
  unfold rule_shape in H2; injection H2 as ?????.

Lemma structure_ok_shape s s' : same_shape s s' → structure_ok s → structure_ok s'.
Proof.
  intros Hs' Hok. assert (Hs : same_shape s' s) by by symmetry.
  split.
  - intros n nd r Hn Hr. shape_node Hs Hn.
    destruct (so_parent s Hok n x r) as (rd & Hrd & Hin); [done|congruence|].
    shape_rule Hs' Hrd. eexists. split; [done|congruence].
  - intros r rd n Hr Hn. shape_rule Hs Hr.
    destruct (so_input s Hok r x n) as (nd & Hnd & Hin); [done|congruence|].
    shape_node Hs' Hnd. eexists. split; [done|congruence].
  - intros n nd r Hn Hr. shape_node Hs Hn.
    destruct (so_child s Hok n x r) as (rd & Hrd & Hin); [done|congruence|].
    shape_rule Hs' Hrd. eexists. split; [done|congruence].
  - intros r rd n Hr Hn. shape_rule Hs Hr.
    destruct (so_output s Hok r x n) as (nd & Hnd & Hin); [done|congruence|].
    shape_node Hs' Hnd. eexists. split; [done|congruence].
  - intros n nd Hn. shape_node Hs Hn. pose proof (so_parents_nodup s Hok n x). naive_solver congruence.
  - intros r rd Hr. shape_rule Hs Hr. pose proof (so_inputs_nodup s Hok r x). naive_solver congruence.
  - intros r rd Hr. shape_rule Hs Hr. pose proof (so_outputs_nodup s Hok r x). naive_solver congruence.
  - intros r rd Hr. shape_rule Hs Hr. pose proof (so_implicit s Hok r x). naive_solver congruence.
Qed.

#[export] Instance structure_ok_proper : Proper (same_shape ==> iff) structure_ok.
Proof. intros s s' Hs. split; by apply structure_ok_shape. Qed.

Lemma graph_ok_shape s s' : same_shape s s' → graph_ok s → graph_ok s'.
Proof.
  intros Hs' Hok. assert (Hs : same_shape s' s) by by symmetry.
  assert (∀ n (P : Node.t → Prop), (∀ nd nd', node_shape nd = node_shape nd' → P nd → P nd') →
    (∃ nd, g_nodes s !! n = Some nd ∧ P nd) ↔ (∃ nd, g_nodes s' !! n = Some nd ∧ P nd)) as Heq.
  { intros n P HP. split; intros (nd & Hn & H).
    - destruct (same_shape_node _ _ _ _ Hs' Hn) as (nd' & ? & ?).
      exists nd'. split; [done|]. by apply (HP nd).
    - destruct (same_shape_node _ _ _ _ Hs Hn) as (nd' & ? & ?).
      exists nd'. split; [done|]. by apply (HP nd). }
  assert (∀ r, is_Some (g_rules s !! r) ↔ is_Some (g_rules s' !! r)) as Hr.
  { intros r. rewrite <- (fmap_is_Some rule_shape), (ss_rules s s' Hs'). apply fmap_is_Some. }
  split; rewrite <- (ss_graph s s' Hs').
  - intros p n. rewrite (go_nodes s Hok). apply Heq. intros ?? [=]; congruence.
  - intros n. rewrite (go_roots s Hok). apply Heq. intros ?? [=]; congruence.
  - intros n. rewrite (go_sources s Hok). apply Heq. intros ?? [=]; congruence.
  - intros r. rewrite (go_rules s Hok). apply Hr.
  - apply (go_rules_nodup s Hok).
Qed.

#[export] Instance graph_ok_proper : Proper (same_shape ==> iff) graph_ok.
Proof. intros s s' Hs. split; by apply graph_ok_shape. Qed.

Lemma feeds_shape s s' i o : same_shape s s' → feeds s i o → feeds s' i o.
Proof.
  intros Hs (r & rd & Hr & Hi & Ho). shape_rule Hs Hr.
  exists r, x. split; [done|]. split; congruence.
Qed.

#[export] Instance feeds_proper : Proper (same_shape ==> eq ==> eq ==> iff) feeds.
Proof. intros s s' Hs i ? <- o ? <-. split; by apply feeds_shape. Qed.

#[export] Instance acyclic_proper : Proper (same_shape ==> iff) acyclic.
Proof.
  intros s s' Hs. unfold acyclic.
  split; intros [rank H]; exists rank; intros i o; [rewrite <- Hs|rewrite Hs]; apply H.
Qed.

#[export] Hint Resolve same_shape_equiv : falcon.

(** In an acyclic graph there is a rank below the number of nodes: count the
    nodes of smaller rank. *)
Lemma acyclic_bounded s :
  structure_ok s → acyclic s →
  ∃ rank : N → nat, (∀ i o, feeds s i o → rank i < rank o) ∧
    (∀ n, is_Some (g_nodes s !! n) → rank n < size (g_nodes s)).
Proof.
  intros Hok [rank Hrank].
  set (below n := countb (λ m, bool_decide (rank m < rank n)) (elements (dom (g_nodes s)))).
  assert (Hlt : ∀ i o, is_Some (g_nodes s !! i) → rank i < rank o → below i < below o).
  { intros i o Hi Hio. unfold below.
    apply Nat.lt_le_trans with (countb (λ m, bool_decide (rank m < rank i) || (bool_decide (m = i) && true)) (elements (dom (g_nodes s)))).
    - rewrite (countb_split (λ m, bool_decide (rank m < rank i) || (bool_decide (m = i) && true))
        (λ m, bool_decide (rank m < rank i)) (λ m, bool_decide (m = i) && true)); [|done|].
      + rewrite countb_one by apply NoDup_elements.
        rewrite bool_decide_eq_true_2 by (apply elem_of_elements, elem_of_dom; done). simpl. lia.
      + intros x _. destruct (decide (x = i)) as [->|]; repeat case_bool_decide; simpl; try done; lia.
    - apply countb_mono. intros x _. repeat case_bool_decide; simpl; try done; subst; try lia. }
  exists below. split.
  - intros i o (r & rd & Hr & Hi & Ho).
    destruct (so_input s Hok r rd i Hr Hi) as (nd & Hn & _).
    apply Hlt; [by eexists|]. apply Hrank. by exists r, rd.
  - intros n Hn. unfold below. rewrite <- size_dom.
    apply Nat.lt_le_trans with (length (elements (dom (g_nodes s)))); [|done].
    pose proof (countb_le_length (λ m, bool_decide (rank m < rank n)) (elements (dom (g_nodes s)))) as Hle.
    destruct (decide (countb (λ m, bool_decide (rank m < rank n)) (elements (dom (g_nodes s)))
                      = length (elements (dom (g_nodes s))))) as [Heq|]; [|lia].
    rewrite countb_all in Heq. specialize (Heq n).
    rewrite bool_decide_eq_true in Heq. exfalso.
    assert (rank n < rank n); [|lia]. apply Heq, elem_of_elements, elem_of_dom. done.
Qed.
