(* ===== verification/GraphChecks.v ===== *)
(** * Executable tests for the graph invariants

    Decision procedures for [structure_ok], [counters_ok], [acyclic] and the
    rules on states, with their soundness: an invariant of a concrete heap is
    proved by running the test.  [two_outputs] is the heap used to evaluate the
    models on: a source, a rule with two outputs, and a rule that reads both. *)

From S2P Require Import Prelude GraphModel.

Definition all_nodes (s : GState) (p : N → Node.t → bool) : bool :=
  forallb (λ kv, p kv.1 kv.2) (map_to_list (g_nodes s)).
Definition all_rules (s : GState) (p : N → Rule.t → bool) : bool :=
  forallb (λ kv, p kv.1 kv.2) (map_to_list (g_rules s)).

Lemma all_nodes_spec s p n nd :
  all_nodes s p = true → g_nodes s !! n = Some nd → p n nd = true.
Proof.
  unfold all_nodes. rewrite forallb_forall. intros H Hn.
  apply (H (n, nd)), list_elem_of_In, elem_of_map_to_list, Hn.
Qed.
Lemma all_rules_spec s p r rd :
  all_rules s p = true → g_rules s !! r = Some rd → p r rd = true.
Proof.
  unfold all_rules. rewrite forallb_forall. intros H Hn.
  apply (H (r, rd)), list_elem_of_In, elem_of_map_to_list, Hn.
Qed.
Lemma forallb_elem {A} (p : A → bool) (l : list A) x :
  forallb p l = true → x ∈ l → p x = true.
Proof. rewrite forallb_forall. intros H Hx. by apply H, list_elem_of_In. Qed.

Definition on_node (s : GState) (n : N) (p : Node.t → bool) : bool :=
  match g_nodes s !! n with Some nd => p nd | None => false end.
Definition on_rule (s : GState) (r : N) (p : Rule.t → bool) : bool :=
  match g_rules s !! r with Some rd => p rd | None => false end.

Lemma on_node_spec s n p : on_node s n p = true → ∃ nd, g_nodes s !! n = Some nd ∧ p nd = true.
Proof. unfold on_node. destruct (g_nodes s !! n); naive_solver. Qed.
Lemma on_rule_spec s r p : on_rule s r p = true → ∃ rd, g_rules s !! r = Some rd ∧ p rd = true.
Proof. unfold on_rule. destruct (g_rules s !! r); naive_solver. Qed.

Definition check_structure (s : GState) : bool :=
  all_nodes s (λ n nd,
    bool_decide (NoDup (Node.parentRules_ nd)) &&
    forallb (λ r, on_rule s r (λ rd, bool_decide (n ∈ Rule.inputs_ rd))) (Node.parentRules_ nd) &&
    match Node.childRule_ nd with
    | Some r => on_rule s r (λ rd, bool_decide (n ∈ Rule.outputs_ rd))
    | None => true
    end) &&
  all_rules s (λ r rd,
    bool_decide (NoDup (Rule.inputs_ rd)) && bool_decide (NoDup (Rule.outputs_ rd)) &&
    (Rule.numImplicitDeps_ rd <=? length (Rule.inputs_ rd)) &&
    forallb (λ n, on_node s n (λ nd, bool_decide (r ∈ Node.parentRules_ nd))) (Rule.inputs_ rd) &&
    forallb (λ n, on_node s n (λ nd, bool_decide (Node.childRule_ nd = Some r))) (Rule.outputs_ rd)).

(** Opens every boolean conjunction and reads off the tests. *)
Ltac open_checks :=
  cbv beta in *;
  repeat match goal with
  | H : _ && _ = true |- _ => apply andb_true_iff in H as [? ?]
  | H : bool_decide _ = true |- _ => apply bool_decide_eq_true in H
  | H : (_ <=? _) = true |- _ => apply Nat.leb_le in H
  end.

Lemma check_structure_sound s : check_structure s = true → structure_ok s.
Proof.
  intros [HN HR]%andb_true_iff.
  split.
  - intros n nd r Hn Hin. pose proof (all_nodes_spec _ _ _ _ HN Hn). open_checks.
    destruct (on_rule_spec s r (λ rd, bool_decide (n ∈ Rule.inputs_ rd))) as (rd & ? & ?); [by apply (forallb_elem (λ r, on_rule s r _) (Node.parentRules_ nd))|].
    open_checks. eauto.
  - intros r rd n Hr Hin. pose proof (all_rules_spec _ _ _ _ HR Hr). open_checks.
    destruct (on_node_spec s n (λ nd, bool_decide (r ∈ Node.parentRules_ nd))) as (nd & ? & ?); [by apply (forallb_elem (λ n, on_node s n _) (Rule.inputs_ rd))|].
    open_checks. eauto.
  - intros n nd r Hn Hc. pose proof (all_nodes_spec _ _ _ _ HN Hn) as H. cbv beta in H. rewrite Hc in H. open_checks.
    destruct (on_rule_spec s r (λ rd, bool_decide (n ∈ Rule.outputs_ rd))) as (rd & ? & ?); [done|].
    open_checks. eauto.
  - intros r rd n Hr Hin. pose proof (all_rules_spec _ _ _ _ HR Hr). open_checks.
    destruct (on_node_spec s n (λ nd, bool_decide (Node.childRule_ nd = Some r))) as (nd & ? & ?); [by apply (forallb_elem (λ n, on_node s n _) (Rule.outputs_ rd))|].
    open_checks. eauto.
  - intros n nd Hn. pose proof (all_nodes_spec _ _ _ _ HN Hn). by open_checks.
  - intros r rd Hr. pose proof (all_rules_spec _ _ _ _ HR Hr). by open_checks.
  - intros r rd Hr. pose proof (all_rules_spec _ _ _ _ HR Hr). by open_checks.
  - intros r rd Hr. pose proof (all_rules_spec _ _ _ _ HR Hr). by open_checks.
Qed.

Definition check_counters (s : GState) : bool :=
  all_rules s (λ _ rd,
    bool_decide (Rule.numInputsReady_ rd = countb (node_ready s) (Rule.inputs_ rd))).

Lemma check_counters_sound s : check_counters s = true → counters_ok s.
Proof. intros H r rd Hr. pose proof (all_rules_spec _ _ _ _ H Hr). by open_checks. Qed.

(** [rank] is a certificate of acyclicity. *)
Definition check_rank (s : GState) (rank : N → nat) : bool :=
  all_rules s (λ _ rd,
    forallb (λ i, forallb (λ o, rank i <? rank o) (Rule.outputs_ rd)) (Rule.inputs_ rd)).

Lemma check_rank_sound s rank : check_rank s rank = true → acyclic s.
Proof.
  intros H. exists rank. intros i o (r & rd & Hr & Hi & Ho).
  pose proof (all_rules_spec _ _ _ _ H Hr) as Hc. simpl in Hc.
  pose proof (forallb_elem _ _ _ Hc Hi) as Hc'. simpl in Hc'.
  pose proof (forallb_elem _ _ _ Hc' Ho) as Hlt. by apply Nat.ltb_lt in Hlt.
Qed.

Definition check_states (s : GState) : bool :=
  all_rules s (λ r rd,
    forallb (λ i, implb (node_dirty s i) (Rule.isDirty rd)) (Rule.inputs_ rd) &&
    forallb (λ o, implb (Rule.isDirty rd) (node_lazy s o || node_dirty s o)) (Rule.outputs_ rd)) &&
  all_nodes s (λ n nd,
    match Node.childRule_ nd with
    | Some r => implb (Node.isDirty nd) (rule_dirty s r)
    | None => true
    end).

Lemma check_consistent s :
  check_structure s && check_counters s && check_states s = true → consistent s.
Proof.
  intros [[H1 H2]%andb_true_iff [H3 H4]%andb_true_iff]%andb_true_iff.
  split; [by apply check_structure_sound|by apply check_counters_sound| | |].
  - intros r rd i Hr Hi Hd. pose proof (all_rules_spec _ _ _ _ H3 Hr). open_checks.
    unfold rule_dirty. rewrite Hr.
    pose proof (forallb_elem _ _ _ H Hi) as Hi'. simpl in Hi'. by rewrite Hd in Hi'.
  - intros r rd o Hr Hd Ho. pose proof (all_rules_spec _ _ _ _ H3 Hr). open_checks.
    unfold rule_dirty in Hd. rewrite Hr in Hd.
    pose proof (forallb_elem _ _ _ H0 Ho) as Ho'. simpl in Ho'. rewrite Hd in Ho'.
    by apply orb_true_iff in Ho'.
  - intros n nd r Hn Hc Hd. pose proof (all_nodes_spec _ _ _ _ H4 Hn) as H. simpl in H.
    rewrite Hc in H. unfold node_dirty in Hd. rewrite Hn in Hd. by rewrite Hd in H.
Qed.

Definition check_graph (s : GState) : bool :=
  let g := g_graph s in
  forallb (λ kv, on_node s kv.2 (λ nd, bool_decide (Node.path_ nd = kv.1)))
    (map_to_list (Graph.nodes_ g)) &&
  forallb (λ n, on_node s n (λ nd, bool_decide (Node.parentRules_ nd = [])))
    (elements (Graph.roots_ g)) &&
  forallb (λ n, on_node s n (λ nd, bool_decide (Node.childRule_ nd = None)))
    (elements (Graph.sources_ g)) &&
  forallb (λ r, on_rule s r (λ _, true)) (Graph.rules_ g) &&
  bool_decide (NoDup (Graph.rules_ g)) &&
  all_nodes s (λ n nd,
    bool_decide (Graph.nodes_ g !! Node.path_ nd = Some n) &&
    bool_decide (Node.parentRules_ nd = [] → n ∈ Graph.roots_ g) &&
    bool_decide (Node.childRule_ nd = None → n ∈ Graph.sources_ g)) &&
  all_rules s (λ r _, bool_decide (r ∈ Graph.rules_ g)).

Lemma check_graph_sound s : check_graph s = true → graph_ok s.
Proof.
  unfold check_graph. intros H. open_checks.
  split.
  - intros p n. split.
    + intros Hp. rewrite forallb_forall in H.
      specialize (H (p, n) ltac:(by apply list_elem_of_In, elem_of_map_to_list)).
      apply on_node_spec in H as (nd & ? & ?). open_checks. by exists nd.
    + intros (nd & Hn & <-). pose proof (all_nodes_spec _ _ _ _ H1 Hn). by open_checks.
  - intros n. split.
    + intros Hn%elem_of_elements. rewrite forallb_forall in H5.
      specialize (H5 n ltac:(by apply list_elem_of_In)).
      apply on_node_spec in H5 as (nd & ? & ?). open_checks. by exists nd.
    + intros (nd & Hn & Hp). pose proof (all_nodes_spec _ _ _ _ H1 Hn). open_checks. auto.
  - intros n. split.
    + intros Hn%elem_of_elements. rewrite forallb_forall in H4.
      specialize (H4 n ltac:(by apply list_elem_of_In)).
      apply on_node_spec in H4 as (nd & ? & ?). open_checks. by exists nd.
    + intros (nd & Hn & Hp). pose proof (all_nodes_spec _ _ _ _ H1 Hn). open_checks. auto.
  - intros r. split.
    + intros Hr. rewrite forallb_forall in H3. specialize (H3 r ltac:(by apply list_elem_of_In)).
      apply on_rule_spec in H3 as (rd & ? & ?). by exists rd.
    + intros [rd Hr]. pose proof (all_rules_spec _ _ _ _ H0 Hr). by open_checks.
  - done.
Qed.

(** ** A heap to evaluate on *)

Definition mk_node (path : string) (child : option N) (parents : list N) (st : State) : Node.t :=
  Node.mk path "" "" child parents true false st 0.
Definition mk_rule (inputs outputs : list N) (cmd : string) (st : State) (ready : nat) : Rule.t :=
  Rule.mk inputs outputs 0 cmd "" st "" "" 0 ready.

(** source -> (o1, o2) -> all, everything up to date. *)
Definition two_outputs : GState :=
  mkG (list_to_map
        [(1%N, mk_node "source" None [10%N] UP_TO_DATE);
         (2%N, mk_node "o1" (Some 10%N) [11%N] UP_TO_DATE);
         (3%N, mk_node "o2" (Some 10%N) [11%N] UP_TO_DATE);
         (4%N, mk_node "all" (Some 11%N) [] UP_TO_DATE)])
      (list_to_map
        [(10%N, mk_rule [1%N] [2%N; 3%N] "gen" UP_TO_DATE 1);
         (11%N, mk_rule [2%N; 3%N] [4%N] "" UP_TO_DATE 2)])
      (Graph.mk {[4%N]} {[1%N]}
         (list_to_map [("source", 1%N); ("o1", 2%N); ("o2", 3%N); ("all", 4%N)]) [10%N; 11%N]).

Definition two_outputs_rank (n : N) : nat := N.to_nat n.

Lemma two_outputs_consistent : consistent two_outputs.
Proof. apply check_consistent. vm_compute. reflexivity. Defined.
Lemma two_outputs_acyclic : acyclic two_outputs.
Proof. apply (check_rank_sound _ two_outputs_rank). vm_compute. reflexivity. Defined.
Lemma two_outputs_graph_ok : graph_ok two_outputs.
Proof. apply check_graph_sound. vm_compute. reflexivity. Defined.

(** The same graph before its first build: nothing is up to date. *)
Definition two_outputs_dirty : GState :=
  mkG (list_to_map
        [(1%N, mk_node "source" None [10%N] OUT_OF_DATE);
         (2%N, mk_node "o1" (Some 10%N) [11%N] OUT_OF_DATE);
         (3%N, mk_node "o2" (Some 10%N) [11%N] OUT_OF_DATE);
         (4%N, mk_node "all" (Some 11%N) [] OUT_OF_DATE)])
      (list_to_map
        [(10%N, mk_rule [1%N] [2%N; 3%N] "gen" OUT_OF_DATE 1);
         (11%N, mk_rule [2%N; 3%N] [4%N] "" OUT_OF_DATE 0)])
      (g_graph two_outputs).

Lemma two_outputs_dirty_consistent : consistent two_outputs_dirty.
Proof. apply check_consistent. vm_compute. reflexivity. Defined.
Lemma two_outputs_dirty_acyclic : acyclic two_outputs_dirty.
Proof. apply (check_rank_sound _ two_outputs_rank). vm_compute. reflexivity. Defined.
