(* ===== verification/GraphDirty.v ===== *)
(** * Marking nodes dirty (Node::markDirty and Rule::markDirty of graph.cpp)

    [dirtied U V X s s'] is the effect of a piece of the recursion: the nodes of
    [U] and the rules of [V] became out of date, every counter of ready inputs
    lost the outputs of [U] that were up to date, and the rules of [X] lost one
    more (the input whose parents are being walked and which is only marked
    when the walk is over).  Effects compose; the effect of the whole call is
    the set of everything that depends on the node. *)

From S2P Require Import Prelude GraphModel GraphChecks.

(** What depends on a node: the nodes built from it, directly or not, and the
    rules that read one of those. *)
Definition affected (s : GState) (n m : N) : Prop := rtc (feeds s) n m.
Definition affected_rule (s : GState) (n r : N) : Prop :=
  ∃ m rd, affected s n m ∧ g_rules s !! r = Some rd ∧ m ∈ Rule.inputs_ rd.

Definition dirty_count (s : GState) (U : gset N) (rd : Rule.t) : nat :=
  countb (λ i, bool_decide (i ∈ U) && clean_output s i) (Rule.inputs_ rd).

Definition one_if (X : gset N) (r : N) : nat := if decide (r ∈ X) then 1 else 0.

Definition dirty_node (U : gset N) (n : N) (nd : Node.t) : Node.t :=
  if decide (n ∈ U) then Node.setState OUT_OF_DATE nd else nd.
Definition dirty_rule (s : GState) (U V X : gset N) (r : N) (rd : Rule.t) : Rule.t :=
  Rule.assignReady (Rule.numInputsReady_ rd - dirty_count s U rd - one_if X r)
    (if decide (r ∈ V) then Rule.setState OUT_OF_DATE rd else rd).

Record dirtied (U V X : gset N) (s s' : GState) : Prop := {
  d_graph : g_graph s' = g_graph s;
  d_nodes n : g_nodes s' !! n = dirty_node U n <$> g_nodes s !! n;
  d_rules r : g_rules s' !! r = dirty_rule s U V X r <$> g_rules s !! r;
  d_enough r rd : g_rules s !! r = Some rd →
    dirty_count s U rd + one_if X r ≤ Rule.numInputsReady_ rd;
}.

Lemma dirty_rule_inputs s U V X r rd :
  Rule.inputs_ (dirty_rule s U V X r rd) = Rule.inputs_ rd.
Proof. unfold dirty_rule. by case_decide. Qed.

Lemma dirty_rule_ready s U V X r rd :
  Rule.numInputsReady_ (dirty_rule s U V X r rd)
  = Rule.numInputsReady_ rd - dirty_count s U rd - one_if X r.
Proof. done. Qed.

Lemma dirty_count_empty s rd : dirty_count s ∅ rd = 0.
Proof.
  apply countb_0. intros x _. by rewrite bool_decide_eq_false_2 by set_solver.
Qed.

Lemma dirtied_refl s : dirtied ∅ ∅ ∅ s s.
Proof.
  split; [done| | |].
  - intros n. destruct (g_nodes s !! n); [|done]. simpl. unfold dirty_node.
    by rewrite decide_False by set_solver.
  - intros r. destruct (g_rules s !! r) as [rd|]; [|done]. simpl. unfold dirty_rule, one_if.
    rewrite dirty_count_empty, !decide_False by set_solver.
    destruct rd. unfold Rule.assignReady. simpl. by rewrite !Nat.sub_0_r.
  - intros r rd _. rewrite dirty_count_empty. unfold one_if.
    rewrite decide_False by set_solver. lia.
Qed.

Lemma dirtied_shape U V X s s' : dirtied U V X s s' → same_shape s s'.
Proof.
  intros [Hg Hn Hr _]. split; [| |done].
  - intros n. rewrite Hn. destruct (g_nodes s !! n); [|done]. simpl. f_equal.
    unfold dirty_node. by case_decide.
  - intros r. rewrite Hr. destruct (g_rules s !! r) as [rd|]; [|done]. simpl. f_equal.
    unfold dirty_rule. by case_decide.
Qed.

Lemma dirtied_clean U V X s s' n :
  dirtied U V X s s' →
  clean_output s' n = clean_output s n && negb (bool_decide (n ∈ U)).
Proof.
  intros [_ Hn _ _]. unfold clean_output. rewrite Hn.
  destruct (g_nodes s !! n) as [nd|]; [|done]. simpl. unfold dirty_node.
  case_decide; [rewrite bool_decide_eq_true_2 by done|rewrite bool_decide_eq_false_2 by done].
  - by rewrite !andb_false_r.
  - by rewrite andb_true_r.
Qed.

(** The counts of two successive effects add up. *)
Lemma dirty_count_union s s1 U1 U2 V1 X1 rd rd1 :
  dirtied U1 V1 X1 s s1 → Rule.inputs_ rd1 = Rule.inputs_ rd →
  dirty_count s (U1 ∪ U2) rd = dirty_count s U1 rd + dirty_count s1 U2 rd1.
Proof.
  intros Hd Hin. unfold dirty_count. rewrite Hin. apply countb_split.
  - intros i _. rewrite (dirtied_clean U1 V1 X1 s s1 i Hd).
    rewrite (bool_decide_ext (i ∈ U1 ∪ U2) (i ∈ U1 ∨ i ∈ U2)) by set_solver.
    rewrite bool_decide_or.
    destruct (bool_decide (i ∈ U1)), (bool_decide (i ∈ U2)), (clean_output s i); done.
  - intros i _. rewrite (dirtied_clean U1 V1 X1 s s1 i Hd).
    destruct (bool_decide (i ∈ U1)), (bool_decide (i ∈ U2)), (clean_output s i); done.
Qed.

Lemma one_if_empty r : one_if ∅ r = 0.
Proof. unfold one_if. by rewrite decide_False by set_solver. Qed.

Lemma dirtied_trans U1 V1 X U2 V2 s s1 s2 :
  dirtied U1 V1 X s s1 → dirtied U2 V2 ∅ s1 s2 → dirtied (U1 ∪ U2) (V1 ∪ V2) X s s2.
Proof.
  intros H1 H2. split.
  - by rewrite (d_graph _ _ _ _ _ H2), (d_graph _ _ _ _ _ H1).
  - intros n. rewrite (d_nodes _ _ _ _ _ H2), (d_nodes _ _ _ _ _ H1).
    destruct (g_nodes s !! n); [|done]. simpl. f_equal. unfold dirty_node.
    repeat case_decide; try set_solver.
  - intros r. rewrite (d_rules _ _ _ _ _ H2), (d_rules _ _ _ _ _ H1).
    destruct (g_rules s !! r) as [rd|]; [|done]. simpl. f_equal.
    unfold dirty_rule at 1 3.
    rewrite (dirty_count_union s s1 U1 U2 V1 X rd _ H1 (dirty_rule_inputs s U1 V1 X r rd)).
    rewrite dirty_rule_ready, one_if_empty, Nat.sub_0_r.
    replace (Rule.numInputsReady_ rd - dirty_count s U1 rd - one_if X r
             - dirty_count s1 U2 (dirty_rule s U1 V1 X r rd))
      with (Rule.numInputsReady_ rd
            - (dirty_count s U1 rd + dirty_count s1 U2 (dirty_rule s U1 V1 X r rd))
            - one_if X r) by lia.
    unfold dirty_rule. repeat case_decide; try done; set_solver.
  - intros r rd Hr.
    pose proof (d_rules _ _ _ _ _ H1 r) as Hr1. rewrite Hr in Hr1. simpl in Hr1.
    rewrite (dirty_count_union s s1 U1 U2 V1 X rd _ H1 (dirty_rule_inputs s U1 V1 X r rd)).
    pose proof (d_enough _ _ _ _ _ H1 r rd Hr).
    pose proof (d_enough _ _ _ _ _ H2 r _ Hr1) as He. rewrite dirty_rule_ready, one_if_empty in He. lia.
Qed.

(** ** The steps of the two functions *)

Lemma dirtied_set_rule U V X s s1 r rd :
  dirtied U V X s s1 → g_rules s1 !! r = Some rd →
  dirtied U ({[r]} ∪ V) X s
    (set_rules (<[r := Rule.setState OUT_OF_DATE rd]> (g_rules s1)) s1).
Proof.
  intros Hd Hr. split; [apply Hd|apply Hd| |apply Hd].
  intros r'. simpl. destruct (decide (r = r')) as [<-|Hne].
  - rewrite lookup_insert_eq. rewrite (d_rules _ _ _ _ _ Hd) in Hr.
    apply fmap_Some in Hr as (rd0 & -> & ->). simpl. f_equal.
    unfold dirty_rule. rewrite (decide_True (P := r ∈ {[r]} ∪ V)) by set_solver. by case_decide.
  - rewrite lookup_insert_ne by done. rewrite (d_rules _ _ _ _ _ Hd).
    destruct (g_rules s !! r') as [rd'|]; [|done]. simpl. f_equal.
    unfold dirty_rule. repeat case_decide; try done; set_solver.
Qed.

Lemma dirtied_decrement U V X s s1 r rd rd1 :
  dirtied U V X s s1 → g_rules s !! r = Some rd → g_rules s1 !! r = Some rd1 → r ∉ X →
  dirty_count s U rd + 1 ≤ Rule.numInputsReady_ rd →
  dirtied U V ({[r]} ∪ X) s
    (set_rules (<[r := Rule.assignReady (pred (Rule.numInputsReady_ rd1)) rd1]> (g_rules s1)) s1).
Proof.
  intros Hd Hr Hr1 HX Hle. rewrite (d_rules _ _ _ _ _ Hd), Hr in Hr1. simpl in Hr1. simplify_eq.
  split; [apply Hd|apply Hd| |].
  - intros r'. simpl. destruct (decide (r = r')) as [<-|Hne].
    + rewrite lookup_insert_eq, Hr. simpl. f_equal. unfold dirty_rule, one_if.
      rewrite (decide_False (P := r ∈ X)), (decide_True (P := r ∈ {[r]} ∪ X)) by set_solver.
      simpl. rewrite Nat.sub_0_r, Nat.sub_1_r. by case_decide.
    + rewrite lookup_insert_ne by done. rewrite (d_rules _ _ _ _ _ Hd).
      destruct (g_rules s !! r') as [rd'|]; [|done]. simpl. f_equal.
      unfold dirty_rule, one_if. repeat case_decide; try done; set_solver.
  - intros r' rd' Hr'. pose proof (d_enough _ _ _ _ _ Hd r' rd' Hr') as He.
    unfold one_if in *. repeat case_decide; try lia.
    assert (r' = r) as -> by set_solver. simplify_eq. lia.
Qed.

Lemma dirtied_set_node U V X s s1 n nd1 :
  structure_ok s → dirtied U V X s s1 → g_nodes s1 !! n = Some nd1 → n ∉ U →
  (∀ r rd, g_rules s !! r = Some rd →
     one_if X r = if bool_decide (n ∈ Rule.inputs_ rd) && clean_output s n then 1 else 0) →
  dirtied ({[n]} ∪ U) V ∅ s
    (set_nodes (<[n := Node.setState OUT_OF_DATE nd1]> (g_nodes s1)) s1).
Proof.
  intros Hok Hd Hn HU HX.
  assert (Hc : ∀ r rd, g_rules s !! r = Some rd →
    dirty_count s ({[n]} ∪ U) rd = dirty_count s U rd + one_if X r).
  { intros r rd Hr. rewrite (HX r rd Hr). rewrite Nat.add_comm.
    rewrite <- (countb_one _ n) by by apply (so_inputs_nodup s Hok r).
    unfold dirty_count. apply countb_split.
    - intros i _. rewrite (bool_decide_ext (i ∈ {[n]} ∪ U) (i = n ∨ i ∈ U)) by set_solver.
      rewrite bool_decide_or. destruct (decide (i = n)) as [->|];
        repeat case_bool_decide; destruct (clean_output s n); done.
    - intros i _. destruct (decide (i = n)) as [->|];
        repeat case_bool_decide; try done; by destruct (clean_output s n). }
  split; [apply Hd| | |].
  - intros m. simpl. destruct (decide (n = m)) as [<-|Hne].
    + rewrite lookup_insert_eq. rewrite (d_nodes _ _ _ _ _ Hd) in Hn.
      apply fmap_Some in Hn as (nd & -> & ->). simpl. f_equal.
      unfold dirty_node. repeat case_decide; try done; set_solver.
    + rewrite lookup_insert_ne by done. rewrite (d_nodes _ _ _ _ _ Hd).
      destruct (g_nodes s !! m) as [nd|]; [|done]. simpl. f_equal.
      unfold dirty_node. repeat case_decide; try done; set_solver.
  - intros r. simpl. rewrite (d_rules _ _ _ _ _ Hd).
    destruct (g_rules s !! r) as [rd|] eqn:Hr; [|done]. simpl. f_equal.
    unfold dirty_rule. rewrite (Hc r rd Hr), one_if_empty.
    by rewrite Nat.sub_add_distr, Nat.sub_0_r.
  - intros r rd Hr. rewrite (Hc r rd Hr), one_if_empty, Nat.add_0_r. by apply (d_enough _ _ _ _ _ Hd).
Qed.

(** ** Enough ready inputs for the decrements to come

    [W] holds the nodes whose parents are being walked: their decrements are
    accounted for already. *)
Definition enough (W : gset N) (s : GState) : Prop :=
  ∀ r rd, g_rules s !! r = Some rd →
    countb (λ i, negb (bool_decide (i ∈ W)) && clean_output s i) (Rule.inputs_ rd)
    ≤ Rule.numInputsReady_ rd.

(** Splits the boolean tests of a counting goal. *)
Ltac bools :=
  repeat case_bool_decide; simpl in *;
  repeat match goal with
  | H : _ && _ = true |- _ => apply andb_true_iff in H as [? ?]
  | |- context [clean_output ?s ?i] => destruct (clean_output s i); simpl in *
  end; try done; try set_solver.

Lemma enough_dirtied W U V s s1 :
  enough W s → dirtied U V ∅ s s1 → (∀ m, m ∈ U → m ∉ W) → enough W s1.
Proof.
  intros He Hd HW r rd1 Hr1. rewrite (d_rules _ _ _ _ _ Hd) in Hr1.
  apply fmap_Some in Hr1 as (rd & Hr & ->).
  rewrite dirty_rule_inputs, dirty_rule_ready, one_if_empty, Nat.sub_0_r.
  specialize (He r rd Hr). pose proof (d_enough _ _ _ _ _ Hd r rd Hr) as Hc.
  assert (countb (λ i, negb (bool_decide (i ∈ W)) && clean_output s1 i) (Rule.inputs_ rd)
          + dirty_count s U rd
          ≤ countb (λ i, negb (bool_decide (i ∈ W)) && clean_output s i) (Rule.inputs_ rd)); [|lia].
  apply countb_disjoint; intros i _; rewrite ?(dirtied_clean _ _ _ _ _ i Hd);
    specialize (HW i); bools.
Qed.

Lemma enough_pending W U V X s s1 n :
  structure_ok s → enough W s → dirtied U V X s s1 → (∀ m, m ∈ U → m ∉ W) → n ∉ U → n ∉ W →
  (∀ r rd, r ∈ X → g_rules s !! r = Some rd → n ∈ Rule.inputs_ rd ∧ clean_output s n = true) →
  enough ({[n]} ∪ W) s1.
Proof.
  intros Hok He Hd HW HnU HnW HX r rd1 Hr1. rewrite (d_rules _ _ _ _ _ Hd) in Hr1.
  apply fmap_Some in Hr1 as (rd & Hr & ->). rewrite dirty_rule_inputs, dirty_rule_ready.
  specialize (He r rd Hr).
  assert (Hx : one_if X r ≤ countb (λ i, bool_decide (i = n) && clean_output s n) (Rule.inputs_ rd)).
  { rewrite countb_one by by apply (so_inputs_nodup s Hok r).
    unfold one_if. case_decide; [|lia]. destruct (HX r rd) as [Hin ->]; [done|done|].
    by rewrite bool_decide_eq_true_2. }
  assert (countb (λ i, negb (bool_decide (i ∈ {[n]} ∪ W)) && clean_output s1 i) (Rule.inputs_ rd)
          + countb (λ i, (bool_decide (i ∈ U) && clean_output s i)
                         || (bool_decide (i = n) && clean_output s n)) (Rule.inputs_ rd)
          ≤ countb (λ i, negb (bool_decide (i ∈ W)) && clean_output s i) (Rule.inputs_ rd)) as Hsum.
  { apply countb_disjoint; intros i _; rewrite ?(dirtied_clean _ _ _ _ _ i Hd);
      specialize (HW i); destruct (decide (i = n)) as [->|]; bools. }
  rewrite (countb_split (λ i, (bool_decide (i ∈ U) && clean_output s i)
                              || (bool_decide (i = n) && clean_output s n))
             (λ i, bool_decide (i ∈ U) && clean_output s i)
             (λ i, bool_decide (i = n) && clean_output s n)) in Hsum; [|done|].
  - unfold dirty_count. lia.
  - intros i _. destruct (decide (i = n)) as [->|]; bools.
Qed.

(** ** The effect of the recursion *)

Lemma affected_shape s s' n m : same_shape s s' → affected s n m → affected s' n m.
Proof.
  intros Hs. induction 1 as [|x y z Hxy _ IH]; [apply rtc_refl|].
  eapply rtc_l; [|exact IH]. by rewrite <- Hs.
Qed.

#[export] Instance affected_proper : Proper (same_shape ==> eq ==> eq ==> iff) affected.
Proof. intros s s' Hs i ? <- o ? <-. split; by apply affected_shape. Qed.

#[export] Instance affected_rule_proper : Proper (same_shape ==> eq ==> eq ==> iff) affected_rule.
Proof.
  assert (∀ s s' n r, same_shape s s' → affected_rule s n r → affected_rule s' n r) as H.
  { intros s s' n r Hs (m & rd & Hm & Hr & Hin). rewrite Hs in Hm. shape_rule Hs Hr.
    exists m, x. split; [done|]. split; [done|congruence]. }
  intros s s' Hs n ? <- r ? <-. split; by apply H.
Qed.

Definition ranked (rank : N → nat) (B : nat) (s : GState) : Prop :=
  (∀ i o, feeds s i o → rank i < rank o) ∧ (∀ m, is_Some (g_nodes s !! m) → rank m < B).

Lemma ranked_shape rank B s s' : same_shape s s' → ranked rank B s → ranked rank B s'.
Proof.
  intros Hs [H1 H2]. split.
  - intros i o. rewrite <- Hs. apply H1.
  - intros m Hm. apply H2. rewrite <- (fmap_is_Some node_shape), (ss_nodes _ _ Hs), fmap_is_Some. done.
Qed.

Lemma ranked_affected rank B s n m : ranked rank B s → affected s n m → rank n ≤ rank m.
Proof.
  intros [H _]. induction 1 as [|x y z Hxy _ IH]; [done|]. apply H in Hxy. lia.
Qed.

(** The set of nodes [P] and the set of rules [R] became dirty. *)
Definition marked (s : GState) (P R : N → Prop) (s' : GState) : Prop :=
  ∃ U V, dirtied U V ∅ s s' ∧ (∀ m, m ∈ U ↔ P m) ∧ (∀ r, r ∈ V ↔ R r).

Definition node_effect (rank : N → nat) (B fuel : nat) : Prop := ∀ W n s,
  structure_ok s → ranked rank B s → B ≤ fuel + rank n → is_Some (g_nodes s !! n) →
  enough W s → (∀ m, affected s n m → m ∉ W) →
  returns (Node_markDirty fuel n)
    (λ _ s', marked s (affected s n) (affected_rule s n) s') s.

Lemma Rule_markDirty_effect rank B fuel W r rd s :
  node_effect rank B fuel → structure_ok s → ranked rank B s →
  g_rules s !! r = Some rd → (∀ o, o ∈ Rule.outputs_ rd → B ≤ fuel + rank o) →
  enough W s → (∀ o m, o ∈ Rule.outputs_ rd → affected s o m → m ∉ W) →
  returns (Rule_markDirty fuel r)
    (λ _ s', marked s (λ m, ∃ o, o ∈ Rule.outputs_ rd ∧ affected s o m)
      (λ r', r' = r ∨ ∃ o, o ∈ Rule.outputs_ rd ∧ affected_rule s o r') s') s.
Proof.
  intros IH Hok Hrk Hr Hfuel He HW. unfold Rule_markDirty, Rule_markDirty_with.
  apply wp_bind. eapply wp_readRule; [done|]. apply wp_bind.
  apply (wp_foreach (λ pre s1, marked s (λ m, ∃ o, o ∈ pre ∧ affected s o m)
           (λ r', ∃ o, o ∈ pre ∧ affected_rule s o r') s1)).
  - exists ∅, ∅. split; [apply dirtied_refl|]. set_solver.
  - intros pre o post s1 Hl (U & V & Hd & HU & HV).
    assert (Hs : same_shape s s1) by by eapply dirtied_shape.
    assert (Ho : o ∈ Rule.outputs_ rd) by (rewrite Hl; set_solver).
    eapply wp_mono; [eapply (IH W o s1)| |done].
    + by rewrite <- Hs.
    + by eapply ranked_shape.
    + auto.
    + destruct (so_output s Hok r rd o Hr Ho) as (nd & Hn & _). shape_node Hs Hn. by eexists.
    + eapply enough_dirtied; [done|done|]. intros m (o' & Ho' & Hm)%HU.
      eapply HW; [|done]. rewrite Hl. set_solver.
    + intros m. rewrite <- Hs. by apply HW.
    + intros [] s2 (U2 & V2 & Hd2 & HU2 & HV2). exists (U ∪ U2), (V ∪ V2).
      split; [by eapply dirtied_trans|]. setoid_rewrite <- Hs in HU2. setoid_rewrite <- Hs in HV2.
      split; set_solver.
  - intros s1 (U & V & Hd & HU & HV).
    assert (Hs : same_shape s s1) by by eapply dirtied_shape.
    destruct (same_shape_rule _ _ _ _ Hs Hr) as (rd1 & Hr1 & _).
    eapply wp_updRule; [done|]. exists U, ({[r]} ∪ V).
    split; [by apply dirtied_set_rule|]. set_solver.
Qed.

(** What depends on a rule: everything its outputs affect, and itself. *)
Definition above (s : GState) (r m : N) : Prop :=
  ∃ rd o, g_rules s !! r = Some rd ∧ o ∈ Rule.outputs_ rd ∧ affected s o m.
Definition above_rule (s : GState) (r r' : N) : Prop :=
  ∃ rd, g_rules s !! r = Some rd ∧
    (r' = r ∨ ∃ o, o ∈ Rule.outputs_ rd ∧ affected_rule s o r').

Lemma above_iff s r rd m :
  g_rules s !! r = Some rd → above s r m ↔ ∃ o, o ∈ Rule.outputs_ rd ∧ affected s o m.
Proof.
  intros Hr. split; [intros (? & o & ? & ? & ?)|intros (o & ? & ?)]; simplify_eq; [by exists o|by exists rd, o].
Qed.

Lemma above_rule_iff s r rd r' :
  g_rules s !! r = Some rd →
  above_rule s r r' ↔ r' = r ∨ ∃ o, o ∈ Rule.outputs_ rd ∧ affected_rule s o r'.
Proof.
  intros Hr. split; [intros (? & ? & ?)|intros ?]; simplify_eq; [done|by exists rd].
Qed.

(** The state of the walk over the parents of [n], [pre] being done. *)
Definition pending (s : GState) (n : N) (pre : list N) : gset N :=
  if clean_output s n then list_to_set pre else ∅.
Definition walk (s : GState) (n : N) (pre : list N) (X : gset N) (s1 : GState) : Prop :=
  ∃ U V, dirtied U V X s s1 ∧
    (∀ m, m ∈ U ↔ ∃ r, r ∈ pre ∧ above s r m) ∧
    (∀ r', r' ∈ V ↔ ∃ r, r ∈ pre ∧ above_rule s r r').

Lemma elem_of_pending s n pre r :
  r ∈ pending s n pre ↔ clean_output s n = true ∧ r ∈ pre.
Proof. unfold pending. destruct (clean_output s n); set_solver. Qed.

Lemma pending_snoc s n pre r :
  clean_output s n = true → pending s n (pre ++ [r]) = {[r]} ∪ pending s n pre.
Proof. intros Hc. unfold pending. rewrite Hc. set_solver. Qed.

Lemma clean_output_node s n nd :
  g_nodes s !! n = Some nd →
  clean_output s n = negb (Node.isSource nd) && negb (Node.isDirty nd).
Proof. unfold clean_output. by intros ->. Qed.

Lemma exists_snoc (P : N → Prop) (pre : list N) (r : N) :
  (∃ x, x ∈ pre ++ [r] ∧ P x) ↔ (∃ x, x ∈ pre ∧ P x) ∨ P r.
Proof. set_solver. Qed.

(** A parent that is about to lose [n] has a ready input left. *)
Lemma dirty_count_room W U s n r rd :
  structure_ok s → enough W s → g_rules s !! r = Some rd → n ∈ Rule.inputs_ rd →
  clean_output s n = true → (∀ m, m ∈ U → m ∉ W) → n ∉ U → n ∉ W →
  dirty_count s U rd + 1 ≤ Rule.numInputsReady_ rd.
Proof.
  intros Hok He Hr Hin Hc HU HnU HnW. specialize (He r rd Hr).
  assert (1 = countb (λ i, bool_decide (i = n) && clean_output s n) (Rule.inputs_ rd)) as ->.
  { rewrite countb_one by by apply (so_inputs_nodup s Hok r).
    by rewrite Hc, bool_decide_eq_true_2. }
  etrans; [|exact He]. apply countb_disjoint; intros i _; specialize (HU i);
    destruct (decide (i = n)) as [->|]; bools.
Qed.

(** What is above a parent of [n] depends on [n] and is not [n]. *)
Lemma above_parent rank B s n nd r m :
  structure_ok s → ranked rank B s → g_nodes s !! n = Some nd → r ∈ Node.parentRules_ nd →
  above s r m → affected s n m ∧ m ≠ n.
Proof.
  intros Hok Hrk Hn Hpar (rd & o & Hr & Ho & Hm).
  destruct (so_parent s Hok n nd r Hn Hpar) as (rd' & Hr' & Hin). simplify_eq.
  assert (Hf : feeds s n o) by by exists r, rd. split; [by eapply rtc_l|].
  intros ->. apply Hrk in Hf. pose proof (ranked_affected _ _ _ _ _ Hrk Hm). lia.
Qed.

(** What is above the parents of [n], with [n], is what [n] affects. *)
Lemma parents_affected rank B s n nd m :
  structure_ok s → ranked rank B s → g_nodes s !! n = Some nd →
  affected s n m ↔ m = n ∨ ∃ r, r ∈ Node.parentRules_ nd ∧ above s r m.
Proof.
  intros Hok Hrk Hn. split.
  - intros Hm. inversion Hm as [|? o ? (r & rd & Hr & Hi & Ho) Hm']; simplify_eq; [by left|].
    right. exists r. destruct (so_input s Hok r rd n Hr Hi) as (nd' & ? & ?). simplify_eq.
    split; [done|]. by exists rd, o.
  - intros [->|(r & Hr & Ha)]; [apply rtc_refl|]. by apply (above_parent rank B s n nd r m).
Qed.

Lemma parents_affected_rule s n nd r' :
  structure_ok s → g_nodes s !! n = Some nd →
  affected_rule s n r' ↔ ∃ r, r ∈ Node.parentRules_ nd ∧ above_rule s r r'.
Proof.
  intros Hok Hn. split.
  - intros (m & rd' & Hm & Hr' & Hi').
    inversion Hm as [|? o ? (r & rd & Hr & Hi & Ho) Hm']; simplify_eq.
    + destruct (so_input s Hok r' rd' m Hr' Hi') as (? & ? & ?). simplify_eq.
      exists r'. split; [done|]. exists rd'. split; [done|by left].
    + destruct (so_input s Hok r rd n Hr Hi) as (? & ? & ?). simplify_eq.
      exists r. split; [done|]. exists rd. split; [done|]. right. exists o. split; [done|].
      by exists m, rd'.
  - intros (r & Hp & rd & Hr & Hcase).
    destruct (so_parent s Hok n nd r Hn Hp) as (? & ? & Hin). simplify_eq.
    destruct Hcase as [->|(o & Ho & m & rd' & Hm & Hr' & Hi')].
    + exists n, rd. split; [apply rtc_refl|done].
    + exists m, rd'. split; [|done]. eapply rtc_l; [|done]. by exists r, rd.
Qed.

Section walk.
Context (rank : N → nat) (B fuel : nat) (W : gset N) (n : N) (nd : Node.t) (s : GState).
Hypothesis IH : node_effect rank B fuel.
Hypothesis Hok : structure_ok s.
Hypothesis Hrk : ranked rank B s.
Hypothesis Hfuel : B ≤ S fuel + rank n.
Hypothesis Hn : g_nodes s !! n = Some nd.
Hypothesis He : enough W s.
Hypothesis HW : ∀ m, affected s n m → m ∉ W.

(** The nodes a walk marked are neither [n] nor pending. *)
Lemma walk_outside (pre : list N) (U : gset N) :
  (∀ r, r ∈ pre → r ∈ Node.parentRules_ nd) →
  (∀ m, m ∈ U ↔ ∃ r, r ∈ pre ∧ above s r m) → n ∉ U ∧ (∀ m, m ∈ U → m ∉ W).
Proof.
  intros Hpre HU. split.
  - intros (r & Hr & Ha)%HU. destruct (above_parent rank B s n nd r n); auto.
  - intros m (r & Hr & Ha)%HU. apply HW. eapply (above_parent rank B s n nd r m); auto.
Qed.

(** [rule->markDirty()] in the loop. *)
Lemma walk_rule pre r post s1 :
  Node.parentRules_ nd = pre ++ r :: post → walk s n pre (pending s n pre) s1 →
  returns (Rule_markDirty fuel r) (λ _ s2, walk s n (pre ++ [r]) (pending s n pre) s2) s1.
Proof.
  intros Hpar (U & V & Hd & HU & HV).
  assert (Hs : same_shape s s1) by by eapply dirtied_shape.
  assert (Hpre : ∀ r', r' ∈ pre ++ [r] → r' ∈ Node.parentRules_ nd)
    by (rewrite Hpar; set_solver).
  destruct (so_parent s Hok n nd r Hn) as (rd & Hr & Hin); [apply Hpre; set_solver|].
  destruct (walk_outside pre U) as [HnU HUW]; [set_solver|done|].
  destruct (same_shape_rule _ _ _ _ Hs Hr) as (rd1 & Hr1 & [= Hi1 Ho1 _ _ _]).
  eapply wp_mono; [eapply (Rule_markDirty_effect rank B fuel ({[n]} ∪ W))| |done];
    [done|by rewrite <- Hs|by eapply ranked_shape|done| | | |]; rewrite ?Ho1.
  - intros o Ho. assert (Hf : feeds s n o) by by exists r, rd. apply Hrk in Hf. lia.
  - eapply enough_pending; try done; [apply HW, rtc_refl|].
    intros r' rd' [Hc Hr']%elem_of_pending Hrd'. split; [|done].
    destruct (so_parent s Hok n nd r' Hn) as (? & ? & ?); [set_solver|]. by simplify_eq.
  - intros o m Ho Hm. rewrite <- Hs in Hm.
    destruct (above_parent rank B s n nd r m) as [Hm1 Hm2]; try done;
      [set_solver|by exists rd, o|]. apply HW in Hm1. set_solver.
  - intros [] s2 (U2 & V2 & Hd2 & HU2 & HV2).
    setoid_rewrite <- Hs in HU2. setoid_rewrite <- Hs in HV2.
    exists (U ∪ U2), (V ∪ V2). split; [by eapply dirtied_trans|].
    split.
    + intros m. by rewrite exists_snoc, elem_of_union, HU, HU2, (above_iff s r rd m Hr).
    + intros r'. by rewrite exists_snoc, elem_of_union, HV, HV2, (above_rule_iff s r rd r' Hr).
Qed.

(** One turn of the loop. *)
Lemma walk_step pre r post s1 :
  Node.parentRules_ nd = pre ++ r :: post → walk s n pre (pending s n pre) s1 →
  returns (Rule_markDirty_with (Node_markDirty fuel) r;;
           n' ← readNode n;
           if negb (Node.isSource n') && negb (Node.isDirty n')
           then Rule_markInputDirty r else mret tt)
    (λ _ s2, walk s n (pre ++ [r]) (pending s n (pre ++ [r])) s2) s1.
Proof.
  intros Hpar Hwalk. apply wp_bind. eapply wp_mono; [by eapply walk_rule| |done].
  intros [] s2 (U & V & Hd & HU & HV).
  assert (Hpre : ∀ r', r' ∈ pre ++ [r] → r' ∈ Node.parentRules_ nd)
    by (rewrite Hpar; set_solver).
  destruct (walk_outside (pre ++ [r]) U) as [HnU HUW]; [done|done|].
  apply wp_bind. eapply wp_readNode.
  { rewrite (d_nodes _ _ _ _ _ Hd), Hn. simpl. unfold dirty_node. by rewrite decide_False. }
  rewrite <- (clean_output_node s n nd Hn). destruct (clean_output s n) eqn:Hc.
  - destruct (so_parent s Hok n nd r Hn) as (rd & Hr & Hin); [apply Hpre; set_solver|].
    assert (HrX : r ∉ pending s n pre).
    { rewrite elem_of_pending. intros [_ Hp]. pose proof (so_parents_nodup s Hok n nd Hn) as Hnd.
      rewrite Hpar in Hnd. apply NoDup_app in Hnd as (_ & Hnd & _). set_solver. }
    pose proof (dirty_count_room W U s n r rd Hok He Hr Hin Hc HUW HnU
                  (HW _ (rtc_refl _ _))) as Hroom.
    pose proof (d_rules _ _ _ _ _ Hd r) as Hr2. rewrite Hr in Hr2. simpl in Hr2.
    eapply wp_markInputDirty; [done| |].
    { rewrite dirty_rule_ready. unfold one_if. rewrite decide_False by done. lia. }
    exists U, V. split; [|done]. rewrite pending_snoc by done. by eapply dirtied_decrement.
  - apply wp_ret. exists U, V. split; [|done]. unfold pending in *. by rewrite Hc in *.
Qed.
End walk.

Lemma Node_markDirty_effect rank B fuel : node_effect rank B fuel.
Proof.
  induction fuel as [|fuel IH]; intros W n s Hok Hrk Hfuel Hin He HW.
  { apply Hrk in Hin. simpl in Hfuel. lia. }
  destruct Hin as [nd Hn]. simpl. apply wp_bind. eapply wp_readNode; [done|]. apply wp_bind.
  apply (wp_foreach (λ pre s1, walk s n pre (pending s n pre) s1)).
  - exists ∅, ∅. split; [|set_solver].
    replace (pending s n []) with (∅ : gset N) by (unfold pending; by destruct (clean_output s n)).
    apply dirtied_refl.
  - intros pre r post s1 Hpar Hwalk. by eapply (walk_step rank B fuel W n nd s).
  - intros s1 (U & V & Hd & HU & HV).
    destruct (walk_outside rank B W n nd s Hok Hrk Hn HW (Node.parentRules_ nd) U) as [HnU _]; [done|done|].
    pose proof (d_nodes _ _ _ _ _ Hd n) as Hn1. rewrite Hn in Hn1. simpl in Hn1.
    eapply wp_updNode; [done|]. exists ({[n]} ∪ U), V. split; [|split].
    + eapply dirtied_set_node; [done|done|done|done|]. intros r rd Hr. unfold one_if.
      pose proof (elem_of_pending s n (Node.parentRules_ nd) r) as Hp.
      destruct (clean_output s n).
      * rewrite andb_true_r. case_bool_decide as Hni; case_decide as Hpe; try done; exfalso.
        -- destruct (so_input s Hok r rd n Hr Hni) as (? & ? & ?). simplify_eq. naive_solver.
        -- apply Hp in Hpe as [_ Hpe].
           destruct (so_parent s Hok n nd r Hn Hpe) as (? & ? & ?). by simplify_eq.
      * rewrite andb_false_r, decide_False; [done|naive_solver].
    + intros m. rewrite elem_of_union, elem_of_singleton, HU.
      by rewrite (parents_affected rank B s n nd) by done.
    + intros r'. by rewrite HV, (parents_affected_rule s n nd) by done.
Qed.

(** ** Correctness of markDirty *)

Lemma dirtied_node_dirty U V X s s' n :
  dirtied U V X s s' → is_Some (g_nodes s !! n) →
  node_dirty s' n = bool_decide (n ∈ U) || node_dirty s n.
Proof.
  intros Hd [nd Hn]. unfold node_dirty. rewrite (d_nodes _ _ _ _ _ Hd), Hn. simpl.
  unfold dirty_node. case_decide; case_bool_decide; done.
Qed.

Lemma dirtied_rule_dirty U V X s s' r :
  dirtied U V X s s' → is_Some (g_rules s !! r) →
  rule_dirty s' r = bool_decide (r ∈ V) || rule_dirty s r.
Proof.
  intros Hd [rd Hr]. unfold rule_dirty. rewrite (d_rules _ _ _ _ _ Hd), Hr. simpl.
  unfold dirty_rule. case_decide; case_bool_decide; done.
Qed.

Lemma dirtied_counters U V s s' : dirtied U V ∅ s s' → counters_ok s → counters_ok s'.
Proof.
  intros Hd Hc r rd' Hr'. rewrite (d_rules _ _ _ _ _ Hd) in Hr'.
  apply fmap_Some in Hr' as (rd & Hr & ->).
  rewrite dirty_rule_inputs, dirty_rule_ready, one_if_empty, (Hc r rd Hr).
  rewrite (countb_split (node_ready s) (node_ready s')
             (λ i, bool_decide (i ∈ U) && clean_output s i)).
  - unfold dirty_count. lia.
  - intros i _. unfold node_ready, clean_output. rewrite (d_nodes _ _ _ _ _ Hd).
    destruct (g_nodes s !! i) as [nd|]; [|by case_bool_decide]. simpl. unfold dirty_node.
    case_decide; case_bool_decide; try done; simpl;
      unfold Node.isSource, Node.isDirty; simpl; repeat case_bool_decide; done.
  - intros i _. unfold node_ready, clean_output. rewrite (d_nodes _ _ _ _ _ Hd).
    destruct (g_nodes s !! i) as [nd|]; [|by case_bool_decide]. simpl. unfold dirty_node.
    case_decide; case_bool_decide; try done; simpl;
      unfold Node.isSource, Node.isDirty; simpl; repeat case_bool_decide; try done;
      by rewrite ?andb_false_r.
Qed.

Lemma counters_enough s : counters_ok s → enough ∅ s.
Proof.
  intros Hc r rd Hr. rewrite (Hc r rd Hr). apply countb_mono. intros i _.
  rewrite bool_decide_eq_false_2 by set_solver. simpl.
  unfold clean_output, node_ready. destruct (g_nodes s !! i) as [nd|]; [|done].
  by destruct (Node.isSource nd), (Node.isDirty nd).
Qed.

(** From any node of an acyclic graph whose counters are right, with fuel for
    as many levels as there are nodes, the call comes back. *)
Lemma markDirty_marked s n fuel :
  structure_ok s → acyclic s → counters_ok s → is_Some (g_nodes s !! n) →
  size (g_nodes s) ≤ fuel →
  returns (Node_markDirty fuel n) (λ _ s', marked s (affected s n) (affected_rule s n) s') s.
Proof.
  intros Hok Hac Hc Hn Hfuel. destruct (acyclic_bounded s Hok Hac) as (rank & Hr & HB).
  eapply (Node_markDirty_effect rank (size (g_nodes s)) fuel ∅); try done.
  - lia.
  - by apply counters_enough.
Qed.

(** What is marked keeps each rule on states. *)
Section marked_states.
Context (s s' : GState) (n : N).
Hypothesis Hok : structure_ok s.
Hypothesis Hmark : marked s (affected s n) (affected_rule s n) s'.

Lemma marked_shape : same_shape s s'.
Proof. destruct Hmark as (U & V & Hd & _). by eapply dirtied_shape. Qed.

Lemma marked_counters : counters_ok s → counters_ok s'.
Proof. destruct Hmark as (U & V & Hd & _). by eapply dirtied_counters. Qed.

Lemma marked_inputs_ok : dirty_inputs_ok s → dirty_inputs_ok s'.
Proof.
  intros Hi r rd' i Hr Hin. assert (Hs' : same_shape s' s) by (symmetry; apply marked_shape).
  destruct Hmark as (U & V & Hd & HU & HV). shape_rule Hs' Hr.
  destruct (so_input s Hok r x i) as (nd' & Hn' & _); [done|congruence|].
  rewrite (dirtied_node_dirty _ _ _ _ _ i Hd), (dirtied_rule_dirty _ _ _ _ _ r Hd) by by eexists.
  rewrite !orb_true_iff, !bool_decide_eq_true, HU, HV. intros [Ha|Hdi].
  - left. exists i, x. split; [done|]. split; [done|congruence].
  - right. eapply Hi; [done| |done]. congruence.
Qed.

Lemma marked_outputs_ok : dirty_outputs_ok s → dirty_outputs_ok s'.
Proof.
  intros Ho r rd' o Hr Hrd Hin. assert (Hs' : same_shape s' s) by (symmetry; apply marked_shape).
  destruct Hmark as (U & V & Hd & HU & HV). shape_rule Hs' Hr.
  destruct (so_output s Hok r x o) as (nd' & Hn' & _); [done|congruence|].
  rewrite (dirtied_rule_dirty _ _ _ _ _ r Hd) in Hrd by by eexists.
  rewrite (dirtied_node_dirty _ _ _ _ _ o Hd) by by eexists.
  destruct (decide (o ∈ U)) as [HoU|HoU]; [right; by rewrite bool_decide_eq_true_2|].
  rewrite bool_decide_eq_false_2 by done. simpl.
  replace (node_lazy s' o) with (node_lazy s o).
  2: { unfold node_lazy. rewrite (d_nodes _ _ _ _ _ Hd), Hn'. simpl. unfold dirty_node.
       by rewrite decide_False. }
  apply orb_true_iff in Hrd as [Hrd|Hrd].
  - apply bool_decide_eq_true, HV in Hrd as (m & rd & Hm & Hr' & Him). simplify_eq.
    destruct HoU. apply HU. eapply rtc_r; [done|]. exists r, rd. split; [done|]. split; [done|congruence].
  - eapply Ho; [done|done|congruence].
Qed.

(** All but the node the call is made on: its own child rule is the caller's
    business. *)
Lemma marked_child_ok : dirty_child_ok s → ∀ m nd r,
  g_nodes s' !! m = Some nd → Node.childRule_ nd = Some r → m ≠ n →
  node_dirty s' m = true → rule_dirty s' r = true.
Proof.
  intros Hch m nd' r Hm Hcm Hne. assert (Hs' : same_shape s' s) by (symmetry; apply marked_shape).
  destruct Hmark as (U & V & Hd & HU & HV). shape_node Hs' Hm.
  rewrite (dirtied_node_dirty _ _ _ _ _ m Hd) by by eexists.
  destruct (so_child s Hok m x r) as (rd & Hr & Hmo); [done|congruence|].
  rewrite (dirtied_rule_dirty _ _ _ _ _ r Hd) by by eexists.
  rewrite !orb_true_iff, !bool_decide_eq_true, HU, HV. intros [Ha|Hdm].
  - left. apply rtc_inv_r in Ha as [->|(i & Hi1 & (r' & rd' & Hr' & Hi2 & Ho2))]; [done|].
    destruct (so_output s Hok r' rd' m Hr' Ho2) as (? & ? & ?). simplify_eq.
    assert (r' = r) as -> by congruence. by exists i, rd'.
  - right. eapply (Hch m x); [done|congruence|done].
Qed.
End marked_states.

(** C1: in an acyclic graph whose counters are right, Node::markDirty on any
    node terminates without a failed assertion; the edges do not change; a node
    or rule is out of date afterwards exactly when it was already or depends on
    the node; and every counter of ready inputs is right again. *)
Theorem markDirty_correct s n fuel :
  structure_ok s → acyclic s → counters_ok s → is_Some (g_nodes s !! n) →
  size (g_nodes s) ≤ fuel →
  returns (Node_markDirty fuel n) (λ _ s',
    same_shape s s' ∧ counters_ok s' ∧
    (∀ m, is_Some (g_nodes s !! m) →
       node_dirty s' m = true ↔ affected s n m ∨ node_dirty s m = true) ∧
    (∀ r, is_Some (g_rules s !! r) →
       rule_dirty s' r = true ↔ affected_rule s n r ∨ rule_dirty s r = true)) s.
Proof.
  intros Hok Hac Hc Hn Hfuel. eapply wp_mono; [by apply markDirty_marked| |done].
  intros [] s' (U & V & Hd & HU & HV). split_and!.
  - by eapply dirtied_shape.
  - by eapply dirtied_counters.
  - intros m Hm. by rewrite (dirtied_node_dirty _ _ _ _ _ _ Hd Hm), orb_true_iff, bool_decide_eq_true, HU.
  - intros r Hr. by rewrite (dirtied_rule_dirty _ _ _ _ _ _ Hd Hr), orb_true_iff, bool_decide_eq_true, HV.
Qed.

Lemma markDirty_correct_witness :
  is_Some (g_nodes two_outputs !! 1%N) ∧ size (g_nodes two_outputs) ≤ 4 ∧
  returns (Node_markDirty 4 1%N) (λ _ s', counters_ok s') two_outputs.
Proof.
  split; [vm_compute; eexists; reflexivity|]. split; [vm_compute; lia|].
  eapply wp_mono; [apply (markDirty_correct two_outputs 1%N 4)| |done].
  - apply two_outputs_consistent.
  - apply two_outputs_acyclic.
  - apply two_outputs_consistent.
  - vm_compute; eexists; reflexivity.
  - vm_compute; lia.
  - intros [] s' H. apply H.
Defined.

(** Marking a source file dirty keeps the graph consistent, as
    GraphConsistencyChecker understands it: dirty inputs have dirty rules,
    dirty rules have dirty outputs, dirty outputs have dirty child rules. *)
Theorem markDirty_source_consistent s n nd fuel :
  consistent s → acyclic s → g_nodes s !! n = Some nd → Node.childRule_ nd = None →
  size (g_nodes s) ≤ fuel →
  returns (Node_markDirty fuel n) (λ _ s', consistent s') s.
Proof.
  intros [Hok Hc Hi Ho Hch] Hac Hn Hsrc Hfuel.
  eapply wp_mono; [apply markDirty_marked; try done; by eexists| |done].
  intros [] s' Hm. pose proof (marked_shape _ _ _ Hm) as Hs. split.
  - by rewrite <- Hs.
  - by eapply marked_counters.
  - by eapply marked_inputs_ok.
  - by eapply marked_outputs_ok.
  - intros m nd' r Hm' Hcm. eapply (marked_child_ok s s' n); try done.
    intros ->. assert (Hs' : same_shape s' s) by by symmetry. shape_node Hs' Hm'. congruence.
Qed.

Lemma markDirty_source_consistent_witness :
  returns (Node_markDirty 4 1%N) (λ _ s', consistent s') two_outputs.
Proof.
  apply (markDirty_source_consistent two_outputs 1%N (mk_node "source" None [10%N] UP_TO_DATE)).
  - apply two_outputs_consistent.
  - apply two_outputs_acyclic.
  - vm_compute; reflexivity.
  - reflexivity.
  - vm_compute; lia.
Defined.
