(* ===== verification/GraphCycle.v ===== *)
(** * Loop detection (graph_cycle.cpp)

    [isCycle] walks from a node to the inputs of the rule that builds it, with
    the paths on the current branch in [stack].  The theorem is exact: with the
    fuel of as many levels as there are nodes plus one, [checkGraphLoop] returns
    when no loop can be reached from a root, and throws EINVAL when one can. *)

From S2P Require Import Prelude GraphModel GraphChecks.

(** [VisitedNodes& stack] is threaded through the calls. *)
Fixpoint isCycle (fuel : nat) (n : N) (stack : gset string) : M GState (gset string) :=
  match fuel with
  | O => mabort OutOfFuel
  | S fuel =>
    nd ← readNode n;
    if bool_decide (Node.path_ nd ∈ stack)
    then mthrow (Exception EINVAL (" +-> " +:+ Node.path_ nd))
    else
      match Node.childRule_ nd with
      | None => mret stack
      | Some child =>
        r ← readRule child;
        stack' ← foldM (Rule.inputs_ r) ({[Node.path_ nd]} ∪ stack) (λ stack it,
          catch (isCycle fuel it stack) (λ e,
            match e with
            | Exception code _ => mthrow (Exception code (" |   " +:+ Node.path_ nd))
            | _ => mthrow e
            end));
        mret (stack' ∖ {[Node.path_ nd]})
      end
  end.

Definition checkGraphLoop (fuel : nat) : M GState unit :=
  g ← gets g_graph;
  foreach (set_elems (Graph.roots_ g)) (λ n, isCycle fuel n ∅;; mret tt).

(** [built_from s n m]: [m] is an input of the rule that builds [n]. *)
Definition built_from (s : GState) (n m : N) : Prop :=
  ∃ nd r rd, g_nodes s !! n = Some nd ∧ Node.childRule_ nd = Some r ∧
    g_rules s !! r = Some rd ∧ m ∈ Rule.inputs_ rd.

Definition in_loop (s : GState) (n : N) : Prop := tc (built_from s) n n.

Lemma built_from_feeds s n m : structure_ok s → built_from s n m ↔ feeds s m n.
Proof.
  intros Hok. split.
  - intros (nd & r & rd & Hn & Hc & Hr & Hm).
    destruct (so_child s Hok n nd r Hn Hc) as (? & ? & ?). simplify_eq. by exists r, rd.
  - intros (r & rd & Hr & Hm & Hn).
    destruct (so_output s Hok r rd n Hr Hn) as (nd & ? & ?). by exists nd, r, rd.
Qed.

Lemma acyclic_no_loop s n : structure_ok s → acyclic s → ¬ in_loop s n.
Proof.
  intros Hok [rank Hrank] Hl.
  assert (∀ x y, tc (built_from s) x y → rank y < rank x) as Ht.
  { induction 1 as [x y H|x y z H _ IH]; apply built_from_feeds in H; try done;
      apply Hrank in H; lia. }
  apply Ht in Hl. lia.
Qed.

Definition paths_of (s : GState) : gset string := dom (Graph.nodes_ (g_graph s)).
Definition on_stack (s : GState) (stack : gset string) (m : N) : Prop :=
  ∃ nd, g_nodes s !! m = Some nd ∧ Node.path_ nd ∈ stack.

(** From [n] neither the branch above nor a loop is reached. *)
Definition loop_free (s : GState) (stack : gset string) (n : N) : Prop :=
  ∀ m, rtc (built_from s) n m → ¬ on_stack s stack m ∧ ¬ in_loop s m.
Definition loop_found (s : GState) (stack : gset string) (n : N) : Prop :=
  ∃ m, rtc (built_from s) n m ∧ (on_stack s stack m ∨ in_loop s m).

Section cycle.
Context (s : GState).
Hypothesis Hok : structure_ok s.
Hypothesis Hgr : graph_ok s.

Lemma same_path n m nd md :
  g_nodes s !! n = Some nd → g_nodes s !! m = Some md → Node.path_ nd = Node.path_ md → n = m.
Proof.
  intros Hn Hm Hp.
  assert (Graph.nodes_ (g_graph s) !! Node.path_ md = Some n) as H1 by (apply (go_nodes s Hgr); eauto).
  assert (Graph.nodes_ (g_graph s) !! Node.path_ md = Some m) as H2 by (apply (go_nodes s Hgr); eauto).
  congruence.
Qed.

(** The node itself, given its inputs. *)
Lemma loop_free_node n nd r rd stack :
  g_nodes s !! n = Some nd → Node.childRule_ nd = Some r → g_rules s !! r = Some rd →
  Node.path_ nd ∉ stack →
  (∀ i, i ∈ Rule.inputs_ rd → loop_free s ({[Node.path_ nd]} ∪ stack) i) →
  loop_free s stack n.
Proof.
  intros Hn Hc Hr Hstack Hin m Hm.
  apply rtc_inv in Hm as [<-|(i & Hi & Hm)].
  - split.
    + intros (nd' & Hn' & Hp). by simplify_eq.
    + intros Hl. apply tc_rtc in Hl as Hl'. unfold in_loop in Hl.
      assert (∃ i, i ∈ Rule.inputs_ rd ∧ rtc (built_from s) i n) as (i & Hi & Hin').
      { inversion Hl as [? ? H|? i ? H Ht]; simplify_eq;
          destruct H as (? & ? & ? & ? & ? & ? & ?); simplify_eq; eexists;
          (split; [done|]); [apply rtc_refl|by apply tc_rtc]. }
      destruct (Hin i Hi n Hin') as [H _]. apply H. exists nd. split; [done|]. set_solver.
  - destruct Hi as (? & ? & ? & ? & ? & ? & Hi). simplify_eq.
    destruct (Hin i Hi m Hm) as [H1 H2]. split; [|done].
    intros (md & Hmd & Hp). apply H1. exists md. split; [done|]. set_solver.
Qed.

Lemma loop_found_node n nd r rd stack i :
  g_nodes s !! n = Some nd → Node.childRule_ nd = Some r → g_rules s !! r = Some rd →
  i ∈ Rule.inputs_ rd → loop_found s ({[Node.path_ nd]} ∪ stack) i → loop_found s stack n.
Proof.
  intros Hn Hc Hr Hi (m & Hm & Hcase).
  assert (Hni : built_from s n i) by by exists nd, r, rd.
  destruct Hcase as [(md & Hmd & [Hp%elem_of_singleton|Hp]%elem_of_union)|Hl].
  - assert (m = n) as -> by by eapply same_path. exists n. split; [apply rtc_refl|]. right.
    by eapply tc_rtc_r; [apply tc_once|].
  - exists m. split; [by eapply rtc_l|]. left. by exists md.
  - exists m. split; [by eapply rtc_l|]. by right.
Qed.

Lemma isCycle_spec fuel : ∀ n stack,
  is_Some (g_nodes s !! n) → stack ⊆ paths_of s → size (paths_of s) < fuel + size stack →
  wp (isCycle fuel n stack)
    (λ stack' s', stack' = stack ∧ s' = s ∧ loop_free s stack n)
    (λ e s', (∃ msg, e = Exception EINVAL msg) ∧ s' = s ∧ loop_found s stack n) s.
Proof.
  induction fuel as [|fuel IH]; intros n stack [nd Hn] Hstack Hfuel.
  { apply subseteq_size in Hstack. lia. }
  simpl. apply wp_bind. eapply wp_readNode; [done|]. case_bool_decide as Hin.
  { apply wp_mthrow. split; [eauto|]. split; [done|]. exists n. split; [apply rtc_refl|].
    left. by exists nd. }
  destruct (Node.childRule_ nd) as [r|] eqn:Hc.
  2: { apply wp_ret. split; [done|]. split; [done|]. intros m Hm.
       apply rtc_inv in Hm as [<-|(i & (? & ? & ? & ? & ? & ?) & _)]; [|by simplify_eq]. split.
       - intros (nd' & ? & ?). by simplify_eq.
       - intros Hl. unfold in_loop in Hl.
         inversion Hl as [? ? (? & ? & ? & ? & ? & ?)|? ? ? (? & ? & ? & ? & ? & ?) ?]; by simplify_eq. }
  destruct (so_child s Hok n nd r Hn Hc) as (rd & Hr & Hno).
  assert (Hpn : Node.path_ nd ∈ paths_of s).
  { apply elem_of_dom. exists n. apply (go_nodes s Hgr). eauto. }
  apply wp_bind. eapply wp_readRule; [done|]. apply wp_bind.
  apply (wp_foldM (λ pre st s', st = {[Node.path_ nd]} ∪ stack ∧ s' = s ∧
           ∀ i, i ∈ pre → loop_free s ({[Node.path_ nd]} ∪ stack) i)).
  - split; [done|]. split; [done|]. set_solver.
  - intros pre i post st s' Hl (-> & -> & Hpre).
    assert (Hi : i ∈ Rule.inputs_ rd) by (rewrite Hl; set_solver).
    apply wp_catch. eapply wp_mono; [apply IH| |].
    + destruct (so_input s Hok r rd i Hr Hi) as (? & ? & ?). by eexists.
    + set_solver.
    + rewrite size_union, size_singleton by set_solver. lia.
    + intros st' s' (-> & -> & Hf). split; [done|]. split; [done|]. set_solver.
    + intros e s' ((msg & ->) & -> & Hf). apply wp_mthrow. split; [eauto|]. split; [done|].
      by eapply loop_found_node.
  - intros st s' (-> & -> & Hall). apply wp_ret. split; [set_solver|]. split; [done|].
    by eapply loop_free_node.
Qed.
End cycle.

Lemma checkGraphLoop_finds s fuel :
  structure_ok s → graph_ok s → size (paths_of s) < fuel →
  wp (checkGraphLoop fuel)
    (λ _ s', s' = s ∧ ∀ root m, root ∈ Graph.roots_ (g_graph s) →
       rtc (built_from s) root m → ¬ in_loop s m)
    (λ e s', s' = s ∧ (∃ msg, e = Exception EINVAL msg) ∧
       ∃ root m, root ∈ Graph.roots_ (g_graph s) ∧ rtc (built_from s) root m ∧ in_loop s m) s.
Proof.
  intros Hok Hgr Hfuel. unfold checkGraphLoop. wp_go.
  apply (wp_foreach (λ pre s', s' = s ∧ ∀ n, n ∈ pre → loop_free s ∅ n)).
  - split; [done|]. set_solver.
  - intros pre n post s' Hl (-> & Hpre).
    assert (Hn : n ∈ Graph.roots_ (g_graph s)) by (rewrite <- elem_of_set_elems, Hl; set_solver).
    apply wp_bind. eapply wp_mono; [apply (isCycle_spec s Hok Hgr)| |].
    + apply (go_roots s Hgr) in Hn as (nd & ? & ?). by eexists.
    + set_solver.
    + rewrite size_empty. lia.
    + intros _ s' (_ & -> & Hf). apply wp_ret. split; [done|]. set_solver.
    + intros e s' (He & -> & m & Hm & Hcase). split; [done|]. split; [done|].
      exists n, m. split; [done|]. split; [done|].
      destruct Hcase as [(nd & _ & Hp)|]; [set_solver|done].
  - intros s' (-> & Hall). split; [done|]. intros root m Hroot Hm.
    apply (Hall root); [by rewrite elem_of_set_elems|done].
Qed.

(** C16: with fuel for one level more than there are nodes, checkGraphLoop always
    comes back without touching the graph; it returns exactly when no node
    reachable from a root is in a loop, and otherwise throws EINVAL. *)
Theorem checkGraphLoop_exact s fuel :
  structure_ok s → graph_ok s → size (paths_of s) < fuel →
  wp (checkGraphLoop fuel)
    (λ _ s', s' = s ∧ ∀ root m, root ∈ Graph.roots_ (g_graph s) →
       rtc (built_from s) root m → ¬ in_loop s m)
    (λ e s', s' = s ∧ (∃ msg, e = Exception EINVAL msg) ∧
       ∃ root m, root ∈ Graph.roots_ (g_graph s) ∧ rtc (built_from s) root m ∧ in_loop s m) s.
Proof. apply checkGraphLoop_finds. Qed.

Lemma checkGraphLoop_exact_witness :
  wp (checkGraphLoop 5) (λ _ s', s' = two_outputs) (λ _ _, False) two_outputs.
Proof.
  eapply wp_mono; [apply (checkGraphLoop_exact two_outputs 5)| |].
  - apply two_outputs_consistent.
  - apply two_outputs_graph_ok.
  - vm_compute. lia.
  - intros [] s' [H _]. exact H.
  - intros e s' (_ & _ & root & m & _ & _ & Hl).
    apply (acyclic_no_loop two_outputs m); [apply two_outputs_consistent|apply two_outputs_acyclic|exact Hl].
Defined.
