(* ===== verification/BuildPlan.v ===== *)
(** * The build plan (build_plan.h, build_plan.cpp)

    A plan collects the rules that must run to bring the targets up to date and
    hands out the ones whose inputs are all ready.  The state is the plan
    together with the graph it was made from. *)

From S2P Require Import Prelude GraphModel GraphChecks.

Module BuildPlan.
Record t := mk {
  rules_ : gset N;
  readyRules_ : gset N;
  numStarted_ : nat;
}.
Definition empty : t := mk ∅ ∅ 0.

Definition hasWork (p : t) : bool := negb (bool_decide (readyRules_ p = ∅)).
Definition done (p : t) : bool := bool_decide (numStarted_ p = size (rules_ p)).
Definition addRule (r : N) (p : t) : t := mk ({[r]} ∪ rules_ p) (readyRules_ p) (numStarted_ p).
Definition addReady (r : N) (p : t) : t := mk (rules_ p) ({[r]} ∪ readyRules_ p) (numStarted_ p).
Definition start (r : N) (p : t) : t := mk (rules_ p) (readyRules_ p ∖ {[r]}) (S (numStarted_ p)).
End BuildPlan.

(** The plan and the graph. *)
Record PState := mkP { p_plan : BuildPlan.t; p_g : GState }.
Definition plan_graph : lens PState GState := Lens p_g (λ g s, mkP (p_plan s) g).
Definition updPlan (f : BuildPlan.t → BuildPlan.t) : M PState unit :=
  modify (λ s, mkP (f (p_plan s)) (p_g s)).

Fixpoint addTarget (fuel : nat) (target : N) : M PState unit :=
  match fuel with
  | O => mabort OutOfFuel
  | S fuel =>
    nd ← zoom plan_graph (readNode target);
    if negb (Node.isDirty nd) then mret tt
    else
      match Node.childRule_ nd with
      | None => mret tt
      | Some rule =>
        plan ← gets p_plan;
        if bool_decide (rule ∈ BuildPlan.rules_ plan) then mret tt
        else
          r ← zoom plan_graph (readRule rule);
          massert (Rule.isDirty r);;
          updPlan (BuildPlan.addRule rule);;
          if Rule.ready r
          then
            plan ← gets p_plan;
            massert (negb (bool_decide (rule ∈ BuildPlan.readyRules_ plan)));;
            updPlan (BuildPlan.addReady rule)
          else foreach (Rule.inputs_ r) (addTarget fuel)
      end
  end.

(** The constructor [BuildPlan(NodeSet& targets)]. *)
Definition makePlan (fuel : nat) (targets : gset N) : M PState unit :=
  foreach (set_elems targets) (addTarget fuel);;
  plan ← gets p_plan;
  massert (bool_decide (BuildPlan.rules_ plan = ∅)
           || negb (bool_decide (BuildPlan.readyRules_ plan = ∅))).

Definition findWork : M PState (option N) :=
  plan ← gets p_plan;
  match set_elems (BuildPlan.readyRules_ plan) with
  | [] => mret None
  | rule :: _ => updPlan (BuildPlan.start rule);; mret (Some rule)
  end.

Definition notifyRuleBuilt (rule : N) : M PState unit :=
  plan ← gets p_plan;
  massert (negb (bool_decide (rule ∈ BuildPlan.readyRules_ plan)));;
  massert (bool_decide (rule ∈ BuildPlan.rules_ plan));;
  r ← zoom plan_graph (readRule rule);
  foreach (Rule.outputs_ r) (λ o,
    nd ← zoom plan_graph (readNode o);
    foreach (Node.parentRules_ nd) (λ parentRule,
      pr ← zoom plan_graph (readRule parentRule);
      plan ← gets p_plan;
      if Rule.ready pr && bool_decide (parentRule ∈ BuildPlan.rules_ plan)
      then updPlan (BuildPlan.addReady parentRule) else mret tt)).

(** ** What is in a plan *)

Definition rule_ready (s : GState) (r : N) : bool :=
  match g_rules s !! r with Some rd => Rule.ready rd | None => false end.

(** [needs s n r]: [n] is out of date and [r] is the rule that builds it. *)
Definition needs (s : GState) (n r : N) : Prop :=
  ∃ nd, g_nodes s !! n = Some nd ∧ Node.isDirty nd = true ∧ Node.childRule_ nd = Some r.

(** The rules the targets call for: the ones that build an out-of-date target,
    and, below a rule that is not ready, the ones that build its inputs. *)
Inductive needed (s : GState) (targets : gset N) : N → Prop :=
  | needed_target t r : t ∈ targets → needs s t r → needed s targets r
  | needed_input r rd i r' : needed s targets r → g_rules s !! r = Some rd →
      Rule.ready rd = false → i ∈ Rule.inputs_ rd → needs s i r' → needed s targets r'.

(** [i] has no rule left out of [R]. *)
Definition covered (s : GState) (R : gset N) (i : N) : Prop := ∀ r, needs s i r → r ∈ R.

(** The plan between two calls of addTarget; the rules of [open] are still
    being expanded. *)
Record plan_inv (s : GState) (targets open : gset N) (p : BuildPlan.t) : Prop := {
  pi_dirty r : r ∈ BuildPlan.rules_ p → ∃ rd, g_rules s !! r = Some rd ∧ Rule.isDirty rd = true;
  pi_ready r : r ∈ BuildPlan.readyRules_ p ↔ r ∈ BuildPlan.rules_ p ∧ rule_ready s r = true;
  pi_closed r rd i : r ∈ BuildPlan.rules_ p → r ∉ open → g_rules s !! r = Some rd →
    Rule.ready rd = false → i ∈ Rule.inputs_ rd → covered s (BuildPlan.rules_ p) i;
  pi_needed r : r ∈ BuildPlan.rules_ p → needed s targets r;
  pi_open r : r ∈ open → rule_ready s r = false;
  pi_started : BuildPlan.numStarted_ p = 0;
}.

Lemma rule_ready_inputs s r rd :
  counters_ok s → g_rules s !! r = Some rd →
  Rule.ready rd = true ↔ ∀ i, i ∈ Rule.inputs_ rd → node_ready s i = true.
Proof.
  intros Hc Hr. unfold Rule.ready. rewrite bool_decide_eq_true, (Hc r rd Hr). apply countb_all.
Qed.

(** An input that is not ready is out of date and built by a rule. *)
Lemma not_ready_needs s r rd :
  structure_ok s → counters_ok s → g_rules s !! r = Some rd → Rule.ready rd = false →
  ∃ i r', i ∈ Rule.inputs_ rd ∧ needs s i r'.
Proof.
  intros Hok Hc Hr Hnr. unfold Rule.ready in Hnr. rewrite bool_decide_eq_false, (Hc r rd Hr) in Hnr.
  apply countb_not_all in Hnr as (i & Hi & Hnri).
  destruct (so_input s Hok r rd i Hr Hi) as (nd & Hn & _).
  unfold node_ready in Hnri. rewrite Hn in Hnri. apply orb_false_iff in Hnri as [Hsrc Hd].
  unfold Node.isSource in Hsrc. destruct (Node.childRule_ nd) as [r'|] eqn:Hch.
  - exists i, r'. split; [done|]. exists nd. split; [done|]. split; [|done]. by destruct (Node.isDirty nd).
  - by rewrite bool_decide_eq_true_2 in Hsrc.
Qed.

(** In an acyclic graph, a non-empty set of rules in which every rule that is
    not ready has an out-of-date input built inside the set has a ready rule. *)
Lemma ready_exists s (R : gset N) r0 :
  structure_ok s → counters_ok s → acyclic s → r0 ∈ R →
  (∀ r, r ∈ R → is_Some (g_rules s !! r)) →
  (∀ r rd i, r ∈ R → g_rules s !! r = Some rd → Rule.ready rd = false →
     i ∈ Rule.inputs_ rd → covered s R i) →
  ∃ r, r ∈ R ∧ rule_ready s r = true.
Proof.
  intros Hok Hc [rank Hrank] Hr0 Hdom Hcov.
  assert (∀ k i r, rank i < k → r ∈ R → needs s i r → ∃ r, r ∈ R ∧ rule_ready s r = true) as Hind.
  { induction k as [|k IH]; intros i r Hk Hr Hi; [lia|].
    destruct (Hdom r Hr) as [rd Hrd]. destruct (Rule.ready rd) eqn:Hready.
    { exists r. split; [done|]. unfold rule_ready. by rewrite Hrd. }
    destruct (not_ready_needs s r rd) as (i' & r' & Hi' & Hn'); try done.
    apply (IH i' r'); [|by eapply Hcov|done].
    destruct Hi as (nd & Hn & _ & Hch). destruct (so_child s Hok i nd r Hn Hch) as (? & ? & ?).
    simplify_eq. assert (rank i' < rank i); [|lia]. apply Hrank. by exists r, rd. }
  destruct (Hdom r0 Hr0) as [rd Hrd]. destruct (Rule.ready rd) eqn:Hready.
  { exists r0. split; [done|]. unfold rule_ready. by rewrite Hrd. }
  destruct (not_ready_needs s r0 rd) as (i & r & Hi & Hn); try done.
  eapply (Hind (S (rank i)) i r); [lia|by eapply Hcov|done].
Qed.

Lemma covered_mono s R R' i : R ⊆ R' → covered s R i → covered s R' i.
Proof. unfold covered. set_solver. Qed.

(** Entering a rule: a ready one is complete at once, another one is opened. *)
Lemma plan_inv_ready s targets open p r rd :
  plan_inv s targets open p → g_rules s !! r = Some rd → Rule.isDirty rd = true →
  Rule.ready rd = true → needed s targets r →
  plan_inv s targets open (BuildPlan.addReady r (BuildPlan.addRule r p)).
Proof.
  intros [] Hr Hd Hready Hneed. split; simpl; try done.
  - intros r' [->%elem_of_singleton|Hr']%elem_of_union; eauto.
  - intros r'. rewrite !elem_of_union, !elem_of_singleton, pi_ready0. split; [|naive_solver].
    intros [->|?]; [|naive_solver]. split; [by left|]. unfold rule_ready. by rewrite Hr.
  - intros r' rd' i [->%elem_of_singleton|Hr']%elem_of_union Ho Hrd' Hnr Hi; [congruence|].
    eapply covered_mono; [|by eapply pi_closed0]. set_solver.
  - intros r' [->%elem_of_singleton|Hr']%elem_of_union; eauto.
Qed.

Lemma plan_inv_open s targets open p r rd :
  plan_inv s targets open p → g_rules s !! r = Some rd → Rule.isDirty rd = true →
  Rule.ready rd = false → needed s targets r →
  plan_inv s targets ({[r]} ∪ open) (BuildPlan.addRule r p).
Proof.
  intros [] Hr Hd Hready Hneed. split; simpl; try done.
  - intros r' [->%elem_of_singleton|Hr']%elem_of_union; eauto.
  - intros r'. rewrite elem_of_union, elem_of_singleton, pi_ready0. split; [naive_solver|].
    intros [[->|?] Hrr]; [|naive_solver]. unfold rule_ready in Hrr. rewrite Hr in Hrr. congruence.
  - intros r' rd' i Hr' Ho Hrd' Hnr Hi.
    eapply covered_mono; [|eapply (pi_closed0 r' rd')]; set_solver.
  - intros r' [->%elem_of_singleton|Hr']%elem_of_union; eauto.
  - intros r' [->%elem_of_singleton|Hr']%elem_of_union; [|auto]. unfold rule_ready. by rewrite Hr.
Qed.

(** Leaving it: its inputs have been walked. *)
Lemma plan_inv_close s targets open p r rd :
  plan_inv s targets ({[r]} ∪ open) p → g_rules s !! r = Some rd →
  (∀ i, i ∈ Rule.inputs_ rd → covered s (BuildPlan.rules_ p) i) →
  plan_inv s targets open p.
Proof.
  intros [] Hr Hcov. split; try done.
  - intros r' rd' i Hr' Ho Hrd' Hnr Hi. destruct (decide (r' = r)) as [->|Hne].
    + simplify_eq. auto.
    + eapply (pi_closed0 r' rd'); set_solver.
  - set_solver.
Qed.

Section make.
Context (s : GState) (targets : gset N).
Hypothesis Hok : structure_ok s.
Hypothesis Hch : dirty_child_ok s.

Lemma addTarget_spec fuel : ∀ open t p,
  plan_inv s targets open p → size (dom (g_rules s)) < fuel + size (BuildPlan.rules_ p) →
  is_Some (g_nodes s !! t) → (∀ r, needs s t r → needed s targets r) →
  returns (addTarget fuel t) (λ _ ps,
    p_g ps = s ∧ plan_inv s targets open (p_plan ps) ∧
    BuildPlan.rules_ p ⊆ BuildPlan.rules_ (p_plan ps) ∧
    covered s (BuildPlan.rules_ (p_plan ps)) t) (mkP p s).
Proof.
  induction fuel as [|fuel IH]; intros open t p Hinv Hfuel [nd Hn] Hneed.
  { assert (BuildPlan.rules_ p ⊆ dom (g_rules s)) as Hsub%subseteq_size; [|lia].
    intros r Hr. destruct (pi_dirty _ _ _ _ Hinv r Hr) as (rd & ? & _). by apply elem_of_dom. }
  simpl. apply wp_bind, wp_zoom. eapply wp_readNode; [done|]. simpl.
  destruct (Node.isDirty nd) eqn:Hd; simpl.
  2: { apply wp_ret. split_and!; [done|done|done|]. intros r (nd' & ? & ? & ?). congruence. }
  destruct (Node.childRule_ nd) as [r|] eqn:Hc.
  2: { apply wp_ret. split_and!; [done|done|done|]. intros r (nd' & ? & ? & ?). congruence. }
  assert (Hneeds : needs s t r) by by exists nd.
  assert (Honly : ∀ R : gset N, r ∈ R → covered s R t).
  { intros R HR r' (nd' & ? & ? & ?). simplify_eq. done. }
  apply wp_bind, wp_gets. simpl. case_bool_decide as Hin.
  { apply wp_ret. split_and!; auto. }
  destruct (so_child s Hok t nd r Hn Hc) as (rd & Hr & _).
  assert (Hrd : Rule.isDirty rd = true).
  { pose proof (Hch t nd r Hn Hc) as H. unfold node_dirty, rule_dirty in H.
    rewrite Hn, Hr in H. auto. }
  apply wp_bind, wp_zoom. eapply wp_readRule; [done|]. simpl.
  apply wp_bind, wp_massert; [done|]. apply wp_bind, wp_modify.
  destruct (Rule.ready rd) eqn:Hready.
  - apply wp_bind, wp_gets. simpl. apply wp_bind, wp_massert.
    { rewrite bool_decide_eq_false_2; [done|]. rewrite (pi_ready _ _ _ _ Hinv). naive_solver. }
    apply wp_modify. simpl. split_and!; [done|by eapply plan_inv_ready; eauto|set_solver|].
    apply Honly. set_solver.
  - assert (Hinv' := plan_inv_open _ _ _ _ r rd Hinv Hr Hrd Hready (Hneed r Hneeds)).
    apply (wp_foreach (λ pre ps, p_g ps = s ∧ plan_inv s targets ({[r]} ∪ open) (p_plan ps) ∧
      BuildPlan.rules_ (BuildPlan.addRule r p) ⊆ BuildPlan.rules_ (p_plan ps) ∧
      ∀ i, i ∈ pre → covered s (BuildPlan.rules_ (p_plan ps)) i)).
    + split_and!; [done|done|done|set_solver].
    + intros pre i post [p' g'] Hl (Hg & Hinv1 & Hsub & Hpre). simpl in *. subst g'.
      assert (Hi : i ∈ Rule.inputs_ rd) by (rewrite Hl; set_solver).
      eapply wp_mono; [apply (IH ({[r]} ∪ open)); try done| |done].
      * apply subseteq_size in Hsub. rewrite size_union, size_singleton in Hsub by set_solver. lia.
      * destruct (so_input s Hok r rd i Hr Hi) as (? & ? & _). by eexists.
      * intros r' Hr'. eapply needed_input; eauto.
      * intros [] [p'' g''] (Hg & Hinv2 & Hsub' & Hcov). simpl in *.
        split_and!; [done|done|set_solver|].
        intros j [Hj| ->%list_elem_of_singleton]%elem_of_app; [|done].
        eapply covered_mono; [|by apply Hpre]. set_solver.
    + intros [p' g'] (Hg & Hinv1 & Hsub & Hall). simpl in *.
      split_and!; [done|by eapply plan_inv_close|set_solver|]. apply Honly. set_solver.
Qed.

Lemma foreach_addTarget fuel :
  size (dom (g_rules s)) < fuel → (∀ t, t ∈ targets → is_Some (g_nodes s !! t)) →
  returns (foreach (set_elems targets) (addTarget fuel)) (λ _ ps,
    p_g ps = s ∧ plan_inv s targets ∅ (p_plan ps) ∧
    ∀ t, t ∈ targets → covered s (BuildPlan.rules_ (p_plan ps)) t) (mkP BuildPlan.empty s).
Proof.
  intros Hfuel Ht.
  apply (wp_foreach (λ pre ps, p_g ps = s ∧ plan_inv s targets ∅ (p_plan ps) ∧
    ∀ t, t ∈ pre → covered s (BuildPlan.rules_ (p_plan ps)) t)).
  - split_and!; [done| |set_solver]. split; simpl; set_solver.
  - intros pre t post [p g] Hl (Hg & Hinv & Hpre). simpl in *. subst g.
    assert (Hin : t ∈ targets) by (rewrite <- elem_of_set_elems, Hl; set_solver).
    eapply wp_mono; [apply (addTarget_spec fuel ∅ t p Hinv)| |done].
    + lia.
    + auto.
    + intros r Hr. by eapply needed_target.
    + intros [] [p' g'] (Hg & Hinv' & Hsub & Hcov). simpl in *. split_and!; [done|done|].
      intros t' [Ht'| ->%list_elem_of_singleton]%elem_of_app; [|done].
      eapply covered_mono; [|by apply Hpre]. set_solver.
  - intros [p g] (Hg & Hinv & Hall). split_and!; [done|done|].
    intros t Hin. apply Hall. by rewrite elem_of_set_elems.
Qed.
End make.

(** The constructor returns; nothing asserted fails. *)
Lemma makePlan_spec s targets fuel :
  consistent s → acyclic s → (∀ t, t ∈ targets → is_Some (g_nodes s !! t)) →
  size (g_rules s) < fuel →
  returns (makePlan fuel targets) (λ _ ps,
    p_g ps = s ∧ plan_inv s targets ∅ (p_plan ps) ∧
    (∀ t, t ∈ targets → covered s (BuildPlan.rules_ (p_plan ps)) t) ∧
    (BuildPlan.rules_ (p_plan ps) ≠ ∅ → BuildPlan.hasWork (p_plan ps) = true))
    (mkP BuildPlan.empty s).
Proof.
  intros [Hok Hc _ _ Hch] Hac Ht Hfuel. unfold makePlan. rewrite <- size_dom in Hfuel.
  apply wp_bind. eapply wp_mono; [by apply (foreach_addTarget s targets)| |done].
  intros [] [p g] (Hg & Hinv & Hcov). simpl in *. subst g.
  assert (Hwork : BuildPlan.rules_ p ≠ ∅ → BuildPlan.readyRules_ p ≠ ∅).
  { intros [r0 Hr0]%set_choose_L. destruct (ready_exists s (BuildPlan.rules_ p) r0) as (r & Hr & Hrr); try done.
    - intros r Hr. destruct (pi_dirty _ _ _ _ Hinv r Hr) as (rd & ? & _). by eexists.
    - intros r rd i Hr. eapply Hinv; set_solver.
    - assert (r ∈ BuildPlan.readyRules_ p) by by apply Hinv. set_solver. }
  apply wp_bind, wp_gets. simpl. apply wp_massert.
  { case_bool_decide as He; [done|]. by rewrite bool_decide_eq_false_2 by auto. }
  split_and!; [done|done|done|]. simpl.
  intros Hne. unfold BuildPlan.hasWork. by rewrite bool_decide_eq_false_2 by auto.
Qed.

Lemma plan_needed s targets p r :
  plan_inv s targets ∅ p → (∀ t, t ∈ targets → covered s (BuildPlan.rules_ p) t) →
  r ∈ BuildPlan.rules_ p ↔ needed s targets r.
Proof.
  intros Hinv Hcov. split; [apply Hinv|]. induction 1 as [t r Hin Hn|r rd i r' _ IH Hr Hnr Hi Hn].
  - by apply (Hcov t).
  - eapply (pi_closed _ _ _ _ Hinv r rd i); eauto. set_solver.
Qed.

(** C13: on a consistent acyclic graph the constructor of BuildPlan succeeds (none
    of its assertions fails) and the plan holds exactly the rules the targets
    need; the ready ones are exactly those whose counter is complete, and there
    is one to start with unless nothing is to be done. *)
Theorem makePlan_exact s targets fuel :
  consistent s → acyclic s → (∀ t, t ∈ targets → is_Some (g_nodes s !! t)) →
  size (g_rules s) < fuel →
  returns (makePlan fuel targets) (λ _ ps,
    p_g ps = s ∧ BuildPlan.numStarted_ (p_plan ps) = 0 ∧
    (∀ r, r ∈ BuildPlan.rules_ (p_plan ps) ↔ needed s targets r) ∧
    (∀ r, r ∈ BuildPlan.readyRules_ (p_plan ps) ↔ needed s targets r ∧ rule_ready s r = true) ∧
    (BuildPlan.rules_ (p_plan ps) ≠ ∅ → BuildPlan.hasWork (p_plan ps) = true))
    (mkP BuildPlan.empty s).
Proof.
  intros Hcs Hac Ht Hfuel. eapply wp_mono; [by apply makePlan_spec| |done].
  intros [] ps (Hg & Hinv & Hcov & Hwork).
  split_and!; [done|apply Hinv|intros r; by apply plan_needed| |done].
  intros r. rewrite <- (plan_needed _ _ (p_plan ps)) by done. apply Hinv.
Qed.

Lemma makePlan_exact_witness :
  returns (makePlan 3 {[4%N]}) (λ _ ps, BuildPlan.numStarted_ (p_plan ps) = 0)
    (mkP BuildPlan.empty two_outputs_dirty).
Proof.
  eapply wp_mono; [apply (makePlan_exact two_outputs_dirty {[4%N]} 3)| |done].
  - apply two_outputs_dirty_consistent.
  - apply two_outputs_dirty_acyclic.
  - intros t ->%elem_of_singleton. vm_compute. eexists. reflexivity.
  - vm_compute. lia.
  - intros [] ps H. apply H.
Defined.
