(* ===== verification/BuildCore.v ===== *)
(** * Finishing a rule (graph_parallel_builder.cpp)

    [markOutputsUpToDate] and [onRuleFinished] of GraphParallelBuilder: what a
    rule that ran does to the graph and to the plan.  [settled] strengthens
    [consistent]: a dirty rule has nothing but dirty outputs, i.e. no output was
    fetched from the cache or left behind when the rule became dirty.  The
    second part schedules: rules start and finish in any order, and the
    invariant [schedule_ok] gives safety, progress and the final result. *)

From S2P Require Import Prelude GraphModel GraphChecks BuildPlan.

Definition markOutputsUpToDate (rule : N) : M GState unit :=
  r ← readRule rule;
  foreach (Rule.outputs_ r) (λ o,
    updNode o (Node.setState UP_TO_DATE);;
    nd ← readNode o;
    foreach (Node.parentRules_ nd) Rule_markInputReady).

Definition onRuleFinished (rule : N) : M PState unit :=
  zoom plan_graph (
    markOutputsUpToDate rule;;
    r ← readRule rule;
    foreach (Rule.inputs_ r) (λ i,
      nd ← readNode i;
      if Node.isSource nd then updNode i (Node.setState UP_TO_DATE) else mret tt);;
    updRule rule (Rule.setState UP_TO_DATE));;
  notifyRuleBuilt rule.

Definition strict_outputs (s : GState) : Prop := ∀ r rd o,
  g_rules s !! r = Some rd → Rule.isDirty rd = true → o ∈ Rule.outputs_ rd →
  node_dirty s o = true.

Record settled (s : GState) : Prop := {
  st_structure : structure_ok s;
  st_counters : counters_ok s;
  st_inputs : dirty_inputs_ok s;
  st_outputs : strict_outputs s;
  st_child : dirty_child_ok s;
}.

(** ** One output becomes up to date *)

(** The rules of [pre] have one more ready input. *)
Definition bump (pre : list N) (r : N) (rd : Rule.t) : Rule.t :=
  Rule.assignReady (Rule.numInputsReady_ rd + (if decide (r ∈ pre) then 1 else 0)) rd.

Definition output_done (s : GState) (o : N) (s' : GState) : Prop :=
  g_graph s' = g_graph s ∧
  g_nodes s' = alter (Node.setState UP_TO_DATE) o (g_nodes s) ∧
  ∃ nd, g_nodes s !! o = Some nd ∧
    ∀ r, g_rules s' !! r = bump (Node.parentRules_ nd) r <$> g_rules s !! r.

Lemma assignReady_id r : Rule.assignReady (Rule.numInputsReady_ r) r = r.
Proof. by destruct r. Qed.

(** A rule with an input that is not ready has room for one more. *)
Lemma counter_room s r rd i :
  counters_ok s → g_rules s !! r = Some rd → i ∈ Rule.inputs_ rd → node_ready s i = false →
  Rule.numInputsReady_ rd < length (Rule.inputs_ rd).
Proof.
  intros Hc Hr Hi Hnr. rewrite (Hc r rd Hr).
  pose proof (countb_le_length (node_ready s) (Rule.inputs_ rd)).
  destruct (decide (countb (node_ready s) (Rule.inputs_ rd) = length (Rule.inputs_ rd))) as [He|]; [|lia].
  rewrite countb_all in He. rewrite (He i Hi) in Hnr. done.
Qed.

(** The parents of [o] learn that one more input is ready, whatever was written in
    the node before. *)
Lemma notify_parents_spec s s1 o nd :
  structure_ok s → counters_ok s → g_nodes s !! o = Some nd → node_ready s o = false →
  g_rules s1 = g_rules s →
  returns (foreach (Node.parentRules_ nd) Rule_markInputReady)
    (λ _ s', g_graph s' = g_graph s1 ∧ g_nodes s' = g_nodes s1 ∧
       ∀ r, g_rules s' !! r = bump (Node.parentRules_ nd) r <$> g_rules s !! r) s1.
Proof.
  intros Hok Hc Hn Hnr Heq.
  apply (wp_foreach (λ pre s', g_graph s' = g_graph s1 ∧ g_nodes s' = g_nodes s1 ∧
    ∀ r, g_rules s' !! r = bump pre r <$> g_rules s !! r)).
  - split_and!; [done|done|]. intros r. rewrite Heq. destruct (g_rules s !! r) as [rd|]; [|done].
    simpl. f_equal. unfold bump. rewrite decide_False by set_solver.
    by rewrite Nat.add_0_r, assignReady_id.
  - intros pre r post s' Hl (Hg & Hns & Hrs).
    assert (Hpar : r ∈ Node.parentRules_ nd) by (rewrite Hl; set_solver).
    destruct (so_parent s Hok o nd r Hn Hpar) as (rd & Hr & Hi).
    assert (Hpre : r ∉ pre).
    { pose proof (so_parents_nodup s Hok o nd Hn) as Hnd. rewrite Hl in Hnd.
      apply NoDup_app in Hnd as (_ & Hnd & _). set_solver. }
    pose proof (counter_room s r rd o Hc Hr Hi Hnr) as Hroom.
    pose proof (Hrs r) as Hr'. rewrite Hr in Hr'. simpl in Hr'.
    eapply wp_markInputReady; [done| |].
    { unfold bump. rewrite decide_False by done. simpl. lia. }
    split_and!; [done|done|]. intros r'. simpl. destruct (decide (r = r')) as [<-|Hne].
    + rewrite lookup_insert_eq, Hr. simpl. f_equal. unfold bump.
      rewrite decide_False, decide_True by set_solver. simpl. by rewrite Nat.add_0_r, Nat.add_1_r.
    + rewrite lookup_insert_ne, Hrs by done. destruct (g_rules s !! r'); [|done]. simpl. f_equal.
      unfold bump. repeat case_decide; try done; set_solver.
  - done.
Qed.

Lemma output_done_spec s o nd :
  structure_ok s → counters_ok s → g_nodes s !! o = Some nd → node_ready s o = false →
  returns (updNode o (Node.setState UP_TO_DATE);;
           n ← readNode o;
           foreach (Node.parentRules_ n) Rule_markInputReady)
    (λ _ s', output_done s o s') s.
Proof.
  intros Hok Hc Hn Hnr. apply wp_bind. eapply wp_updNode; [done|].
  apply wp_bind. eapply wp_readNode; [apply lookup_insert_eq|].
  eapply wp_mono; [by apply (notify_parents_spec s _ o nd)| |done]. intros [] s' (Hg & Hns & Hrs).
  split; [done|]. split; [|by exists nd].
  rewrite Hns. apply map_eq. intros m. simpl. destruct (decide (o = m)) as [<-|Hne].
  - by rewrite lookup_insert_eq, lookup_alter_eq, Hn.
  - by rewrite lookup_insert_ne, lookup_alter_ne by done.
Qed.

Lemma output_done_ready s o s' n :
  output_done s o s' → node_ready s' n = node_ready s n || bool_decide (n = o).
Proof.
  intros (_ & Hns & nd & Hn & _). unfold node_ready. rewrite Hns.
  destruct (decide (o = n)) as [<-|Hne].
  - rewrite lookup_alter_eq, Hn. simpl. rewrite bool_decide_eq_true_2 by done.
    by rewrite !orb_true_r.
  - rewrite lookup_alter_ne by done. rewrite bool_decide_eq_false_2 by done. by rewrite orb_false_r.
Qed.

Lemma output_done_shape s o s' : output_done s o s' → same_shape s s'.
Proof.
  intros (Hg & Hns & nd & Hn & Hrs). split; [| |done].
  - intros m. rewrite Hns. destruct (decide (o = m)) as [<-|Hne].
    + rewrite lookup_alter_eq, Hn. done.
    + by rewrite lookup_alter_ne.
  - intros r. rewrite Hrs. by destruct (g_rules s !! r).
Qed.

Lemma output_done_counters s o s' :
  structure_ok s → node_ready s o = false → output_done s o s' → counters_ok s → counters_ok s'.
Proof.
  intros Hok Hnr Hod Hc r rd' Hr'. pose proof Hod as (_ & _ & nd & Hn & Hrs).
  rewrite Hrs in Hr'. apply fmap_Some in Hr' as (rd & Hr & ->). simpl. rewrite (Hc r rd Hr).
  rewrite (countb_split (node_ready s') (node_ready s) (λ i, bool_decide (i = o) && true)).
  - rewrite countb_one by by apply (so_inputs_nodup s Hok r). rewrite andb_true_r. f_equal.
    case_decide as Hp; case_bool_decide as Hi; try done; exfalso.
    + destruct (so_parent s Hok o nd r Hn Hp) as (? & ? & ?). by simplify_eq.
    + destruct (so_input s Hok r rd o Hr Hi) as (? & ? & ?). by simplify_eq.
  - intros i _. rewrite andb_true_r. by apply output_done_ready.
  - intros i _. rewrite andb_true_r. case_bool_decide as Heq; [subst; by rewrite Hnr|by rewrite andb_false_r].
Qed.

(** Rules equal but for their counters. *)
Definition same_rules (s s' : GState) : Prop := ∀ r,
  Rule.assignReady 0 <$> g_rules s' !! r = Rule.assignReady 0 <$> g_rules s !! r.

(** Several outputs became up to date. *)
Definition outputs_done (s : GState) (outs : list N) (s' : GState) : Prop :=
  same_shape s s' ∧ counters_ok s' ∧ same_rules s s' ∧
  ∀ m, g_nodes s' !! m =
    (λ nd, if decide (m ∈ outs) then Node.setState UP_TO_DATE nd else nd) <$> g_nodes s !! m.

Lemma outputs_done_snoc s pre o s1 s2 :
  structure_ok s → node_ready s1 o = false → outputs_done s pre s1 → output_done s1 o s2 →
  outputs_done s (pre ++ [o]) s2.
Proof.
  intros Hok Hnr (Hs & Hc & Hr & Hn) Hod.
  assert (Hok1 : structure_ok s1) by by rewrite <- Hs. split_and!.
  - etrans; [exact Hs|]. by eapply output_done_shape.
  - by eapply output_done_counters.
  - intros r. rewrite <- (Hr r). destruct Hod as (_ & _ & nd & _ & Hrs). rewrite Hrs.
    by destruct (g_rules s1 !! r).
  - intros m. destruct Hod as (_ & Hns & _). rewrite Hns. destruct (decide (o = m)) as [<-|Hne].
    + rewrite lookup_alter_eq, Hn. destruct (g_nodes s !! o) as [nd|]; [|done]. simpl. f_equal.
      rewrite (decide_True (P := o ∈ pre ++ [o])) by set_solver. by case_decide.
    + rewrite lookup_alter_ne, Hn by done. destruct (g_nodes s !! m); [|done]. simpl. f_equal.
      repeat case_decide; try done; set_solver.
Qed.

Lemma markOutputsUpToDate_spec s r rd :
  structure_ok s → counters_ok s → g_rules s !! r = Some rd →
  (∀ o, o ∈ Rule.outputs_ rd → node_dirty s o = true) →
  returns (markOutputsUpToDate r) (λ _ s', outputs_done s (Rule.outputs_ rd) s') s.
Proof.
  intros Hok Hc Hr Hd. unfold markOutputsUpToDate. apply wp_bind. eapply wp_readRule; [done|].
  apply (wp_foreach (λ pre s', outputs_done s pre s')).
  - split_and!; [done|done|done|]. intros m. by destruct (g_nodes s !! m).
  - intros pre o post s1 Hl Hpre. pose proof Hpre as (Hs & Hc1 & _ & Hn1).
    assert (Ho : o ∈ Rule.outputs_ rd) by (rewrite Hl; set_solver).
    destruct (so_output s Hok r rd o Hr Ho) as (nd & Hn & Hch).
    assert (Hno : o ∉ pre).
    { pose proof (so_outputs_nodup s Hok r rd Hr) as Hnd. rewrite Hl in Hnd.
      apply NoDup_app in Hnd as (_ & Hnd & _). set_solver. }
    pose proof (Hn1 o) as Ho1. rewrite Hn in Ho1. simpl in Ho1. rewrite decide_False in Ho1 by done.
    assert (Hnr : node_ready s1 o = false).
    { unfold node_ready. rewrite Ho1. pose proof (Hd o Ho) as Hd'. unfold node_dirty in Hd'.
      rewrite Hn in Hd'. rewrite Hd'. unfold Node.isSource. by rewrite Hch. }
    eapply wp_mono; [eapply output_done_spec; [by rewrite <- Hs|done|done|done]| |done].
    intros [] s2 Hod. by eapply outputs_done_snoc.
  - done.
Qed.

(** The whole change to the graph when [r] has run. *)
Record finished (s : GState) (r : N) (rd : Rule.t) (s' : GState) : Prop := {
  f_shape : same_shape s s';
  f_counters : counters_ok s';
  f_rules r' : Rule.assignReady 0 <$> g_rules s' !! r' =
    (λ rd', Rule.assignReady 0 (if decide (r' = r) then Rule.setState UP_TO_DATE rd' else rd'))
      <$> g_rules s !! r';
  f_nodes m : g_nodes s' !! m = (λ nd,
      if decide (m ∈ Rule.outputs_ rd ∨ m ∈ Rule.inputs_ rd ∧ Node.childRule_ nd = None)
      then Node.setState UP_TO_DATE nd else nd) <$> g_nodes s !! m;
}.

(** Setting source files up to date changes no counter. *)
Lemma counters_sources s s' :
  g_rules s' = g_rules s → (∀ n, node_ready s' n = node_ready s n) → counters_ok s → counters_ok s'.
Proof.
  intros Hr Hn Hc r rd Hrd. rewrite Hr in Hrd. rewrite (Hc r rd Hrd). by apply countb_ext.
Qed.

Definition finishGraph (rule : N) : M GState unit :=
  markOutputsUpToDate rule;;
  r ← readRule rule;
  foreach (Rule.inputs_ r) (λ i,
    nd ← readNode i;
    if Node.isSource nd then updNode i (Node.setState UP_TO_DATE) else mret tt);;
  updRule rule (Rule.setState UP_TO_DATE).

(** The loop over the inputs, [pre] being done. *)
Definition sources_done (s s1 : GState) (outs pre : list N) (s2 : GState) : Prop :=
  same_shape s s2 ∧ g_rules s2 = g_rules s1 ∧ (∀ n, node_ready s2 n = node_ready s1 n) ∧
  ∀ m, g_nodes s2 !! m = (λ nd,
    if decide (m ∈ outs ∨ m ∈ pre ∧ Node.childRule_ nd = None)
    then Node.setState UP_TO_DATE nd else nd) <$> g_nodes s !! m.

Lemma sources_done_step s s1 outs pre i s2 nd2 :
  sources_done s s1 outs pre s2 → g_nodes s2 !! i = Some nd2 → Node.childRule_ nd2 = None →
  sources_done s s1 outs (pre ++ [i])
    (set_nodes (<[i := Node.setState UP_TO_DATE nd2]> (g_nodes s2)) s2).
Proof.
  intros (Hs & Hr & Hnr & Hn) Hi Hsrc. split_and!; [|done| |].
  - etrans; [exact Hs|]. split; [|done|done]. intros m. simpl. destruct (decide (i = m)) as [<-|].
    + by rewrite lookup_insert_eq, Hi.
    + by rewrite lookup_insert_ne.
  - intros m. rewrite <- Hnr. unfold node_ready. simpl. destruct (decide (i = m)) as [<-|].
    + rewrite lookup_insert_eq, Hi. unfold Node.isSource. simpl. by rewrite Hsrc.
    + by rewrite lookup_insert_ne.
  - intros m. simpl. destruct (decide (i = m)) as [<-|Hne].
    + rewrite lookup_insert_eq. rewrite Hn in Hi.
      apply fmap_Some in Hi as (nd & -> & ->). simpl. f_equal.
      assert (Node.childRule_ nd = None) as Hc by by destruct (decide (i ∈ outs ∨ i ∈ pre ∧ Node.childRule_ nd = None)).
      rewrite (decide_True (P := i ∈ outs ∨ i ∈ pre ++ [i] ∧ Node.childRule_ nd = None)) by set_solver.
      by case_decide.
    + rewrite lookup_insert_ne, Hn by done. destruct (g_nodes s !! m) as [nd|]; [|done]. simpl. f_equal.
      repeat case_decide; try done; set_solver.
Qed.

Lemma sources_done_skip s s1 outs pre i s2 nd2 :
  sources_done s s1 outs pre s2 → g_nodes s2 !! i = Some nd2 → Node.childRule_ nd2 ≠ None →
  sources_done s s1 outs (pre ++ [i]) s2.
Proof.
  intros (Hs & Hr & Hnr & Hn) Hi Hsrc. split_and!; [done|done|done|].
  intros m. rewrite Hn. destruct (g_nodes s !! m) as [nd|] eqn:Hm; [|done]. simpl. f_equal.
  destruct (decide (m = i)) as [->|]; [|repeat case_decide; try done; set_solver].
  rewrite Hn, Hm in Hi. simpl in Hi. simplify_eq.
  assert (Node.childRule_ nd ≠ None) as Hc by by destruct (decide (i ∈ outs ∨ i ∈ pre ∧ Node.childRule_ nd = None)).
  repeat case_decide; try done; naive_solver.
Qed.

Lemma finishGraph_spec s r rd :
  structure_ok s → counters_ok s → g_rules s !! r = Some rd →
  (∀ o, o ∈ Rule.outputs_ rd → node_dirty s o = true) →
  returns (finishGraph r) (λ _ s', finished s r rd s') s.
Proof.
  intros Hok Hc Hr Hd. unfold finishGraph. apply wp_bind.
  eapply wp_mono; [by apply markOutputsUpToDate_spec| |done].
  intros [] s1 (Hs & Hc1 & Hrs & Hns).
  destruct (same_shape_rule _ _ _ _ Hs Hr) as (rd1 & Hr1 & [= Hi1 _ _ _ _]).
  apply wp_bind. eapply wp_readRule; [done|]. apply wp_bind. rewrite Hi1.
  apply (wp_foreach (λ pre s2, sources_done s s1 (Rule.outputs_ rd) pre s2)).
  - split_and!; [done|done|done|]. intros m. rewrite Hns. destruct (g_nodes s !! m); [|done].
    simpl. f_equal. repeat case_decide; try done; set_solver.
  - intros pre i post s2 Hl Hpre. pose proof Hpre as (Hs2 & _).
    assert (Hi : i ∈ Rule.inputs_ rd) by (rewrite Hl; set_solver).
    destruct (so_input s Hok r rd i Hr Hi) as (nd & Hn & _).
    destruct (same_shape_node _ _ _ _ Hs2 Hn) as (nd2 & Hn2 & _).
    apply wp_bind. eapply wp_readNode; [done|]. unfold Node.isSource. case_bool_decide as Hsrc.
    + eapply wp_updNode; [done|]. by apply sources_done_step.
    + apply wp_ret. by eapply sources_done_skip.
  - intros s2 (Hs2 & Hr2 & Hnr2 & Hn2). rewrite <- Hr2 in Hr1.
    eapply wp_updRule; [done|].
    assert (Hc2 : counters_ok s2) by by eapply counters_sources.
    split; simpl.
    + etrans; [exact Hs2|]. split; [done| |done]. intros r'. simpl.
      destruct (decide (r = r')) as [<-|]; [by rewrite lookup_insert_eq, Hr1|by rewrite lookup_insert_ne].
    + intros r' rd' Hr'. simpl in Hr'. destruct (decide (r = r')) as [<-|].
      * rewrite lookup_insert_eq in Hr'. simplify_eq. exact (Hc2 r rd1 Hr1).
      * rewrite lookup_insert_ne in Hr' by done. by apply (Hc2 r').
    + intros r'. destruct (decide (r = r')) as [<-|].
      * rewrite lookup_insert_eq, Hr. simpl. f_equal. rewrite decide_True by done.
        rewrite Hr2 in Hr1. pose proof (Hrs r) as H. rewrite Hr1, Hr in H. simpl in H.
        injection H as H. destruct rd, rd1. unfold Rule.assignReady, Rule.setState in *. simpl in *.
        by simplify_eq.
      * rewrite lookup_insert_ne by done. rewrite Hr2, Hrs. destruct (g_rules s !! r'); [|done].
        simpl. by rewrite decide_False by congruence.
    + done.
Qed.

Lemma onRuleFinished_eq r :
  onRuleFinished r = (zoom plan_graph (finishGraph r);; notifyRuleBuilt r).
Proof. done. Qed.

(** ** The state after a rule ran *)

Section finished.
Context (s : GState) (r : N) (rd : Rule.t) (s' : GState).
Hypothesis Hset : settled s.
Hypothesis Hr : g_rules s !! r = Some rd.
Hypothesis Hready : Rule.ready rd = true.
Hypothesis Hf : finished s r rd s'.

Lemma finished_rule_dirty r' : rule_dirty s' r' = if decide (r' = r) then false else rule_dirty s r'.
Proof.
  pose proof (f_rules _ _ _ _ Hf r') as H. unfold rule_dirty.
  destruct (g_rules s !! r') as [rd'|] eqn:E; simpl in H.
  - apply fmap_Some in H as (rd2 & -> & H).
    assert (Rule.state_ rd2 = Rule.state_ (if decide (r' = r) then Rule.setState UP_TO_DATE rd' else rd')) as H'
      by (by injection H).
    unfold Rule.isDirty. rewrite H'. by case_decide.
  - apply fmap_None in H. rewrite H. by case_decide.
Qed.

Lemma finished_output_clean o : o ∈ Rule.outputs_ rd → node_dirty s' o = false.
Proof.
  intros Ho. unfold node_dirty. rewrite (f_nodes _ _ _ _ Hf).
  destruct (g_nodes s !! o); [|done]. simpl. by rewrite decide_True by auto.
Qed.

(** Every input of the rule is up to date: it was ready, or it is a source. *)
Lemma finished_input_clean i : i ∈ Rule.inputs_ rd → node_dirty s' i = false.
Proof.
  intros Hi. unfold node_dirty. rewrite (f_nodes _ _ _ _ Hf).
  destruct (g_nodes s !! i) as [nd|] eqn:Hn; [|done]. simpl. case_decide as Hd; [done|].
  pose proof (proj1 (rule_ready_inputs s r rd (st_counters _ Hset) Hr) Hready i Hi) as Hnr.
  unfold node_ready in Hnr. rewrite Hn in Hnr. unfold Node.isSource in Hnr.
  destruct (decide (Node.childRule_ nd = None)) as [Hc|Hc]; [set_solver|].
  rewrite bool_decide_eq_false_2 in Hnr by done. simpl in Hnr. by destruct (Node.isDirty nd).
Qed.

Lemma finished_node_dirty m : node_dirty s' m = true → node_dirty s m = true.
Proof.
  unfold node_dirty. rewrite (f_nodes _ _ _ _ Hf). destruct (g_nodes s !! m); [|done]. simpl.
  by case_decide.
Qed.

(** The outputs of the other rules do not change. *)
Lemma finished_other_output r' rd' o :
  r' ≠ r → g_rules s !! r' = Some rd' → o ∈ Rule.outputs_ rd' → node_dirty s' o = node_dirty s o.
Proof.
  intros Hne Hr' Ho. pose proof (st_structure _ Hset) as Hok.
  destruct (so_output s Hok r' rd' o Hr' Ho) as (nd & Hn & Hc).
  unfold node_dirty. rewrite (f_nodes _ _ _ _ Hf), Hn. simpl. rewrite decide_False; [done|].
  intros [Ho'|[_ ?]]; [|congruence].
  destruct (so_output s Hok r rd o Hr Ho') as (? & ? & ?). simplify_eq.
Qed.

Lemma finished_settled : settled s'.
Proof.
  pose proof (st_structure _ Hset) as Hok. pose proof (f_shape _ _ _ _ Hf) as Hs.
  assert (Hs' : same_shape s' s) by by symmetry.
  split.
  - by rewrite <- Hs.
  - apply Hf.
  - intros r' rd' i Hr' Hi Hd. rewrite finished_rule_dirty. shape_rule Hs' Hr'. case_decide as Heq.
    + subst r'. assert (x = rd) as -> by congruence. rewrite finished_input_clean in Hd by congruence. done.
    + eapply (st_inputs _ Hset r' x i); [done|congruence|by apply finished_node_dirty].
  - intros r' rd' o Hr' Hd Ho. shape_rule Hs' Hr'.
    assert (rule_dirty s' r' = true) as Hd' by (unfold rule_dirty; by rewrite Hr').
    rewrite finished_rule_dirty in Hd'. case_decide as Heq; [done|].
    rewrite (finished_other_output r' x o) by (try done; congruence).
    eapply (st_outputs _ Hset r' x); [done| |congruence]. unfold rule_dirty in Hd'. by rewrite Hl in Hd'.
  - intros n nd r' Hn Hc Hd. shape_node Hs' Hn. rewrite finished_rule_dirty.
    destruct (so_child s Hok n x r') as (rd' & Hr' & Ho); [done|congruence|].
    case_decide as Heq.
    + subst r'. assert (rd' = rd) as -> by congruence. by rewrite finished_output_clean in Hd.
    + eapply (st_child _ Hset n x); [done|congruence|by apply finished_node_dirty].
Qed.
End finished.
