(* ===== verification/BuildSchedule.v ===== *)
(** * The build loop as a transition system (graph_parallel_builder.cpp)

    While the plan is not done, GraphParallelBuilder::buildThread takes ready
    rules out of the plan (at most [numThreads] run at a time) and, when a
    process ends, finishes its rule.  [bstep] has these two steps; which of the
    running processes ends first is not determined.  The invariant
    [schedule_ok] gives the order of the commands, progress and the result. *)

From S2P Require Import Prelude GraphModel GraphChecks BuildPlan BuildCore.

(** ** BuildPlan::notifyRuleBuilt *)

(** [p] reads an output of [rd]. *)
Definition reads_output (s : GState) (rd : Rule.t) (p : N) : Prop :=
  ∃ o nd, o ∈ Rule.outputs_ rd ∧ g_nodes s !! o = Some nd ∧ p ∈ Node.parentRules_ nd.

(** The plan with the ready rules among those of [Q] added. *)
Definition woken (s : GState) (Q : N → Prop) (p p' : BuildPlan.t) : Prop :=
  BuildPlan.rules_ p' = BuildPlan.rules_ p ∧
  BuildPlan.numStarted_ p' = BuildPlan.numStarted_ p ∧
  ∀ r, r ∈ BuildPlan.readyRules_ p' ↔
    r ∈ BuildPlan.readyRules_ p ∨ r ∈ BuildPlan.rules_ p ∧ rule_ready s r = true ∧ Q r.

Lemma woken_refl s p : woken s (λ _, False) p p.
Proof. unfold woken. naive_solver. Qed.

Lemma woken_ext s (Q Q' : N → Prop) p p' :
  (∀ r, Q r ↔ Q' r) → woken s Q p p' → woken s Q' p p'.
Proof. unfold woken. intros HQ (? & ? & H). split_and!; try done. intros r. rewrite H. naive_solver. Qed.

Lemma woken_trans s (Q1 Q2 : N → Prop) p1 p2 p3 :
  woken s Q1 p1 p2 → woken s Q2 p2 p3 → woken s (λ r, Q1 r ∨ Q2 r) p1 p3.
Proof.
  unfold woken. intros (Hr1 & Hs1 & H1) (Hr2 & Hs2 & H2). split_and!; [congruence|congruence|].
  intros r. rewrite H2, H1, Hr1. naive_solver.
Qed.

Lemma wake_parents_spec s p (l : list N) :
  (∀ r, r ∈ l → is_Some (g_rules s !! r)) →
  returns (foreach l (λ parentRule,
      pr ← zoom plan_graph (readRule parentRule);
      plan ← gets p_plan;
      if Rule.ready pr && bool_decide (parentRule ∈ BuildPlan.rules_ plan)
      then updPlan (BuildPlan.addReady parentRule) else mret tt))
    (λ _ ps, p_g ps = s ∧ woken s (λ r, r ∈ l) p (p_plan ps)) (mkP p s).
Proof.
  intros Hl. apply (wp_foreach (λ pre ps, p_g ps = s ∧ woken s (λ r, r ∈ pre) p (p_plan ps))).
  - split; [done|]. eapply woken_ext; [|apply woken_refl]. set_solver.
  - intros pre r post [p1 g1] Heq [Hg Hw]. simpl in *. subst g1.
    destruct (Hl r) as [rd Hr]; [rewrite Heq; set_solver|].
    apply wp_bind, wp_zoom. eapply wp_readRule; [done|]. simpl. apply wp_bind, wp_gets. simpl.
    assert (Hrr : rule_ready s r = Rule.ready rd) by (unfold rule_ready; by rewrite Hr).
    destruct (Rule.ready rd && _) eqn:Hb.
    + apply andb_true_iff in Hb as [Hready Hin%bool_decide_eq_true]. apply wp_modify. split; [done|].
      eapply (woken_ext _ (λ r', r' ∈ pre ∨ r' = r)); [set_solver|]. eapply woken_trans; [done|].
      split_and!; [done|done|]. simpl. intros r'. rewrite elem_of_union, elem_of_singleton. naive_solver.
    + apply wp_ret. split; [done|].
      eapply (woken_ext _ (λ r', r' ∈ pre ∨ r' = r)); [set_solver|]. eapply woken_trans; [done|].
      split_and!; [done|done|]. intros r'. simpl. split; [by left|].
      intros [?|(Hin & Hrd & ->)]; [done|]. rewrite <- Hrr, Hrd in Hb.
      by rewrite bool_decide_eq_true_2 in Hb.
  - done.
Qed.

Lemma notifyRuleBuilt_spec s p r rd :
  structure_ok s → g_rules s !! r = Some rd →
  r ∉ BuildPlan.readyRules_ p → r ∈ BuildPlan.rules_ p →
  returns (notifyRuleBuilt r)
    (λ _ ps, p_g ps = s ∧ woken s (reads_output s rd) p (p_plan ps)) (mkP p s).
Proof.
  intros Hok Hr Hnr Hin. unfold notifyRuleBuilt. apply wp_bind, wp_gets. simpl.
  apply wp_bind, wp_massert; [by rewrite bool_decide_eq_false_2|].
  apply wp_bind, wp_massert; [by rewrite bool_decide_eq_true_2|].
  apply wp_bind, wp_zoom. eapply wp_readRule; [done|]. simpl.
  apply (wp_foreach (λ pre ps, p_g ps = s ∧ woken s (λ q, ∃ o nd, o ∈ pre ∧
    g_nodes s !! o = Some nd ∧ q ∈ Node.parentRules_ nd) p (p_plan ps))).
  - split; [done|]. eapply woken_ext; [|apply woken_refl]. set_solver.
  - intros pre o post [p1 g1] Heq [Hg Hw]. simpl in *. subst g1.
    destruct (so_output s Hok r rd o Hr) as (nd & Hn & _); [rewrite Heq; set_solver|].
    apply wp_bind, wp_zoom. eapply wp_readNode; [done|]. simpl.
    eapply wp_mono; [apply (wake_parents_spec s p1)| |done].
    + intros q Hq. destruct (so_parent s Hok o nd q Hn Hq) as (? & ? & _). by eexists.
    + intros [] [p2 g2] [Hg Hw']. simpl in *. split; [done|].
      eapply woken_ext; [|eapply woken_trans; [exact Hw|exact Hw']]. intros q. simpl. split.
      * intros [(o' & nd' & ? & ? & ?)|Hq]; [exists o', nd'; set_solver|exists o, nd; set_solver].
      * intros (o' & nd' & [Ho'| ->%list_elem_of_singleton]%elem_of_app & Hn' & Hq); [left; by exists o', nd'|].
        right. naive_solver.
  - done.
Qed.

(** ** Hashes and timestamps

    When a process ends, buildThread sets the timestamp of the rule and, after
    reading its depfile, recomputes hashes.  Scheduling sees neither. *)

Definition node_build (nd : Node.t) :=
  (node_shape nd, Node.isLazyFetched_ nd, Node.state_ nd).
Definition rule_build (rd : Rule.t) :=
  (rule_shape rd, Rule.state_ rd, Rule.numInputsReady_ rd).

Record same_build (s s' : GState) : Prop := {
  sb_nodes n : node_build <$> g_nodes s !! n = node_build <$> g_nodes s' !! n;
  sb_rules r : rule_build <$> g_rules s !! r = rule_build <$> g_rules s' !! r;
  sb_graph : g_graph s = g_graph s';
}.

#[export] Instance same_build_equiv : Equivalence same_build.
Proof.
  split.
  - by split.
  - intros s s' []. by split.
  - intros s1 s2 s3 [] []. split; congruence.
Qed.

#[export] Instance same_build_shape : subrelation same_build same_shape.
Proof.
  intros s s' [Hn Hr Hg]. split; [| |done].
  - intros n. specialize (Hn n). destruct (g_nodes s !! n), (g_nodes s' !! n); try done.
    injection Hn. intros. simpl. unfold node_shape. congruence.
  - intros r. specialize (Hr r). destruct (g_rules s !! r), (g_rules s' !! r); try done.
    injection Hr. intros. simpl. unfold rule_shape. congruence.
Qed.

Lemma build_rule s s' r rd :
  same_build s s' → g_rules s !! r = Some rd →
  ∃ rd', g_rules s' !! r = Some rd' ∧ rule_build rd' = rule_build rd.
Proof.
  intros [_ Hr _] H. specialize (Hr r). rewrite H in Hr. simpl in Hr.
  symmetry in Hr. apply fmap_Some in Hr as (rd' & -> & ->). eauto.
Qed.

Lemma build_node s s' n nd :
  same_build s s' → g_nodes s !! n = Some nd →
  ∃ nd', g_nodes s' !! n = Some nd' ∧ node_build nd' = node_build nd.
Proof.
  intros [Hn _ _] H. specialize (Hn n). rewrite H in Hn. simpl in Hn.
  symmetry in Hn. apply fmap_Some in Hn as (nd' & -> & ->). eauto.
Qed.

(** A test that reads one object only through [node_build] or [rule_build]. *)
Ltac build_congr H n :=
  specialize (H n);
  match type of H with _ <$> ?a = _ <$> ?b => destruct a, b end; try done;
  cbn in H; injection H; intros; unfold Node.isDirty, Node.isSource, Rule.isDirty, Rule.ready;
  repeat match goal with E : _ = _ |- _ => try rewrite E; clear E end; done.

#[export] Instance node_dirty_proper : Proper (same_build ==> eq ==> eq) node_dirty.
Proof. intros s s' [H _ _] n ? <-. unfold node_dirty. build_congr H n. Qed.
#[export] Instance node_ready_proper : Proper (same_build ==> eq ==> eq) node_ready.
Proof. intros s s' [H _ _] n ? <-. unfold node_ready. build_congr H n. Qed.
#[export] Instance rule_dirty_proper : Proper (same_build ==> eq ==> eq) rule_dirty.
Proof. intros s s' [_ H _] n ? <-. unfold rule_dirty. build_congr H n. Qed.
#[export] Instance rule_ready_proper : Proper (same_build ==> eq ==> eq) rule_ready.
Proof. intros s s' [_ H _] n ? <-. unfold rule_ready. build_congr H n. Qed.

#[export] Instance needs_proper : Proper (same_build ==> eq ==> eq ==> iff) needs.
Proof.
  cut (∀ s s' n r, same_build s s' → needs s n r → needs s' n r).
  { intros H s s' Hs n ? <- r ? <-. split; apply H; [done|by symmetry]. }
  intros s s' n r Hs (nd & Hn & Hd & Hc). destruct (build_node s s' n nd Hs Hn) as (nd' & Hn' & Hb).
  injection Hb as _ Hc' _ _ Hs'. exists nd'. unfold Node.isDirty in *. by rewrite Hs', Hc'.
Qed.

#[export] Instance covered_proper : Proper (same_build ==> eq ==> eq ==> iff) covered.
Proof. intros s s' Hs R ? <- i ? <-. unfold covered. by setoid_rewrite Hs. Qed.

Lemma settled_build s s' : same_build s s' → settled s → settled s'.
Proof.
  intros Hs [Hst Hc Hi Ho Hch]. assert (Hs' : same_build s' s) by by symmetry.
  split.
  - by rewrite <- Hs.
  - intros r rd Hr. destruct (build_rule _ _ _ _ Hs' Hr) as (rd' & Hr' & [= <- _ _ _ _ _ <-]).
    rewrite (Hc r rd' Hr'). apply countb_ext. intros x _. by rewrite Hs.
  - intros r rd i Hr Hin. destruct (build_rule _ _ _ _ Hs' Hr) as (rd' & Hr' & [= Heq _ _ _ _ _ _]).
    rewrite <- !Hs. apply (Hi r rd'); [done|congruence].
  - intros r rd o Hr Hd Hin. destruct (build_rule _ _ _ _ Hs' Hr) as (rd' & Hr' & [= _ Heq _ _ _ Hst' _]).
    rewrite <- Hs. apply (Ho r rd'); [done|unfold Rule.isDirty in *; by rewrite Hst'|congruence].
  - intros n nd r Hn Hcr. destruct (build_node _ _ _ _ Hs' Hn) as (nd' & Hn' & [= _ Heq _ _ _]).
    rewrite <- !Hs. apply (Hch n nd'); [done|congruence].
Qed.

#[export] Instance settled_proper : Proper (same_build ==> iff) settled.
Proof. intros s s' Hs. split; by apply settled_build. Qed.

(** ** The transition system *)

(** [b_running] are the rules whose process runs, [b_failed] the ones whose
    process failed ([result_] is SUCCEEDED as long as there is none). *)
Record BState := mkB { b_ps : PState; b_running : gset N; b_failed : gset N }.
Definition b_plan (b : BState) : BuildPlan.t := p_plan (b_ps b).
Definition b_graph (b : BState) : GState := p_g (b_ps b).

Arguments b_plan !_ /.
Arguments b_graph !_ /.

Inductive event := Start (r : N) | Finish (r : N) | Failed (r : N).

Inductive bstep (numThreads : nat) (b : BState) : event → BState → Prop :=
  | bstep_start r ps' :
      b_failed b = ∅ → BuildPlan.done (b_plan b) = false →
      BuildPlan.hasWork (b_plan b) = true → size (b_running b) < numThreads →
      findWork (b_ps b) = Ret (Some r) ps' →
      bstep numThreads b (Start r) (mkB ps' ({[r]} ∪ b_running b) (b_failed b))
  | bstep_finish r s1 ps' :
      r ∈ b_running b → same_build (b_graph b) s1 →
      onRuleFinished r (mkP (b_plan b) s1) = Ret tt ps' →
      bstep numThreads b (Finish r) (mkB ps' (b_running b ∖ {[r]}) (b_failed b))
  | bstep_failed r s1 :
      r ∈ b_running b → same_build (b_graph b) s1 →
      bstep numThreads b (Failed r)
        (mkB (mkP (b_plan b) s1) (b_running b ∖ {[r]}) ({[r]} ∪ b_failed b)).

Inductive runs (numThreads : nat) (b : BState) : list event → BState → Prop :=
  | runs_nil : runs numThreads b [] b
  | runs_snoc tr b' e b'' : runs numThreads b tr b' → bstep numThreads b' e b'' →
      runs numThreads b (tr ++ [e]) b''.

(** The rules that were handed out. *)
Definition started (b : BState) : gset N :=
  filter (λ r, rule_dirty (b_graph b) r = false ∨ r ∈ b_running b ∪ b_failed b)
         (BuildPlan.rules_ (b_plan b)).

Record schedule_ok (targets : gset N) (b : BState) : Prop := {
  sc_settled : settled (b_graph b);
  sc_acyclic : acyclic (b_graph b);
  sc_rules r : r ∈ BuildPlan.rules_ (b_plan b) → is_Some (g_rules (b_graph b) !! r);
  sc_ready r : r ∈ BuildPlan.readyRules_ (b_plan b) →
    r ∈ BuildPlan.rules_ (b_plan b) ∧ rule_dirty (b_graph b) r = true ∧
    rule_ready (b_graph b) r = true ∧ r ∉ b_running b ∪ b_failed b;
  sc_busy r : r ∈ b_running b ∪ b_failed b →
    r ∈ BuildPlan.rules_ (b_plan b) ∧ rule_dirty (b_graph b) r = true ∧
    rule_ready (b_graph b) r = true;
  sc_disjoint : b_running b ## b_failed b;
  sc_all r : r ∈ BuildPlan.rules_ (b_plan b) → rule_dirty (b_graph b) r = true →
    rule_ready (b_graph b) r = true →
    r ∈ BuildPlan.readyRules_ (b_plan b) ∪ (b_running b ∪ b_failed b);
  sc_closed r rd i : r ∈ BuildPlan.rules_ (b_plan b) → g_rules (b_graph b) !! r = Some rd →
    Rule.ready rd = false → i ∈ Rule.inputs_ rd →
    covered (b_graph b) (BuildPlan.rules_ (b_plan b)) i;
  sc_targets t : t ∈ targets → covered (b_graph b) (BuildPlan.rules_ (b_plan b)) t;
  sc_started : BuildPlan.numStarted_ (b_plan b) = size (started b);
}.

(** Hashes and timestamps do not matter. *)
Lemma schedule_ok_build targets b s1 :
  schedule_ok targets b → same_build (b_graph b) s1 →
  schedule_ok targets (mkB (mkP (b_plan b) s1) (b_running b) (b_failed b)).
Proof.
  intros Hb Hs. destruct Hb.
  split; simpl; try (setoid_rewrite <- Hs; done); try done.
  - intros r Hr. destruct (sc_rules0 r Hr) as [rd Hrd].
    destruct (build_rule _ _ _ _ Hs Hrd) as (rd' & ? & _). by eexists.
  - intros r rd i Hr Hrd Hnr Hi. assert (Hs' : same_build s1 (b_graph b)) by by symmetry.
    destruct (build_rule _ _ _ _ Hs' Hrd) as (rd' & Hrd' & [= Hin _ _ _ _ _ Hk]).
    rewrite <- Hs. eapply (sc_closed0 r rd'); [done|done| |congruence].
    unfold Rule.ready in *. by rewrite Hin, Hk.
  - rewrite sc_started0. f_equal. unfold started. simpl. apply set_eq. intros r.
    rewrite !elem_of_filter. by rewrite Hs.
Qed.

(** *** The effect of finishing a rule on the predicates of the schedule *)

Section finish.
Context (s : GState) (r : N) (rd : Rule.t) (s' : GState).
Hypothesis Hset : settled s.
Hypothesis Hr : g_rules s !! r = Some rd.
Hypothesis Hdirty : rule_dirty s r = true.
Hypothesis Hready : rule_ready s r = true.
Hypothesis Hf : finished s r rd s'.

Lemma finished_node_ready n : node_ready s n = true → node_ready s' n = true.
Proof.
  unfold node_ready. rewrite (f_nodes _ _ _ _ Hf). destruct (g_nodes s !! n) as [nd|]; [|done].
  simpl. case_decide; [|done]. intros _. unfold Node.isSource, Node.isDirty. simpl. apply orb_true_r.
Qed.

(** The nodes that become ready are the outputs of the rule. *)
Lemma finished_new_ready n :
  node_ready s n = false → node_ready s' n = true → n ∈ Rule.outputs_ rd.
Proof.
  unfold node_ready. rewrite (f_nodes _ _ _ _ Hf). destruct (g_nodes s !! n) as [nd|]; [|done].
  simpl. case_decide as Hd; [|congruence]. destruct Hd as [?|[_ Hsrc]]; [done|].
  unfold Node.isSource. by rewrite Hsrc.
Qed.

Lemma finished_rule r' rd' :
  g_rules s' !! r' = Some rd' →
  ∃ rd0, g_rules s !! r' = Some rd0 ∧ Rule.inputs_ rd0 = Rule.inputs_ rd' ∧
         Rule.outputs_ rd0 = Rule.outputs_ rd'.
Proof.
  intros Hr'. assert (same_shape s' s) as Hs by by symmetry; apply Hf.
  shape_rule Hs Hr'. naive_solver.
Qed.

Lemma finished_rule_ready r' : rule_ready s r' = true → rule_ready s' r' = true.
Proof.
  unfold rule_ready. destruct (g_rules s !! r') as [rd0|] eqn:Hr0; [|done]. intros H.
  pose proof (f_shape _ _ _ _ Hf) as Hs. shape_rule Hs Hr0. rewrite Hl.
  eapply rule_ready_inputs; [apply Hf|done|]. intros i Hi. apply finished_node_ready.
  eapply rule_ready_inputs; [apply Hset|done|done|congruence].
Qed.

(** A rule that becomes ready reads an output of the finished rule. *)
Lemma finished_woken r' :
  rule_ready s r' = false → rule_ready s' r' = true → reads_output s' rd r'.
Proof.
  unfold rule_ready. destruct (g_rules s' !! r') as [rd'|] eqn:Hr'; [|done].
  destruct (finished_rule r' rd' Hr') as (rd0 & Hr0 & Hi0 & _). rewrite Hr0. intros Hn Hy.
  unfold Rule.ready in Hn. rewrite bool_decide_eq_false, (st_counters _ Hset r' rd0 Hr0) in Hn.
  apply countb_not_all in Hn as (i & Hi & Hni).
  assert (node_ready s' i = true) as Hyi.
  { eapply rule_ready_inputs; [apply Hf|done|done|congruence]. }
  assert (structure_ok s') as Hok by (rewrite <- (f_shape _ _ _ _ Hf); apply Hset).
  destruct (so_input s' Hok r' rd' i Hr') as (nd & Hn & Hp); [congruence|].
  exists i, nd. split_and!; [|done|done]. by apply finished_new_ready.
Qed.

(** Before that it was out of date and not ready. *)
Lemma reads_output_before r' :
  reads_output s' rd r' → rule_dirty s r' = true ∧ rule_ready s r' = false.
Proof.
  intros (o & nd' & Ho & Hn' & Hp). assert (same_shape s' s) as Hs by by symmetry; apply Hf.
  shape_node Hs Hn'. pose proof (st_structure _ Hset) as Hok.
  destruct (so_parent s Hok o x r') as (rd' & Hr' & Hi); [done|congruence|].
  assert (Hod : node_dirty s o = true).
  { eapply (st_outputs _ Hset r rd); [done| |done]. pose proof Hdirty as Hd. unfold rule_dirty in Hd. by rewrite Hr in Hd. }
  split; [by eapply (st_inputs _ Hset r' rd' o)|].
  unfold rule_ready. rewrite Hr'. destruct (Rule.ready rd') eqn:E; [|done].
  pose proof (proj1 (rule_ready_inputs s r' rd' (st_counters _ Hset) Hr') E o Hi) as Hnr.
  destruct (so_output s Hok r rd o Hr Ho) as (nd & Hn & Hc). simplify_eq.
  unfold node_ready, node_dirty, Node.isSource in *. rewrite Hl in Hod, Hnr. by rewrite Hod, Hc in Hnr.
Qed.

Lemma finished_needs i r' : needs s' i r' → needs s i r'.
Proof.
  intros (nd' & Hn' & Hd & Hc). assert (same_shape s' s) as Hs by by symmetry; apply Hf.
  shape_node Hs Hn'. exists x. split_and!; [done| |congruence].
  pose proof (finished_node_dirty s r rd s' Hf i) as Hnd. unfold node_dirty in Hnd.
  rewrite Hn', Hl in Hnd. auto.
Qed.

Lemma finished_covered R i : covered s R i → covered s' R i.
Proof. intros H r' Hn. by apply H, finished_needs. Qed.
End finish.

(** *** Every step keeps the invariant *)

Lemma rule_ready_Some s r rd : g_rules s !! r = Some rd → rule_ready s r = Rule.ready rd.
Proof. unfold rule_ready. by intros ->. Qed.

Section finish_inv.
Context (targets : gset N) (b : BState) (r : N) (rd : Rule.t) (s' : GState) (p' : BuildPlan.t).
Hypothesis Hb : schedule_ok targets b.
Hypothesis Hrun : r ∈ b_running b.
Hypothesis Hr : g_rules (b_graph b) !! r = Some rd.
Hypothesis Hf : finished (b_graph b) r rd s'.
Hypothesis Hw : woken s' (reads_output s' rd) (b_plan b) p'.

Let b' : BState := mkB (mkP p' s') (b_running b ∖ {[r]}) (b_failed b).

Lemma finish_settled : settled s'.
Proof.
  eapply finished_settled; [apply Hb|exact Hr| |exact Hf].
  rewrite <- (rule_ready_Some _ _ _ Hr). apply (sc_busy _ _ Hb). set_solver.
Qed.

Lemma finish_dirty r' : rule_dirty s' r' = if decide (r' = r) then false else rule_dirty (b_graph b) r'.
Proof. by eapply finished_rule_dirty. Qed.

Lemma finish_before r' :
  reads_output s' rd r' → rule_dirty (b_graph b) r' = true ∧ rule_ready (b_graph b) r' = false.
Proof. eapply (reads_output_before _ r); [apply Hb|done|apply (sc_busy _ _ Hb); set_solver|done]. Qed.

Lemma finish_still_ready r' : rule_ready (b_graph b) r' = true → rule_ready s' r' = true.
Proof. eapply (finished_rule_ready _ r); [apply Hb|done]. Qed.

Lemma finish_started : started b' = started b.
Proof.
  destruct Hw as (HR & _). apply set_eq. intros x. unfold started. rewrite !elem_of_filter.
  unfold b'. simpl. rewrite HR, finish_dirty.
  case_decide; [subst x|]; set_solver.
Qed.

Lemma finish_schedule : schedule_ok targets b'.
Proof.
  pose proof Hb as []. destruct Hw as (HR & HS & Hrd).
  split; unfold b'; simpl.
  - apply finish_settled.
  - rewrite <- (f_shape _ _ _ _ Hf). done.
  - rewrite HR. intros x Hx. destruct (sc_rules0 x Hx) as [rdx Hrdx].
    destruct (same_shape_rule _ _ _ _ (f_shape _ _ _ _ Hf) Hrdx) as (? & ? & _). by eexists.
  - intros x [Hx|(Hx & Hxr & Hxo)]%Hrd; rewrite HR.
    + destruct (sc_ready0 x Hx) as (? & ? & ? & ?). rewrite finish_dirty, decide_False by set_solver.
      split_and!; [done|done|by apply finish_still_ready|set_solver].
    + destruct (finish_before x Hxo) as [Hd Hnr].
      assert (x ∉ b_running b ∪ b_failed b) by (intros (_ & _ & ?)%sc_busy0; congruence).
      rewrite finish_dirty, decide_False by set_solver. split_and!; [done|done|done|set_solver].
  - intros x Hx. destruct (sc_busy0 x) as (? & ? & ?); [set_solver|].
    rewrite HR, finish_dirty, decide_False by set_solver. split_and!; [done|done|by apply finish_still_ready].
  - set_solver.
  - rewrite HR. intros x Hx. rewrite finish_dirty. case_decide as Hne; [done|].
    intros Hd Hxr. destruct (rule_ready (b_graph b) x) eqn:Hold.
    + specialize (sc_all0 x Hx Hd Hold). rewrite elem_of_union, Hrd. set_solver.
    + rewrite elem_of_union, Hrd. left. right. split_and!; [done|done|].
      by eapply (finished_woken _ r); [apply Hb| | |].
  - rewrite HR. intros x rdx i Hx Hrx Hnr Hi.
    eapply (finished_covered _ r); [done|].
    destruct (finished_rule _ _ _ _ Hf x rdx Hrx) as (rd0 & Hr0 & Hi0 & _).
    eapply (sc_closed0 x rd0); [done|done| |congruence].
    destruct (Rule.ready rd0) eqn:E; [|done]. rewrite <- (rule_ready_Some _ _ _ Hr0) in E.
    apply finish_still_ready in E. rewrite (rule_ready_Some _ _ _ Hrx) in E. congruence.
  - rewrite HR. intros t Ht. eapply (finished_covered _ r); [done|]. auto.
  - rewrite HS. fold b'. rewrite finish_started. done.
Qed.
End finish_inv.

(** Finishing a running rule succeeds: no assertion of markInputReady or
    notifyRuleBuilt fails. *)
Lemma onRuleFinished_spec targets b r :
  schedule_ok targets b → r ∈ b_running b →
  returns (onRuleFinished r) (λ _ ps',
    schedule_ok targets (mkB ps' (b_running b ∖ {[r]}) (b_failed b)) ∧
    started (mkB ps' (b_running b ∖ {[r]}) (b_failed b)) = started b ∧
    BuildPlan.rules_ (p_plan ps') = BuildPlan.rules_ (b_plan b) ∧
    same_shape (b_graph b) (p_g ps') ∧
    (∀ r', rule_dirty (p_g ps') r' = if decide (r' = r) then false else rule_dirty (b_graph b) r') ∧
    ∃ rd, finished (b_graph b) r rd (p_g ps'))
    (b_ps b).
Proof.
  intros Hb Hrun. destruct (sc_busy _ _ Hb r) as (Hin & Hd & Hrr); [set_solver|].
  destruct (sc_rules _ _ Hb r Hin) as [rd Hr]. pose proof (sc_settled _ _ Hb) as Hset.
  rewrite onRuleFinished_eq. apply wp_bind, wp_zoom. simpl.
  eapply wp_mono; [apply (finishGraph_spec _ r rd)| |done].
  - apply Hset.
  - apply Hset.
  - exact Hr.
  - intros o. eapply (st_outputs _ Hset r rd); [exact Hr|]. unfold rule_dirty in Hd. by rewrite Hr in Hd.
  - intros [] s' Hf. simpl.
    assert (structure_ok s') as Hok' by (rewrite <- (f_shape _ _ _ _ Hf); apply Hset).
    destruct (same_shape_rule _ _ _ _ (f_shape _ _ _ _ Hf) Hr) as (rd' & Hr' & Hsh).
    eapply wp_mono; [apply (notifyRuleBuilt_spec s' _ r rd' Hok' Hr')| |done].
    + intros Hready%(sc_ready _ _ Hb). set_solver.
    + exact Hin.
    + intros [] [p' g'] [Hg Hw]. simpl in *. subst g'.
      assert (woken s' (reads_output s' rd) (b_plan b) p') as Hw'.
      { eapply woken_ext; [|exact Hw]. intros x. unfold reads_output. injection Hsh as _ -> _ _ _. done. }
      split_and!; [by eapply finish_schedule|by eapply finish_started|apply Hw|apply Hf| |by exists rd].
      intros x. by eapply finish_dirty.
Qed.

(** Starting a rule. *)
Lemma findWork_spec ps :
  BuildPlan.hasWork (p_plan ps) = true →
  ∃ r, r ∈ BuildPlan.readyRules_ (p_plan ps) ∧
    findWork ps = Ret (Some r) (mkP (BuildPlan.start r (p_plan ps)) (p_g ps)).
Proof.
  unfold BuildPlan.hasWork. intros Hw%negb_true_iff%bool_decide_eq_false.
  destruct (set_elems (BuildPlan.readyRules_ (p_plan ps))) as [|r l] eqn:He.
  { by apply set_elems_nil in He. }
  exists r. split; [apply elem_of_set_elems; rewrite He; set_solver|].
  unfold findWork, mbind, M_bind, gets. by rewrite He.
Qed.

Lemma start_schedule targets b r :
  schedule_ok targets b → r ∈ BuildPlan.readyRules_ (b_plan b) →
  schedule_ok targets (mkB (mkP (BuildPlan.start r (b_plan b)) (b_graph b))
                           ({[r]} ∪ b_running b) (b_failed b)).
Proof.
  intros Hb Hr. pose proof Hb as []. destruct (sc_ready0 r Hr) as (Hin & Hd & Hrr & Hnb).
  split; simpl; try done.
  - intros x [Hx Hne]%elem_of_difference. destruct (sc_ready0 x Hx) as (? & ? & ? & ?). set_solver.
  - intros x [[->%elem_of_singleton|Hx]%elem_of_union|Hx]%elem_of_union; [done| |]; apply sc_busy0; set_solver.
  - set_solver.
  - intros x Hx Hdx Hrx. specialize (sc_all0 x Hx Hdx Hrx).
    destruct (decide (x = r)); set_solver.
  - rewrite sc_started0.
    assert (started (mkB (mkP (BuildPlan.start r (b_plan b)) (b_graph b)) ({[r]} ∪ b_running b) (b_failed b))
            = {[r]} ∪ started b) as ->.
    { apply set_eq. intros x. unfold started. simpl. rewrite elem_of_union, !elem_of_filter. set_solver. }
    rewrite size_union, size_singleton; [done|]. unfold started.
    intros x ->%elem_of_singleton [[?|?] _]%elem_of_filter; [congruence|set_solver].
Qed.

Lemma failed_schedule targets b r :
  schedule_ok targets b → r ∈ b_running b →
  schedule_ok targets (mkB (b_ps b) (b_running b ∖ {[r]}) ({[r]} ∪ b_failed b)).
Proof.
  destruct b as [ps run failed]. simpl. intros [] Hr. simpl in *.
  assert (Hu : run ∖ {[r]} ∪ ({[r]} ∪ failed) = run ∪ failed).
  { apply set_eq. intros x. destruct (decide (x = r)); set_solver. }
  split; simpl; rewrite ?Hu; try done.
  - set_solver.
  - rewrite sc_started0. unfold started. simpl. by rewrite Hu.
Qed.

(** The invariant and what a step does to the states of the rules. *)
Lemma bstep_inv nt targets b e b' :
  schedule_ok targets b → bstep nt b e b' →
  schedule_ok targets b' ∧ BuildPlan.rules_ (b_plan b') = BuildPlan.rules_ (b_plan b) ∧
  same_shape (b_graph b) (b_graph b') ∧
  match e with
  | Start r => r ∈ BuildPlan.rules_ (b_plan b) ∧ r ∉ started b ∧ rule_ready (b_graph b) r = true ∧
      started b' = {[r]} ∪ started b ∧ ∀ r', rule_dirty (b_graph b') r' = rule_dirty (b_graph b) r'
  | Finish r => r ∈ started b ∧ started b' = started b ∧
      ∀ r', rule_dirty (b_graph b') r' = if decide (r' = r) then false else rule_dirty (b_graph b) r'
  | Failed r => r ∈ started b ∧ started b' = started b ∧ ∀ r', rule_dirty (b_graph b') r' = rule_dirty (b_graph b) r'
  end.
Proof.
  intros Hb Hstep. destruct Hstep as [r ps' Hnf Hnd Hw Hn Hfw|r s1 ps' Hr Hs Hfin|r s1 Hr Hs].
  - destruct (findWork_spec _ Hw) as (r' & Hr' & Hfw'). rewrite Hfw in Hfw'. simplify_eq.
    destruct (sc_ready _ _ Hb r' Hr') as (? & ? & ? & ?).
    split_and!; [by apply start_schedule|done|done|done| |done| |done].
    + unfold started. rewrite elem_of_filter. intros [[?|?] _]; [congruence|set_solver].
    + apply set_eq. intros x. unfold started, b_plan, b_graph. simpl.
      rewrite elem_of_union, !elem_of_filter. set_solver.
  - pose proof (schedule_ok_build _ _ _ Hb Hs) as Hb1.
    pose proof (onRuleFinished_spec _ _ r Hb1 Hr) as Hspec. simpl in Hspec.
    unfold returns, wp in Hspec. rewrite Hfin in Hspec. destruct Hspec as (H1 & H2 & H3 & H4 & H5 & _).
    assert (started (mkB (mkP (b_plan b) s1) (b_running b) (b_failed b)) = started b) as Heq.
    { unfold started. simpl. apply set_eq. intros x. rewrite !elem_of_filter. by rewrite Hs. }
    split_and!; [done|done|by rewrite <- H4; apply same_build_shape| |by rewrite H2|].
    + unfold started. apply elem_of_filter. split; [set_solver|]. apply (sc_busy _ _ Hb). set_solver.
    + intros x. rewrite H5. case_decide; [done|]. simpl. by rewrite Hs.
  - pose proof (schedule_ok_build _ _ _ Hb Hs) as Hb1.
    split_and!; [by apply (failed_schedule _ (mkB (mkP (b_plan b) s1) (b_running b) (b_failed b)))|done|by apply same_build_shape| | |].
    + unfold started. apply elem_of_filter. split; [set_solver|]. apply (sc_busy _ _ Hb). set_solver.
    + unfold started. simpl. apply set_eq. intros x. rewrite !elem_of_filter. rewrite Hs.
      destruct (decide (x = r)); set_solver.
    + intros x. simpl. by rewrite Hs.
Qed.

Lemma runs_inv nt targets b tr b' :
  schedule_ok targets b → runs nt b tr b' →
  schedule_ok targets b' ∧ BuildPlan.rules_ (b_plan b') = BuildPlan.rules_ (b_plan b) ∧
  same_shape (b_graph b) (b_graph b') ∧
  (∀ r, r ∈ started b' ↔ r ∈ started b ∨ Start r ∈ tr) ∧
  (∀ r, rule_dirty (b_graph b') r = false ↔ rule_dirty (b_graph b) r = false ∨ Finish r ∈ tr).
Proof.
  intros Hb. induction 1 as [|tr b1 e b2 Hrun IH Hstep].
  { split_and!; try done; set_solver. }
  destruct IH as (Hb1 & HR & Hs & Hst & Hd).
  destruct (bstep_inv _ _ _ _ _ Hb1 Hstep) as (Hb2 & HR2 & Hs2 & He).
  split_and!; [done|congruence|by etrans| |].
  - intros r. rewrite elem_of_app, list_elem_of_singleton. specialize (Hst r).
    destruct e as [x|x|x].
    + destruct He as (_ & _ & _ & -> & _). rewrite elem_of_union, elem_of_singleton. naive_solver.
    + destruct He as (_ & -> & _). naive_solver.
    + destruct He as (_ & -> & _). naive_solver.
  - intros r. rewrite elem_of_app, list_elem_of_singleton. specialize (Hd r).
    destruct e as [x|x|x].
    + destruct He as (_ & _ & _ & _ & ->). naive_solver.
    + destruct He as (_ & _ & ->). case_decide; naive_solver.
    + destruct He as (_ & _ & ->). naive_solver.
Qed.

Lemma runs_app nt b tr1 b1 tr2 b2 : runs nt b tr1 b1 → runs nt b1 tr2 b2 → runs nt b (tr1 ++ tr2) b2.
Proof.
  intros H1. induction 1 as [|tr b' e b'' _ IH Hs]; [by rewrite app_nil_r|].
  rewrite app_assoc. by eapply runs_snoc.
Qed.

Lemma runs_split nt b tr b' tr1 e tr2 :
  runs nt b tr b' → tr = tr1 ++ e :: tr2 →
  ∃ b1 b2, runs nt b tr1 b1 ∧ bstep nt b1 e b2 ∧ runs nt b2 tr2 b'.
Proof.
  intros Hrun. revert tr2. induction Hrun as [|tr b1 e' b2 Hrun IH Hstep]; intros tr2 Heq.
  { by destruct tr1. }
  destruct tr2 as [|x tr2 _] using rev_ind.
  - apply app_inj_tail in Heq as [-> ->]. exists b1, b2. split_and!; [done|done|constructor].
  - rewrite app_comm_cons, app_assoc in Heq. apply app_inj_tail in Heq as [-> ->].
    destruct (IH tr2 eq_refl) as (c1 & c2 & ? & ? & ?). exists c1, c2.
    split_and!; [done|done|by eapply runs_snoc].
Qed.

(** Only rules of the plan are built. *)
Lemma runs_planned nt targets b tr b' r :
  schedule_ok targets b → runs nt b tr b' → Finish r ∈ tr → r ∈ BuildPlan.rules_ (b_plan b).
Proof.
  intros Hb Hrun (tr1 & tr2 & Heq)%list_elem_of_split. destruct (runs_split _ _ _ _ _ _ _ Hrun Heq) as (b1 & b2 & H1 & Hstep & _).
  destruct (runs_inv _ _ _ _ _ Hb H1) as (Hb1 & <- & _). inversion Hstep; subst. apply (sc_busy _ _ Hb1). set_solver.
Qed.

(** What every step uses up. *)
Definition work_left (b : BState) : nat :=
  2 * (size (BuildPlan.rules_ (b_plan b)) - size (started b)) + size (b_running b).

Lemma started_size b : size (started b) ≤ size (BuildPlan.rules_ (b_plan b)).
Proof. apply subseteq_size. intros r. unfold started. rewrite elem_of_filter. naive_solver. Qed.

Lemma size_remove (X : gset N) r : r ∈ X → size X = S (size (X ∖ {[r]})).
Proof.
  intros Hr. rewrite (union_difference_L {[r]} X) at 1 by set_solver.
  rewrite size_union, size_singleton by set_solver. done.
Qed.

Lemma bstep_work nt targets b e b' :
  schedule_ok targets b → bstep nt b e b' → work_left b = S (work_left b').
Proof.
  intros Hb Hstep. destruct (bstep_inv _ _ _ _ _ Hb Hstep) as (Hb' & HR & _ & He).
  unfold work_left. rewrite HR. pose proof (started_size b') as Hle. rewrite HR in Hle.
  destruct Hstep as [r ps' Hnf Hnd Hw Hn Hfw|r s1 ps' Hr Hs Hfin|r s1 Hr Hs].
  - destruct He as (Hin & Hns & _ & Heq & _). rewrite Heq in *. simpl.
    assert (r ∉ b_running b) as Hnr.
    { intros Hrun. apply Hns. unfold started. apply elem_of_filter. set_solver. }
    rewrite (size_union {[r]} (started b)) in * by set_solver.
    rewrite (size_union {[r]} (b_running b)) by set_solver. rewrite !size_singleton in *. lia.
  - destruct He as (_ & -> & _). simpl. rewrite (size_remove (b_running b) r) by done. lia.
  - destruct He as (_ & -> & _). simpl. rewrite (size_remove (b_running b) r) by done. lia.
Qed.

Lemma runs_work nt targets b tr b' :
  schedule_ok targets b → runs nt b tr b' → work_left b = length tr + work_left b'.
Proof.
  intros Hb. induction 1 as [|tr b1 e b2 Hrun IH Hstep]; [done|].
  destruct (runs_inv _ _ _ _ _ Hb Hrun) as (Hb1 & _).
  pose proof (bstep_work _ _ _ _ _ Hb1 Hstep). rewrite length_app. simpl. lia.
Qed.

(** ** Correctness of the schedule *)

(** The constructor of the plan, given the fuel it needs, ends in [ps]. *)
Definition planned (s : GState) (targets : gset N) (ps : PState) : Prop :=
  ∃ fuel, size (g_rules s) < fuel ∧ makePlan fuel targets (mkP BuildPlan.empty s) = Ret tt ps.

(** [initial s targets b]: [b] is the state in which buildThread is entered, with
    the plan made from the graph [s]. *)
Definition initial (s : GState) (targets : gset N) (b : BState) : Prop :=
  planned s targets (b_ps b) ∧
  b_running b = ∅ ∧ b_failed b = ∅.

Lemma settled_consistent s : settled s → consistent s.
Proof.
  intros [? ? ? Hout ?]. split; try done. intros r rd o Hr Hd Ho. right.
  eapply Hout; [done| |done]. unfold rule_dirty in Hd. by rewrite Hr in Hd.
Qed.

Section schedule.
Context (s : GState) (targets : gset N) (numThreads : nat) (b0 : BState).
Hypothesis Hset : settled s.
Hypothesis Hac : acyclic s.
Hypothesis Hex : ∀ t, t ∈ targets → is_Some (g_nodes s !! t).
Hypothesis Hinit : initial s targets b0.

Lemma initial_plan :
  b_graph b0 = s ∧ plan_inv s targets ∅ (b_plan b0) ∧
  (∀ t, t ∈ targets → covered s (BuildPlan.rules_ (b_plan b0)) t).
Proof.
  destruct Hinit as ((fuel & Hf & Hmk) & _ & _).
  pose proof (makePlan_spec s targets fuel (settled_consistent s Hset) Hac Hex Hf) as H.
  unfold returns, wp in H. rewrite Hmk in H. naive_solver.
Qed.

Lemma initial_started : started b0 = ∅.
Proof.
  destruct initial_plan as (Hg & Hinv & _). destruct Hinit as (_ & Hr & Hf).
  apply set_eq. intros x. unfold started. rewrite elem_of_filter, Hr, Hf, Hg. split; [|set_solver].
  intros [[Hd|?] Hx]; [|set_solver]. destruct (pi_dirty _ _ _ _ Hinv x Hx) as (rd & Hrd & Hd').
  unfold rule_dirty in Hd. rewrite Hrd in Hd. congruence.
Qed.

Lemma initial_schedule : schedule_ok targets b0.
Proof.
  destruct initial_plan as (Hg & Hinv & Hcov). pose proof initial_started as Hst.
  destruct Hinit as (_ & Hr & Hf).
  assert (Hd : ∀ r, r ∈ BuildPlan.rules_ (b_plan b0) → is_Some (g_rules s !! r) ∧ rule_dirty s r = true).
  { intros r Hin. destruct (pi_dirty _ _ _ _ Hinv r Hin) as (rd & Hrd & ?).
    split; [by eexists|]. unfold rule_dirty. by rewrite Hrd. }
  split; rewrite ?Hg, ?Hr, ?Hf; try done.
  - intros r Hin. by apply Hd.
  - intros r [Hin Hrr]%Hinv. split_and!; [done|by apply Hd|done|].
    clear. set_solver.
  - intros r Hin _ Hrr. apply elem_of_union_l. by apply Hinv.
  - intros r rd i Hin. eapply Hinv; [done|clear; set_solver].
  - rewrite Hst, size_empty. apply Hinv.
Qed.

Lemma initial_work : work_left b0 = 2 * size (BuildPlan.rules_ (b_plan b0)).
Proof.
  unfold work_left. destruct Hinit as (_ & -> & _). rewrite initial_started, !size_empty. lia.
Qed.

Lemma runs_from_initial tr b :
  runs numThreads b0 tr b →
  schedule_ok targets b ∧ BuildPlan.rules_ (b_plan b) = BuildPlan.rules_ (b_plan b0) ∧
  same_shape s (b_graph b) ∧ (∀ r, r ∈ started b ↔ Start r ∈ tr) ∧
  (∀ r, rule_dirty (b_graph b) r = false ↔ rule_dirty s r = false ∨ Finish r ∈ tr).
Proof.
  intros Hrun. destruct (runs_inv _ _ _ _ _ initial_schedule Hrun) as (Hb & HR & Hs & Hst & Hd).
  destruct initial_plan as (Hg & _). rewrite Hg in *.
  split_and!; try done. intros r. rewrite Hst, initial_started. set_solver.
Qed.

(** When a command starts, the rules that build its inputs have finished. *)
Lemma start_after_inputs tr1 b1 r b2 rd i r' :
  runs numThreads b0 tr1 b1 → bstep numThreads b1 (Start r) b2 →
  g_rules s !! r = Some rd → i ∈ Rule.inputs_ rd → needs s i r' → Finish r' ∈ tr1.
Proof.
  intros Hrun Hstep Hr Hi (nd & Hn & Hdn & Hch).
  destruct (runs_from_initial _ _ Hrun) as (Hb1 & _ & Hs & _ & Hd).
  destruct (bstep_inv _ _ _ _ _ Hb1 Hstep) as (_ & _ & _ & _ & _ & Hrr & _).
  assert (Hrd : rule_dirty s r' = true).
  { eapply (st_child _ Hset i nd); [done|done|]. unfold node_dirty. by rewrite Hn. }
  destruct (proj1 (Hd r')) as [?|?]; [|congruence|done].
  pose proof (sc_settled _ _ Hb1) as Hset1.
  shape_rule Hs Hr. shape_node Hs Hn. rewrite (rule_ready_Some _ _ _ Hl) in Hrr.
  pose proof (proj1 (rule_ready_inputs _ r x (st_counters _ Hset1) Hl) Hrr i ltac:(congruence)) as Hnr.
  destruct (so_child _ (st_structure _ Hset1) i x0 r') as (rd1 & Hrd1 & Ho); [done|congruence|].
  unfold rule_dirty. rewrite Hrd1. destruct (Rule.isDirty rd1) eqn:E; [|done].
  pose proof (st_outputs _ Hset1 r' rd1 i Hrd1 E Ho) as Hdi.
  unfold node_ready, node_dirty, Node.isSource in *. rewrite Hl0 in Hnr, Hdi.
  rewrite Hdi in Hnr. rewrite bool_decide_eq_false_2 in Hnr by congruence. done.
Qed.
End schedule.

Lemma done_iff targets b :
  schedule_ok targets b →
  BuildPlan.done (b_plan b) = true ↔ started b = BuildPlan.rules_ (b_plan b).
Proof.
  intros Hb. unfold BuildPlan.done. rewrite bool_decide_eq_true, (sc_started _ _ Hb). split; [|by intros ->].
  intros Heq. apply leibniz_equiv, set_subseteq_size_equiv; [|by rewrite Heq].
  intros r. unfold started. rewrite elem_of_filter. naive_solver.
Qed.

(** Rules are left and none runs: one of them is ready. *)
Lemma idle_has_work targets b :
  schedule_ok targets b → b_running b = ∅ → b_failed b = ∅ → BuildPlan.done (b_plan b) = false →
  BuildPlan.hasWork (b_plan b) = true.
Proof.
  intros Hb Hrun Hfail Hnd. pose proof (sc_settled _ _ Hb) as Hset.
  set (R := filter (λ r, rule_dirty (b_graph b) r = true) (BuildPlan.rules_ (b_plan b))).
  assert (∃ r, r ∈ R) as [r0 Hr0].
  { apply set_choose_L. intros He. apply not_true_iff_false in Hnd. apply Hnd, (done_iff targets); [done|].
    apply set_eq. intros r. unfold started. rewrite elem_of_filter. split; [naive_solver|]. intros Hr.
    split; [|done]. left. destruct (rule_dirty (b_graph b) r) eqn:E; [|done].
    assert (r ∈ R) by by apply elem_of_filter. set_solver. }
  destruct (ready_exists (b_graph b) R r0) as (r & [Hd Hr]%elem_of_filter & Hrr);
    [apply Hset|apply Hset|apply Hb|done| | |].
  - intros r [_ Hr]%elem_of_filter. by apply (sc_rules _ _ Hb).
  - intros r rd i [_ Hr]%elem_of_filter Hrd Hnr Hi r' Hn. apply elem_of_filter. split.
    + destruct Hn as (nd & Hn & Hdn & Hc). eapply (st_child _ Hset); [done|done|].
      unfold node_dirty. by rewrite Hn.
    + by eapply (sc_closed _ _ Hb r rd i).
  - pose proof (sc_all _ _ Hb r Hr Hd Hrr) as Hin. rewrite Hrun, Hfail in Hin.
    unfold BuildPlan.hasWork. rewrite bool_decide_eq_false_2; [done|]. clear -Hin. set_solver.
Qed.

(** Nothing runs, nothing failed and the plan is done: the targets are up to date. *)
Lemma finished_all s targets b0 b (tr : list event) :
  plan_inv s targets ∅ (b_plan b0) → (∀ t, t ∈ targets → covered s (BuildPlan.rules_ (b_plan b0)) t) →
  schedule_ok targets b → BuildPlan.rules_ (b_plan b) = BuildPlan.rules_ (b_plan b0) →
  (∀ r, rule_dirty (b_graph b) r = false ↔ rule_dirty s r = false ∨ Finish r ∈ tr) →
  b_running b = ∅ → b_failed b = ∅ → BuildPlan.done (b_plan b) = true →
  (∀ r, needed s targets r → Finish r ∈ tr ∧ rule_dirty (b_graph b) r = false) ∧
  (∀ t r, t ∈ targets → ¬ needs (b_graph b) t r).
Proof.
  intros Hinv Hcov Hb HR Hd Hr Hnf Hdone. apply (done_iff targets) in Hdone; [|done].
  assert (Hclean : ∀ r, r ∈ BuildPlan.rules_ (b_plan b) → rule_dirty (b_graph b) r = false).
  { intros r. rewrite <- Hdone. unfold started. rewrite elem_of_filter, Hr, Hnf. clear. set_solver. }
  split.
  - intros r Hn. rewrite <- (plan_needed _ _ _ r Hinv Hcov), <- HR in Hn.
    pose proof (Hclean r Hn) as Hc. split; [|done]. apply Hd in Hc as [Hc|?]; [|done].
    rewrite HR in Hn. destruct (pi_dirty _ _ _ _ Hinv r Hn) as (rd & Hrd & Hdr).
    unfold rule_dirty in Hc. rewrite Hrd in Hc. congruence.
  - intros t r Ht Hn. pose proof (sc_targets _ _ Hb t Ht r Hn) as Hin.
    destruct Hn as (nd & Hnd & Hdn & Hc).
    pose proof (st_child _ (sc_settled _ _ Hb) t nd r Hnd Hc) as H.
    unfold node_dirty in H. rewrite Hnd, (Hclean r Hin) in H. naive_solver.
Qed.

(** C10: the order of the commands.  Along any run of the build loop on a settled
    acyclic graph, with a plan made for the targets, whichever
    process ends first, only rules the targets need are started, a rule is
    started at most once, and when it starts every rule that had to rebuild one
    of its inputs has finished. *)
Theorem schedule_order s targets numThreads b0 tr b :
  settled s → acyclic s → (∀ t, t ∈ targets → is_Some (g_nodes s !! t)) →
  initial s targets b0 → runs numThreads b0 tr b →
  ∀ tr1 r tr2, tr = tr1 ++ Start r :: tr2 →
    needed s targets r ∧ Start r ∉ tr1 ∧
    ∀ rd i r', g_rules s !! r = Some rd → i ∈ Rule.inputs_ rd → needs s i r' → Finish r' ∈ tr1.
Proof.
  intros Hset Hac Hex Hinit Hrun tr1 r tr2 Heq.
  destruct (runs_split _ _ _ _ _ _ _ Hrun Heq) as (b1 & b2 & Hrun1 & Hstep & _).
  destruct (runs_from_initial s targets numThreads b0 Hset Hac Hex Hinit _ _ Hrun1) as (Hb1 & HR & _ & Hst & _).
  destruct (bstep_inv _ _ _ _ _ Hb1 Hstep) as (_ & _ & _ & Hin & Hns & _).
  destruct (initial_plan s targets b0 Hset Hac Hex Hinit) as (_ & Hinv & Hcov).
  split_and!.
  - eapply plan_needed; [done|done|congruence].
  - by rewrite <- Hst.
  - intros. by eapply start_after_inputs.
Qed.

(** C11: on a settled acyclic graph (counters right, the outputs of a dirty rule all
    dirty), with at least one thread and a plan just made for the targets, the build loop
    cannot get stuck and cannot go on forever.  (When an output of a rule was changed or
    fetched alone the graph is not settled, and finishing the rule may fail an assertion:
    [setDirty_output_aborts], [fetched_output_aborts]; without threads the loop spins:
    [no_threads_spins].)  In every state it reaches, the processes that end are finished without any assertion
    failing; as long as no command failed, either some step is possible or the
    plan is done, no process runs, every rule the targets need ran and is up to
    date, and so is every target that is built by a rule; and a run has at most
    two steps per rule of the plan. *)
Theorem schedule_progress s targets numThreads b0 tr b :
  settled s → acyclic s → (∀ t, t ∈ targets → is_Some (g_nodes s !! t)) → 0 < numThreads →
  initial s targets b0 → runs numThreads b0 tr b →
  length tr ≤ 2 * size (BuildPlan.rules_ (b_plan b0)) ∧
  (∀ r s1, r ∈ b_running b → same_build (b_graph b) s1 →
     ∃ ps', onRuleFinished r (mkP (b_plan b) s1) = Ret tt ps') ∧
  (b_failed b = ∅ →
     (∃ e b', bstep numThreads b e b') ∨
     BuildPlan.done (b_plan b) = true ∧ b_running b = ∅ ∧
     (∀ r, needed s targets r → Finish r ∈ tr ∧ rule_dirty (b_graph b) r = false) ∧
     (∀ t r, t ∈ targets → ¬ needs (b_graph b) t r)).
Proof.
  intros Hset Hac Hex Hnt Hinit Hrun.
  pose proof (runs_work _ _ _ _ _ (initial_schedule s targets b0 Hset Hac Hex Hinit) Hrun) as Hwork.
  rewrite (initial_work s targets b0 Hset Hac Hex Hinit) in Hwork.
  destruct (runs_from_initial s targets numThreads b0 Hset Hac Hex Hinit _ _ Hrun) as (Hb & HR & _ & Hst & Hd).
  assert (Hfin : ∀ r s1, r ∈ b_running b → same_build (b_graph b) s1 →
     ∃ ps', onRuleFinished r (mkP (b_plan b) s1) = Ret tt ps').
  { intros r s1 Hr Hs. pose proof (onRuleFinished_spec _ _ r (schedule_ok_build _ _ _ Hb Hs) Hr) as H.
    apply returns_inv in H as ([] & ps' & H & _). by exists ps'. }
  split_and!; [lia|done|]. intros Hnf.
  destruct (decide (b_running b = ∅)) as [Hr|[r Hr]%set_choose_L].
  2: { left. destruct (Hfin r (b_graph b) Hr) as [ps' Hps']; [done|].
       eexists (Finish r), _. by econstructor. }
  destruct (BuildPlan.done (b_plan b)) eqn:Hdone.
  2: { left. pose proof (idle_has_work _ _ Hb Hr Hnf Hdone) as Hw.
       destruct (findWork_spec _ Hw) as (r & _ & Hfw). eexists (Start r), _.
       eapply bstep_start; [done|done|done|by rewrite Hr, size_empty|done]. }
  right. destruct (initial_plan s targets b0 Hset Hac Hex Hinit) as (_ & Hinv & Hcov).
  split; [done|]. split; [done|]. by eapply finished_all.
Qed.

(** ** A run to evaluate *)

Definition bexec (numThreads : nat) (b : BState) (e : event) : option BState :=
  match e with
  | Start r =>
    if bool_decide (b_failed b = ∅) && negb (BuildPlan.done (b_plan b)) &&
       BuildPlan.hasWork (b_plan b) && (size (b_running b) <? numThreads)
    then match findWork (b_ps b) with
         | Ret (Some r') ps' =>
           if decide (r' = r) then Some (mkB ps' ({[r]} ∪ b_running b) (b_failed b)) else None
         | _ => None
         end
    else None
  | Finish r =>
    if bool_decide (r ∈ b_running b)
    then match onRuleFinished r (b_ps b) with
         | Ret _ ps' => Some (mkB ps' (b_running b ∖ {[r]}) (b_failed b))
         | _ => None
         end
    else None
  | Failed r =>
    if bool_decide (r ∈ b_running b)
    then Some (mkB (b_ps b) (b_running b ∖ {[r]}) ({[r]} ∪ b_failed b)) else None
  end.

Lemma bexec_sound nt b e b' : bexec nt b e = Some b' → bstep nt b e b'.
Proof.
  destruct b as [[p g] run failed]. destruct e as [r|r|r]; simpl; intros H.
  - destruct (_ && _) eqn:Hg; [|done].
    apply andb_true_iff in Hg as [[[? Hd]%andb_true_iff Hw]%andb_true_iff Hlt%Nat.ltb_lt].
    open_checks.
    destruct (findWork _) as [[r'|] ps'| |] eqn:Hfw; try done. case_decide; simplify_eq.
    by econstructor; try done; apply negb_true_iff.
  - case_bool_decide; [|done]. destruct (onRuleFinished _ _) as [[] ps'| |] eqn:Hfin; simplify_eq.
    by econstructor.
  - case_bool_decide; simplify_eq. by econstructor.
Qed.

Fixpoint bexecs (numThreads : nat) (b : BState) (tr : list event) : option BState :=
  match tr with
  | [] => Some b
  | e :: tr' => b' ← bexec numThreads b e; bexecs numThreads b' tr'
  end.

Lemma bexecs_sound nt b tr b' : bexecs nt b tr = Some b' → runs nt b tr b'.
Proof.
  revert b. induction tr as [|e tr IH]; intros b H; simpl in H; simplify_eq; [constructor|].
  apply bind_Some in H as (b1 & He & H). apply (runs_app nt b [e] b1); [|by apply IH].
  apply (runs_snoc nt b [] b); [constructor|by apply bexec_sound].
Qed.

Definition two_outputs_start : BState :=
  match makePlan 3 {[4%N]} (mkP BuildPlan.empty two_outputs_dirty) with
  | Ret _ ps => mkB ps ∅ ∅
  | _ => mkB (mkP BuildPlan.empty two_outputs_dirty) ∅ ∅
  end.
Definition two_outputs_trace : list event :=
  [Start 10; Finish 10; Start 11; Finish 11]%N.
Definition two_outputs_built : BState :=
  default two_outputs_start (bexecs 2 two_outputs_start two_outputs_trace).

Lemma consistent_settled s : (∀ n, node_lazy s n = false) → consistent s → settled s.
Proof.
  intros Hl [H1 H2 H3 H4 H5]. split; try done. intros r rd o Hr Hd Ho.
  destruct (H4 r rd o Hr) as [Hz|?]; [|done| |done]; [unfold rule_dirty; by rewrite Hr|congruence].
Qed.

Lemma check_settled s :
  check_structure s && check_counters s && check_states s = true →
  all_nodes s (λ _ nd, negb (Node.isLazyFetched_ nd)) = true → settled s.
Proof.
  intros H Hl. apply consistent_settled; [|by apply check_consistent]. intros n. unfold node_lazy.
  destruct (g_nodes s !! n) as [nd|] eqn:Hn; [|done]. apply negb_true_iff. exact (all_nodes_spec _ _ _ _ Hl Hn).
Qed.

Lemma two_outputs_settled : settled two_outputs_dirty.
Proof. apply check_settled; vm_compute; reflexivity. Defined.
Lemma two_outputs_initial : initial two_outputs_dirty {[4%N]} two_outputs_start.
Proof. split_and!; [exists 3; split; [vm_compute; lia|vm_compute; reflexivity]|vm_compute; reflexivity|vm_compute; reflexivity]. Defined.
Lemma two_outputs_runs : runs 2 two_outputs_start two_outputs_trace two_outputs_built.
Proof. apply bexecs_sound. vm_compute. reflexivity. Defined.
Lemma two_outputs_targets (t : N) :
  t ∈ ({[4%N]} : gset N) → is_Some (g_nodes two_outputs_dirty !! t).
Proof. intros ->%elem_of_singleton. vm_compute. eexists. reflexivity. Defined.

Lemma schedule_order_witness : Finish 10%N ∈ [Start 10%N; Finish 10%N].
Proof.
  eapply (schedule_order two_outputs_dirty {[4%N]} 2 two_outputs_start two_outputs_trace two_outputs_built
    two_outputs_settled two_outputs_dirty_acyclic two_outputs_targets two_outputs_initial two_outputs_runs
    [Start 10%N; Finish 10%N] 11%N [Finish 11%N] eq_refl) with (i := 2%N).
  - vm_compute. reflexivity.
  - vm_compute. apply list_elem_of_here.
  - eexists. vm_compute. split_and!; reflexivity.
Defined.

Lemma schedule_progress_witness : length two_outputs_trace ≤ 2 * 2.
Proof.
  apply (schedule_progress two_outputs_dirty {[4%N]} 2 two_outputs_start two_outputs_trace two_outputs_built
    two_outputs_settled two_outputs_dirty_acyclic two_outputs_targets ltac:(lia) two_outputs_initial two_outputs_runs).
Defined.
