(* ===== verification/GraphConsistency.v ===== *)
(** * GraphConsistencyChecker (graph_consistency_checker.h, .cpp)

    The depth-first traversal that debug builds run after every change of the
    graph.  The checker only reads the graph: its computations work on the
    members of the checker ([Checker.t]) with the heap as an argument. *)

From S2P Require Import Prelude GraphModel GraphChecks.

Module Checker.
Record t := mk {
  nbRootsSeen_ : nat;
  nbSourcesSeen_ : nat;
  nodesSeen_ : gset N;
  rulesSeen_ : gset N;
  isConsistent_ : bool;
}.
Definition new : t := mk 0 0 ∅ ∅ true.
Definition seeNode (n : N) (c : t) : t :=
  mk (nbRootsSeen_ c) (nbSourcesSeen_ c) ({[n]} ∪ nodesSeen_ c) (rulesSeen_ c) (isConsistent_ c).
Definition seeRule (r : N) (c : t) : t :=
  mk (nbRootsSeen_ c) (nbSourcesSeen_ c) (nodesSeen_ c) ({[r]} ∪ rulesSeen_ c) (isConsistent_ c).
Definition addRoot (c : t) : t :=
  mk (S (nbRootsSeen_ c)) (nbSourcesSeen_ c) (nodesSeen_ c) (rulesSeen_ c) (isConsistent_ c).
Definition addSource (c : t) : t :=
  mk (nbRootsSeen_ c) (S (nbSourcesSeen_ c)) (nodesSeen_ c) (rulesSeen_ c) (isConsistent_ c).
Definition record (b : bool) (c : t) : t :=
  mk (nbRootsSeen_ c) (nbSourcesSeen_ c) (nodesSeen_ c) (rulesSeen_ c) (isConsistent_ c && b).
End Checker.

Section checker.
Context (s : GState).
Let graph : Graph.t := g_graph s.

Definition getNode (p : N) : M Checker.t Node.t := deref (g_nodes s !! p).
Definition getRule (p : N) : M Checker.t Rule.t := deref (g_rules s !! p).

(** [FCHECK(cond)]; the message is built whether or not the condition holds. *)
Definition FCHECK (cond : bool) : M Checker.t unit := modify (Checker.record cond).

(** [rule->getOutputs()[0]->getPath()] of a message. *)
Definition firstOutput (r : Rule.t) : M Checker.t string :=
  o ← deref (head (Rule.outputs_ r));
  nd ← getNode o;
  mret (Node.path_ nd).

Definition not_empty (h : string) : bool := negb (bool_decide (h = "")).

Definition checkRule_with (checkNode : N → M Checker.t unit) (rule : N) : M Checker.t unit :=
  c ← mget;
  if bool_decide (rule ∈ Checker.rulesSeen_ c) then mret tt
  else
    modify (Checker.seeRule rule);;
    r ← getRule rule;
    FCHECK (not_empty (Rule.hash_ r));;
    FCHECK (not_empty (Rule.hashDepfile_ r));;
    FCHECK (negb (bool_decide (Rule.outputs_ r = [])));;
    FCHECK (bool_decide (Rule.isPhony r = bool_decide (Rule.command_ r = "")));;
    (if Rule.isPhony r then FCHECK (bool_decide (length (Rule.outputs_ r) = 1)) else mret tt);;
    (if Rule.isDirty r
     then foreach (Rule.outputs_ r) (λ o,
            nd ← getNode o; FCHECK (Node.isLazyFetched_ nd || Node.isDirty nd))
     else mret tt);;
    '(_, nbReady) ← foldM (Rule.inputs_ r) (∅ : gset N, 0) (λ '(seen, nbReady) i,
      nd ← getNode i;
      firstOutput r;;
      FCHECK (negb (bool_decide (i ∈ seen)));;
      (if Node.isDirty nd then FCHECK (Rule.isDirty r) else mret tt);;
      checkNode i;;
      mret ({[i]} ∪ seen,
            if Node.isSource nd || negb (Node.isDirty nd) then S nbReady else nbReady));
    FCHECK (bool_decide (Rule.numInputsReady_ r = nbReady)).

Fixpoint checkNode (fuel : nat) (node : N) : M Checker.t unit :=
  match fuel with
  | O => mabort OutOfFuel
  | S fuel =>
    c ← mget;
    if bool_decide (node ∈ Checker.nodesSeen_ c) then mret tt
    else
      modify (Checker.seeNode node);;
      nd ← getNode node;
      FCHECK (not_empty (Node.hash_ nd));;
      FCHECK (not_empty (Node.hashDepfile_ nd));;
      FCHECK (bool_decide (is_Some (Graph.nodes_ graph !! Node.path_ nd)));;
      (if bool_decide (Node.parentRules_ nd = [])
       then FCHECK (bool_decide (node ∈ Graph.roots_ graph));; modify Checker.addRoot
       else mret tt);;
      match Node.childRule_ nd with
      | None =>
        FCHECK (bool_decide (node ∈ Graph.sources_ graph));; modify Checker.addSource
      | Some child =>
        (if Node.isDirty nd
         then r ← getRule child; FCHECK (Rule.isDirty r) else mret tt);;
        checkRule_with (checkNode fuel) child
      end;;
      foldM (Node.parentRules_ nd) (∅ : gset N) (λ parents p,
        pr ← getRule p;
        firstOutput pr;;
        FCHECK (negb (bool_decide (p ∈ parents)));;
        mret ({[p]} ∪ parents));;
      mret tt
  end.

Definition checkRule (fuel : nat) : N → M Checker.t unit := checkRule_with (checkNode fuel).

Definition check (fuel : nat) : M Checker.t unit :=
  foreach (set_elems (Graph.roots_ graph)) (checkNode fuel);;
  c ← mget;
  FCHECK (bool_decide (size (Checker.nodesSeen_ c) = size (Graph.nodes_ graph)));;
  FCHECK (bool_decide (Checker.nbRootsSeen_ c = size (Graph.roots_ graph)));;
  FCHECK (bool_decide (Checker.nbSourcesSeen_ c = size (Graph.sources_ graph)));;
  FCHECK (bool_decide (size (Checker.rulesSeen_ c) = length (Graph.rules_ graph))).
End checker.

(** The checker run on the small heap (its hashes were never computed, and then
    with them). *)
Definition hashed (s : GState) : GState :=
  mkG (Node.setHashDepfile "h" <$> (Node.setHash "h" <$> g_nodes s))
      (Rule.setHashDepfile "h" <$> (Rule.setHash "h" <$> g_rules s)) (g_graph s).

Definition verdict (s : GState) (fuel : nat) : option bool :=
  match check s fuel Checker.new with Ret _ c => Some (Checker.isConsistent_ c) | _ => None end.

Example check_two_outputs :
  (verdict two_outputs 5, verdict (hashed two_outputs) 5, verdict (hashed two_outputs_dirty) 5) =
  (Some false, Some true, Some true).
Proof. vm_compute. reflexivity. Qed.

(** ** What the traversal checks *)

Definition node_ok (s : GState) (nd : Node.t) : Prop :=
  not_empty (Node.hash_ nd) = true ∧ not_empty (Node.hashDepfile_ nd) = true ∧
  ∀ r, Node.childRule_ nd = Some r → Node.isDirty nd = true → rule_dirty s r = true.

Definition rule_ok (s : GState) (rd : Rule.t) : Prop :=
  not_empty (Rule.hash_ rd) = true ∧ not_empty (Rule.hashDepfile_ rd) = true ∧
  (Rule.isPhony rd = true → length (Rule.outputs_ rd) = 1) ∧
  (Rule.isDirty rd = true → ∀ o, o ∈ Rule.outputs_ rd → node_lazy s o = true ∨ node_dirty s o = true) ∧
  (∀ i, i ∈ Rule.inputs_ rd → node_dirty s i = true → Rule.isDirty rd = true) ∧
  Rule.numInputsReady_ rd = countb (node_ready s) (Rule.inputs_ rd).

Definition is_root (s : GState) (n : N) : Prop :=
  ∃ nd, g_nodes s !! n = Some nd ∧ Node.parentRules_ nd = [].
Definition is_source (s : GState) (n : N) : Prop :=
  ∃ nd, g_nodes s !! n = Some nd ∧ Node.childRule_ nd = None.
#[export] Instance is_root_dec s n : Decision (is_root s n).
Proof.
  destruct (g_nodes s !! n) as [nd|] eqn:H; [destruct (decide (Node.parentRules_ nd = []))|];
    [left|right|right]; unfold is_root; naive_solver.
Defined.
#[export] Instance is_source_dec s n : Decision (is_source s n).
Proof.
  destruct (g_nodes s !! n) as [nd|] eqn:H; [destruct (decide (Node.childRule_ nd = None))|];
    [left|right|right]; unfold is_source; naive_solver.
Defined.

(** [delta s P c c']: between [c] and [c'] the traversal went through whole
    nodes and rules, and tested [P] besides what it tests of each of them. *)
Record delta (s : GState) (P : Prop) (c c' : Checker.t) : Prop := {
  d_nodes : Checker.nodesSeen_ c ⊆ Checker.nodesSeen_ c';
  d_rules : Checker.rulesSeen_ c ⊆ Checker.rulesSeen_ c';
  d_ndom m : m ∈ Checker.nodesSeen_ c' → m ∉ Checker.nodesSeen_ c → is_Some (g_nodes s !! m);
  d_rdom r : r ∈ Checker.rulesSeen_ c' → r ∉ Checker.rulesSeen_ c → is_Some (g_rules s !! r);
  d_child m nd r : m ∈ Checker.nodesSeen_ c' → m ∉ Checker.nodesSeen_ c →
    g_nodes s !! m = Some nd → Node.childRule_ nd = Some r → r ∈ Checker.rulesSeen_ c';
  d_input r rd i : r ∈ Checker.rulesSeen_ c' → r ∉ Checker.rulesSeen_ c →
    g_rules s !! r = Some rd → i ∈ Rule.inputs_ rd → i ∈ Checker.nodesSeen_ c';
  d_roots : Checker.nbRootsSeen_ c' = Checker.nbRootsSeen_ c +
    size (filter (is_root s) (Checker.nodesSeen_ c' ∖ Checker.nodesSeen_ c));
  d_sources : Checker.nbSourcesSeen_ c' = Checker.nbSourcesSeen_ c +
    size (filter (is_source s) (Checker.nodesSeen_ c' ∖ Checker.nodesSeen_ c));
  d_flag : Checker.isConsistent_ c' = true ↔ Checker.isConsistent_ c = true ∧ P ∧
    (∀ m nd, m ∈ Checker.nodesSeen_ c' → m ∉ Checker.nodesSeen_ c →
       g_nodes s !! m = Some nd → node_ok s nd) ∧
    (∀ r rd, r ∈ Checker.rulesSeen_ c' → r ∉ Checker.rulesSeen_ c →
       g_rules s !! r = Some rd → rule_ok s rd);
}.

(** Entering [x] in a set of objects seen. *)
Lemma enter_notin (X : gset N) x y : y ≠ x → y ∉ X → y ∉ {[x]} ∪ X.
Proof. set_solver. Qed.
Lemma enter_notin_r (X : gset N) x y : y ∉ {[x]} ∪ X → y ∉ X.
Proof. set_solver. Qed.
Lemma enter_in (X Z : gset N) x : {[x]} ∪ X ⊆ Z → x ∈ Z.
Proof. set_solver. Qed.
Lemma enter_sub (X Z : gset N) x : {[x]} ∪ X ⊆ Z → X ⊆ Z.
Proof. set_solver. Qed.
#[local] Hint Resolve enter_notin enter_notin_r enter_in enter_sub : falcon.

Section delta.
Context (s : GState).

Lemma filter_none (Q : N → Prop) `{∀ x, Decision (Q x)} (X : gset N) :
  size (filter Q (X ∖ X)) = 0.
Proof.
  apply size_empty_iff. intros x. rewrite elem_of_filter. clear. set_solver.
Qed.

Lemma delta_same P c c' :
  Checker.nodesSeen_ c' = Checker.nodesSeen_ c → Checker.rulesSeen_ c' = Checker.rulesSeen_ c →
  Checker.nbRootsSeen_ c' = Checker.nbRootsSeen_ c → Checker.nbSourcesSeen_ c' = Checker.nbSourcesSeen_ c →
  (Checker.isConsistent_ c' = true ↔ Checker.isConsistent_ c = true ∧ P) → delta s P c c'.
Proof.
  intros Hn Hr Hro Hso Hf.
  split; rewrite ?Hn, ?Hr, ?Hro, ?Hso, ?filter_none; try done; try lia.
  rewrite Hf. naive_solver.
Qed.

Lemma delta_refl c : delta s True c c.
Proof. apply delta_same; naive_solver. Qed.

Lemma delta_record b c : delta s (b = true) c (Checker.record b c).
Proof. apply delta_same; try done. simpl. by rewrite andb_true_iff. Qed.

Lemma delta_ext (P Q : Prop) c c' : (P ↔ Q) → delta s P c c' → delta s Q c c'.
Proof.
  intros H [N1 R1 Nd1 Rd1 C1 I1 Ro1 So1 F1]. split; try done. by rewrite F1, H.
Qed.

Lemma filter_split (Q : N → Prop) `{∀ x, Decision (Q x)} (X Y Z : gset N) :
  X ⊆ Y → Y ⊆ Z → size (filter Q (Z ∖ X)) = size (filter Q (Y ∖ X)) + size (filter Q (Z ∖ Y)).
Proof.
  intros HXY HYZ. rewrite <- size_union.
  - f_equal. apply set_eq. intros x. rewrite elem_of_union, !elem_of_filter, !elem_of_difference.
    destruct (decide (x ∈ Y)); set_solver.
  - intros x [_ H1]%elem_of_filter [_ H2]%elem_of_filter. set_solver.
Qed.

Lemma delta_trans P Q c c1 c2 : delta s P c c1 → delta s Q c1 c2 → delta s (P ∧ Q) c c2.
Proof.
  intros [N1 R1 Nd1 Rd1 C1 I1 Ro1 So1 F1] [N2 R2 Nd2 Rd2 C2 I2 Ro2 So2 F2]. split.
  - by etrans.
  - by etrans.
  - intros m H2 H0. destruct (decide (m ∈ Checker.nodesSeen_ c1)); auto.
  - intros m H2 H0. destruct (decide (m ∈ Checker.rulesSeen_ c1)); auto.
  - intros m nd r H2 H0 Hn Hc. destruct (decide (m ∈ Checker.nodesSeen_ c1)); [|by eapply C2].
    apply R2. by eapply C1.
  - intros r rd i H2 H0 Hr Hi. destruct (decide (r ∈ Checker.rulesSeen_ c1)); [|by eapply I2].
    apply N2. by eapply I1.
  - rewrite Ro2, Ro1, (filter_split _ (Checker.nodesSeen_ c) _ (Checker.nodesSeen_ c2) N1 N2). lia.
  - rewrite So2, So1, (filter_split _ (Checker.nodesSeen_ c) _ (Checker.nodesSeen_ c2) N1 N2). lia.
  - rewrite F2, F1. split.
    + intros ((Hf & HP & Hn & Hr) & HQ & Hn' & Hr'). split_and!; [done|done|done| |].
      * intros m nd H2 H0 Hm. destruct (decide (m ∈ Checker.nodesSeen_ c1)); eauto.
      * intros m rd H2 H0 Hm. destruct (decide (m ∈ Checker.rulesSeen_ c1)); eauto.
    + intros (Hf & [HP HQ] & Hn & Hr). split_and!; try done; eauto.
Qed.

Lemma delta_seq {A B} (m : M Checker.t A) (f : A → M Checker.t B) P Q (R : B → Checker.t → Prop) c :
  returns m (λ _ c1, delta s P c c1) c →
  (∀ a c1, delta s P c c1 → returns (f a) (λ b c2, delta s Q c1 c2 ∧ R b c2) c1) →
  returns (m ≫= f) (λ b c2, delta s (P ∧ Q) c c2 ∧ R b c2) c.
Proof.
  intros Hm Hf. apply wp_bind. eapply wp_mono; [exact Hm| |done]. intros a c1 H1.
  eapply wp_mono; [exact (Hf a c1 H1)| |done]. intros b c2 [H2 HR]. split; [exact (delta_trans _ _ _ _ _ H1 H2)|done].
Qed.

Lemma wp_FCHECK b Q E c : Q tt (Checker.record b c) → wp (FCHECK b) Q E c.
Proof. done. Qed.
Lemma wp_getNode n nd Q E c : g_nodes s !! n = Some nd → Q nd c → wp (getNode s n) Q E c.
Proof. intros H HQ. unfold getNode. rewrite H. done. Qed.
Lemma wp_getRule n rd Q E c : g_rules s !! n = Some rd → Q rd c → wp (getRule s n) Q E c.
Proof. intros H HQ. unfold getRule. rewrite H. done. Qed.

Lemma filter_enter (Q : N → Prop) `{∀ x, Decision (Q x)} (X Z : gset N) n :
  n ∉ X → {[n]} ∪ X ⊆ Z →
  size (filter Q (Z ∖ X)) = (if decide (Q n) then 1 else 0) + size (filter Q (Z ∖ ({[n]} ∪ X))).
Proof.
  intros Hn HZ. rewrite (filter_split Q X ({[n]} ∪ X) Z) by set_solver. f_equal.
  assert (({[n]} ∪ X) ∖ X = {[n]}) as -> by set_solver. case_decide as Hq.
  - rewrite <- (size_singleton (C := gset N) n). f_equal. apply set_eq. intros x.
    rewrite elem_of_filter. clear -Hq. set_solver.
  - apply size_empty_iff. intros x. rewrite elem_of_filter. clear -Hq. set_solver.
Qed.

(** The node [n] was entered at [c1] and left at [c2]. *)
Lemma delta_node P c c1 c2 n nd :
  n ∉ Checker.nodesSeen_ c → g_nodes s !! n = Some nd →
  Checker.nodesSeen_ c1 = {[n]} ∪ Checker.nodesSeen_ c → Checker.rulesSeen_ c1 = Checker.rulesSeen_ c →
  Checker.nbRootsSeen_ c1 = Checker.nbRootsSeen_ c + (if decide (is_root s n) then 1 else 0) →
  Checker.nbSourcesSeen_ c1 = Checker.nbSourcesSeen_ c + (if decide (is_source s n) then 1 else 0) →
  Checker.isConsistent_ c1 = Checker.isConsistent_ c →
  delta s P c1 c2 → (P ↔ node_ok s nd) →
  (∀ r, Node.childRule_ nd = Some r → r ∈ Checker.rulesSeen_ c2) →
  delta s True c c2.
Proof.
  intros Hn Hnd HN HR Hro Hso Hfl [N2 R2 Nd2 Rd2 C2 I2 Ro2 So2 F2] HP Hch.
  rewrite HN in *. rewrite HR in *. rewrite Hfl in F2.
  split.
  - eauto with falcon.
  - done.
  - intros m H2 H0. destruct (decide (m = n)) as [->|]; [by eexists|]. apply Nd2; auto with falcon.
  - done.
  - intros m nd' r H2 H0 Hm. destruct (decide (m = n)) as [->|]; [simplify_eq; auto|]. eapply C2; eauto with falcon.
  - done.
  - rewrite Ro2, Hro, (filter_enter _ _ _ n Hn N2). lia.
  - rewrite So2, Hso, (filter_enter _ _ _ n Hn N2). lia.
  - rewrite F2, HP. split.
    + intros (Hf & Hok & Hns & Hrs). split_and!; try done.
      intros m nd' H2 H0 Hm. destruct (decide (m = n)) as [->|]; [by simplify_eq|]. eapply Hns; eauto with falcon.
    + intros (Hf & _ & Hns & Hrs). split_and!; try done; [eapply Hns; eauto with falcon|].
      intros m nd' H2 H0. eapply Hns; eauto with falcon.
Qed.

Lemma delta_rule P c c2 r rd :
  r ∉ Checker.rulesSeen_ c → g_rules s !! r = Some rd →
  delta s P (Checker.seeRule r c) c2 → (P ↔ rule_ok s rd) →
  (∀ i, i ∈ Rule.inputs_ rd → i ∈ Checker.nodesSeen_ c2) → delta s True c c2.
Proof.
  intros Hr Hrd [N2 R2 Nd2 Rd2 C2 I2 Ro2 So2 F2] HP Hin. simpl in *. split; try done.
  - eauto with falcon.
  - intros m H2 H0. destruct (decide (m = r)) as [->|]; [by eexists|]. apply Rd2; auto with falcon.
  - intros m rd' i H2 H0 Hm. destruct (decide (m = r)) as [->|]; [simplify_eq; auto|]. eapply I2; eauto with falcon.
  - rewrite F2, HP. split.
    + intros (Hf & Hok & Hns & Hrs). split_and!; try done.
      intros m nd' H2 H0 Hm. destruct (decide (m = r)) as [->|]; [by simplify_eq|]. eapply Hrs; eauto with falcon.
    + intros (Hf & _ & Hns & Hrs). split_and!; try done; [eapply Hrs; eauto with falcon|].
      intros m nd' H2 H0. eapply Hrs; eauto with falcon.
Qed.
End delta.

(** ** The traversal *)

Definition has_outputs (s : GState) : Prop := ∀ r rd,
  g_rules s !! r = Some rd → Rule.outputs_ rd ≠ [].

Lemma delta_dom s P c c' :
  delta s P c c' → Checker.nodesSeen_ c ⊆ dom (g_nodes s) → Checker.nodesSeen_ c' ⊆ dom (g_nodes s).
Proof.
  intros Hd Hc m Hm. destruct (decide (m ∈ Checker.nodesSeen_ c)); [auto|].
  apply elem_of_dom. by eapply (d_ndom _ _ _ _ Hd).
Qed.

Lemma delta_size s P c c' :
  delta s P c c' → size (Checker.nodesSeen_ c) ≤ size (Checker.nodesSeen_ c').
Proof. intros Hd. apply subseteq_size, Hd. Qed.

(** A node that is seen does not need to be looked at again. *)
Definition visits (s : GState) (k : nat) (visit : N → M Checker.t unit) : Prop := ∀ n c,
  is_Some (g_nodes s !! n) → Checker.nodesSeen_ c ⊆ dom (g_nodes s) →
  k ≤ size (Checker.nodesSeen_ c) →
  returns (visit n) (λ _ c', delta s True c c' ∧ n ∈ Checker.nodesSeen_ c') c.

Section traversal.
Context (s : GState).
Hypothesis Hok : structure_ok s.
Hypothesis Hg : graph_ok s.
Hypothesis Houts : has_outputs s.

Lemma wp_firstOutput r rd Q E c :
  g_rules s !! r = Some rd → (∀ p, Q p c) → wp (firstOutput s rd) Q E c.
Proof.
  intros Hr HQ. unfold firstOutput. pose proof (Houts r rd Hr) as Hne.
  destruct (Rule.outputs_ rd) as [|o l] eqn:He; [done|].
  destruct (so_output s Hok r rd o Hr) as (nd & Hn & _); [rewrite He; set_solver|].
  apply wp_bind. eapply wp_deref; [done|]. apply wp_bind. eapply wp_getNode; [done|].
  apply wp_ret, HQ.
Qed.

(** One test after another. *)
Lemma check_seq {B} b (m : M Checker.t B) Q (R : B → Checker.t → Prop) c :
  (∀ c1, delta s (b = true) c c1 → returns m (λ x c2, delta s Q c1 c2 ∧ R x c2) c1) →
  returns (FCHECK b;; m) (λ x c2, delta s (b = true ∧ Q) c c2 ∧ R x c2) c.
Proof.
  intros H. apply delta_seq; [apply wp_FCHECK, delta_record|]. intros _ c1 H1. by apply H.
Qed.

Lemma check_if_seq {B} (p b : bool) (m : M Checker.t B) Q (R : B → Checker.t → Prop) c :
  (∀ c1, delta s (p = true → b = true) c c1 → returns m (λ x c2, delta s Q c1 c2 ∧ R x c2) c1) →
  returns ((if p then FCHECK b else mret tt);; m)
    (λ x c2, delta s ((p = true → b = true) ∧ Q) c c2 ∧ R x c2) c.
Proof.
  intros H. apply (delta_seq s).
  - destruct p.
    + apply wp_FCHECK. eapply delta_ext; [|apply delta_record]. naive_solver.
    + apply wp_ret. eapply delta_ext; [|apply delta_refl]. naive_solver.
  - intros _ c1 H1. by apply H.
Qed.

(** The outputs of a dirty rule. *)
Lemma check_outputs (p : bool) r rd c :
  g_rules s !! r = Some rd →
  returns (if p then foreach (Rule.outputs_ rd) (λ o,
             nd ← getNode s o; FCHECK (Node.isLazyFetched_ nd || Node.isDirty nd)) else mret tt)
    (λ _ c', delta s (p = true → ∀ o, o ∈ Rule.outputs_ rd →
                        node_lazy s o = true ∨ node_dirty s o = true) c c') c.
Proof.
  intros Hr. destruct p; [|apply wp_ret; eapply delta_ext; [|apply delta_refl]; naive_solver].
  apply (wp_foreach (λ pre c', delta s (∀ o, o ∈ pre → node_lazy s o = true ∨ node_dirty s o = true) c c')).
  - eapply delta_ext; [|apply delta_refl]. set_solver.
  - intros pre o post c1 Hl Hd. destruct (so_output s Hok r rd o Hr) as (nd & Hn & _); [rewrite Hl; set_solver|].
    apply wp_bind. eapply wp_getNode; [done|]. apply wp_FCHECK.
    eapply delta_ext; [|eapply delta_trans; [exact Hd|apply delta_record]].
    unfold node_lazy, node_dirty. setoid_rewrite elem_of_app. setoid_rewrite list_elem_of_singleton.
    rewrite orb_true_iff. split; [|intros H; split; [naive_solver|]].
    + intros [H1 H2] x [?| ->]; [by apply H1|by rewrite Hn].
    + specialize (H o ltac:(by right)). by rewrite Hn in H.
  - intros c' Hd. eapply delta_ext; [|exact Hd]. naive_solver.
Qed.

(** The inputs of a rule. *)
Lemma check_inputs cn k r rd c :
  visits s k cn → g_rules s !! r = Some rd → Checker.nodesSeen_ c ⊆ dom (g_nodes s) →
  k ≤ size (Checker.nodesSeen_ c) →
  returns (foldM (Rule.inputs_ rd) (∅ : gset N, 0) (λ '(seen, nbReady) i,
      nd ← getNode s i;
      firstOutput s rd;;
      FCHECK (negb (bool_decide (i ∈ seen)));;
      (if Node.isDirty nd then FCHECK (Rule.isDirty rd) else mret tt);;
      cn i;;
      mret ({[i]} ∪ seen,
            if Node.isSource nd || negb (Node.isDirty nd) then S nbReady else nbReady)))
    (λ sn c', delta s (∀ i, i ∈ Rule.inputs_ rd → node_dirty s i = true → Rule.isDirty rd = true) c c' ∧
       sn.2 = countb (node_ready s) (Rule.inputs_ rd) ∧
       ∀ i, i ∈ Rule.inputs_ rd → i ∈ Checker.nodesSeen_ c') c.
Proof.
  intros Hcn Hr Hdom Hk.
  apply (wp_foldM (λ pre sn c', delta s (∀ i, i ∈ pre → node_dirty s i = true → Rule.isDirty rd = true) c c' ∧
    (sn.1 = list_to_set pre ∧ sn.2 = countb (node_ready s) pre ∧ ∀ i, i ∈ pre → i ∈ Checker.nodesSeen_ c'))).
  - split; [eapply delta_ext; [|apply delta_refl]; set_solver|]. split_and!; [done|done|set_solver].
  - intros pre i post [seen nb] c1 Hl (Hd & Hseen & Hnb & Hpre). simpl in *.
    destruct (so_input s Hok r rd i Hr) as (nd & Hn & _); [rewrite Hl; set_solver|].
    assert (Hni : i ∉ seen).
    { pose proof (so_inputs_nodup s Hok r rd Hr) as Hnd. rewrite Hl in Hnd.
      apply NoDup_app in Hnd as (_ & Hnd & _). subst seen. set_solver. }
    apply wp_bind. eapply wp_getNode; [done|].
    apply wp_bind. eapply wp_firstOutput; [done|]. intros _.
    eapply wp_mono; [apply (check_seq _ _ ((Node.isDirty nd = true → Rule.isDirty rd = true) ∧ True)
      (λ sn' c', sn' = ({[i]} ∪ seen, if Node.isSource nd || negb (Node.isDirty nd) then S nb else nb)
                 ∧ i ∈ Checker.nodesSeen_ c'))| |done].
    + intros c2 Hd2. apply check_if_seq. intros c3 Hd3. apply wp_bind.
      eapply wp_mono; [apply Hcn; [by eexists| |]| |done].
      * eapply delta_dom; [exact Hd3|]. eapply delta_dom; [exact Hd2|]. by eapply delta_dom.
      * apply delta_size in Hd, Hd2, Hd3. lia.
      * intros [] c4 [Hd4 Hi4]. apply wp_ret. by split.
    + intros sn' c4 (Hd4 & -> & Hi4). simpl. split; [|split_and!].
      * eapply delta_ext; [|eapply delta_trans; [exact Hd|exact Hd4]].
        rewrite bool_decide_eq_false_2 by done. unfold node_dirty.
        setoid_rewrite elem_of_app. setoid_rewrite list_elem_of_singleton. split.
        -- intros (H1 & _ & H2 & _) x [?| ->]; [by apply H1|]. by rewrite Hn.
        -- intros H. split_and!; try done; [naive_solver|]. specialize (H i ltac:(by right)). by rewrite Hn in H.
      * subst seen. rewrite list_to_set_app_L. set_solver.
      * rewrite countb_app, countb_cons, <- Hnb. unfold node_ready. rewrite Hn.
        destruct (_ || _); unfold countb; simpl; lia.
      * apply d_nodes in Hd4. set_solver.
  - intros [seen nb] c' (Hd & _ & Hnb & Hall). done.
Qed.

Lemma checkRule_spec cn k r c :
  visits s k cn → is_Some (g_rules s !! r) → Checker.nodesSeen_ c ⊆ dom (g_nodes s) →
  k ≤ size (Checker.nodesSeen_ c) →
  returns (checkRule_with s cn r) (λ _ c', delta s True c c' ∧ r ∈ Checker.rulesSeen_ c') c.
Proof.
  intros Hcn [rd Hr] Hdom Hk. unfold checkRule_with. apply wp_bind, wp_mget.
  case_bool_decide as Hin; [apply wp_ret; split; [apply delta_refl|done]|].
  apply wp_bind, wp_modify. apply wp_bind. eapply wp_getRule; [done|].
  pose (P := not_empty (Rule.hash_ rd) = true ∧ not_empty (Rule.hashDepfile_ rd) = true ∧
    negb (bool_decide (Rule.outputs_ rd = [])) = true ∧
    bool_decide (Rule.isPhony rd = bool_decide (Rule.command_ rd = "")) = true ∧
    (Rule.isPhony rd = true → bool_decide (length (Rule.outputs_ rd) = 1) = true) ∧
    (Rule.isDirty rd = true → ∀ o, o ∈ Rule.outputs_ rd → node_lazy s o = true ∨ node_dirty s o = true) ∧
    (∀ i, i ∈ Rule.inputs_ rd → node_dirty s i = true → Rule.isDirty rd = true) ∧
    bool_decide (Rule.numInputsReady_ rd = countb (node_ready s) (Rule.inputs_ rd)) = true).
  eapply (wp_mono _ (λ _ c2, delta s P (Checker.seeRule r c) c2 ∧
    ∀ i, i ∈ Rule.inputs_ rd → i ∈ Checker.nodesSeen_ c2) _ (λ _ _, False)); [|intros [] c2 [Hd Hi]|done].
  - apply check_seq. intros c1 D1. apply check_seq. intros c2 D2. apply check_seq. intros c3 D3.
    apply check_seq. intros c4 D4. apply check_if_seq. intros c5 D5.
    apply (delta_seq s); [by eapply check_outputs|]. intros _ c6 D6.
    apply wp_bind. eapply wp_mono; [eapply (check_inputs cn k); [done|done| |]| |done].
    + do 6 (eapply delta_dom; [eassumption|]). done.
    + apply delta_size in D1, D2, D3, D4, D5, D6. simpl in D1. lia.
    + intros [seen nb] c7 (D7 & Hnb & Hall). simpl in Hnb. subst nb. apply wp_FCHECK. split; [|done].
      eapply delta_trans; [exact D7|apply delta_record].
  - split; [|apply (d_rules _ _ _ _ Hd); set_solver]. eapply delta_rule; try done.
    unfold P, rule_ok. rewrite (bool_decide_eq_false_2 (Rule.outputs_ rd = [])) by by eapply Houts.
    rewrite !bool_decide_eq_true. unfold Rule.isPhony. naive_solver.
Qed.

Lemma check_parents n nd c :
  g_nodes s !! n = Some nd →
  returns (foldM (Node.parentRules_ nd) (∅ : gset N) (λ parents p,
        pr ← getRule s p;
        firstOutput s pr;;
        FCHECK (negb (bool_decide (p ∈ parents)));;
        mret ({[p]} ∪ parents))) (λ _ c', delta s True c c') c.
Proof.
  intros Hn. apply (wp_foldM (λ pre (ps : gset N) c', delta s True c c' ∧ ps = list_to_set pre)).
  - split; [apply delta_refl|done].
  - intros pre p post ps c1 Hl [Hd ->].
    destruct (so_parent s Hok n nd p Hn) as (rd & Hr & _); [rewrite Hl; set_solver|].
    apply wp_bind. eapply wp_getRule; [done|]. apply wp_bind. eapply wp_firstOutput; [done|]. intros _.
    apply wp_bind, wp_FCHECK, wp_ret. split.
    + eapply delta_ext; [|eapply delta_trans; [exact Hd|apply delta_record]].
      rewrite bool_decide_eq_false_2; [naive_solver|].
      pose proof (so_parents_nodup s Hok n nd Hn) as Hnd. rewrite Hl in Hnd.
      apply NoDup_app in Hnd as (_ & Hnd & _). set_solver.
    + rewrite list_to_set_app_L. set_solver.
  - by intros ps c' [Hd _].
Qed.

(** [n] is seen and counted. *)
Definition entered (n : N) (c : Checker.t) : Checker.t :=
  Checker.mk (Checker.nbRootsSeen_ c + if decide (is_root s n) then 1 else 0)
    (Checker.nbSourcesSeen_ c + if decide (is_source s n) then 1 else 0)
    ({[n]} ∪ Checker.nodesSeen_ c) (Checker.rulesSeen_ c) (Checker.isConsistent_ c).

Definition hashes_ok (nd : Node.t) : bool := not_empty (Node.hash_ nd) && not_empty (Node.hashDepfile_ nd).

(** The tests before the child rule is visited. *)
Lemma wp_enter n nd c (rest : M Checker.t unit) Q E :
  g_nodes s !! n = Some nd →
  wp rest Q E (Checker.mk (Checker.nbRootsSeen_ (entered n c)) (Checker.nbSourcesSeen_ c)
    ({[n]} ∪ Checker.nodesSeen_ c) (Checker.rulesSeen_ c) (Checker.isConsistent_ c && hashes_ok nd)) →
  wp (FCHECK (not_empty (Node.hash_ nd));;
      FCHECK (not_empty (Node.hashDepfile_ nd));;
      FCHECK (bool_decide (is_Some (Graph.nodes_ (g_graph s) !! Node.path_ nd)));;
      (if bool_decide (Node.parentRules_ nd = [])
       then FCHECK (bool_decide (n ∈ Graph.roots_ (g_graph s)));; modify Checker.addRoot
       else mret tt);; rest) Q E (Checker.seeNode n c).
Proof.
  intros Hn Hrest. do 3 (apply wp_bind; apply wp_FCHECK). apply wp_bind.
  rewrite (bool_decide_eq_true_2 (is_Some _)) by (exists n; apply (go_nodes s Hg); eauto).
  revert Hrest. unfold entered, hashes_ok, Checker.record, Checker.seeNode. simpl.
  case_bool_decide as Hp.
  - assert (is_root s n) by by exists nd. intros Hrest. apply wp_bind. apply wp_FCHECK. apply wp_modify.
    rewrite bool_decide_eq_true_2 by by apply (go_roots s Hg).
    unfold Checker.addRoot, Checker.record. simpl. rewrite decide_True in Hrest by done.
    by rewrite !andb_true_r, <- Nat.add_1_r, <- andb_assoc.
  - rewrite decide_False by (unfold is_root; naive_solver). intros Hrest. apply wp_ret.
    by rewrite Nat.add_0_r, andb_assoc in Hrest; rewrite andb_true_r.
Qed.

Lemma check_child_dirty nd r rd c :
  g_rules s !! r = Some rd →
  returns (if Node.isDirty nd then r ← getRule s r; FCHECK (Rule.isDirty r) else mret tt)
    (λ _ c', delta s (Node.isDirty nd = true → rule_dirty s r = true) c c') c.
Proof.
  intros Hr. destruct (Node.isDirty nd).
  - apply wp_bind. eapply wp_getRule; [done|]. apply wp_FCHECK. unfold rule_dirty. rewrite Hr.
    eapply delta_ext; [|apply delta_record]. naive_solver.
  - apply wp_ret. eapply delta_ext; [|apply delta_refl]. naive_solver.
Qed.

Lemma checkNode_spec fuel :
  visits s (S (size (dom (g_nodes s))) - fuel) (checkNode s fuel).
Proof.
  induction fuel as [|fuel IH]; intros n c [nd Hn] Hdom Hk.
  { apply subseteq_size in Hdom. lia. }
  simpl. apply wp_bind, wp_mget. case_bool_decide as Hin; [apply wp_ret; split; [apply delta_refl|done]|].
  apply wp_bind, wp_modify, wp_bind. eapply wp_getNode; [done|].
  assert (Hdom1 : {[n]} ∪ Checker.nodesSeen_ c ⊆ dom (g_nodes s)).
  { assert (n ∈ dom (g_nodes s)) by (by apply elem_of_dom). set_solver. }
  assert (Hsz : size ({[n]} ∪ Checker.nodesSeen_ c) = S (size (Checker.nodesSeen_ c))).
  { rewrite size_union, size_singleton by set_solver. done. }
  apply wp_enter; [done|].
  assert (Hparents : ∀ P c1, delta s P (entered n c) c1 → (P ↔ node_ok s nd) →
    (∀ r, Node.childRule_ nd = Some r → r ∈ Checker.rulesSeen_ c1) →
    returns (foldM (Node.parentRules_ nd) (∅ : gset N) (λ parents p,
        pr ← getRule s p; firstOutput s pr;;
        FCHECK (negb (bool_decide (p ∈ parents)));; mret ({[p]} ∪ parents));; mret tt)
      (λ _ c', delta s True c c' ∧ n ∈ Checker.nodesSeen_ c') c1).
  { intros P c1 D1 HP Hch. apply wp_bind. eapply wp_mono; [by eapply check_parents| |done].
    intros ps c2 D2. apply wp_ret. pose proof (delta_trans _ _ _ _ _ _ D1 D2) as D. split.
    - apply (delta_node s (P ∧ True) c (entered n c) c2 n nd); try done; [tauto|]. intros r Hr. apply (d_rules _ _ _ _ D2). auto.
    - apply (d_nodes _ _ _ _ D). simpl. clear. set_solver. }
  destruct (Node.childRule_ nd) as [r|] eqn:Hch.
  - destruct (so_child s Hok n nd r Hn Hch) as (rd & Hr & _).
    assert (D0 : delta s (hashes_ok nd = true) (entered n c)
      (Checker.mk (Checker.nbRootsSeen_ (entered n c)) (Checker.nbSourcesSeen_ c)
        ({[n]} ∪ Checker.nodesSeen_ c) (Checker.rulesSeen_ c) (Checker.isConsistent_ c && hashes_ok nd))).
    { apply delta_same; try done; simpl; [|by rewrite andb_true_iff].
      rewrite decide_False by (unfold is_source; naive_solver). lia. }
    apply wp_bind, wp_bind. eapply wp_mono; [by eapply check_child_dirty| |done]. intros [] c1 D1.
    pose proof (delta_trans _ _ _ _ _ _ D0 D1) as D.
    eapply wp_mono; [eapply (checkRule_spec _ _ _ _ IH); [by eexists|by eapply delta_dom|]| |done].
    + apply delta_size in D. simpl in D. lia.
    + intros [] c2 [D2 Hr2]. eapply Hparents; [exact (delta_trans _ _ _ _ _ _ D D2)| |].
      * unfold hashes_ok, node_ok. rewrite andb_true_iff, Hch. naive_solver.
      * naive_solver.
  - apply wp_bind, wp_bind, wp_FCHECK, wp_modify.
    eapply (Hparents (hashes_ok nd = true)); [|unfold hashes_ok, node_ok; rewrite andb_true_iff, Hch; naive_solver|done].
    assert (is_source s n) by by exists nd.
    apply delta_same; try done; simpl.
    + rewrite decide_True by done. lia.
    + rewrite bool_decide_eq_true_2 by by apply (go_sources s Hg). by rewrite andb_true_r, andb_true_iff.
Qed.
End traversal.

(** What an accepted graph satisfies besides its structure. *)
Record checked (s : GState) : Prop := {
  ck_consistent : consistent s;
  ck_nodes n nd : g_nodes s !! n = Some nd → Node.hash_ nd ≠ "" ∧ Node.hashDepfile_ nd ≠ "";
  ck_rules r rd : g_rules s !! r = Some rd → Rule.hash_ rd ≠ "" ∧ Rule.hashDepfile_ rd ≠ "" ∧
    (Rule.isPhony rd = true → length (Rule.outputs_ rd) = 1);
}.

Lemma not_empty_iff h : not_empty h = true ↔ h ≠ "".
Proof. unfold not_empty. by rewrite negb_true_iff, bool_decide_eq_false. Qed.

Lemma checked_iff s :
  structure_ok s →
  checked s ↔ (∀ n nd, g_nodes s !! n = Some nd → node_ok s nd) ∧
              (∀ r rd, g_rules s !! r = Some rd → rule_ok s rd).
Proof.
  intros Hok. unfold node_ok, rule_ok. setoid_rewrite not_empty_iff. split.
  - intros [[_ Hc Hi Ho Hch] Hn Hr]. split.
    + intros n nd Hnd. destruct (Hn n nd Hnd). split_and!; [done|done|]. intros r Hcr Hd.
      eapply (Hch n nd); [done|done|]. unfold node_dirty. by rewrite Hnd.
    + intros r rd Hrd. destruct (Hr r rd Hrd) as (? & ? & ?). split_and!; [done|done|done| | |by eapply Hc].
      * intros Hd o. eapply Ho; [done|]. unfold rule_dirty. by rewrite Hrd.
      * intros i Hin Hd. pose proof (Hi r rd i Hrd Hin Hd) as Hx. unfold rule_dirty in Hx. by rewrite Hrd in Hx.
  - intros [Hn Hr]. split; [split; [done| | | |]| |].
    + intros r rd Hrd. by destruct (Hr r rd Hrd) as (_ & _ & _ & _ & _ & ?).
    + intros r rd i Hrd Hi Hd. destruct (Hr r rd Hrd) as (_ & _ & _ & _ & H & _).
      unfold rule_dirty. rewrite Hrd. by eapply H.
    + intros r rd o Hrd Hd Ho. destruct (Hr r rd Hrd) as (_ & _ & _ & H & _ & _).
      apply H; [|done]. unfold rule_dirty in Hd. by rewrite Hrd in Hd.
    + intros n nd r Hnd Hcr Hd. destruct (Hn n nd Hnd) as (_ & _ & H).
      apply H; [done|]. unfold node_dirty in Hd. by rewrite Hnd in Hd.
    + intros n nd Hnd. by destruct (Hn n nd Hnd) as (? & ? & _).
    + intros r rd Hrd. by destruct (Hr r rd Hrd) as (? & ? & ? & _).
Qed.

(** The sizes that [check] compares. *)
Lemma graph_ok_nodes_size s : graph_ok s → size (Graph.nodes_ (g_graph s)) = size (dom (g_nodes s)).
Proof.
  intros Hg. rewrite <- length_map_to_list, <- (length_fmap snd).
  unfold size, set_size. simpl. apply Permutation_length, NoDup_Permutation.
  - apply NoDup_fmap_2_strong, NoDup_map_to_list. intros [p1 n1] [p2 n2] H1 H2 [= ->].
    apply elem_of_map_to_list in H1, H2. apply (go_nodes s Hg) in H1 as (? & ? & ?), H2 as (? & ? & ?).
    by simplify_eq.
  - apply NoDup_elements.
  - intros n. rewrite elem_of_elements, elem_of_dom, list_elem_of_fmap. split.
    + intros ([p n'] & -> & Hin). apply elem_of_map_to_list in Hin. apply (go_nodes s Hg) in Hin as (nd & ? & _).
      by exists nd.
    + intros [nd Hn]. exists (Node.path_ nd, n). split; [done|]. apply elem_of_map_to_list, (go_nodes s Hg).
      by exists nd.
Qed.

Lemma graph_ok_rules_size s : graph_ok s → length (Graph.rules_ (g_graph s)) = size (dom (g_rules s)).
Proof.
  intros Hg. unfold size, set_size. simpl. apply Permutation_length, NoDup_Permutation.
  - apply Hg.
  - apply NoDup_elements.
  - intros r. by rewrite elem_of_elements, elem_of_dom, (go_rules s Hg).
Qed.

(** From the roots the traversal reaches everything. *)
Lemma traversal_complete s c :
  structure_ok s → graph_ok s → acyclic s → has_outputs s → delta s True Checker.new c →
  (∀ n, n ∈ Graph.roots_ (g_graph s) → n ∈ Checker.nodesSeen_ c) →
  Checker.nodesSeen_ c = dom (g_nodes s) ∧ Checker.rulesSeen_ c = dom (g_rules s).
Proof.
  intros Hok Hg Hac Houts Hd Hroots. destruct (acyclic_bounded s Hok Hac) as (rank & Hrank & Hbound).
  assert (Hall : ∀ k n, is_Some (g_nodes s !! n) → size (g_nodes s) - rank n ≤ k → n ∈ Checker.nodesSeen_ c).
  { induction k as [|k IH]; intros n [nd Hn] Hk; [pose proof (Hbound n ltac:(by eexists)); lia|].
    destruct (Node.parentRules_ nd) as [|r l] eqn:Hp.
    { apply Hroots, (go_roots s Hg). by exists nd. }
    destruct (so_parent s Hok n nd r Hn) as (rd & Hr & Hin); [rewrite Hp; set_solver|].
    pose proof (Houts r rd Hr) as Hne. destruct (Rule.outputs_ rd) as [|o outs] eqn:Ho; [done|].
    destruct (so_output s Hok r rd o Hr) as (ond & Hon & Hch); [rewrite Ho; set_solver|].
    assert (rank n < rank o).
    { apply Hrank. exists r, rd. split_and!; [done|done|rewrite Ho; set_solver]. }
    assert (o ∈ Checker.nodesSeen_ c) as Hoc by (apply IH; [by eexists|lia]).
    eapply (d_input _ _ _ _ Hd r rd); [|apply not_elem_of_empty|done|done].
    eapply (d_child _ _ _ _ Hd o ond); [done|apply not_elem_of_empty|done|done]. }
  split; apply set_eq; intros x; rewrite elem_of_dom; split.
  - intros Hx. eapply (d_ndom _ _ _ _ Hd); [done|apply not_elem_of_empty].
  - intros Hx. by eapply Hall.
  - intros Hx. eapply (d_rdom _ _ _ _ Hd); [done|apply not_elem_of_empty].
  - intros [rd Hr]. pose proof (Houts x rd Hr) as Hne.
    destruct (Rule.outputs_ rd) as [|o outs] eqn:Ho; [done|].
    destruct (so_output s Hok x rd o Hr) as (ond & Hon & Hch); [rewrite Ho; set_solver|].
    eapply (d_child _ _ _ _ Hd o ond); [|apply not_elem_of_empty|done|done].
    eapply Hall; [by eexists|done].
Qed.

Lemma check_roots s fuel :
  structure_ok s → graph_ok s → has_outputs s → size (g_nodes s) < fuel →
  returns (foreach (set_elems (Graph.roots_ (g_graph s))) (checkNode s fuel))
    (λ _ c, delta s True Checker.new c ∧ ∀ n, n ∈ Graph.roots_ (g_graph s) → n ∈ Checker.nodesSeen_ c)
    Checker.new.
Proof.
  intros Hok Hg Houts Hfuel.
  apply (wp_foreach (λ pre c, delta s True Checker.new c ∧ ∀ n, n ∈ pre → n ∈ Checker.nodesSeen_ c)).
  - split; [apply delta_refl|set_solver].
  - intros pre n post c Hl [D Hpre].
    assert (n ∈ Graph.roots_ (g_graph s)) as Hn by (rewrite <- elem_of_set_elems, Hl; set_solver).
    eapply wp_mono; [apply (checkNode_spec s Hok Hg Houts fuel)| |done].
    + apply (go_roots s Hg) in Hn as (nd & ? & _). by eexists.
    + eapply delta_dom; [done|]. simpl. set_solver.
    + rewrite size_dom. lia.
    + intros [] c' [D' Hin]. pose proof (delta_trans _ _ _ _ _ _ D D') as D2.
      split; [by eapply delta_ext; [|exact D2]|].
      intros m [Hm| ->%list_elem_of_singleton]%elem_of_app; [|done]. apply (d_nodes _ _ _ _ D'). auto.
  - intros c [D H]. split; [done|]. intros n Hn. apply H. by rewrite elem_of_set_elems.
Qed.

(** The checker, on a graph that is as the daemon builds it. *)
Lemma check_spec s fuel :
  structure_ok s → graph_ok s → acyclic s → has_outputs s → size (g_nodes s) < fuel →
  returns (check s fuel) (λ _ c, Checker.isConsistent_ c = true ↔ checked s) Checker.new.
Proof.
  intros Hok Hg Hac Houts Hfuel. unfold check. apply wp_bind.
  eapply wp_mono; [by apply check_roots| |done]. intros [] c [D Hroots].
  destruct (traversal_complete s c Hok Hg Hac Houts D Hroots) as [HN HR].
  apply wp_bind, wp_mget. do 3 (apply wp_bind; apply wp_FCHECK). apply wp_FCHECK.
  pose proof (d_roots _ _ _ _ D) as Hro. pose proof (d_sources _ _ _ _ D) as Hso.
  pose proof (d_flag _ _ _ _ D) as Hfl.
  assert (Hfull : ∀ (Q : N → Prop) `{∀ x, Decision (Q x)} (X : gset N),
    (∀ n, n ∈ X ↔ Q n) → (∀ n, Q n → is_Some (g_nodes s !! n)) →
    size (filter Q (Checker.nodesSeen_ c ∖ Checker.nodesSeen_ Checker.new)) = size X).
  { intros Q ? X HX HQ. f_equal. apply set_eq. intros n. rewrite elem_of_filter, HN, HX. simpl.
    rewrite elem_of_difference, elem_of_dom, elem_of_empty. naive_solver. }
  rewrite (Hfull _ _ (Graph.roots_ (g_graph s))) in Hro
    by (first [apply (go_roots s Hg)|intros n (? & ? & _); by eexists]).
  rewrite (Hfull _ _ (Graph.sources_ (g_graph s))) in Hso
    by (first [apply (go_sources s Hg)|intros n (? & ? & _); by eexists]).
  simpl. rewrite Hro, Hso, HN, HR, graph_ok_nodes_size, graph_ok_rules_size by done.
  rewrite !bool_decide_eq_true_2 by done. rewrite !andb_true_r, Hfl, checked_iff by done. simpl.
  setoid_rewrite HN. setoid_rewrite HR. setoid_rewrite elem_of_dom.
  setoid_rewrite elem_of_empty. clear. naive_solver.
Qed.

(** C15: the checker decides consistency.  On a graph whose pointers and sets are
    right (acyclic, no rule without output) the traversal terminates, reads no
    invalid pointer, and [isConsistent_] is true exactly when the states and the
    counters of all nodes and rules are consistent, all hashes are computed and
    phony rules have one output. *)
Theorem check_exact s fuel :
  structure_ok s → graph_ok s → acyclic s → has_outputs s → size (g_nodes s) < fuel →
  returns (check s fuel) (λ _ c, Checker.isConsistent_ c = true ↔ checked s) Checker.new.
Proof. apply check_spec. Qed.

Lemma check_outputs_sound s :
  all_rules s (λ _ rd, negb (bool_decide (Rule.outputs_ rd = []))) = true → has_outputs s.
Proof.
  intros H r rd Hr. pose proof (all_rules_spec _ _ _ _ H Hr) as Ho. simpl in Ho.
  by apply negb_true_iff, bool_decide_eq_false in Ho.
Qed.

Lemma two_outputs_hashed_ok : check_structure (hashed two_outputs) && check_graph (hashed two_outputs)
  && check_rank (hashed two_outputs) two_outputs_rank = true.
Proof. vm_compute. reflexivity. Defined.

Lemma check_exact_witness :
  returns (check (hashed two_outputs) 5)
    (λ _ c, Checker.isConsistent_ c = true ↔ checked (hashed two_outputs)) Checker.new.
Proof.
  pose proof two_outputs_hashed_ok as H. apply andb_true_iff in H as [[H1 H2]%andb_true_iff H3].
  apply (check_exact (hashed two_outputs) 5).
  - by apply check_structure_sound.
  - by apply check_graph_sound.
  - by apply (check_rank_sound _ two_outputs_rank).
  - apply check_outputs_sound. vm_compute. reflexivity.
  - vm_compute. lia.
Defined.
