(* ===== verification/DepfileParser.v ===== *)
(** * The depfile scanner (depfile_parser.cpp, string_piece.h)

    DepfileParser::Parse reads the Makefile fragment a compiler writes, in
    place: escapes are removed by moving characters towards the start of the
    buffer, and the file names it returns point into the buffer.  The buffer is
    a list of [char] values (signed, -128 to 127) whose last cell is the
    terminating NUL of the [std::string]; pointers are indices.  The labels of
    the scanner generated by re2c keep their names. *)

From S2P Require Import Prelude.
From Stdlib Require Import Ascii.

Definition ch (c : ascii) : Z := Z.of_N (N_of_ascii c).

(** A slice of the buffer. *)
Record StringPiece := mkPiece { str_ : nat; len_ : Z }.

(** The locals and members of Parse. *)
Record L := mkL {
  content : list Z;
  in_ : nat;
  out : nat;
  parsing_targets : bool;
  out_ : option StringPiece;
  ins_ : list StringPiece;
}.

Definition set_in (i : nat) (s : L) : L :=
  mkL (content s) i (out s) (parsing_targets s) (out_ s) (ins_ s).
Definition set_out (o : nat) (s : L) : L :=
  mkL (content s) (in_ s) o (parsing_targets s) (out_ s) (ins_ s).
Definition set_content (m : list Z) (s : L) : L :=
  mkL m (in_ s) (out s) (parsing_targets s) (out_ s) (ins_ s).

(** [*p]: the terminator may be read, nothing beyond it. *)
Definition load (p : nat) : M L Z := λ s, deref (content s !! p) s.
(** [*p = c]: the terminator must not be written. *)
Definition store (p : nat) (c : Z) : M L unit :=
  s ← mget;
  if S p <? length (content s) then mput (set_content (<[p := c]> (content s)) s)
  else mabort BadAccess.

(** Conversion of a pointer difference to [int]. *)
Definition to_int (z : Z) : Z := ((z + 2 ^ 31) mod 2 ^ 32 - 2 ^ 31)%Z.

(** [memmove(dst, src, len)]. *)
Definition memmove (dst src : nat) (len : Z) : M L unit :=
  s ← mget;
  if (len <? 0)%Z then mabort BadAccess
  else
    let n := Z.to_nat len in
    if (src + n <=? length (content s)) && (S (dst + n) <=? length (content s))
    then mput (set_content (take dst (content s) ++ take n (drop src (content s))
                            ++ drop (dst + n) (content s)) s)
    else mabort BadAccess.

Definition yybm_table : list Z :=
  [ 0; 0; 0; 0; 0; 0; 0; 0;
    0; 0; 0; 0; 0; 0; 0; 0;
    0; 0; 0; 0; 0; 0; 0; 0;
    0; 0; 0; 0; 0; 0; 0; 0;
    0; 128; 0; 0; 0; 0; 0; 0;
    128; 128; 0; 128; 128; 128; 128; 128;
    128; 128; 128; 128; 128; 128; 128; 128;
    128; 128; 128; 0; 0; 128; 0; 0;
    128; 128; 128; 128; 128; 128; 128; 128;
    128; 128; 128; 128; 128; 128; 128; 128;
    128; 128; 128; 128; 128; 128; 128; 128;
    128; 128; 128; 0; 0; 0; 0; 128;
    0; 128; 128; 128; 128; 128; 128; 128;
    128; 128; 128; 128; 128; 128; 128; 128;
    128; 128; 128; 128; 128; 128; 128; 128;
    128; 128; 128; 0; 0; 0; 128; 0;
    0; 0; 0; 0; 0; 0; 0; 0;
    0; 0; 0; 0; 0; 0; 0; 0;
    0; 0; 0; 0; 0; 0; 0; 0;
    0; 0; 0; 0; 0; 0; 0; 0;
    0; 0; 0; 0; 0; 0; 0; 0;
    0; 0; 0; 0; 0; 0; 0; 0;
    0; 0; 0; 0; 0; 0; 0; 0;
    0; 0; 0; 0; 0; 0; 0; 0;
    0; 0; 0; 0; 0; 0; 0; 0;
    0; 0; 0; 0; 0; 0; 0; 0;
    0; 0; 0; 0; 0; 0; 0; 0;
    0; 0; 0; 0; 0; 0; 0; 0;
    0; 0; 0; 0; 0; 0; 0; 0;
    0; 0; 0; 0; 0; 0; 0; 0;
    0; 0; 0; 0; 0; 0; 0; 0;
    0; 0; 0; 0; 0; 0; 0; 0 ]%Z.

(** [yybm[0 + yych]], an access out of bounds for a negative [yych]. *)
Definition yybm (yych : Z) : M L Z :=
  if (yych <? 0)%Z then mabort BadAccess else deref (yybm_table !! Z.to_nat yych).

(** How an iteration of [for (;;)] ends. *)
Inductive flow := Break | Continue.

Definition advance : M L unit := modify (λ s, set_in (S (in_ s)) s).
(** [*out++ = c]. *)
Definition put (c : Z) : M L unit :=
  s ← mget; store (out s) c;; modify (λ s, set_out (S (out s)) s).
Definition peek : M L Z := s ← mget; load (in_ s).

Definition yy3 : M L flow := mret Break.
Definition yy6 (start : nat) : M L flow :=
  s ← mget;
  let len := to_int (Z.of_nat (in_ s) - Z.of_nat start) in
  (if out s <? start then memmove (out s) start len else mret tt);;
  (if (Z.of_nat (out s) + len <? 0)%Z then mabort BadAccess
   else modify (set_out (Z.to_nat (Z.of_nat (out s) + len))));;
  mret Continue.
(** yy10 and yy11: the characters after the first one of a span. *)
Fixpoint yy11 (fuel : nat) (start : nat) (yych : Z) : M L flow :=
  match fuel with
  | O => mabort OutOfFuel
  | S fuel =>
    b ← yybm yych;
    if negb (Z.land b 128 =? 0)%Z
    then advance;; yych ← peek; yy11 fuel start yych
    else yy6 start
  end.
Definition yy4 : M L flow :=
  advance;; yych ← peek;
  if (yych =? (ch "$"%char))%Z then advance;; put (ch "$"%char);; mret Continue else yy3.
Definition yy5 (fuel start : nat) : M L flow := advance;; yych ← peek; yy11 fuel start yych.
Definition yy7 : M L flow := advance;; mret Break.
Definition yy9 : M L flow := advance;; peek;; yy3.
Definition yy14 (yych : Z) : M L flow := advance;; put (ch "\"%char);; put yych;; mret Continue.
Definition yy16 (yych : Z) : M L flow := advance;; put yych;; mret Continue.

(** The character after a backslash. *)
Definition yy2 : M L flow :=
  advance;; yych ← peek;
  if (yych <=? (ch "#"%char))%Z then
    if (yych <=? 10)%Z then
      if (yych <=? 0)%Z then yy3
      else if (yych <=? 9)%Z then yy14 yych
      else yy3
    else if (yych =? (ch " "%char))%Z then yy16 yych
    else if (yych <=? 34)%Z then yy14 yych
    else yy16 yych
  else
    if (yych <=? (ch "Z"%char))%Z then
      if (yych =? (ch "*"%char))%Z then yy16 yych else yy14 yych
    else if (yych <=? (ch "\"%char))%Z then yy16 yych
    else if (yych =? (ch "|"%char))%Z then yy16 yych
    else yy14 yych.

(** One iteration of the inner loop. *)
Definition scan (fuel : nat) : M L flow :=
  s ← mget;
  let start := in_ s in
  yych ← peek;
  if (yych <=? (ch "="%char))%Z then
    if (yych <=? (ch "$"%char))%Z then
      if (yych <=? (ch " "%char))%Z then
        if (yych <=? 0)%Z then yy7 else yy9
      else if (yych <=? (ch "!"%char))%Z then yy5 fuel start
      else if (yych <=? (ch "#"%char))%Z then yy9
      else yy4
    else
      if (yych <=? (ch "*"%char))%Z then
        if (yych <=? (ch "'"%char))%Z then yy9
        else if (yych <=? (ch ")"%char))%Z then yy5 fuel start
        else yy9
      else if (yych <=? (ch ":"%char))%Z then yy5 fuel start
      else if (yych <=? (ch "<"%char))%Z then yy9
      else yy5 fuel start
  else
    if (yych <=? (ch "^"%char))%Z then
      if (yych <=? (ch "Z"%char))%Z then
        if (yych <=? (ch "?"%char))%Z then yy9 else yy5 fuel start
      else if negb (yych =? (ch "\"%char))%Z then yy9
      else yy2
    else
      if (yych <=? (ch "z"%char))%Z then
        if (yych =? (ch "`"%char))%Z then yy9 else yy5 fuel start
      else if (yych =? (ch "~"%char))%Z then yy5 fuel start
      else yy9.

(** [for (;;)]. *)
Fixpoint scan_loop (fuel : nat) : M L unit :=
  match fuel with
  | O => mabort OutOfFuel
  | S fuel =>
    f ← scan fuel;
    match f with Break => mret tt | Continue => scan_loop fuel end
  end.

(** The bytes of a slice, and [StringPiece::operator==] on slices inside the
    buffer. *)
Definition piece_bytes (m : list Z) (p : StringPiece) : list Z :=
  take (Z.to_nat (len_ p)) (drop (str_ p) m).
Definition piece_eq (m : list Z) (p q : StringPiece) : bool :=
  (len_ p =? len_ q)%Z && bool_decide (piece_bytes m p = piece_bytes m q).

(** One iteration of the outer loop; [false] is [return false]. *)
Definition token (fuel : nat) : M L bool :=
  s ← mget;
  let filename := in_ s in
  modify (set_out filename);;
  scan_loop fuel;;
  s ← mget;
  let len := to_int (Z.of_nat (out s) - Z.of_nat filename) in
  let is_target := parsing_targets s in
  last ← (if (0 <? len)%Z then load (Z.to_nat (Z.of_nat filename + len - 1)) else mret 0%Z);
  let colon := (0 <? len)%Z && (last =? (ch ":"%char))%Z in
  let len := if colon then (len - 1)%Z else len in
  (if colon then modify (λ s, mkL (content s) (in_ s) (out s) false (out_ s) (ins_ s)) else mret tt);;
  if (len =? 0)%Z then mret true
  else
    let piece := mkPiece filename len in
    if negb is_target
    then modify (λ s, mkL (content s) (in_ s) (out s) (parsing_targets s) (out_ s) (ins_ s ++ [piece]));;
         mret true
    else match out_ s with
         | None =>
           modify (λ s, mkL (content s) (in_ s) (out s) (parsing_targets s) (Some piece) (ins_ s));;
           mret true
         | Some o => mret (piece_eq (content s) o piece)
         end.

(** [while (in < end)]; the buffer holds [content->size()] characters and the
    terminator. *)
Fixpoint parse_loop (fuel : nat) : M L bool :=
  match fuel with
  | O => mabort OutOfFuel
  | S fuel =>
    s ← mget;
    if S (in_ s) <? length (content s)
    then ok ← token fuel; if (ok : bool) then parse_loop fuel else mret false
    else mret true
  end.

Definition initial_L (text : list Z) : L := mkL (text ++ [0%Z]) 0 0 true None [].

(** Every iteration of a loop reads a character. *)
Definition Parse_fuel (text : list Z) : nat := length text + 3.

Definition Parse (text : list Z) : outcome L bool :=
  parse_loop (Parse_fuel text) (initial_L text).

(** The result as strings, [None] when [Parse] returns [false]. *)
Definition parsed (text : list Z) : outcome unit (option (option (list Z) * list (list Z))) :=
  match Parse text with
  | Ret true s => Ret (Some (piece_bytes (content s) <$> out_ s, piece_bytes (content s) <$> ins_ s)) tt
  | Ret false _ => Ret None tt
  | Throw e _ => Throw e tt
  | Abort r => Abort r
  end.

(** The [char]s of a string: those above 127 are negative. *)
Definition signed_char (z : Z) : Z := if (z <? 128)%Z then z else (z - 256)%Z.
Definition bytes (s : string) : list Z := (λ c, signed_char (ch c)) <$> String.list_ascii_of_string s.

Example parsed_ex :
  parsed (bytes "a\ b.o: x$$y.c \#z c:") =
    Ret (Some (Some (bytes "a b.o"), [bytes "x$y.c"; bytes "#z"; bytes "c"])) tt.
Proof. vm_compute. reflexivity. Qed.

(** ** Specification: file names as lists of characters *)

Inductive class := Plain | Backslash | Dollar | Stop.
Definition classify (c : Z) : class :=
  if (c =? ch "\"%char)%Z then Backslash
  else if (c =? ch "$"%char)%Z then Dollar
  else if (0 <=? c)%Z && match yybm_table !! Z.to_nat c with
                         | Some b => negb (Z.land b 128 =? 0)%Z
                         | None => false
                         end then Plain
  else Stop.

(** What a backslash before [c] does: end of the name, [c] alone, or both. *)
Inductive escape := Ends | Drops | Keeps.
Definition escapes (c : Z) : escape :=
  if (c <=? 0)%Z || (c =? 10)%Z then Ends
  else if bool_decide (c ∈ ch <$> [" "; "#"; "*"; "["; "\"; "|"]%char) then Drops
  else Keeps.

(** The next file name in [w], and what follows it. *)
Fixpoint tok (w : list Z) : list Z * list Z :=
  match w with
  | [] => ([], [])
  | c :: w1 =>
    match classify c, w1 with
    | Plain, _ => let '(t, r) := tok w1 in (c :: t, r)
    | Stop, _ => ([], w1)
    | _, [] => ([], [])
    | Backslash, d :: w2 =>
      match escapes d with
      | Ends => ([], w1)
      | Drops => let '(t, r) := tok w2 in (d :: t, r)
      | Keeps => let '(t, r) := tok w2 in (c :: d :: t, r)
      end
    | Dollar, d :: w2 =>
      if (d =? c)%Z then let '(t, r) := tok w2 in (c :: t, r) else ([], w1)
    end
  end.

(** Removes the colon that ends the targets. *)
Definition strip_colon (t : list Z) : list Z * bool :=
  match last t with
  | Some c => if (c =? ch ":"%char)%Z then (take (length t - 1) t, true) else (t, false)
  | None => (t, false)
  end.

(** A name is the target (the same each time) or a dependency. *)
Definition add_name (targets : bool) (o : option (list Z)) (deps : list (list Z)) (name : list Z) :
    option (option (list Z) * list (list Z)) :=
  if bool_decide (name = []) then Some (o, deps)
  else if negb targets then Some (o, deps ++ [name])
  else match o with
       | None => Some (Some name, deps)
       | Some o' => if bool_decide (o' = name) then Some (o, deps) else None
       end.

(** The file names of the whole text: the target and the dependencies, or
    [None] when there are two targets. *)
Fixpoint names (fuel : nat) (w : list Z) (targets : bool) (o : option (list Z)) (deps : list (list Z)) :
    option (option (list Z) * list (list Z)) :=
  match fuel, w with
  | O, _ | _, [] => Some (o, deps)
  | S fuel, _ =>
    let '(t, w') := tok w in
    let '(name, colon) := strip_colon t in
    '(o', deps') ← add_name targets o deps name;
    names fuel w' (targets && negb colon) o' deps'
  end.

Definition depfile_names (text : list Z) : option (option (list Z) * list (list Z)) :=
  names (length text) text true None [].

(** *** The scanner's decision trees *)

Definition ascii_range : list Z := Z.of_nat <$> seq 0 128.
Lemma elem_of_ascii c : (0 <= c < 128)%Z → c ∈ ascii_range.
Proof.
  intros Hc. apply list_elem_of_fmap. exists (Z.to_nat c). split; [lia|]. apply elem_of_seq. lia.
Qed.

(** What [scan] does with its first character, as a class. *)
Definition scan_class (c : Z) : class :=
  if (c <=? (ch "="%char))%Z then
    if (c <=? (ch "$"%char))%Z then
      if (c <=? (ch " "%char))%Z then Stop
      else if (c <=? (ch "!"%char))%Z then Plain
      else if (c <=? (ch "#"%char))%Z then Stop
      else Dollar
    else
      if (c <=? (ch "*"%char))%Z then
        if (c <=? (ch "'"%char))%Z then Stop
        else if (c <=? (ch ")"%char))%Z then Plain
        else Stop
      else if (c <=? (ch ":"%char))%Z then Plain
      else if (c <=? (ch "<"%char))%Z then Stop
      else Plain
  else
    if (c <=? (ch "^"%char))%Z then
      if (c <=? (ch "Z"%char))%Z then
        if (c <=? (ch "?"%char))%Z then Stop else Plain
      else if negb (c =? (ch "\"%char))%Z then Stop
      else Backslash
    else
      if (c <=? (ch "z"%char))%Z then
        if (c =? (ch "`"%char))%Z then Stop else Plain
      else if (c =? (ch "~"%char))%Z then Plain
      else Stop.

Lemma scan_class_ok c : (0 <= c < 128)%Z → scan_class c = classify c.
Proof.
  intros Hc%elem_of_ascii.
  assert (Forall (λ c, scan_class c = classify c) ascii_range) as H.
  { unfold ascii_range. simpl. repeat constructor. }
  rewrite Forall_forall in H. by apply H.
Qed.

Lemma scan_eq fuel s c :
  content s !! in_ s = Some c →
  scan fuel s = match scan_class c with
                | Plain => yy5 fuel (in_ s) s
                | Backslash => yy2 s
                | Dollar => yy4 s
                | Stop => if (c <=? 0)%Z then yy7 s else yy9 s
                end.
Proof.
  intros Hc. unfold scan, peek, load, mget, mbind, M_bind. rewrite Hc. cbn [deref]. unfold scan_class.
  repeat match goal with
  | |- context [if (c <=? ?k)%Z then _ else _] => destruct (Z.leb_spec c k)
  | |- context [if (c =? ?k)%Z then _ else _] => destruct (Z.eqb_spec c k)
  | |- context [if negb (c =? ?k)%Z then _ else _] => destruct (Z.eqb_spec c k)
  end; try done; unfold ch in *; simpl in *; lia.
Qed.

Definition yy2_class (d : Z) : escape :=
  if (d <=? (ch "#"%char))%Z then
    if (d <=? 10)%Z then
      if (d <=? 0)%Z then Ends else if (d <=? 9)%Z then Keeps else Ends
    else if (d =? (ch " "%char))%Z then Drops
    else if (d <=? 34)%Z then Keeps
    else Drops
  else
    if (d <=? (ch "Z"%char))%Z then
      if (d =? (ch "*"%char))%Z then Drops else Keeps
    else if (d <=? (ch "\"%char))%Z then Drops
    else if (d =? (ch "|"%char))%Z then Drops
    else Keeps.

Lemma yy2_class_ok d : (0 <= d < 128)%Z → yy2_class d = escapes d.
Proof.
  intros Hd%elem_of_ascii.
  assert (Forall (λ d, yy2_class d = escapes d) ascii_range) as H.
  { unfold ascii_range. simpl. repeat constructor. }
  rewrite Forall_forall in H. by apply H.
Qed.

Lemma yy2_eq s d :
  content s !! S (in_ s) = Some d →
  yy2 s = match yy2_class d with
          | Ends => yy3 | Drops => yy16 d | Keeps => yy14 d
          end (set_in (S (in_ s)) s).
Proof.
  intros Hd. unfold yy2, advance, modify, peek, load, mget, mbind, M_bind. simpl. rewrite Hd. cbn [deref].
  unfold yy2_class.
  repeat match goal with
  | |- context [if (d <=? ?k)%Z then _ else _] => destruct (Z.leb_spec d k)
  | |- context [if (d =? ?k)%Z then _ else _] => destruct (Z.eqb_spec d k)
  end; done.
Qed.

(** ** The buffer during a token

    [before] are the cells in front of the name (names found earlier live
    there), [e] is the part of the name already written, [junk] are cells that
    were read and may be overwritten. *)

Section refinement.
Context (text : list Z).
Hypothesis Hascii : ∀ c, c ∈ text → (0 <= c < 128)%Z.
Hypothesis Hint : (Z.of_nat (length text) + 1 < 2 ^ 31)%Z.

Definition unread (i : nat) : list Z := drop i (text ++ [0%Z]).

Definition buf (before e : list Z) (n : nat) (s : L) : Prop :=
  ∃ junk, content s = before ++ e ++ junk ++ unread (in_ s) ∧
    out s = length before + length e ∧ in_ s = length before + length e + length junk ∧
    in_ s ≤ S (length text) ∧ n ≤ length junk.

(** The rest of the state. *)
Definition frame (s s' : L) : Prop :=
  parsing_targets s' = parsing_targets s ∧ out_ s' = out_ s ∧ ins_ s' = ins_ s.

Lemma unread_lookup i : i ≤ length text → unread i = (text ++ [0%Z]) !!! i :: unread (S i).
Proof.
  intros Hi. unfold unread. erewrite drop_S; [done|].
  apply list_lookup_lookup_total_lt. rewrite length_app. simpl. lia.
Qed.

Lemma unread_split i : i ≤ length text → unread i = drop i text ++ [0%Z].
Proof. intros Hi. unfold unread. by rewrite drop_app_le by done. Qed.

Lemma buf_peek before e n s c w :
  buf before e n s → in_ s ≤ length text → drop (in_ s) text ++ [0%Z] = c :: w →
  content s !! in_ s = Some c.
Proof.
  intros (junk & Hm & Ho & Hi & _ & _) Hle Hw. rewrite Hm, unread_split, Hw by done.
  rewrite !app_assoc. apply list_lookup_middle. rewrite !length_app. lia.
Qed.

Lemma length_unread i : length (unread i) = S (length text) - i.
Proof. unfold unread. rewrite length_drop, length_app. simpl. lia. Qed.

(** [++in] moves a cell to the junk; [put] takes one from it. *)
Lemma buf_advance before e n s :
  buf before e n s → in_ s ≤ length text → buf before e (S n) (set_in (S (in_ s)) s).
Proof.
  intros (junk & Hm & Ho & Hi & Hle & Hn) Hlt.
  rewrite unread_lookup in Hm by done. exists (junk ++ [(text ++ [0%Z]) !!! in_ s]). simpl.
  rewrite length_app. simpl. split_and!; try lia. by rewrite Hm, <- app_assoc.
Qed.

Lemma buf_weaken before e n s : buf before e n s → buf before e 0 s.
Proof. intros (junk & ? & ? & ? & ? & ?). exists junk. split_and!; try done. lia. Qed.

Lemma unread_cons i : i ≤ length text → ∃ c u, unread i = c :: u.
Proof. intros Hi. rewrite unread_lookup by done. eauto. Qed.

Lemma wp_put before e n s c Q E :
  buf before e (S n) s → in_ s ≤ length text →
  (∀ s', buf before (e ++ [c]) n s' → in_ s' = in_ s → frame s s' → Q tt s') →
  wp (put c) Q E s.
Proof.
  intros (junk & Hm & Ho & Hi & Hle & Hn) Hlt HQ. destruct junk as [|x junk]; [simpl in Hn; lia|].
  assert (Hlen : length (content s) = S (length text)).
  { rewrite Hm, !length_app, length_unread. lia. }
  unfold put, store. apply wp_bind, wp_mget. apply wp_bind, wp_bind, wp_mget.
  destruct (Nat.ltb_spec (S (out s)) (length (content s))); [|simpl in *; lia].
  apply wp_mput, wp_modify, HQ; [|done|done].
  exists junk. simpl. split_and!; [| | |done|simpl in Hn; lia].
  - rewrite Hm, Ho. rewrite <- !app_assoc. simpl.
    rewrite insert_app_r_alt by lia. f_equal. rewrite insert_app_r_alt by lia.
    f_equal. replace (length before + length e - length before - length e) with 0 by lia. done.
  - rewrite length_app. simpl. lia.
  - rewrite length_app. simpl in *. lia.
Qed.

Definition plain (c : Z) : bool := match classify c with Plain => true | _ => false end.

Lemma yybm_plain c Q E s :
  (0 <= c < 128)%Z →
  (∀ b, negb (Z.land b 128 =? 0)%Z = plain c → Q b s) → wp (yybm c) Q E s.
Proof.
  intros Hc HQ. unfold yybm. destruct (Z.ltb_spec c 0); [lia|].
  assert (Forall (λ c, ∃ b, yybm_table !! Z.to_nat c = Some b ∧
    negb (Z.land b 128 =? 0)%Z = plain c) ascii_range) as H'.
  { unfold ascii_range. simpl. repeat (constructor; [eexists; split; reflexivity|]). constructor. }
  rewrite Forall_forall in H'. destruct (H' c (elem_of_ascii c Hc)) as (b & Hb & Hp).
  eapply wp_deref; [done|]. by apply HQ.
Qed.

(** In the middle of a span of plain characters [p] that began at [start]. *)
Definition in_span (before e p : list Z) (start : nat) (s : L) : Prop :=
  ∃ junk, content s = before ++ e ++ junk ++ p ++ unread (in_ s) ∧
    out s = length before + length e ∧ start = length before + length e + length junk ∧
    in_ s = start + length p ∧ in_ s ≤ length text ∧
    drop start text = p ++ drop (in_ s) text ∧ Forall (λ c, plain c = true) p.

Lemma to_int_small n : (Z.of_nat n <= Z.of_nat (length text) + 1)%Z → to_int (Z.of_nat n) = Z.of_nat n.
Proof. intros H. unfold to_int. rewrite Z.mod_small by lia. lia. Qed.

Lemma memmove_list (b e j p u : list Z) :
  take (length b + length e) (b ++ e ++ j ++ p ++ u)
  ++ take (length p) (drop (length b + length e + length j) (b ++ e ++ j ++ p ++ u))
  ++ drop (length b + length e + length p) (b ++ e ++ j ++ p ++ u)
  = b ++ (e ++ p) ++ drop (length p) (j ++ p) ++ u.
Proof.
  rewrite (app_assoc b e (j ++ p ++ u)), <- length_app.
  rewrite take_app_length, !drop_app_add, drop_app_length, take_app_length.
  rewrite (app_assoc j p u), (drop_app_le (j ++ p) u) by (rewrite length_app; lia).
  by rewrite <- !app_assoc.
Qed.

Lemma yy6_spec before e p start s :
  in_span before e p start s →
  returns (yy6 start) (λ f s', f = Continue ∧ buf before (e ++ p) 0 s' ∧ in_ s' = in_ s ∧ frame s s') s.
Proof.
  intros (junk & Hm & Ho & Hs & Hi & Hle & Hd & Hp). unfold yy6. apply wp_bind, wp_mget.
  assert (Hlen : length (content s) = S (length text)).
  { rewrite Hm, !length_app, length_unread. lia. }
  replace (Z.of_nat (in_ s) - Z.of_nat start)%Z with (Z.of_nat (length p)) by lia.
  rewrite to_int_small by lia. apply wp_bind.
  assert (Hend : ∀ s1, content s1 = before ++ (e ++ p) ++ drop (length p) (junk ++ p) ++ unread (in_ s) →
    in_ s1 = in_ s → out s1 = out s → frame s s1 →
    returns ((if (Z.of_nat (out s) + Z.of_nat (length p) <? 0)%Z then mabort BadAccess
      else modify (set_out (Z.to_nat (Z.of_nat (out s) + Z.of_nat (length p)))));; mret Continue)
      (λ f s', f = Continue ∧ buf before (e ++ p) 0 s' ∧ in_ s' = in_ s ∧ frame s s') s1).
  { intros s1 H1 H2 H3 H4. destruct (Z.ltb_spec (Z.of_nat (out s) + Z.of_nat (length p)) 0); [lia|].
    apply wp_bind, wp_modify, wp_ret. split_and!; [done| |done|done].
    exists (drop (length p) (junk ++ p)). simpl. rewrite H2, length_drop, !length_app.
    split_and!; [done| | | |]; lia. }
  destruct (Nat.ltb_spec (out s) start) as [Hlt|Hge].
  - unfold memmove. apply wp_bind, wp_mget. destruct (Z.ltb_spec (Z.of_nat (length p)) 0); [lia|].
    rewrite Nat2Z.id. destruct (Nat.leb_spec (start + length p) (length (content s))); [|lia].
    destruct (Nat.leb_spec (S (out s + length p)) (length (content s))); [|lia].
    apply wp_mput, Hend; [|done|done|done]. simpl. rewrite Hm, Ho, Hs. apply memmove_list.
  - apply wp_ret, Hend; [|done|done|done]. assert (junk = []) as -> by (apply nil_length_inv; lia).
    rewrite Hm. simpl. by rewrite drop_all, <- !app_assoc.
Qed.

Lemma text_char i c w : drop i text = c :: w → (0 <= c < 128)%Z ∧ drop (S i) text = w ∧ S i ≤ length text.
Proof.
  intros Hd. split; [|split].
  - apply Hascii. rewrite <- (take_drop i text), Hd. set_solver.
  - change (S i) with (1 + i). by rewrite <- skipn_skipn, Hd.
  - assert (length (drop i text) = S (length w)) as H by by rewrite Hd. rewrite length_drop in H. lia.
Qed.

(** The character at [in], the terminator being 0. *)
Lemma next_char i : i ≤ length text →
  (drop i text = [] ∧ i = length text ∧ unread i = [0%Z]) ∨
  ∃ c w, drop i text = c :: w ∧ (0 <= c < 128)%Z ∧ drop (S i) text = w ∧ S i ≤ length text ∧
    unread i = c :: unread (S i).
Proof.
  intros Hi. destruct (drop i text) as [|c w] eqn:Hd.
  - left. assert (length (drop i text) = 0) as H by by rewrite Hd. rewrite length_drop in H.
    split_and!; [done|lia|]. rewrite unread_split, Hd by done. done.
  - right. destruct (text_char i c w Hd) as (H1 & H2 & H3). exists c, w. split_and!; try done; try lia.
    rewrite !unread_split, Hd, H2 by lia. done.
Qed.

Lemma yy11_spec fuel : ∀ before e p start s c,
  in_span before e p start s → p ≠ [] → length (drop (in_ s) text) < fuel →
  head (unread (in_ s)) = Some c →
  returns (yy11 fuel start c) (λ f s', f = Continue ∧ frame s s' ∧ in_ s ≤ in_ s' ≤ length text ∧
    ∃ p', p' ≠ [] ∧ buf before (e ++ p') 0 s' ∧ drop start text = p' ++ drop (in_ s') text ∧
          Forall (λ c, plain c = true) p') s.
Proof.
  induction fuel as [|fuel IH]; intros before e p start s c Hsp Hne Hf Hc; [lia|].
  pose proof Hsp as (junk & Hm & Ho & Hs & Hi & Hle & Hd & Hp).
  simpl. apply wp_bind.
  destruct (next_char (in_ s) Hle) as [(Hw & Hin & Hu)|(c' & w & Hw & Hr & Hw' & Hle' & Hu)];
    rewrite Hu in Hc; simpl in Hc; [injection Hc as <-|injection Hc as ->].
  - apply yybm_plain; [lia|]. intros b ->. simpl.
    eapply wp_mono; [by apply (yy6_spec before e p)| |done].
    intros f s' (-> & Hb & Hin' & Hfr). split_and!; [done|done|lia|lia|].
    exists p. by rewrite Hin'.
  - apply yybm_plain; [done|]. intros b ->. destruct (plain c) eqn:Hpl.
    + apply wp_bind, wp_modify. unfold peek. apply wp_bind, wp_bind, wp_mget. simpl.
      assert (Hsp' : in_span before e (p ++ [c]) start (set_in (S (in_ s)) s)).
      { exists junk. simpl. rewrite length_app. simpl. split_and!; [|done|done|lia|done| |].
        - rewrite Hm, Hu, <- !app_assoc. done.
        - rewrite Hd, Hw, <- app_assoc, Hw'. done.
        - apply Forall_app. split; [done|]. by constructor. }
      eapply wp_deref; [|eapply wp_mono; [apply (IH before e (p ++ [c]) start); [exact Hsp'| | |]| |done]].
      * simpl. rewrite Hm, Hu.
        assert (before ++ e ++ junk ++ p ++ c :: unread (S (in_ s)) =
          (before ++ e ++ junk ++ p ++ [c]) ++ unread (S (in_ s))) as -> by (rewrite <- !app_assoc; done).
        rewrite lookup_app_r by (rewrite !length_app; simpl; lia).
        rewrite (unread_lookup (S (in_ s))) by done.
        replace (S (in_ s) - _) with 0 by (rewrite !length_app; simpl; lia). done.
      * by destruct p.
      * simpl. rewrite Hw' . rewrite Hw in Hf. simpl in Hf. lia.
      * simpl. by rewrite (unread_lookup (S (in_ s))).
      * simpl. intros f s' (-> & Hfr & Hle2 & H). split_and!; [done|done|lia|lia|done].
    + simpl. eapply wp_mono; [by apply (yy6_spec before e p)| |done].
      intros f s' (-> & Hb & Hin' & Hfr). split_and!; [done|done|lia|lia|]. exists p. by rewrite Hin'.
Qed.

Lemma tok_plain p w :
  Forall (λ c, plain c = true) p → tok (p ++ w) = (p ++ (tok w).1, (tok w).2).
Proof.
  induction 1 as [|c p Hc Hp IH]; simpl; [by destruct (tok w)|].
  unfold plain in Hc. destruct (classify c); try done. by rewrite IH.
Qed.

(** What one iteration of the inner loop has done. *)
Definition scanned (before e : list Z) (s : L) (f : flow) (s' : L) : Prop :=
  frame s s' ∧ in_ s < in_ s' ∧
  match f with
  | Break => buf before e 0 s' ∧ tok (drop (in_ s) text) = ([], drop (in_ s') text)
  | Continue => in_ s' ≤ length text ∧ ∃ p, buf before (e ++ p) 0 s' ∧
      tok (drop (in_ s) text) =
        (p ++ (tok (drop (in_ s') text)).1, (tok (drop (in_ s') text)).2)
  end.

Lemma wp_scan fuel c Q E s :
  content s !! in_ s = Some c →
  wp (match scan_class c with
      | Plain => yy5 fuel (in_ s)
      | Backslash => yy2
      | Dollar => yy4
      | Stop => if (c <=? 0)%Z then yy7 else yy9
      end) Q E s → wp (scan fuel) Q E s.
Proof.
  intros Hc H. unfold wp. rewrite (scan_eq fuel s c Hc). unfold wp in H.
  by destruct (scan_class c); [| | |destruct (c <=? 0)%Z].
Qed.

Lemma wp_yy2 d Q E s :
  content s !! S (in_ s) = Some d →
  wp (match yy2_class d with Ends => yy3 | Drops => yy16 d | Keeps => yy14 d end) Q E
     (set_in (S (in_ s)) s) → wp yy2 Q E s.
Proof. intros Hd H. unfold wp. by rewrite (yy2_eq s d Hd). Qed.

(** Reading the character under [in]. *)
Lemma wp_peek before e n s c w Q E :
  buf before e n s → in_ s ≤ length text → unread (in_ s) = c :: w → Q c s → wp peek Q E s.
Proof.
  intros Hb Hle Hu HQ. unfold peek. apply wp_bind, wp_mget. eapply wp_deref; [|exact HQ].
  eapply buf_peek; [done|done|]. by rewrite <- unread_split.
Qed.

Lemma scan_spec fuel before e s :
  buf before e 0 s → in_ s ≤ length text → length (drop (in_ s) text) < fuel →
  returns (scan fuel) (scanned before e s) s.
Proof.
  intros Hb Hle Hf.
  destruct (next_char (in_ s) Hle) as [(Hw & Hin & Hu)|(c & w & Hw & Hr & Hw' & Hle' & Hu)].
  { (* the terminator *)
    eapply wp_scan; [eapply buf_peek; [done|done|by rewrite <- unread_split]|]. simpl.
    apply wp_bind, wp_modify, wp_ret. pose proof (buf_advance _ _ _ _ Hb Hle) as Hb1.
    split_and!; [done|simpl; lia|by eapply buf_weaken|].
    rewrite Hw. simpl. by rewrite drop_ge by (simpl; lia). }
  eapply wp_scan; [eapply buf_peek; [done|done|by rewrite <- unread_split]|].
  rewrite scan_class_ok by done. pose proof (buf_advance _ _ _ _ Hb Hle) as Hb1.
  destruct (classify c) eqn:Hcl.
  - (* plain text *)
    unfold yy5. apply wp_bind, wp_modify, wp_bind.
    destruct (unread_cons (S (in_ s)) Hle') as (d & u & Hud).
    eapply wp_peek; [exact Hb1|done|exact Hud|].
    eapply wp_mono; [eapply (yy11_spec fuel before e [c] (in_ s))| |done].
    + destruct Hb as (junk & Hm & Ho & Hi & _ & _). exists junk. simpl.
      split_and!; try done; try lia; [by rewrite Hm, Hu|by rewrite Hw, Hw'|].
      constructor; [|done]. unfold plain. by rewrite Hcl.
    + done.
    + simpl. rewrite Hw in Hf. rewrite Hw'. simpl in Hf. lia.
    + simpl. by rewrite Hud.
    + simpl. intros f s' (-> & Hfr & [Hlt Hle2] & p & Hne & Hb' & Hd & Hp).
      split_and!; [done|done|done|]. exists p. split; [done|]. rewrite Hd. by apply tok_plain.
  - (* backslash *)
    destruct (unread_cons (S (in_ s)) Hle') as (d & u & Hud).
    eapply (wp_yy2 d).
    { apply (buf_peek _ _ _ _ _ u Hb1 Hle'). rewrite <- Hud. symmetry. by apply unread_split. }
    destruct (next_char _ Hle') as [(Hw1 & Hin1 & Hu1)|(d' & w2 & Hw1 & Hr1 & Hw2 & Hle2 & Hu1)];
      rewrite Hu1 in Hud; injection Hud as <- <-.
    + simpl. apply wp_ret. split_and!; [done|simpl; lia|by eapply buf_weaken|].
      change (in_ (set_in (S (in_ s)) s)) with (S (in_ s)). rewrite Hw, <- Hw', Hw1. simpl. by rewrite Hcl.
    + rewrite yy2_class_ok by done.
      assert (Htok : tok (drop (in_ s) text) = match escapes d' with
        | Ends => ([], drop (S (in_ s)) text)
        | Drops => let '(t, r) := tok w2 in (d' :: t, r)
        | Keeps => let '(t, r) := tok w2 in (c :: d' :: t, r) end).
      { rewrite Hw, <- Hw', Hw1. simpl. by rewrite Hcl. }
      pose proof (buf_advance _ _ _ _ Hb1 Hle') as Hb2.
      assert (c = ch "\"%char) as ->.
      { unfold classify in Hcl. destruct (Z.eqb_spec c (ch "\"%char)); [done|].
        destruct (c =? _)%Z; [done|]. by destruct (_ && _). }
      destruct (escapes d').
      * apply wp_ret. split_and!; [done|simpl; lia|by eapply buf_weaken|done].
      * apply wp_bind, wp_modify, wp_bind. eapply wp_put; [exact Hb2|done|].
        intros s' Hb' Hin' Hfr. apply wp_ret. simpl in Hin'.
        split_and!; [done|lia|lia|]. exists [d']. split; [by eapply buf_weaken|].
        rewrite Htok, Hin', Hw2. by destruct (tok w2).
      * apply wp_bind, wp_modify, wp_bind. eapply wp_put; [exact Hb2|done|].
        intros s' Hb' Hin' Hfr. apply wp_bind. simpl in Hin'. eapply wp_put; [exact Hb'|by rewrite Hin'|].
        intros s2 Hb3 Hin2 Hfr2. apply wp_ret.
        split_and!; [unfold frame in *; simpl in *; naive_solver congruence|lia|lia|].
        exists [ch "\"%char; d']. rewrite <- app_assoc in Hb3. split; [by eapply buf_weaken|].
        rewrite Htok, Hin2, Hin', Hw2. by destruct (tok w2).
  - (* dollar *)
    destruct (unread_cons (S (in_ s)) Hle') as (d & u & Hud).
    unfold yy4. apply wp_bind, wp_modify, wp_bind. eapply wp_peek; [exact Hb1|done|exact Hud|].
    assert (c = ch "$"%char) as ->.
    { unfold classify in Hcl. destruct (c =? ch "\"%char)%Z; [done|].
      destruct (Z.eqb_spec c (ch "$"%char)); [done|]. by destruct (_ && _). }
    destruct (next_char _ Hle') as [(Hw1 & Hin1 & Hu1)|(d' & w2 & Hw1 & Hr1 & Hw2 & Hle2 & Hu1)];
      rewrite Hu1 in Hud; injection Hud as <- <-.
    + simpl. apply wp_ret. split_and!; [done|simpl; lia|by eapply buf_weaken|].
      change (in_ (set_in (S (in_ s)) s)) with (S (in_ s)). rewrite Hw, <- Hw', Hw1. done.
    + pose proof (buf_advance _ _ _ _ Hb1 Hle') as Hb2.
      assert (Htok : tok (drop (in_ s) text) = if (d' =? ch "$"%char)%Z
        then let '(t, r) := tok w2 in (ch "$"%char :: t, r) else ([], drop (S (in_ s)) text)).
      { rewrite Hw, <- Hw', Hw1. reflexivity. }
      destruct (d' =? ch "$"%char)%Z.
      * apply wp_bind, wp_modify, wp_bind. eapply wp_put; [exact Hb2|done|].
        intros s' Hb' Hin' Hfr. apply wp_ret. simpl in Hin'.
        split_and!; [done|lia|lia|]. exists [ch "$"%char]. split; [by eapply buf_weaken|].
        rewrite Htok, Hin', Hw2. by destruct (tok w2).
      * apply wp_ret. split_and!; [done|simpl; lia|by eapply buf_weaken|done].
  - (* anything else ends the name *)
    assert (Htok : tok (drop (in_ s) text) = ([], drop (S (in_ s)) text)).
    { rewrite Hw, Hw'. simpl. by rewrite Hcl. }
    destruct (c <=? 0)%Z.
    + apply wp_bind, wp_modify, wp_ret. split_and!; [done|simpl; lia|by eapply buf_weaken|done].
    + destruct (unread_cons (S (in_ s)) Hle') as (d & u & Hud).
      apply wp_bind, wp_modify, wp_bind. eapply wp_peek; [exact Hb1|done|exact Hud|].
      apply wp_ret. split_and!; [done|simpl; lia|by eapply buf_weaken|done].
Qed.

Lemma scan_loop_spec fuel : ∀ before e s,
  buf before e 0 s → in_ s ≤ length text → length (drop (in_ s) text) + 1 < fuel →
  returns (scan_loop fuel) (λ _ s', frame s s' ∧ in_ s < in_ s' ∧
    buf before (e ++ (tok (drop (in_ s) text)).1) 0 s' ∧
    (tok (drop (in_ s) text)).2 = drop (in_ s') text) s.
Proof.
  induction fuel as [|fuel IH]; intros before e s Hb Hle Hf; [lia|]. cbn [scan_loop].
  apply wp_bind. eapply wp_mono; [apply (scan_spec fuel before e s Hb Hle); lia| |done].
  intros [|] s1 (Hfr & Hlt & H).
  - destruct H as [Hb1 Htok]. apply wp_ret. rewrite Htok. simpl. rewrite app_nil_r. split_and!; try done; apply Hfr.
  - destruct H as (Hle1 & p & Hb1 & Htok). rewrite Htok. simpl.
    eapply wp_mono; [apply (IH before (e ++ p) s1 Hb1 Hle1)| |done].
    + rewrite !length_drop in *. lia.
    + intros [] s2 (Hfr2 & Hlt2 & Hb2 & Heq). rewrite <- app_assoc in Hb2.
      split_and!; [unfold frame in *; naive_solver congruence|lia|done|done].
Qed.

(** ** Names found so far *)

Definition piece_ok (m : list Z) (bound : nat) (p : StringPiece) (name : list Z) : Prop :=
  (0 <= len_ p)%Z ∧ str_ p + Z.to_nat (len_ p) ≤ bound ∧ piece_bytes m p = name.

Lemma piece_ok_prefix before x y bound p name :
  piece_ok (before ++ x) (length before) p name → length before ≤ bound →
  piece_ok (before ++ y) bound p name.
Proof.
  unfold piece_ok, piece_bytes. intros (H1 & H2 & H3) Hle. split_and!; [done|lia|].
  rewrite drop_app_le, take_app_le in H3 by (rewrite ?length_drop; lia).
  by rewrite drop_app_le, take_app_le by (rewrite ?length_drop; lia).
Qed.

Definition opt_piece_ok (m : list Z) (bound : nat) (p : option StringPiece) (o : option (list Z)) : Prop :=
  match p, o with
  | None, None => True
  | Some p, Some name => piece_ok m bound p name
  | _, _ => False
  end.

Record outer (targets : bool) (o : option (list Z)) (deps : list (list Z)) (s : L) : Prop := {
  ou_content : ∃ before, content s = before ++ unread (in_ s) ∧ length before = in_ s;
  ou_in : in_ s ≤ S (length text);
  ou_targets : parsing_targets s = targets;
  ou_out : opt_piece_ok (content s) (in_ s) (out_ s) o;
  ou_ins : Forall2 (piece_ok (content s) (in_ s)) (ins_ s) deps;
}.

(** The state after the inner loop has read the name [t]. *)
Definition after_name (before t : list Z) (s s' : L) : Prop :=
  frame s s' ∧ in_ s < in_ s' ∧ buf before t 0 s'.

Lemma after_outer before t s s' targets o deps :
  content s = before ++ unread (in_ s) → length before = in_ s → outer targets o deps s →
  after_name before t s s' → outer targets o deps s'.
Proof.
  intros Hm Hl [_ _ Htg Ho Hi] ((H1 & H2 & H3) & Hlt & junk & Hm' & Hout & Hin & Hle & _).
  split.
  - exists (before ++ t ++ junk). rewrite <- !app_assoc. split; [done|]. rewrite !length_app. lia.
  - done.
  - congruence.
  - rewrite H2. rewrite Hm, <- Hl in Ho. rewrite Hm'. destruct (out_ s), o; try done. simpl in *.
    eapply piece_ok_prefix; [exact Ho|lia].
  - rewrite H3. rewrite Hm, <- Hl in Hi. rewrite Hm'. eapply Forall2_impl; [exact Hi|].
    intros p n Hp. eapply piece_ok_prefix; [exact Hp|lia].
Qed.

Lemma new_piece before t s s' name k :
  after_name before t s s' → name = take k t → k ≤ length t →
  piece_ok (content s') (in_ s') (mkPiece (length before) (Z.of_nat k)) name.
Proof.
  intros (_ & _ & junk & Hm & Hout & Hin & Hle & _) -> Hk. unfold piece_ok, piece_bytes. simpl.
  rewrite Nat2Z.id. split_and!; [lia|lia|]. rewrite Hm, drop_app_length, take_app_le by lia. done.
Qed.

Lemma piece_eq_ok m b p q n1 n2 :
  piece_ok m b p n1 → piece_ok m b q n2 → length m ≥ b → piece_eq m p q = bool_decide (n1 = n2).
Proof.
  intros (Hp & Hpb & <-) (Hq & Hqb & <-) Hm. unfold piece_eq.
  destruct (Z.eqb_spec (len_ p) (len_ q)) as [Heq|Hne]; [done|]. simpl. symmetry.
  apply bool_decide_eq_false. intros Heq. apply Hne. apply (f_equal length) in Heq.
  unfold piece_bytes in Heq. rewrite !length_take, !length_drop in Heq. lia.
Qed.

Lemma last_lookup_length (t : list Z) : last t = t !! (length t - 1).
Proof. rewrite last_lookup. f_equal. lia. Qed.

Lemma token_spec fuel targets o deps s t w' name colon :
  outer targets o deps s → in_ s < length text → length (drop (in_ s) text) + 1 < fuel →
  tok (drop (in_ s) text) = (t, w') → strip_colon t = (name, colon) →
  returns (token fuel) (λ ok s', in_ s < in_ s' ∧ drop (in_ s') text = w' ∧
    match add_name targets o deps name with
    | Some (o', deps') => ok = true ∧ outer (targets && negb colon) o' deps' s'
    | None => ok = false
    end) s.
Proof.
  intros Hou Hin Hf Htok Hstrip. pose proof Hou as [(before & Hm & Hl) _ _ _ _].
  unfold token. apply wp_bind, wp_mget, wp_bind, wp_modify. apply wp_bind.
  eapply wp_mono; [apply (scan_loop_spec fuel before [])| |done]; [|simpl; lia|simpl; lia|].
  { exists []. simpl. rewrite Hl. split_and!; try done; lia. }
  intros [] s1 (Hfr & Hlt & Hb & Hrest). simpl in Hlt, Hb, Hrest. rewrite Htok in Hb, Hrest. simpl in Hb, Hrest.
  assert (Han : after_name before t s s1) by by split_and!.
  pose proof (after_outer before t s s1 targets o deps Hm Hl Hou Han) as Hou1.
  assert (Hlen1 : length (content s1) = S (length text)).
  { destruct Hb as (junk & -> & _ & Hi & Hle & _). rewrite !length_app, length_unread. lia. }
  assert (Ht : out s1 = in_ s + length t ∧ length t ≤ S (length text)).
  { destruct Hb as (junk & _ & -> & ? & ? & _). lia. }
  destruct Ht as [Hout Htl].
  apply wp_bind, wp_mget. rewrite Hout.
  replace (Z.of_nat (in_ s + length t) - Z.of_nat (in_ s))%Z with (Z.of_nat (length t)) by lia.
  rewrite to_int_small by lia.
  pose (c := default 0%Z (last t)).
  assert (Hcolon : (0 <? Z.of_nat (length t))%Z && (c =? ch ":"%char)%Z = colon ∧
    (if colon then (Z.of_nat (length t) - 1)%Z else Z.of_nat (length t)) = Z.of_nat (length name) ∧
    name = take (length name) t ∧ length name ≤ length t).
  { unfold strip_colon, c in *. destruct (last t) as [x|] eqn:Hx.
    - assert (length t ≠ 0) by (destruct t; done). simpl.
      destruct (Z.ltb_spec 0 (Z.of_nat (length t))); [|lia].
      destruct (Z.eqb_spec x (ch ":"%char)); simplify_eq; simpl.
      + rewrite length_take. split_and!; [done|lia| |lia]. f_equal. lia.
      + split_and!; [done|done|by rewrite firstn_all|done].
    - apply last_None in Hx as ->. by simplify_eq. }
  destruct Hcolon as (Hc & Hnl & Hname & Hnle). apply wp_bind.
  eapply (wp_mono _ (λ x s2, s2 = s1 ∧ ((0 < length t) → x = c)) _ (λ _ _, False)); [|intros x s2 [-> Hx]|done].
  { destruct (Z.ltb_spec 0 (Z.of_nat (length t))) as [H0|H0].
    - eapply (wp_deref _ c); [|split; [done|done]].
      destruct Hb as (junk & -> & _ & _). rewrite <- Hl.
      replace (Z.to_nat (Z.of_nat (length before) + Z.of_nat (length t) - 1)) with (length before + (length t - 1)) by lia.
      rewrite lookup_app_r by lia. replace (length before + (length t - 1) - length before) with (length t - 1) by lia.
      rewrite lookup_app_l by lia. unfold c. rewrite <- last_lookup_length.
      destruct (last t) as [?|] eqn:Hx; [done|]. apply last_None in Hx as ->. done.
    - apply wp_ret. split; [done|]. lia. }
  assert (Hb' : (0 <? Z.of_nat (length t))%Z && (x =? ch ":"%char)%Z = colon).
  { rewrite <- Hc. destruct (Z.ltb_spec 0 (Z.of_nat (length t))); [|done]. by rewrite Hx by lia. }
  rewrite Hb', Hnl. apply wp_bind.
  set (s2 := mkL (content s1) (in_ s1) (out s1) (targets && negb colon) (out_ s1) (ins_ s1)).
  eapply (wp_mono _ (λ _ s', s' = s2) _ (λ _ _, False)); [|intros [] ? ->|done].
  { unfold s2. rewrite <- (ou_targets _ _ _ _ Hou1). destruct colon; [apply wp_modify|apply wp_ret].
    - by rewrite andb_false_r.
    - rewrite andb_true_r. by destruct s1. }
  assert (Hou2 : outer (targets && negb colon) o deps s2) by (destruct Hou1; by split).
  pose proof (new_piece before t s s1 name (length name) Han Hname Hnle) as Hp. rewrite Hl in Hp.
  rewrite (ou_targets _ _ _ _ Hou1). unfold add_name.
  destruct (Z.eqb_spec (Z.of_nat (length name)) 0) as [H0|H0].
  { apply wp_ret. rewrite bool_decide_eq_true_2 by (apply nil_length_inv; lia). by split_and!. }
  rewrite bool_decide_eq_false_2 by (intros ->; by apply H0).
  destruct targets; simpl.
  - pose proof (ou_out _ _ _ _ Hou1) as Ho. destruct (out_ s1) as [po|] eqn:Hpo, o as [o'|]; try done.
    + apply wp_ret. simpl in Ho. rewrite (piece_eq_ok _ _ _ _ _ _ Ho Hp).
      * destruct (bool_decide (o' = name)) eqn:E; rewrite ?E; split_and!; try done.
      * pose proof (ou_in _ _ _ _ Hou1). lia.
    + apply wp_bind, wp_modify, wp_ret. split_and!; [done|done|done|]. destruct Hou2. by split.
  - apply wp_bind, wp_modify, wp_ret. split_and!; [done|done|done|]. destruct Hou2. split; try done.
    simpl. apply Forall2_app; [done|]. by constructor.
Qed.
End refinement.

Lemma names_S k w targets o deps :
  w ≠ [] → names (S k) w targets o deps =
    let '(t, w') := tok w in
    let '(name, colon) := strip_colon t in
    '(o', deps') ← add_name targets o deps name;
    names k w' (targets && negb colon) o' deps'.
Proof. by destruct w. Qed.

Lemma parse_loop_spec text fuel :
  (∀ c, c ∈ text → (0 <= c < 128)%Z) → (Z.of_nat (length text) + 1 < 2 ^ 31)%Z →
  ∀ s k targets o deps, outer text targets o deps s →
  length (drop (in_ s) text) + 3 ≤ fuel → length (drop (in_ s) text) ≤ k →
  returns (parse_loop fuel) (λ ok s',
    match names k (drop (in_ s) text) targets o deps with
    | Some (o', deps') => ok = true ∧ ∃ targets', outer text targets' o' deps' s'
    | None => ok = false
    end) s.
Proof.
  intros Ha Hi. induction fuel as [|fuel IH]; intros s k targets o deps Hou Hf Hk; [lia|].
  cbn [parse_loop]. apply wp_bind, wp_mget.
  assert (Hlen : length (content s) = S (length text)).
  { destruct (ou_content _ _ _ _ _ Hou) as (before & -> & Hl). pose proof (ou_in _ _ _ _ _ Hou).
    rewrite length_app, length_unread. lia. }
  rewrite Hlen. destruct (Nat.ltb_spec (S (in_ s)) (S (length text))) as [Hlt|Hge].
  - destruct (drop (in_ s) text) as [|c w] eqn:Hw.
    { apply (f_equal length) in Hw. rewrite length_drop in Hw. simpl in Hw. lia. }
    rewrite <- Hw in *. destruct k as [|k]; [rewrite Hw in Hk; simpl in Hk; lia|].
    destruct (tok (drop (in_ s) text)) as [t w'] eqn:Htok.
    destruct (strip_colon t) as [name colon] eqn:Hst.
    apply wp_bind. eapply wp_mono; [eapply (token_spec text Ha Hi fuel); try done; lia| |done].
    intros ok s1 (Hin & Hw' & H).
    assert (names (S k) (drop (in_ s) text) targets o deps =
      '(o', deps') ← add_name targets o deps name; names k w' (targets && negb colon) o' deps') as ->.
    { rewrite names_S by by rewrite Hw. by rewrite Htok, Hst. }
    destruct (add_name targets o deps name) as [[o' deps']|]; simpl.
    + destruct H as [-> Hou']. rewrite <- Hw'. apply IH; [done| |]; rewrite length_drop in *; lia.
    + subst ok. by apply wp_ret.
  - apply wp_ret. assert (drop (in_ s) text = []) as -> by (apply drop_ge; lia).
    destruct k; simpl; eauto.
Qed.

Lemma Parse_spec text :
  (∀ c, c ∈ text → (0 <= c < 128)%Z) → (Z.of_nat (length text) + 1 < 2 ^ 31)%Z →
  ∃ ok s, Parse text = Ret ok s ∧
    (if (ok : bool) then Some (piece_bytes (content s) <$> out_ s, piece_bytes (content s) <$> ins_ s) else None)
    = depfile_names text.
Proof.
  intros Ha Hi.
  assert (Hou : outer text true None [] (initial_L text)).
  { split; simpl; try done; [by exists []|lia]. }
  pose proof (parse_loop_spec text (Parse_fuel text) Ha Hi (initial_L text) (length text) true None [] Hou) as H.
  change (in_ (initial_L text)) with 0 in H. rewrite drop_0 in H.
  apply returns_inv in H as (ok & s & Heq & H); [|unfold Parse_fuel; lia|lia].
  exists ok, s. split; [exact Heq|]. unfold depfile_names.
  destruct (names _ _ _ _ _) as [[o deps]|]; [|by subst]. destruct H as (-> & tg & [_ _ _ Ho Hd]).
  f_equal. f_equal.
  - destruct (out_ s), o; try done. simpl in *. by destruct Ho as (_ & _ & ->).
  - clear -Hd. induction Hd as [|p n ps ns (_ & _ & <-) _ IH]; [done|].
    rewrite fmap_cons. by f_equal.
Qed.

(** C17: Parse is memory safe and total on ASCII text, and working in place does
    not show: the names it returns, read in the buffer it leaves behind, are the
    ones the specification finds in the original text (and it fails exactly when
    the text has two different targets). *)
Theorem Parse_refines text :
  (∀ c, c ∈ text → (0 <= c < 128)%Z) → (Z.of_nat (length text) + 1 < 2 ^ 31)%Z →
  ∃ ok s, Parse text = Ret ok s ∧
    (if (ok : bool) then Some (piece_bytes (content s) <$> out_ s, piece_bytes (content s) <$> ins_ s) else None)
    = depfile_names text.
Proof. apply Parse_spec. Qed.

Lemma Parse_refines_witness :
  ∃ ok s, Parse (bytes "a.o: b\ c.h") = Ret ok s ∧
    (if (ok : bool) then Some (piece_bytes (content s) <$> out_ s, piece_bytes (content s) <$> ins_ s) else None)
    = depfile_names (bytes "a.o: b\ c.h").
Proof.
  apply (Parse_refines (bytes "a.o: b\ c.h")).
  - assert (forallb (λ c, (0 <=? c) && (c <? 128))%Z (bytes "a.o: b\ c.h") = true) as H by (vm_compute; reflexivity).
    rewrite forallb_forall in H. intros c Hc%list_elem_of_In%H. lia.
  - vm_compute. reflexivity.
Defined.

(** ** Round trip

    The depfile a compiler writes for a target and its dependencies. *)
Definition escape_char (c : Z) : list Z :=
  match classify c with
  | Plain => [c]
  | Dollar => [c; c]
  | _ => [ch "\"%char; c]
  end.
Definition escape_name (name : list Z) : list Z := name ≫= escape_char.
Definition print_depfile (target : list Z) (deps : list (list Z)) : list Z :=
  escape_name target ++ [ch ":"%char] ++
  (deps ≫= λ d, ch " "%char :: escape_name d) ++ [10%Z].

(** A name the format can hold. *)
Definition printable (c : Z) : bool :=
  (0 <? c)%Z && (c <? 128)%Z &&
  match classify c with
  | Plain | Dollar => true
  | _ => match escapes c with Drops => true | _ => false end
  end.
Definition good_name (name : list Z) : Prop :=
  name ≠ [] ∧ (∀ c, c ∈ name → printable c = true) ∧ last name ≠ Some (ch ":"%char).

Lemma tok_escape name w :
  (∀ c, c ∈ name → printable c = true) →
  tok (escape_name name ++ w) = (name ++ (tok w).1, (tok w).2).
Proof.
  induction name as [|c name IH]; intros Hp; [simpl; by destruct (tok w)|].
  assert (Hc : printable c = true) by (apply Hp; set_solver).
  assert (IH' := IH ltac:(set_solver)). clear IH Hp.
  unfold escape_name. rewrite bind_cons, <- app_assoc. fold (escape_name name).
  unfold escape_char. unfold printable in Hc. destruct (classify c) eqn:Hcl.
  - simpl. by rewrite Hcl, IH'.
  - destruct (escapes c) eqn:He; try by rewrite andb_false_r in Hc.
    change (tok ([ch "\"%char; c] ++ escape_name name ++ w))
      with (match escapes c with Ends => ([], c :: escape_name name ++ w)
            | Drops => let '(t, r) := tok (escape_name name ++ w) in (c :: t, r)
            | Keeps => let '(t, r) := tok (escape_name name ++ w) in (ch "\"%char :: c :: t, r) end).
    by rewrite He, IH'.
  - simpl. by rewrite Hcl, Z.eqb_refl, IH'.
  - destruct (escapes c) eqn:He; try by rewrite andb_false_r in Hc.
    change (tok ([ch "\"%char; c] ++ escape_name name ++ w))
      with (match escapes c with Ends => ([], c :: escape_name name ++ w)
            | Drops => let '(t, r) := tok (escape_name name ++ w) in (c :: t, r)
            | Keeps => let '(t, r) := tok (escape_name name ++ w) in (ch "\"%char :: c :: t, r) end).
    by rewrite He, IH'.
Qed.

Definition lines (deps : list (list Z)) : list Z :=
  (deps ≫= λ d, ch " "%char :: escape_name d) ++ [10%Z].
Definition body (deps : list (list Z)) : list Z :=
  match deps with [] => [] | d :: ds => escape_name d ++ lines ds end.

Lemma tok_lines deps : tok (lines deps) = ([], body deps).
Proof. destruct deps as [|d ds]; [done|]. unfold lines. rewrite bind_cons. simpl. by rewrite <- app_assoc. Qed.

Lemma strip_good name : good_name name → strip_colon name = (name, false).
Proof.
  intros (Hne & _ & Hl). unfold strip_colon. destruct (last name) as [c|]; [|done].
  destruct (Z.eqb_spec c (ch ":"%char)); [congruence|done].
Qed.

Lemma escape_name_ne name : name ≠ [] → escape_name name ≠ [].
Proof.
  destruct name as [|c name]; [done|]. intros _. unfold escape_name. rewrite bind_cons.
  unfold escape_char. by destruct (classify c).
Qed.

Lemma names_body deps : ∀ k o acc,
  Forall good_name deps → length deps ≤ k → names k (body deps) false o acc = Some (o, acc ++ deps).
Proof.
  induction deps as [|d deps IH]; intros k o acc Hg Hk; [by destruct k; rewrite app_nil_r|].
  inversion Hg as [|? ? Hd Hds]; subst. destruct k as [|k]; [simpl in Hk; lia|].
  pose proof Hd as (Hne & Hp & _). rewrite names_S.
  - simpl body. rewrite tok_escape, tok_lines by done. cbn [fst snd]. rewrite app_nil_r, strip_good by done.
    unfold add_name. rewrite bool_decide_eq_false_2 by done. simpl.
    rewrite IH by (try done; simpl in Hk; lia). by rewrite <- app_assoc.
  - simpl. intros [He _]%app_nil. by apply escape_name_ne in He.
Qed.

Lemma strip_target target : strip_colon (target ++ [ch ":"%char]) = (target, true).
Proof.
  unfold strip_colon. rewrite last_snoc, Z.eqb_refl, length_app. simpl.
  rewrite Nat.add_sub. by rewrite take_app_length.
Qed.

Lemma escape_name_length name : length name ≤ length (escape_name name).
Proof.
  induction name as [|c name IH]; [done|]. unfold escape_name in *. rewrite bind_cons, length_app.
  assert (1 ≤ length (escape_char c)) by (unfold escape_char; destruct (classify c); simpl; lia).
  simpl. lia.
Qed.

Lemma lines_length deps : length deps < length (lines deps).
Proof.
  unfold lines. rewrite length_app. simpl. rewrite Nat.add_1_r. apply Nat.lt_succ_r.
  induction deps as [|d deps IH]; [done|]. rewrite bind_cons, length_app. simpl in *. lia.
Qed.

Lemma depfile_names_print target deps :
  good_name target → Forall good_name deps →
  depfile_names (print_depfile target deps) = Some (Some target, deps).
Proof.
  intros (Hne & Hp & Hl) Hds. unfold depfile_names.
  assert (Hpr : print_depfile target deps = escape_name target ++ ch ":"%char :: lines deps) by done.
  assert (Hlen : S (length deps) < length (print_depfile target deps)).
  { rewrite Hpr, length_app. simpl. pose proof (lines_length deps). lia. }
  destruct (length (print_depfile target deps)) as [|k]; [lia|]. rewrite Hpr, names_S.
  - rewrite tok_escape by done.
    assert (tok (ch ":"%char :: lines deps) = ([ch ":"%char], body deps)) as ->.
    { change (tok (ch ":"%char :: lines deps)) with (let '(t, r) := tok (lines deps) in (ch ":"%char :: t, r)).
      by rewrite tok_lines. }
    cbn [fst snd]. rewrite strip_target. unfold add_name. rewrite bool_decide_eq_false_2 by done. simpl.
    rewrite names_body by (try done; lia). done.
  - intros [He _]%app_nil. by apply escape_name_ne in He.
Qed.

Lemma escape_ascii name c :
  (∀ c, c ∈ name → printable c = true) → c ∈ escape_name name → (0 <= c < 128)%Z.
Proof.
  intros Hp Hc. apply list_elem_of_bind in Hc as (d & Hc & Hd). specialize (Hp d Hd).
  unfold printable in Hp. unfold escape_char in Hc.
  assert (c = d ∨ c = ch "\"%char) as [-> | ->].
  { destruct (classify d); set_solver. }
  - lia.
  - done.
Qed.

(** C19: round trip.  The text written for a target and its dependencies, with
    the characters the format can escape, is parsed back to the same names. *)
Theorem Parse_print target deps :
  good_name target → Forall good_name deps →
  (Z.of_nat (length (print_depfile target deps)) + 1 < 2 ^ 31)%Z →
  parsed (print_depfile target deps) = Ret (Some (Some target, deps)) tt.
Proof.
  intros Ht Hd Hlen. unfold parsed.
  destruct (Parse_spec (print_depfile target deps)) as (ok & s & -> & H); [|done|].
  - intros c. unfold print_depfile. rewrite !elem_of_app, list_elem_of_bind, !list_elem_of_singleton.
    intros [Hc|[-> |[(d & Hc & Hd')| ->]]]; [| |apply elem_of_cons in Hc as [-> |Hc]|]; try done.
    + by eapply escape_ascii; [apply Ht|].
    + rewrite Forall_forall in Hd. by eapply escape_ascii; [apply (Hd d Hd')|].
  - rewrite depfile_names_print in H by done. destruct ok; [by rewrite H|done].
Qed.

Definition check_name (name : list Z) : bool :=
  negb (bool_decide (name = [])) && forallb printable name &&
  negb (bool_decide (last name = Some (ch ":"%char))).
Lemma check_name_sound name : check_name name = true → good_name name.
Proof.
  unfold check_name, good_name. rewrite !andb_true_iff, !negb_true_iff, !bool_decide_eq_false, forallb_forall.
  intros [[H1 H2] H3]. split_and!; try done. intros c Hc. by apply H2, list_elem_of_In.
Qed.

Lemma Parse_print_witness :
  parsed (print_depfile (bytes "my prog") [bytes "a$b.h"; bytes "c:d"; bytes "e\[f"]) =
  Ret (Some (Some (bytes "my prog"), [bytes "a$b.h"; bytes "c:d"; bytes "e\[f"])) tt.
Proof.
  apply (Parse_print (bytes "my prog") [bytes "a$b.h"; bytes "c:d"; bytes "e\[f"]).
  - apply check_name_sound. vm_compute. reflexivity.
  - repeat constructor; apply check_name_sound; vm_compute; reflexivity.
  - vm_compute. reflexivity.
Defined.

(** A byte above 127 after a plain character indexes [yybm] with a negative
    [char]: on a text that begins that way the parser reads outside the table. *)
Theorem Parse_high_byte c d w :
  classify c = Plain → (0 <= c < 128)%Z → (-128 <= d < 0)%Z → Parse (c :: d :: w) = Abort BadAccess.
Proof.
  intros Hcl Hc Hd. unfold Parse, Parse_fuel. cbn [length Nat.add parse_loop].
  unfold mbind, M_bind, mget. cbn [in_ initial_L content length app].
  destruct (Nat.ltb_spec 1 (S (S (length (w ++ [0%Z]))))); [|lia].
  unfold token, mbind, M_bind, mget, modify. cbn [scan_loop in_ initial_L].
  unfold mbind at 1, M_bind at 1.
  rewrite (scan_eq _ _ c) by done. rewrite scan_class_ok, Hcl by done.
  assert (Habort : ∀ k start s, yy11 (k + 3) start d s = Abort BadAccess).
  { intros k start s. rewrite Nat.add_comm. simpl. unfold yybm, mbind, M_bind.
    destruct (Z.ltb_spec d 0); [done|lia]. }
  unfold yy5, advance, modify, peek, load, mget, mbind, M_bind. simpl. by rewrite Habort.
Qed.

Lemma Parse_high_byte_witness : Parse [97; -61; -87]%Z = Abort BadAccess.
Proof. apply (Parse_high_byte 97 (-61) [-87]%Z); [vm_compute; reflexivity|lia|lia]. Defined.
