(* ===== verification/EventNotifier.v ===== *)
(** * EventNotifier (util/event.h, util/event.cpp)

    The pipe StreamServer uses to wake up its call to poll.  Of the pipe the
    model keeps the number of bytes in it, its capacity, and for either end the
    two flag words of fcntl: the descriptor flags (F_GETFD, F_SETFD, where only
    FD_CLOEXEC exists) and the status flags (F_GETFL, F_SETFL, where O_NONBLOCK
    lives). *)

From S2P Require Import Prelude.

Module EventNotifier.
Record end_flags := mkFlags { fd_flags : Z; status_flags : Z }.
Record t := mk {
  pending : nat;      (* bytes in the pipe *)
  capacity : nat;     (* PIPE_BUF aligned size of the kernel's buffer *)
  rfd_ : end_flags;
  wfd_ : end_flags;
}.

Definition FD_CLOEXEC : Z := 1.
Definition O_NONBLOCK : Z := 2048.

(** fcntl(fd, F_SETFD, f): every bit but FD_CLOEXEC is ignored. *)
Definition fcntl_setfd (f : Z) (e : end_flags) : end_flags :=
  mkFlags (Z.land f FD_CLOEXEC) (status_flags e).
Definition fcntl_getfd (e : end_flags) : Z := fd_flags e.

Definition set_flags (e : end_flags) : end_flags :=
  fcntl_setfd (Z.lor (Z.lor (fcntl_getfd e) FD_CLOEXEC) O_NONBLOCK) e.

Definition nonblocking (e : end_flags) : bool := negb (Z.land (status_flags e) O_NONBLOCK =? 0)%Z.

(** The constructor, on the pipe the kernel returned. *)
Definition new (cap : nat) : t := mk 0 cap (set_flags (mkFlags 0 0)) (set_flags (mkFlags 0 0)).

(** raise: eight bytes; on a full pipe write fails with EAGAIN, which is
    accepted, or waits for a reader. *)
Definition raise (e : t) : option t :=
  if pending e + 8 <=? capacity e then Some (mk (pending e + 8) (capacity e) (rfd_ e) (wfd_ e))
  else if nonblocking (wfd_ e) then Some e else None.

(** flush: read 512 bytes at a time until a read returns less; reading an empty
    pipe fails with EAGAIN (-1) or waits for a writer. *)
Fixpoint flush_loop (fuel : nat) (n : nat) (nonblock : bool) : option nat :=
  match fuel with
  | O => None
  | S fuel =>
    if n =? 0 then if nonblock then Some 0 else None
    else if n <? 512 then Some 0
    else flush_loop fuel (n - 512) nonblock
  end.
Definition flush (e : t) : option t :=
  n ← flush_loop (S (pending e)) (pending e) (nonblocking (rfd_ e));
  Some (mk n (capacity e) (rfd_ e) (wfd_ e)).
End EventNotifier.

(** The descriptors stay blocking: [set_flags] passes O_NONBLOCK to F_SETFD. *)
Lemma set_flags_blocking cap :
  EventNotifier.nonblocking (EventNotifier.rfd_ (EventNotifier.new cap)) = false ∧
  EventNotifier.nonblocking (EventNotifier.wfd_ (EventNotifier.new cap)) = false.
Proof. done. Qed.

Lemma flush_loop_blocks fuel n :
  n mod 512 = 0 → n < fuel → EventNotifier.flush_loop fuel n false = None.
Proof.
  revert n. induction fuel as [|fuel IH]; intros n Hn Hf; [lia|]. simpl.
  destruct (Nat.eqb_spec n 0) as [|Hne]; [done|].
  assert (512 ≤ n) by (destruct (Nat.le_gt_cases 512 n); [done|rewrite Nat.mod_small in Hn; lia]).
  destruct (Nat.ltb_spec n 512); [lia|]. apply IH; [|lia].
  rewrite <- (Nat.Div0.mod_add (n - 512) 1 512). by replace (n - 512 + 1 * 512) with n by lia.
Qed.

Lemma flush_loop_returns fuel n b :
  n mod 512 ≠ 0 → n < fuel → EventNotifier.flush_loop fuel n b = Some 0.
Proof.
  revert n. induction fuel as [|fuel IH]; intros n Hn Hf; [lia|]. simpl.
  destruct (Nat.eqb_spec n 0) as [->|Hne]; [done|].
  destruct (Nat.ltb_spec n 512); [done|]. apply IH; [|lia].
  rewrite <- (Nat.Div0.mod_add (n - 512) 1 512). by replace (n - 512 + 1 * 512) with n by lia.
Qed.

(** [k] notifications in a row. *)
Fixpoint raises (k : nat) (e : EventNotifier.t) : option EventNotifier.t :=
  match k with O => Some e | S k => e' ← EventNotifier.raise e; raises k e' end.

Lemma raises_pending k e :
  EventNotifier.pending e + 8 * k ≤ EventNotifier.capacity e →
  raises k e = Some (EventNotifier.mk (EventNotifier.pending e + 8 * k) (EventNotifier.capacity e)
    (EventNotifier.rfd_ e) (EventNotifier.wfd_ e)).
Proof.
  revert e. induction k as [|k IH]; intros e He; simpl; [rewrite Nat.add_0_r; by destruct e|].
  unfold EventNotifier.raise at 1. destruct (Nat.leb_spec (EventNotifier.pending e + 8) (EventNotifier.capacity e)); [|lia].
  simpl. rewrite IH by (simpl; lia). simpl. do 2 f_equal. lia.
Qed.

(** The pipe behaves as a wake-up flag unless the notifications come in
    multiples of 64: after [k] of them (all of which fit in the pipe) flush
    empties the pipe if 64 does not divide [k], and otherwise waits, since both
    ends are in blocking mode, for one more notification. *)
Theorem flush_after_raises k cap :
  8 * k ≤ cap →
  ∃ e, raises k (EventNotifier.new cap) = Some e ∧
    if k mod 64 =? 0 then EventNotifier.flush e = None
    else ∃ e', EventNotifier.flush e = Some e' ∧ EventNotifier.pending e' = 0.
Proof.
  intros Hk. eexists. split; [by apply raises_pending|].
  assert (Hm : (0 + 8 * k) mod 512 = 8 * (k mod 64)).
  { change 512 with (8 * 64). by rewrite Nat.add_0_l, Nat.Div0.mul_mod_distr_l. }
  cbn [EventNotifier.pending EventNotifier.new]. unfold EventNotifier.flush.
  cbn [EventNotifier.pending EventNotifier.rfd_]. change (EventNotifier.nonblocking _) with false.
  destruct (Nat.eqb_spec (k mod 64) 0) as [H0|H0].
  - rewrite flush_loop_blocks; [done| |]; [rewrite Hm|]; lia.
  - rewrite flush_loop_returns; [by eexists| |]; [rewrite Hm|]; lia.
Qed.

Lemma flush_after_raises_witness :
  ∃ e, raises 64 (EventNotifier.new 65536) = Some e ∧ EventNotifier.flush e = None.
Proof. apply (flush_after_raises 64 65536). apply Nat.leb_le. vm_compute. reflexivity. Defined.
