(* ===== verification/StreamServer.v ===== *)
(** * StreamServer (stream_server.h, stream_server.cpp)

    The server that streams the output of the builds to its clients.  Iterators
    into [builds_] are the addresses of its elements ([None] is
    [builds_.end()]); the iterator [itFd] of a client is its descriptor in
    [fds_] or [waiting_], each of which holds a descriptor once.  Every public
    method holds the mutex from its first to its last line: the methods are the
    atomic steps of the server.  [sent] is not a member: it records the bytes
    handed to the socket of every client. *)

From S2P Require Import Prelude GraphModel EventNotifier.
From stdpp Require Import pretty.
From Stdlib Require Import Ascii.

Inductive BuildResult := UNKNOWN | SUCCEEDED | INTERRUPTED | FAILED.
Definition toString (v : BuildResult) : string :=
  match v with
  | UNKNOWN => "UNKNOWN" | SUCCEEDED => "SUCCEEDED"
  | INTERRUPTED => "INTERRUPTED" | FAILED => "FAILED"
  end.
(** [SubProcessExitStatus] has the same values and the same names. *)
Definition SubProcessExitStatus : Type := BuildResult.
#[export] Instance BuildResult_eq_dec : EqDecision BuildResult.
Proof. solve_decision. Defined.
#[export] Instance SubProcessExitStatus_eq_dec : EqDecision SubProcessExitStatus := BuildResult_eq_dec.

Record BuildInfo := mkBuild {
  id : N;
  buf : list ascii;
  refcount : Z;
  buildCompleted : bool;
  firstChunk : bool;
}.

Record ClientInfo := mkClient {
  itBuild : option N;
  bufPtr : nat;
  isWaiting : bool;
}.

Record Server := mkServer {
  builds_ : list (N * BuildInfo);
  eventFd_ : EventNotifier.t;
  fds_ : list Z;
  waiting_ : list Z;
  map_ : gmap Z ClientInfo;
  sent : gmap Z (list ascii);
}.

Definition set_builds (l : list (N * BuildInfo)) (s : Server) : Server :=
  mkServer l (eventFd_ s) (fds_ s) (waiting_ s) (map_ s) (sent s).
Definition set_event (e : EventNotifier.t) (s : Server) : Server :=
  mkServer (builds_ s) e (fds_ s) (waiting_ s) (map_ s) (sent s).
Definition set_fds (l : list Z) (s : Server) : Server :=
  mkServer (builds_ s) (eventFd_ s) l (waiting_ s) (map_ s) (sent s).
Definition set_waiting (l : list Z) (s : Server) : Server :=
  mkServer (builds_ s) (eventFd_ s) (fds_ s) l (map_ s) (sent s).
Definition set_map (m : gmap Z ClientInfo) (s : Server) : Server :=
  mkServer (builds_ s) (eventFd_ s) (fds_ s) (waiting_ s) m (sent s).
Definition set_sent (m : gmap Z (list ascii)) (s : Server) : Server :=
  mkServer (builds_ s) (eventFd_ s) (fds_ s) (waiting_ s) (map_ s) m.

Definition set_buf (l : list ascii) (b : BuildInfo) : BuildInfo :=
  mkBuild (id b) l (refcount b) (buildCompleted b) (firstChunk b).
Definition add_ref (d : Z) (b : BuildInfo) : BuildInfo :=
  mkBuild (id b) (buf b) (wrap32 (refcount b + d)) (buildCompleted b) (firstChunk b).
Definition complete (b : BuildInfo) : BuildInfo :=
  mkBuild (id b) (buf b) (refcount b) true (firstChunk b).
Definition not_first (b : BuildInfo) : BuildInfo :=
  mkBuild (id b) (buf b) (refcount b) (buildCompleted b) false.

(** [*it] and an assignment through an iterator into [builds_]. *)
Fixpoint find_build (k : N) (l : list (N * BuildInfo)) : option BuildInfo :=
  match l with
  | [] => None
  | (k', b) :: l' => if decide (k = k') then Some b else find_build k l'
  end.
Fixpoint alter_build (k : N) (f : BuildInfo → BuildInfo) (l : list (N * BuildInfo)) :=
  match l with
  | [] => []
  | (k', b) :: l' => if decide (k = k') then (k', f b) :: l' else (k', b) :: alter_build k f l'
  end.
Fixpoint erase_build (k : N) (l : list (N * BuildInfo)) :=
  match l with
  | [] => []
  | (k', b) :: l' => if decide (k = k') then l' else (k', b) :: erase_build k l'
  end.

Definition readBuild (k : N) : M Server BuildInfo := λ s, deref (find_build k (builds_ s)) s.
Definition updBuild (k : N) (f : BuildInfo → BuildInfo) : M Server unit :=
  readBuild k;; modify (λ s, set_builds (alter_build k f (builds_ s)) s).
(** [builds_.begin()], [builds_.front()]. *)
Definition begin : M Server (option N) := gets (λ s, head (builds_ s).*1).
Definition front : M Server (N * BuildInfo) := λ s, deref (head (builds_ s)) s.
Definition empty_builds (s : Server) : bool := bool_decide (builds_ s = []).

(** [l.erase(it)] where [it] is the position of [fd] in a list: undefined when
    it is not in that list. *)
Fixpoint erase_fd (fd : Z) (l : list Z) : option (list Z) :=
  match l with
  | [] => None
  | x :: l' => if decide (fd = x) then Some l' else cons x <$> erase_fd fd l'
  end.
Definition eraseFromFds (fd : Z) : M Server unit :=
  s ← mget; l ← deref (erase_fd fd (fds_ s)); modify (set_fds l).

Definition readClient (fd : Z) : M Server ClientInfo :=
  s ← mget;
  match map_ s !! fd with Some c => mret c | None => mabort AssertFailed end.
Definition writeClient (fd : Z) (c : ClientInfo) : M Server unit :=
  modify (λ s, set_map (<[fd := c]> (map_ s)) s).

Definition notifyPoll : M Server unit :=
  s ← mget;
  match EventNotifier.raise (eventFd_ s) with
  | Some e => modify (set_event e)
  | None => mabort Blocked
  end.
Definition flushEventFd : M Server unit :=
  s ← mget;
  match EventNotifier.flush (eventFd_ s) with
  | Some e => modify (set_event e)
  | None => mabort Blocked
  end.

Definition removeBuild (k : N) : M Server unit :=
  b ← readBuild k;
  massert (bool_decide (refcount b = 0%Z));;
  massert (buildCompleted b);;
  modify (λ s, set_builds (erase_build k (builds_ s)) s).

(** ** Writing *)

Definition str (s : string) : list ascii := String.list_ascii_of_string s.
Definition dq : ascii := "034".
Definition nl : ascii := "010".
Definition quoted (s : string) : list ascii := dq :: str s ++ [dq].

Definition writeBuf (l : list ascii) : M Server unit :=
  s ← mget;
  massert (negb (empty_builds s));;
  '(k, b) ← front;
  updBuild k (set_buf (buf b ++ l)).

(** What is appended for one character. *)
Definition escape_json (c : ascii) : list ascii :=
  if decide (c = dq ∨ c = "\"%char) then ["\"%char; c]
  else if decide (c = nl) then ["\"%char; "n"%char]
  else [c].
Definition writeBufEscapeJson (l : list ascii) : M Server unit :=
  s ← mget;
  massert (negb (empty_builds s));;
  foreach l (λ c, '(k, b) ← front; updBuild k (set_buf (buf b ++ escape_json c))).

Definition flushWaiting : M Server unit :=
  s ← mget;
  massert (negb (empty_builds s));;
  '(k, b) ← front;
  massert (negb (buildCompleted b) && negb (bool_decide (buf b = [])));;
  foreach (waiting_ s) (λ fd,
    modify (λ s, set_fds (fd :: fds_ s) s);;
    c ← readClient fd;
    match itBuild c with
    | None => writeClient fd (mkClient (Some k) (bufPtr c) false);; updBuild k (add_ref 1)
    | Some k' =>
      writeClient fd (mkClient (Some k') (bufPtr c) false);;
      massert (bool_decide (k' = k))
    end);;
  modify (set_waiting []);;
  notifyPoll.

Definition number (n : N) : list ascii := str (pretty n).

Section server.
Context `{Allocator}.

Definition newBuild (buildId : N) : M Server unit :=
  s ← mget;
  (if empty_builds s then mret tt
   else
     '(k, b) ← front;
     massert (buildCompleted b);;
     if bool_decide (refcount b = 0%Z) then removeBuild k else mret tt);;
  modify (λ s, set_builds ((new_addr (list_to_set (builds_ s).*1), mkBuild buildId [] 0 false true) :: builds_ s) s);;
  writeBuf (str "{" ++ [nl] ++ str "  " ++ quoted "id" ++ str ": ");;
  writeBuf (number buildId);;
  writeBuf (str "," ++ [nl] ++ str "  " ++ quoted "cmds" ++ str ": [" ++ [nl]);;
  flushWaiting.
End server.

Definition endBuild (result : BuildResult) : M Server unit :=
  s ← mget;
  massert (negb (empty_builds s));;
  '(k, b) ← front;
  massert (negb (buildCompleted b));;
  writeBuf ([nl] ++ str "  ]," ++ [nl] ++ str "  " ++ quoted "result" ++ str ": " ++ [dq]);;
  writeBuf (str (toString result));;
  writeBuf ([dq; nl] ++ str "}" ++ [nl]);;
  flushWaiting;;
  '(k, b) ← front;
  updBuild k complete.

Definition writeCmdOutput (cmdId : N) (l : list ascii) (isStdout : bool) : M Server unit :=
  s ← mget;
  massert (negb (empty_builds s));;
  '(k, b) ← front;
  massert (negb (firstChunk b));;
  writeBuf (str "," ++ [nl]);;
  writeBuf (str "    { " ++ quoted "id" ++ str ": ");;
  writeBuf (number cmdId);;
  (if isStdout then writeBuf (str ", " ++ quoted "stdout" ++ str ": " ++ [dq])
   else writeBuf (str ", " ++ quoted "stderr" ++ str ": " ++ [dq]));;
  writeBufEscapeJson l;;
  writeBuf (dq :: str " }");;
  flushWaiting.
Definition writeStdout (cmdId : N) (l : list ascii) : M Server unit := writeCmdOutput cmdId l true.
Definition writeStderr (cmdId : N) (l : list ascii) : M Server unit := writeCmdOutput cmdId l false.

Definition newCommand (cmdId : N) (cmd : list ascii) : M Server unit :=
  s ← mget;
  massert (negb (empty_builds s));;
  '(k, b) ← front;
  (if firstChunk b then updBuild k not_first else writeBuf (str "," ++ [nl]));;
  writeBuf (str "    { " ++ quoted "id" ++ str ": ");;
  writeBuf (number cmdId);;
  writeBuf (str ", " ++ quoted "cmd" ++ str ": " ++ [dq]);;
  writeBufEscapeJson cmd;;
  writeBuf (dq :: str " }");;
  flushWaiting.

Definition endCommand (cmdId : N) (status : SubProcessExitStatus) : M Server unit :=
  s ← mget;
  massert (negb (empty_builds s));;
  writeBuf (str "," ++ [nl]);;
  writeBuf (str "    { " ++ quoted "id" ++ str ": ");;
  writeBuf (number cmdId);;
  writeBuf (str ", " ++ quoted "status" ++ str ": " ++ [dq]);;
  writeBuf (str (toString status));;
  writeBuf (dq :: str " }");;
  flushWaiting.

Definition cacheRetrieveAction (path : list ascii) : M Server unit :=
  s ← mget;
  massert (negb (empty_builds s));;
  '(k, b) ← front;
  (if firstChunk b then updBuild k not_first else writeBuf (str "," ++ [nl]));;
  writeBuf (str "    { " ++ quoted "cache" ++ str ": " ++ [dq]);;
  writeBuf path;;
  writeBuf (dq :: str " }");;
  flushWaiting.

(** ** Clients *)

Definition createClient (fd : Z) : M Server unit :=
  s ← mget;
  isW ← (if empty_builds s then mret true
         else '(_, b) ← front; mret (bool_decide (buf b = [])));
  (if isW then modify (λ s, set_waiting (fd :: waiting_ s) s)
   else modify (λ s, set_fds (fd :: fds_ s) s));;
  it ← begin;
  match it with
  | None => mret tt
  | Some k => updBuild k (add_ref 1)
  end;;
  modify (λ s, set_sent (<[fd := []]> (sent s)) s);;
  writeClient fd (mkClient it 0 isW).

Definition closeClient (fd : Z) : M Server unit :=
  c ← readClient fd;
  match itBuild c with
  | None => mabort AssertFailed
  | Some k =>
    updBuild k (add_ref (-1));;
    b ← readBuild k;
    it ← begin;
    (if bool_decide (refcount b = 0%Z) && buildCompleted b && negb (bool_decide (it = Some k))
     then removeBuild k else mret tt);;
    eraseFromFds fd;;
    modify (λ s, set_map (delete fd (map_ s)) s)
  end.

(** What send returns: an error ([again] is EAGAIN or EWOULDBLOCK) or the
    number of bytes it took. *)
Inductive send_result := SendError (again : bool) | Sent (r : nat).

(** The loop of processClient.  [start] is the local [bufPtr], an offset in the
    buffer that the loop does not advance; [bufSize] is the local of that name.
    [results] are the results of the calls of send. *)
Fixpoint send_loop (fd : Z) (k : N) (start : nat) (bufSize : nat) (results : list send_result) : M Server bool :=
  match results with
  | [] => mabort OutOfFuel
  | SendError again :: _ =>
    (if again then mret tt else closeClient fd);; mret false
  | Sent r :: results =>
    b ← readBuild k;
    c ← readClient fd;
    modify (λ s, set_sent (<[fd := default [] (sent s !! fd) ++ take r (drop start (buf b))]> (sent s)) s);;
    writeClient fd (mkClient (itBuild c) (bufPtr c + r) (isWaiting c));;
    if bufPtr c + r <? length (buf b)
    then send_loop fd k start (bufSize - r) results
    else mret true
  end.

Definition processClient (fd : Z) (results : list send_result) : M Server unit :=
  c ← readClient fd;
  match itBuild c with
  | None => mabort AssertFailed
  | Some k =>
    b ← readBuild k;
    massert (bufPtr c <? length (buf b));;
    finished ← send_loop fd k (bufPtr c) (length (buf b) - bufPtr c) results;
    if (finished : bool) then
      b ← readBuild k;
      if buildCompleted b then closeClient fd
      else
        eraseFromFds fd;;
        modify (λ s, set_waiting (fd :: waiting_ s) s);;
        c ← readClient fd;
        writeClient fd (mkClient (itBuild c) (bufPtr c) true)
    else mret tt
  end.

(** [~StreamServer]. *)
Definition destroyServer : M Server unit :=
  s ← mget;
  foreach (map_to_list (map_ s)) (λ kv, closeClient kv.1).

Definition newServer (pipe_capacity : nat) : Server :=
  mkServer [] (EventNotifier.new pipe_capacity) [] [] ∅ ∅.

(** ** The invariant *)

(** The number of clients that read the build at [k]. *)
Definition clients (m : gmap Z ClientInfo) (k : N) : nat := mcount (λ c, itBuild c = Some k) m.
Definition reads (c : ClientInfo) (k : N) : nat := one_if (itBuild c = Some k).

Lemma clients_insert m fd c k :
  m !! fd = None → clients (<[fd := c]> m) k = reads c k + clients m k.
Proof. apply mcount_insert. Qed.
Lemma clients_delete m fd c k :
  m !! fd = Some c → clients m k = reads c k + clients (delete fd m) k.
Proof. apply mcount_delete. Qed.
Lemma clients_update m fd c c' k :
  m !! fd = Some c → clients (<[fd := c']> m) k + reads c k = clients m k + reads c' k.
Proof. apply mcount_update. Qed.
Lemma clients_zero m k fd c : clients m k = 0 → m !! fd = Some c → itBuild c ≠ Some k.
Proof. apply (mcount_zero (λ c, itBuild c = Some k)). Qed.
Lemma clients_le m k : clients m k ≤ size m.
Proof. apply mcount_le. Qed.

(** What was sent to a client is the part of the buffer before [bufPtr]. *)
Definition delivered (s : Server) : Prop := ∀ fd c,
  map_ s !! fd = Some c → ∃ l, sent s !! fd = Some l ∧
    match itBuild c with
    | None => bufPtr c = 0 ∧ l = []
    | Some k => ∀ b, (k, b) ∈ builds_ s → l = take (bufPtr c) (buf b)
    end.

(** [w] are the waiting descriptors, [P] is what holds of a waiting client. *)
Record server_inv (d : bool) (w : list Z) (P : ClientInfo → Prop) (s : Server) : Prop := {
  si_keys : NoDup (builds_ s).*1;
  si_old k b : (k, b) ∈ tail (builds_ s) → buildCompleted b = true ∧ refcount b ≠ 0%Z;
  si_ref k b : (k, b) ∈ builds_ s → refcount b = Z.of_nat (clients (map_ s) k);
  si_buf k b : (k, b) ∈ builds_ s → buf b ≠ [];
  si_active fd c : map_ s !! fd = Some c → isWaiting c = false →
    ∃ k b, itBuild c = Some k ∧ (k, b) ∈ builds_ s ∧ bufPtr c < length (buf b);
  si_waiting fd c : map_ s !! fd = Some c → isWaiting c = true → P c;
  si_w fd : fd ∈ w ↔ ∃ c, map_ s !! fd = Some c ∧ isWaiting c = true;
  si_fds fd : fd ∈ fds_ s ↔ ∃ c, map_ s !! fd = Some c ∧ isWaiting c = false;
  si_nodup_w : NoDup w;
  si_nodup_fds : NoDup (fds_ s);
  si_size : (Z.of_nat (size (map_ s)) < 2 ^ 31)%Z;
  si_sent : d = true → delivered s;
}.

(** A waiting client has read everything of the current build, or there is no
    build yet. *)
Definition at_end (s : Server) (c : ClientInfo) : Prop :=
  match builds_ s with
  | [] => itBuild c = None ∧ bufPtr c = 0
  | (k, b) :: _ => itBuild c = Some k ∧ buildCompleted b = false ∧ bufPtr c = length (buf b)
  end.
Definition server_ok (d : bool) (s : Server) : Prop := server_inv d (waiting_ s) (at_end s) s.

(** Between a write and flushWaiting. *)
Definition behind (s : Server) (c : ClientInfo) : Prop :=
  ∃ k b tl, builds_ s = (k, b) :: tl ∧ (itBuild c = None ∨ itBuild c = Some k) ∧ bufPtr c < length (buf b).

(** *** Lists of builds *)

Lemma find_build_elem k b l : NoDup l.*1 → (k, b) ∈ l → find_build k l = Some b.
Proof.
  induction l as [|[k' b'] l IH]; simpl; intros Hnd Hin; [set_solver|].
  apply NoDup_cons in Hnd as [Hk Hnd]. apply elem_of_cons in Hin as [[= -> ->]|Hin]; [by rewrite decide_True|].
  rewrite decide_False; [auto|]. intros ->. apply Hk, list_elem_of_fmap. by exists (k', b).
Qed.
Lemma alter_build_keys k f l : (alter_build k f l).*1 = l.*1.
Proof. induction l as [|[k' b'] l IH]; simpl; [done|].
  case_decide; [done|]. rewrite !fmap_cons. by f_equal.
Qed.
Lemma elem_of_alter_build k f l k' b' :
  NoDup l.*1 → (k', b') ∈ alter_build k f l ↔
  ∃ b, (k', b) ∈ l ∧ b' = if decide (k' = k) then f b else b.
Proof.
  induction l as [|[k0 b0] l IH]; simpl; intros Hnd; [set_solver|].
  apply NoDup_cons in Hnd as [Hk Hnd].
  assert (Hk' : ∀ b, (k0, b) ∉ l) by (intros b Hb; apply Hk, list_elem_of_fmap; by exists (k0, b)).
  destruct (decide (k = k0)) as [<-|Hne].
  - rewrite elem_of_cons. setoid_rewrite elem_of_cons. split.
    + intros [[= -> ->]|Hin]; [exists b0; rewrite decide_True by done; auto|].
      exists b'. split; [auto|]. rewrite decide_False; [done|]. intros ->. by apply Hk' in Hin.
    + intros (b & [[= -> ->]|Hin] & ->); [rewrite decide_True by done; auto|].
      rewrite decide_False; [auto|]. intros ->. by apply Hk' in Hin.
  - rewrite elem_of_cons, IH by done. setoid_rewrite elem_of_cons. split.
    + intros [[= -> ->]|(b & ? & ?)]; [exists b0; rewrite decide_False by done; auto|]. exists b. auto.
    + intros (b & [[= -> ->]|Hin] & ->); [rewrite decide_False by done; auto|]. right. exists b. auto.
Qed.
Lemma erase_build_sub k l : sublist (erase_build k l).*1 l.*1.
Proof.
  induction l as [|[k' b'] l IH]; simpl; [done|]. case_decide; [by apply sublist_cons|by apply sublist_skip].
Qed.
Lemma elem_of_erase_build k l k' b :
  NoDup l.*1 → (k', b) ∈ erase_build k l ↔ (k', b) ∈ l ∧ k' ≠ k.
Proof.
  induction l as [|[k0 b0] l IH]; simpl; intros Hnd; [set_solver|].
  apply NoDup_cons in Hnd as [Hk Hnd].
  assert (Hk' : ∀ b, (k0, b) ∉ l) by (intros x Hb; apply Hk, list_elem_of_fmap; by exists (k0, x)).
  destruct (decide (k = k0)) as [<-|Hne].
  - rewrite elem_of_cons. split; [intros Hin; split; [auto|]; intros ->; by apply Hk' in Hin|].
    intros [[[= -> ->]|?] ?]; done.
  - rewrite !elem_of_cons, IH by done. split; [intros [[= -> ->]|[? ?]]; auto|].
    intros [[?|?] ?]; auto.
Qed.

(** *** Rules for the operations on the front build *)

Section front.
Implicit Types s : Server.

Lemma wp_front k b tl Q E s : builds_ s = (k, b) :: tl → Q (k, b) s → wp front Q E s.
Proof. intros Hb HQ. unfold wp, front. by rewrite Hb. Qed.

Lemma wp_updFront k b tl f Q E s :
  builds_ s = (k, b) :: tl → Q tt (set_builds ((k, f b) :: tl) s) → wp (updBuild k f) Q E s.
Proof.
  intros Hb HQ. unfold wp, updBuild, readBuild, mbind, M_bind, modify. rewrite Hb. simpl.
  rewrite decide_True by done. simpl. rewrite Hb. simpl. by rewrite decide_True by done.
Qed.

Lemma wp_nonempty k b tl Q E s :
  builds_ s = (k, b) :: tl → Q tt s → wp (massert (negb (empty_builds s))) Q E s.
Proof. intros Hb HQ. apply wp_massert; [|done]. unfold empty_builds. by rewrite Hb. Qed.

Lemma wp_writeBuf k b tl l Q E s :
  builds_ s = (k, b) :: tl → Q tt (set_builds ((k, set_buf (buf b ++ l) b) :: tl) s) →
  wp (writeBuf l) Q E s.
Proof.
  intros Hb HQ. unfold writeBuf. apply wp_bind, wp_mget, wp_bind. eapply wp_nonempty; [done|].
  apply wp_bind. eapply wp_front; [done|]. by eapply wp_updFront.
Qed.

Lemma set_buf_twice b l1 l2 : set_buf l2 (set_buf l1 b) = set_buf l2 b.
Proof. done. Qed.

Lemma wp_writeBufEscapeJson k b tl l Q E s :
  builds_ s = (k, b) :: tl →
  Q tt (set_builds ((k, set_buf (buf b ++ (l ≫= escape_json)) b) :: tl) s) →
  wp (writeBufEscapeJson l) Q E s.
Proof.
  intros Hb HQ. unfold writeBufEscapeJson. apply wp_bind, wp_mget, wp_bind. eapply wp_nonempty; [done|].
  apply (wp_foreach (λ pre s', s' = set_builds ((k, set_buf (buf b ++ (pre ≫= escape_json)) b) :: tl) s)).
  - simpl. rewrite app_nil_r. destruct s, b. simpl in *. by rewrite Hb.
  - intros pre c post s' Hl ->. apply wp_bind. eapply wp_front; [done|]. eapply wp_updFront; [done|].
    simpl. rewrite bind_app, app_assoc. simpl. by rewrite app_nil_r.
  - by intros s' ->.
Qed.
End front.

(** ** flushWaiting *)

Lemma reads_some c k k' : itBuild c = Some k' → reads c k = if decide (k = k') then 1 else 0.
Proof. intros Hc. unfold reads, one_if. rewrite Hc. repeat case_decide; naive_solver. Qed.
Lemma reads_none c k : itBuild c = None → reads c k = 0.
Proof. intros Hc. unfold reads, one_if. by rewrite Hc. Qed.

(** One client goes from the waiting list to [fds_]. *)
Definition activate (k : N) (b : BuildInfo) (tl : list (N * BuildInfo)) (fd : Z) (c : ClientInfo) (s : Server) : Server :=
  mkServer ((k, if decide (itBuild c = None) then add_ref 1 b else b) :: tl) (eventFd_ s)
    (fd :: fds_ s) (waiting_ s) (<[fd := mkClient (Some k) (bufPtr c) false]> (map_ s)) (sent s).

Lemma activate_ref d w s k b tl fd c k1 b1 :
  server_inv d (fd :: w) (behind s) s → builds_ s = (k, b) :: tl → map_ s !! fd = Some c →
  itBuild c = None ∨ itBuild c = Some k →
  (k1, b1) ∈ builds_ (activate k b tl fd c s) →
  refcount b1 = Z.of_nat (clients (map_ (activate k b tl fd c s)) k1).
Proof.
  intros Hi Hb Hc Hor Hin. simpl.
  pose proof (clients_update (map_ s) fd c (mkClient (Some k) (bufPtr c) false) k1 Hc) as Hcnt.
  rewrite (reads_some (mkClient _ _ _) k1 k) in Hcnt by done.
  pose proof (clients_le (map_ s) k) as Hle. pose proof (si_size _ _ _ _ Hi) as Hsz.
  assert (Hnd : NoDup ((k, b) :: tl).*1) by (rewrite <- Hb; apply Hi).
  simpl in Hin. apply elem_of_cons in Hin as [[= -> ->]|Hin].
  - pose proof (si_ref _ _ _ _ Hi k b ltac:(rewrite Hb; set_solver)) as Hr. rewrite decide_True in Hcnt by done.
    destruct Hor as [Hn|Hs].
    + rewrite decide_True by done. simpl. rewrite (reads_none _ _ Hn) in Hcnt.
      rewrite wrap32_small; lia.
    + rewrite decide_False by congruence. rewrite (reads_some c k k Hs), decide_True in Hcnt by done. lia.
  - assert (k1 ≠ k) as Hne.
    { intros ->. apply NoDup_cons in Hnd as [Hk _]. apply Hk, list_elem_of_fmap. by exists (k, b1). }
    rewrite decide_False in Hcnt by done.
    assert (reads c k1 = 0) as Hz.
    { destruct Hor as [Hn|Hs]; [by apply reads_none|]. rewrite (reads_some c k1 k Hs). by rewrite decide_False. }
    rewrite (si_ref _ _ _ _ Hi k1 b1) by (rewrite Hb; set_solver). lia.
Qed.

Lemma activate_inv d w s k b tl fd c :
  server_inv d (fd :: w) (behind s) s → builds_ s = (k, b) :: tl → map_ s !! fd = Some c →
  isWaiting c = true → server_inv d w (behind (activate k b tl fd c s)) (activate k b tl fd c s).
Proof.
  intros Hi Hb Hc Hw. destruct (si_waiting _ _ _ _ Hi fd c Hc Hw) as (k' & b' & tl' & Hb' & Hor & Hlt).
  rewrite Hb in Hb'. injection Hb' as <- <- <-.
  assert (Hbuf : buf (if decide (itBuild c = None) then add_ref 1 b else b) = buf b) by by case_decide.
  pose proof (si_nodup_w _ _ _ _ Hi) as Hndw. apply NoDup_cons in Hndw as [Hfw Hndw].
  assert (Hel : ∀ k1 b1, (k1, b1) ∈ builds_ (activate k b tl fd c s) →
    ∃ b2, (k1, b2) ∈ builds_ s ∧ buf b2 = buf b1).
  { simpl. intros k1 b1 [[= -> ->]|Hin]%elem_of_cons; [exists b; rewrite Hb; set_solver|].
    exists b1. rewrite Hb. set_solver. }
  split.
  - pose proof (si_keys _ _ _ _ Hi) as Hk. by rewrite Hb in Hk.
  - intros k1 b1 Hin. apply (si_old _ _ _ _ Hi k1). by rewrite Hb.
  - intros k1 b1. by eapply activate_ref.
  - intros k1 b1 Hin. destruct (Hel k1 b1 Hin) as (b2 & Hin2 & <-). by eapply (si_buf _ _ _ _ Hi).
  - intros fd' c' Hc' Hw'. simpl in Hc'. destruct (decide (fd = fd')) as [<-|Hne].
    + rewrite lookup_insert_eq in Hc'. injection Hc' as <-. simpl.
      eexists k, _. split_and!; [done|apply list_elem_of_here|]. by rewrite Hbuf.
    + rewrite lookup_insert_ne in Hc' by done.
      destruct (si_active _ _ _ _ Hi fd' c' Hc' Hw') as (k1 & b1 & Hk1 & Hin & Hl). rewrite Hb in Hin.
      apply elem_of_cons in Hin as [[= -> ->]|Hin].
      * eexists k, _. split_and!; [done|apply list_elem_of_here|]. by rewrite Hbuf.
      * exists k1, b1. split_and!; [done|by apply list_elem_of_further|done].
  - intros fd' c' Hc' Hw'. simpl in Hc'. destruct (decide (fd = fd')) as [<-|Hne].
    + rewrite lookup_insert_eq in Hc'. by injection Hc' as <-.
    + rewrite lookup_insert_ne in Hc' by done.
      destruct (si_waiting _ _ _ _ Hi fd' c' Hc' Hw') as (k1 & b1 & tl1 & Hb1 & Hor1 & Hl).
      rewrite Hb in Hb1. injection Hb1 as <- <- <-. eexists k, _, tl. split_and!; [done|done|]. by rewrite Hbuf.
  - intros fd'. simpl. pose proof (si_w _ _ _ _ Hi fd') as Hiff. rewrite elem_of_cons in Hiff.
    destruct (decide (fd = fd')) as [<-|Hne].
    + rewrite lookup_insert_eq. split; [done|]. by intros (? & [= <-] & ?).
    + rewrite lookup_insert_ne by done. rewrite <- Hiff. split; [by right|]. by intros [->|?].
  - intros fd'. simpl. pose proof (si_fds _ _ _ _ Hi fd') as Hiff. rewrite elem_of_cons.
    destruct (decide (fd = fd')) as [<-|Hne].
    + rewrite lookup_insert_eq. split; [by eauto|by left].
    + rewrite lookup_insert_ne by done. rewrite <- Hiff. split; [by intros [->|?]|by right].
  - done.
  - simpl. apply NoDup_cons. split; [|apply Hi]. rewrite (si_fds _ _ _ _ Hi). intros (? & ? & ?). congruence.
  - simpl. rewrite map_size_insert_Some by by eexists. apply Hi.
  - intros Hd fd' c' Hc'. pose proof (si_sent _ _ _ _ Hi Hd) as Hs. simpl in *.
    destruct (decide (fd = fd')) as [<-|Hne].
    + rewrite lookup_insert_eq in Hc'. injection Hc' as <-. simpl.
      destruct (Hs fd c Hc) as (l & Hl & Hlk). exists l. split; [done|]. intros b1 Hb1.
      destruct (Hel k b1 Hb1) as (b2 & Hb2 & <-).
      destruct Hor as [Hn|Hk]; rewrite ?Hn, ?Hk in Hlk; [|by apply Hlk]. destruct Hlk as [-> ->]. done.
    + rewrite lookup_insert_ne in Hc' by done. destruct (Hs fd' c' Hc') as (l & Hl & Hlk).
      exists l. split; [done|]. destruct (itBuild c'); [|done]. intros b1 Hb1.
      destruct (Hel _ b1 Hb1) as (b2 & Hb2 & <-). by apply Hlk.
Qed.

(** The pipe has room for one notification. *)
Definition room (s : Server) : Prop :=
  EventNotifier.pending (eventFd_ s) + 8 ≤ EventNotifier.capacity (eventFd_ s).

Lemma wp_notifyPoll Q E s :
  room s → (∀ e, Q tt (set_event e s)) → wp notifyPoll Q E s.
Proof.
  intros Hroom HQ. unfold notifyPoll. apply wp_bind, wp_mget. unfold EventNotifier.raise.
  destruct (Nat.leb_spec (EventNotifier.pending (eventFd_ s) + 8) (EventNotifier.capacity (eventFd_ s)));
    [|unfold room in Hroom; lia].
  apply wp_modify, HQ.
Qed.

Lemma inv_no_waiting d P P' s : server_inv d [] P s → server_inv d [] P' s.
Proof.
  intros []. split; try done. intros fd c Hc Hw. exfalso.
  assert (fd ∈ ([] : list Z)) as Hin by (apply si_w0; eauto). by apply elem_of_nil in Hin.
Qed.

Lemma server_inv_event d w P s e : server_inv d w P s → server_inv d w P (set_event e s).
Proof. intros []. by split. Qed.
Lemma server_inv_waiting d w P s l : server_inv d w P s → server_inv d w P (set_waiting l s).
Proof. intros []. by split. Qed.

(** The same build, but for its number of readers. *)
Definition same_info (b b' : BuildInfo) : Prop :=
  id b' = id b ∧ buf b' = buf b ∧ buildCompleted b' = buildCompleted b ∧ firstChunk b' = firstChunk b.

Lemma flush_client d s k b tl fd post :
  server_inv d (fd :: post) (behind s) s → builds_ s = (k, b) :: tl →
  returns (modify (λ s, set_fds (fd :: fds_ s) s);;
    c ← readClient fd;
    match itBuild c with
    | None => writeClient fd (mkClient (Some k) (bufPtr c) false);; updBuild k (add_ref 1)
    | Some k' =>
      writeClient fd (mkClient (Some k') (bufPtr c) false);;
      massert (bool_decide (k' = k))
    end) (λ _ s', ∃ c, s' = activate k b tl fd c s ∧ server_inv d post (behind s') s') s.
Proof.
  intros Hi Hb. destruct (proj1 (si_w _ _ _ _ Hi fd)) as (c & Hc & Hw); [apply list_elem_of_here|].
  pose proof (activate_inv _ _ _ _ _ _ _ _ Hi Hb Hc Hw) as Ha.
  destruct (si_waiting _ _ _ _ Hi fd c Hc Hw) as (k' & b' & tl' & Hb' & Hor & _).
  rewrite Hb in Hb'. injection Hb' as <- <- <-.
  apply wp_bind, wp_modify. unfold readClient. apply wp_bind, wp_bind, wp_mget. simpl. rewrite Hc.
  apply wp_ret. destruct Hor as [Hn|Hs].
  - rewrite Hn. apply wp_bind, wp_modify. eapply wp_updFront; [simpl; exact Hb|].
    match goal with |- ∃ _, ?x = _ ∧ _ => assert (x = activate k b tl fd c s) as -> end; [|by exists c].
    unfold activate. by rewrite decide_True.
  - rewrite Hs. apply wp_bind, wp_modify, wp_massert; [by apply bool_decide_eq_true|].
    match goal with |- ∃ _, ?x = _ ∧ _ => assert (x = activate k b tl fd c s) as -> end; [|by exists c].
    unfold activate. rewrite decide_False by congruence. by rewrite <- Hb.
Qed.

Lemma flushWaiting_spec d s k b tl :
  server_inv d (waiting_ s) (behind s) s → builds_ s = (k, b) :: tl → buildCompleted b = false → room s →
  returns flushWaiting (λ _ s', server_ok d s' ∧ waiting_ s' = [] ∧
    ∃ b', builds_ s' = (k, b') :: tl ∧ same_info b b') s.
Proof.
  intros Hi Hb Hcomp Hroom. unfold flushWaiting. apply wp_bind, wp_mget, wp_bind. eapply wp_nonempty; [done|].
  apply wp_bind. eapply wp_front; [done|]. apply wp_bind, wp_massert.
  { rewrite Hcomp, bool_decide_eq_false_2; [done|]. eapply (si_buf _ _ _ _ Hi k). rewrite Hb. apply list_elem_of_here. }
  apply wp_bind.
  apply (wp_foreach (λ pre s', ∃ post b', waiting_ s = pre ++ post ∧ server_inv d post (behind s') s' ∧
    builds_ s' = (k, b') :: tl ∧ same_info b b' ∧ eventFd_ s' = eventFd_ s)).
  - exists (waiting_ s), b. by split_and!.
  - intros pre fd post s1 Hl (post' & b' & Hl' & Hi1 & Hb1 & Hsame & Hev).
    rewrite Hl in Hl'. apply app_inv_head in Hl' as <-.
    eapply wp_mono; [by eapply flush_client| |done].
    intros [] s2 (c & -> & Hi2). eexists post, _. rewrite Hl, <- app_assoc. split_and!; [done|done|done| |done].
    unfold same_info in *. by case_decide.
  - intros s1 (post & b' & Hl & Hi1 & Hb1 & Hsame & Hev).
    assert (post = []) as ->.
    { apply (f_equal length) in Hl. rewrite length_app in Hl. apply nil_length_inv. lia. }
    apply wp_bind, wp_modify. apply wp_notifyPoll; [unfold room in *; simpl; by rewrite Hev|]. intros e.
    split_and!; [|done|by exists b'].
    apply (inv_no_waiting d (behind s1)). by apply server_inv_event, server_inv_waiting.
Qed.

(** Appending to the buffer of the current build. *)
Lemma append_inv d s k b b' tl l :
  server_ok d s → builds_ s = (k, b) :: tl → buildCompleted b = false → l ≠ [] →
  buf b' = buf b ++ l → refcount b' = refcount b →
  server_inv d (waiting_ s) (behind (set_builds ((k, b') :: tl) s)) (set_builds ((k, b') :: tl) s).
Proof.
  intros Hi Hb Hcomp Hl Hbuf Href. unfold server_ok in Hi. pose proof Hi as [].
  assert (Hel : ∀ k1 b1, (k1, b1) ∈ (k, b') :: tl → ∃ b2, (k1, b2) ∈ builds_ s ∧
    refcount b2 = refcount b1 ∧ ∃ l', buf b1 = buf b2 ++ l').
  { intros k1 b1 [[= -> ->]|Hin]%elem_of_cons; [exists b; rewrite Hb; split_and!; [apply list_elem_of_here|done|by eexists]|].
    exists b1. rewrite Hb. split_and!; [by apply list_elem_of_further|done|exists []; by rewrite app_nil_r]. }
  assert (Hle : ∀ k1 b1, (k1, b1) ∈ builds_ s → ∃ b2, (k1, b2) ∈ (k, b') :: tl ∧ length (buf b1) ≤ length (buf b2)).
  { intros k1 b1. rewrite Hb. intros [[= -> ->]|Hin]%elem_of_cons; [|exists b1; split; [by apply list_elem_of_further|done]].
    exists b'. split; [apply list_elem_of_here|]. rewrite Hbuf, length_app. lia. }
  split; simpl.
  - by rewrite Hb in si_keys0.
  - rewrite Hb in si_old0. done.
  - intros k1 b1 Hin. destruct (Hel k1 b1 Hin) as (b2 & Hin2 & <- & _). auto.
  - intros k1 b1 Hin. destruct (Hel k1 b1 Hin) as (b2 & Hin2 & _ & l' & ->). intros [He _]%app_nil. by eapply si_buf0.
  - intros fd c Hc Hw. destruct (si_active0 fd c Hc Hw) as (k1 & b1 & Hk & Hin & Hlt).
    destruct (Hle k1 b1 Hin) as (b2 & Hin2 & ?). exists k1, b2. split_and!; [done|done|lia].
  - intros fd c Hc Hw. pose proof (si_waiting0 fd c Hc Hw) as He. unfold at_end in He. rewrite Hb in He.
    destruct He as (Hk & _ & Hp). exists k, b', tl. split_and!; [done|by right|].
    rewrite Hbuf, Hp, length_app. destruct l; [done|]. simpl. lia.
  - done.
  - done.
  - done.
  - done.
  - done.
  - intros Hd fd c Hc. destruct (si_sent0 Hd fd c Hc) as (l0 & Hl0 & Hlk). exists l0. split; [done|].
    destruct (itBuild c) as [k1|] eqn:Hk1; [|done]. intros b1 Hin.
    destruct (Hel k1 b1 Hin) as (b2 & Hin2 & _ & l' & Hb1). rewrite (Hlk b2 Hin2), Hb1, take_app_le; [done|].
    destruct (isWaiting c) eqn:Hw.
    + pose proof (si_waiting0 fd c Hc Hw) as He. unfold at_end in He. rewrite Hb in He.
      destruct He as (Hk & _ & Hp). rewrite Hk1 in Hk. injection Hk as ->. rewrite Hp.
      pose proof (find_build_elem k b2 (builds_ s) si_keys0 Hin2) as Hf.
      rewrite Hb in Hf. simpl in Hf. rewrite decide_True in Hf by done. by injection Hf as ->.
    + destruct (si_active0 fd c Hc Hw) as (k3 & b3 & Hk & Hin3 & Hlt). rewrite Hk1 in Hk. injection Hk as ->.
      pose proof (find_build_elem k3 b3 (builds_ s) si_keys0 Hin3) as Hf3.
      rewrite (find_build_elem k3 b2 (builds_ s) si_keys0 Hin2) in Hf3. injection Hf3 as ->. lia.
Qed.

(** ** Closing a client *)

Lemma erase_fd_spec fd l : fd ∈ l → ∃ l', erase_fd fd l = Some l' ∧ l ≡ₚ fd :: l'.
Proof.
  induction l as [|x l IH]; [by intros ?%elem_of_nil|]. intros Hin. simpl. case_decide as Heq.
  - subst. by exists l.
  - apply elem_of_cons in Hin as [?|Hin]; [done|]. destruct (IH Hin) as (l' & -> & Hp). simpl.
    exists (x :: l'). split; [done|]. rewrite Hp. apply Permutation_swap.
Qed.

Lemma wp_eraseFromFds fd Q E s :
  fd ∈ fds_ s → (∀ l, fds_ s ≡ₚ fd :: l → Q tt (set_fds l s)) → wp (eraseFromFds fd) Q E s.
Proof.
  intros Hin HQ. destruct (erase_fd_spec fd (fds_ s) Hin) as (l & Hl & Hp).
  unfold eraseFromFds. apply wp_bind, wp_mget, wp_bind. eapply wp_deref; [done|]. by apply wp_modify, HQ.
Qed.

(** The list of builds once a reader of [k] is gone: [k] goes too if it was its
    last reader, the build is over and it is not the last one. *)
Definition dropped (k : N) (l l' : list (N * BuildInfo)) : Prop :=
  NoDup l'.*1 ∧ head l'.*1 = head l.*1 ∧
  (∀ k1 b1, (k1, b1) ∈ l' → ∃ b, (k1, b) ∈ l ∧ b1 = if decide (k1 = k) then add_ref (-1) b else b) ∧
  (∀ k1 b1, (k1, b1) ∈ tail l' → ∃ b, (k1, b) ∈ tail l ∧ b1 = (if decide (k1 = k) then add_ref (-1) b else b) ∧
     (k1 = k → buildCompleted b = true → refcount b1 ≠ 0%Z)) ∧
  (∀ k1 b, (k1, b) ∈ l → (k1, if decide (k1 = k) then add_ref (-1) b else b) ∈ l' ∨
     k1 = k ∧ refcount (add_ref (-1) b) = 0%Z ∧ (k, b) ∈ tail l).

Lemma NoDup_keys_tail (k k0 : N) (b b0 : BuildInfo) tl :
  NoDup ((k0, b0) :: tl).*1 → (k, b) ∈ tl → k ≠ k0.
Proof.
  intros [Hk _]%NoDup_cons Hin ->. apply Hk, list_elem_of_fmap. by exists (k0, b).
Qed.

Lemma dropped_keep k l b :
  NoDup l.*1 → (k, b) ∈ l →
  (refcount (add_ref (-1) b) = 0%Z → buildCompleted b = true → head l.*1 = Some k) →
  dropped k l (alter_build k (add_ref (-1)) l).
Proof.
  intros Hnd Hin Hkeep. split_and!.
  - by rewrite alter_build_keys.
  - by rewrite alter_build_keys.
  - intros k1 b1 (b' & ? & ?)%elem_of_alter_build; [|done]. eauto.
  - destruct l as [|[k0 b0] tl]; [by apply elem_of_nil in Hin|]. simpl in *. intros k1 b1 Hin1.
    destruct (decide (k = k0)) as [<-|Hne]; simpl in Hin1.
    + exists b1. pose proof (NoDup_keys_tail k1 k b1 b0 tl Hnd Hin1). rewrite decide_False by done. by split_and!.
    + apply NoDup_cons in Hnd as [Hk Hnd]. apply elem_of_alter_build in Hin1 as (b' & Hin' & ->); [|done].
      exists b'. split_and!; [done|done|]. intros -> Hc. rewrite decide_True by done.
      apply elem_of_cons in Hin as [[= ? ?]|Hin]; [done|].
      assert (b' = b) as ->.
      { pose proof (find_build_elem k b tl Hnd Hin) as E1. rewrite (find_build_elem k b' tl Hnd Hin') in E1. congruence. }
      intros Hz. specialize (Hkeep Hz Hc). congruence.
  - intros k1 b1 Hin1. left. apply elem_of_alter_build; [done|]. eauto.
Qed.

Lemma dropped_remove k l b :
  NoDup l.*1 → (k, b) ∈ l → refcount (add_ref (-1) b) = 0%Z → head l.*1 ≠ Some k →
  dropped k l (erase_build k (alter_build k (add_ref (-1)) l)).
Proof.
  intros Hnd Hin Hz Hh. destruct l as [|[k0 b0] tl]; [by apply elem_of_nil in Hin|]. simpl in *.
  assert (k ≠ k0) as Hne by congruence. rewrite decide_False by done. simpl. rewrite decide_False by done.
  pose proof Hnd as Hnd0. apply NoDup_cons in Hnd0 as [Hk Hndt].
  assert (Hin' : (k, b) ∈ tl) by (apply elem_of_cons in Hin as [[= ? ?]|?]; done).
  assert (Hel : ∀ k1 b1, (k1, b1) ∈ erase_build k (alter_build k (add_ref (-1)) tl) ↔ (k1, b1) ∈ tl ∧ k1 ≠ k).
  { intros k1 b1. rewrite elem_of_erase_build by by rewrite alter_build_keys.
    rewrite elem_of_alter_build by done. split.
    - intros [(b' & Hb' & ->) Hn]. rewrite decide_False by done. done.
    - intros [Hb' Hn]. split; [|done]. exists b1. by rewrite decide_False. }
  split_and!.
  - apply NoDup_cons. split.
    + intros ([k1 b1] & Heq & Hin1)%list_elem_of_fmap. simpl in Heq. subst k1.
      apply Hel in Hin1 as [Hin1 _]. apply Hk, list_elem_of_fmap. by exists (k0, b1).
    + eapply sublist_NoDup; [|apply erase_build_sub]. by rewrite alter_build_keys.
  - done.
  - intros k1 b1 [[= -> ->]|[Hin1 Hn]%Hel]%elem_of_cons.
    + exists b0. rewrite decide_False by done. split; [apply list_elem_of_here|done].
    + exists b1. rewrite decide_False by done. split; [by apply list_elem_of_further|done].
  - intros k1 b1 [Hin1 Hn]%Hel. exists b1. rewrite decide_False by done. by split_and!.
  - intros k1 b1 [[= -> ->]|Hin1]%elem_of_cons.
    + left. rewrite decide_False by done. apply list_elem_of_here.
    + destruct (decide (k1 = k)) as [->|Hn].
      * right. assert (b1 = b) as ->; [|by split_and!].
        pose proof (find_build_elem k b tl Hndt Hin') as E1. rewrite (find_build_elem k b1 tl Hndt Hin1) in E1. congruence.
      * left. apply list_elem_of_further, Hel. done.
Qed.

(** [s] is [s0] but for the position of the client [fd] and what it was sent. *)
Definition moved (fd : Z) (s0 : Server) (c' : ClientInfo) (s : Server) : Prop :=
  builds_ s = builds_ s0 ∧ eventFd_ s = eventFd_ s0 ∧ fds_ s = fds_ s0 ∧ waiting_ s = waiting_ s0 ∧
  map_ s = <[fd := c']> (map_ s0) ∧ ∀ fd', fd' ≠ fd → sent s !! fd' = sent s0 !! fd'.

Lemma gone_inv d s0 fd c k b l l' builds' snt ev :
  server_ok d s0 → map_ s0 !! fd = Some c → isWaiting c = false → itBuild c = Some k →
  (k, b) ∈ builds_ s0 → dropped k (builds_ s0) builds' → fds_ s0 ≡ₚ fd :: l → l' = waiting_ s0 →
  (∀ fd', fd' ≠ fd → snt !! fd' = sent s0 !! fd') →
  server_ok d (mkServer builds' ev l l' (delete fd (map_ s0)) snt).
Proof.
  intros Hi Hc Hw Hk Hin (D1 & D2 & D3 & D4 & D5) Hp -> Hsnt. unfold server_ok in Hi. pose proof Hi as [].
  assert (Hcl : ∀ k1, clients (map_ s0) k1 = (if decide (k1 = k) then 1 else 0) + clients (delete fd (map_ s0)) k1).
  { intros k1. rewrite (clients_delete _ fd c k1 Hc), (reads_some c k1 k Hk). done. }
  assert (Href : ∀ b1, (k, b1) ∈ builds_ s0 →
    refcount (add_ref (-1) b1) = Z.of_nat (clients (delete fd (map_ s0)) k)).
  { intros b1 Hb1. simpl. rewrite (si_ref0 k b1 Hb1). pose proof (Hcl k) as Hck. rewrite decide_True in Hck by done.
    pose proof (clients_le (map_ s0) k). rewrite wrap32_small; lia. }
  assert (Hother : ∀ fd' c', map_ s0 !! fd' = Some c' → fd' ≠ fd → ∀ k1 b1, itBuild c' = Some k1 →
    (k1, b1) ∈ builds_ s0 → (k1, if decide (k1 = k) then add_ref (-1) b1 else b1) ∈ builds').
  { intros fd' c' Hc' Hne k1 b1 Hk1 Hb1. destruct (D5 k1 b1 Hb1) as [?|(-> & Hz & _)]; [done|].
    rewrite (Href b1 Hb1) in Hz. exfalso.
    apply (clients_zero (delete fd (map_ s0)) k fd' c'); [lia|by rewrite lookup_delete_ne|done]. }
  assert (Hbufeq : ∀ k1 b1, buf (if decide (k1 = k) then add_ref (-1) b1 else b1) = buf b1) by (intros; by case_decide).
  assert (Hndf : NoDup (fd :: l)) by (rewrite <- Hp; done).
  split; simpl.
  - done.
  - intros k1 b1 Hin1. destruct (D4 k1 b1 Hin1) as (b2 & Hin2 & -> & Hz). destruct (si_old0 k1 b2 Hin2) as [Hcomp Hr].
    case_decide as He; [|done]. split; [done|]. by apply Hz.
  - intros k1 b1 Hin1. destruct (D3 k1 b1 Hin1) as (b2 & Hin2 & ->). case_decide as He; [subst; auto|].
    rewrite (si_ref0 k1 b2 Hin2). rewrite Hcl, decide_False by done. done.
  - intros k1 b1 Hin1. destruct (D3 k1 b1 Hin1) as (b2 & Hin2 & ->). rewrite Hbufeq. by eapply si_buf0.
  - intros fd' c' [Hne Hc']%lookup_delete_Some Hw'. destruct (si_active0 fd' c' Hc' Hw') as (k1 & b1 & Hk1 & Hb1 & Hlt).
    eexists k1, _. split_and!; [done|by eapply Hother|by rewrite Hbufeq].
  - intros fd' c' [Hne Hc']%lookup_delete_Some Hw'. pose proof (si_waiting0 fd' c' Hc' Hw') as He. unfold at_end in *. simpl.
    destruct (builds_ s0) as [|[k0 b0] tl] eqn:Hb0; [by apply elem_of_nil in Hin|]. destruct He as (Hk0 & Hcp & Hpt).
    pose proof (Hother fd' c' Hc' ltac:(done) k0 b0 Hk0 ltac:(apply list_elem_of_here)) as Hin0.
    destruct builds' as [|[k1 b1] tl']; [done|]. simpl in D2. injection D2 as ->.
    pose proof (find_build_elem _ _ _ D1 Hin0) as Hf. simpl in Hf. rewrite decide_True in Hf by done. injection Hf as ->.
    rewrite Hbufeq. split_and!; [done| |done]. by case_decide.
  - intros fd'. rewrite si_w0. setoid_rewrite lookup_delete_Some. split; [|naive_solver].
    intros (c' & Hc' & Hw'). exists c'. split_and!; [congruence|done|done].
  - intros fd'. assert (fd' ∈ fds_ s0 ↔ fd' = fd ∨ fd' ∈ l) as Hel by (rewrite Hp, elem_of_cons; done).
    apply NoDup_cons in Hndf as [Hnl _]. rewrite si_fds0 in Hel. setoid_rewrite lookup_delete_Some. split.
    + intros Hl. destruct (proj2 Hel (or_intror Hl)) as (c' & Hc' & Hw'). exists c'. split_and!; [congruence|done|done].
    + intros (c' & [Hne Hc'] & Hw'). destruct (proj1 Hel) as [->|?]; [by exists c'|done|done].
  - done.
  - by apply NoDup_cons in Hndf as [_ ?].
  - rewrite map_size_delete_Some by by eexists. lia.
  - intros Hd fd' c'. simpl. intros [Hne Hc']%lookup_delete_Some. destruct (si_sent0 Hd fd' c' Hc') as (l0 & Hl0 & Hlk).
    exists l0. split; [by rewrite Hsnt by done|]. destruct (itBuild c') as [k1|]; [|done]. intros b1 Hin1.
    destruct (D3 k1 b1 Hin1) as (b2 & Hin2 & ->). rewrite Hbufeq. by apply Hlk.
Qed.

Lemma wp_updBuild k b f Q E s :
  NoDup (builds_ s).*1 → (k, b) ∈ builds_ s →
  Q tt (set_builds (alter_build k f (builds_ s)) s) → wp (updBuild k f) Q E s.
Proof.
  intros Hnd Hin HQ. apply wp_bind. eapply wp_deref; [by apply find_build_elem|]. by apply wp_modify.
Qed.
Lemma wp_readBuild k b Q E s :
  NoDup (builds_ s).*1 → (k, b) ∈ builds_ s → Q b s → wp (readBuild k) Q E s.
Proof. intros Hnd Hin HQ. eapply wp_deref; [by apply find_build_elem|done]. Qed.
Lemma wp_readClient fd c Q E s : map_ s !! fd = Some c → Q c s → wp (readClient fd) Q E s.
Proof. intros Hc HQ. unfold readClient. apply wp_bind, wp_mget. by rewrite Hc. Qed.

Lemma closeClient_spec d s0 fd c c' s :
  server_ok d s0 → map_ s0 !! fd = Some c → isWaiting c = false → itBuild c' = itBuild c →
  moved fd s0 c' s →
  returns (closeClient fd) (λ _ s', server_ok d s') s.
Proof.
  intros Hi Hc Hw Hit (M1 & M2 & M3 & M4 & M5 & M6).
  destruct (si_active _ _ _ _ Hi fd c Hc Hw) as (k & b & Hk & Hin & _).
  pose proof (si_keys _ _ _ _ Hi) as Hnd. rewrite Hk in Hit.
  unfold closeClient. apply wp_bind. eapply wp_readClient; [by rewrite M5, lookup_insert_eq|]. rewrite Hit.
  apply wp_bind. eapply wp_updBuild; [by rewrite M1|by rewrite M1|]. rewrite M1.
  assert (Hin' : (k, add_ref (-1) b) ∈ alter_build k (add_ref (-1)) (builds_ s0)).
  { apply elem_of_alter_build; [done|]. exists b. by rewrite decide_True. }
  assert (Hnd' : NoDup (alter_build k (add_ref (-1)) (builds_ s0)).*1) by by rewrite alter_build_keys.
  apply wp_bind. eapply wp_readBuild; [done|done|]. apply wp_bind. apply wp_gets. simpl.
  apply wp_bind.
  assert (Hend : ∀ builds', dropped k (builds_ s0) builds' →
    returns (eraseFromFds fd;; modify (λ s, set_map (delete fd (map_ s)) s)) (λ _ s', server_ok d s') (set_builds builds' s)).
  { intros builds' HD. apply wp_bind. apply wp_eraseFromFds.
    - simpl. rewrite M3. apply (si_fds _ _ _ _ Hi). eauto.
    - simpl. rewrite M3. intros l Hl. apply wp_modify. simpl.
      unfold set_map, set_fds, set_builds. simpl. rewrite M5, delete_insert_eq.
      eapply gone_inv; try done. }
  rewrite alter_build_keys.
  destruct (bool_decide _ && _ && _) eqn:Hcond.
  - apply andb_true_iff in Hcond as [[Hz%bool_decide_eq_true Hcp]%andb_true_iff Hh%negb_true_iff%bool_decide_eq_false].
    apply wp_bind. eapply wp_readBuild; [done|done|].
    apply wp_bind, wp_massert; [by apply bool_decide_eq_true|]. apply wp_bind, wp_massert; [done|].
    apply wp_modify. simpl. apply (Hend (erase_build k (alter_build k (add_ref (-1)) (builds_ s0)))).
    by eapply dropped_remove.
  - apply wp_ret. apply Hend. eapply dropped_keep; [done|done|]. intros Hz Hcp.
    rewrite bool_decide_eq_true_2 in Hcond by done. simpl in Hcond. rewrite Hcp in Hcond. simpl in Hcond.
    apply negb_false_iff, bool_decide_eq_true in Hcond. done.
Qed.

(** ** Sending *)

(** What send may answer when [n] bytes are offered: it never takes more. *)
Fixpoint send_ok (n : nat) (results : list send_result) : Prop :=
  match results with
  | [] => False
  | SendError _ :: _ => True
  | Sent r :: results => r ≤ n ∧ (r < n → send_ok (n - r) results)
  end.
(** It takes all of them, or none. *)
Definition send_whole (n : nat) (results : list send_result) : Prop :=
  match results with Sent r :: _ => r = n | _ => True end.

Section sending.
Context (d : bool) (s0 : Server) (fd : Z) (c : ClientInfo) (k : N) (b : BuildInfo).
Hypothesis Hok : server_ok d s0.
Hypothesis Hc : map_ s0 !! fd = Some c.
Hypothesis Hw : isWaiting c = false.
Hypothesis Hk : itBuild c = Some k.
Hypothesis Hin : (k, b) ∈ builds_ s0.

Lemma same_entry b1 : (k, b1) ∈ builds_ s0 → b1 = b.
Proof.
  intros Hb1. pose proof (si_keys _ _ _ _ Hok) as Hnd. pose proof (find_build_elem k b _ Hnd Hin) as E1.
  rewrite (find_build_elem k b1 _ Hnd Hb1) in E1. congruence.
Qed.

(** All clients but [fd] are as before; [c'] is the client and [l] what it got. *)
Lemma moved_inv w fds' wait' P c' snt ev :
  itBuild c' = Some k →
  (isWaiting c' = false → bufPtr c' < length (buf b)) → (isWaiting c' = true → P c') →
  (∀ fd' x, map_ s0 !! fd' = Some x → isWaiting x = true → P x) →
  (∀ fd', fd' ∈ w ↔ fd' ∈ waiting_ s0 ∨ fd' = fd ∧ isWaiting c' = true) →
  (∀ fd', fd' ∈ fds' ↔ (fd' ∈ fds_ s0 ∧ fd' ≠ fd) ∨ fd' = fd ∧ isWaiting c' = false) →
  NoDup w → NoDup fds' →
  (∀ fd', fd' ≠ fd → snt !! fd' = sent s0 !! fd') →
  (d = true → snt !! fd = Some (take (bufPtr c') (buf b))) →
  server_inv d w P (mkServer (builds_ s0) ev fds' wait' (<[fd := c']> (map_ s0)) snt).
Proof.
  intros Hk' Hact HPc HP Hel Helf Hndw Hndf Hsnt Hsfd. pose proof Hok as []. split; simpl; try done.
  - intros k1 b1 Hb1. rewrite (si_ref0 k1 b1 Hb1). f_equal.
    pose proof (clients_update (map_ s0) fd c c' k1 Hc) as Hcu.
    rewrite (reads_some c k1 k Hk), (reads_some c' k1 k Hk') in Hcu. lia.
  - intros fd' x Hx Hwx. destruct (decide (fd = fd')) as [<-|Hne].
    + rewrite lookup_insert_eq in Hx. injection Hx as <-. exists k, b. auto.
    + rewrite lookup_insert_ne in Hx by done. eauto.
  - intros fd' x Hx Hwx. destruct (decide (fd = fd')) as [<-|Hne].
    + rewrite lookup_insert_eq in Hx. injection Hx as <-. auto.
    + rewrite lookup_insert_ne in Hx by done. eauto.
  - intros fd'. rewrite Hel, si_w0. destruct (decide (fd = fd')) as [<-|Hne].
    + rewrite lookup_insert_eq. rewrite Hc. naive_solver congruence.
    + rewrite lookup_insert_ne by done. split; [|by left]. intros [?|[-> _]]; done.
  - intros fd'. rewrite Helf, si_fds0. destruct (decide (fd = fd')) as [<-|Hne].
    + rewrite lookup_insert_eq. naive_solver.
    + rewrite lookup_insert_ne by done. split; [|naive_solver]. intros [[? _]|[-> _]]; done.
  - rewrite map_size_insert_Some by by eexists. done.
  - intros Hd fd' x. simpl. intros Hx. destruct (decide (fd = fd')) as [<-|Hne].
    + rewrite lookup_insert_eq in Hx. injection Hx as <-. exists (take (bufPtr c') (buf b)).
      split; [auto|]. rewrite Hk'. intros b1 ->%same_entry. done.
    + rewrite lookup_insert_ne in Hx by done. destruct (si_sent0 Hd fd' x Hx) as (l & Hl & Hlk).
      exists l. split; [by rewrite Hsnt|done].
Qed.

Lemma fd_in_fds : fd ∈ fds_ s0 ∧ fd ∉ waiting_ s0.
Proof.
  split; [apply (si_fds _ _ _ _ Hok); eauto|]. rewrite (si_w _ _ _ _ Hok). intros (x & Hx & ?). congruence.
Qed.

(** Still something to send: the client stays in [fds_]. *)
Lemma active_ok p s :
  moved fd s0 (mkClient (Some k) p false) s → p < length (buf b) →
  (d = true → sent s !! fd = Some (take p (buf b))) → server_ok d s.
Proof.
  intros (M1 & M2 & M3 & M4 & M5 & M6) Hp Hs. pose proof fd_in_fds as [Hf Hnw].
  destruct s as [bs ev fds wait m snt]. simpl in *. subst bs fds wait m. unfold server_ok. simpl.
  apply moved_inv; simpl; try done; try apply Hok.
  - intros fd'. split; [by left|]. by intros [?|[_ ?]].
  - intros fd'. split; [|naive_solver]. destruct (decide (fd' = fd)); auto.
Qed.

(** Everything sent, and the build goes on: the client waits. *)
Lemma waiting_ok l s ev :
  moved fd s0 (mkClient (Some k) (length (buf b)) false) s → buildCompleted b = false →
  (d = true → sent s !! fd = Some (buf b)) → fds_ s0 ≡ₚ fd :: l →
  server_ok d (mkServer (builds_ s0) ev l (fd :: waiting_ s0)
    (<[fd := mkClient (Some k) (length (buf b)) true]> (map_ s0)) (sent s)).
Proof.
  intros (M1 & M2 & M3 & M4 & M5 & M6) Hcp Hs Hp. pose proof fd_in_fds as [Hf Hnw].
  assert (Hndf : NoDup (fd :: l)) by (rewrite <- Hp; apply Hok). apply NoDup_cons in Hndf as [Hnl Hndl].
  assert (∃ tl, builds_ s0 = (k, b) :: tl) as [tl Htl].
  { destruct (builds_ s0) as [|[k0 b0] tl] eqn:Hb; [by apply elem_of_nil in Hin|].
    apply elem_of_cons in Hin as [[= -> ->]|Ht]; [by eexists|].
    destruct (si_old _ _ _ _ Hok k b) as [? _]; [by rewrite Hb|congruence]. }
  unfold server_ok. simpl. apply moved_inv; simpl; try done.
  - intros _. unfold at_end. simpl. by rewrite Htl.
  - intros fd' x Hx Hwx. pose proof (si_waiting _ _ _ _ Hok fd' x Hx Hwx) as He. unfold at_end in *. done.
  - intros fd'. rewrite elem_of_cons. naive_solver.
  - intros fd'. rewrite Hp, elem_of_cons. naive_solver.
  - apply NoDup_cons. split; [done|apply Hok].
  - intros Hd. rewrite firstn_all. auto.
Qed.

Lemma send_loop_spec results : ∀ p s size,
  moved fd s0 (mkClient (Some k) p false) s → p < length (buf b) → send_ok (length (buf b) - p) results →
  (d = true → sent s !! fd = Some (take p (buf b)) ∧ p = bufPtr c ∧ send_whole (length (buf b) - p) results) →
  returns (send_loop fd k (bufPtr c) size results) (λ fin s',
    if (fin : bool)
    then moved fd s0 (mkClient (Some k) (length (buf b)) false) s' ∧ (d = true → sent s' !! fd = Some (buf b))
    else server_ok d s') s.
Proof.
  induction results as [|[again|r] results IH]; intros p s size Hm Hp Hsend Hd; [done| |].
  - simpl. destruct again.
    + apply wp_bind, wp_ret, wp_ret. eapply active_ok; [done|done|]. intros Hdt. by apply Hd.
    + apply wp_bind. eapply wp_mono; [eapply closeClient_spec; [exact Hok|exact Hc|exact Hw| |exact Hm]; by rewrite Hk| |done].
      intros [] s' Hs'. by apply wp_ret.
  - destruct Hsend as [Hr Hrest]. pose proof Hm as (M1 & M2 & M3 & M4 & M5 & M6). simpl.
    apply wp_bind. eapply wp_readBuild; [rewrite M1; apply Hok|by rewrite M1|].
    apply wp_bind. eapply wp_readClient; [by rewrite M5, lookup_insert_eq|]. simpl.
    apply wp_bind, wp_modify, wp_bind, wp_modify. simpl.
    assert (Hm' : moved fd s0 (mkClient (Some k) (p + r) false)
      (set_map (<[fd := mkClient (Some k) (p + r) false]> (map_ s))
        (set_sent (<[fd := default [] (sent s !! fd) ++ take r (drop (bufPtr c) (buf b))]> (sent s)) s))).
    { unfold moved. simpl. rewrite M5, insert_insert_eq. split_and!; try done.
      intros fd' Hne. rewrite lookup_insert_ne by done. auto. }
    assert (Hs' : d = true → default [] (sent s !! fd) ++ take r (drop (bufPtr c) (buf b)) = take (p + r) (buf b)).
    { intros Hdt. destruct (Hd Hdt) as (-> & <- & Hwh). simpl. by rewrite take_take_drop. }
    destruct (Nat.ltb_spec (p + r) (length (buf b))) as [Hlt|Hge].
    + apply (IH (p + r)); [done|done| |].
      * rewrite Nat.sub_add_distr. apply Hrest. lia.
      * intros Hdt. destruct (Hd Hdt) as (_ & _ & Hwh). simpl in Hwh. lia.
    + apply wp_ret. assert (p + r = length (buf b)) as Heq by lia. rewrite Heq in *. split; [done|].
      intros Hdt. simpl. rewrite lookup_insert_eq, (Hs' Hdt). by rewrite firstn_all.
Qed.

Lemma processClient_spec results :
  send_ok (length (buf b) - bufPtr c) results → (d = true → send_whole (length (buf b) - bufPtr c) results) →
  returns (processClient fd results) (λ _ s', server_ok d s') s0.
Proof.
  intros Hsend Hd. destruct (si_active _ _ _ _ Hok fd c Hc Hw) as (k' & b' & Hk' & Hin' & Hlt).
  rewrite Hk in Hk'. injection Hk' as <-. apply same_entry in Hin' as ->.
  unfold processClient. apply wp_bind. eapply wp_readClient; [done|]. rewrite Hk.
  apply wp_bind. eapply wp_readBuild; [apply Hok|done|]. apply wp_bind, wp_massert; [by apply Nat.ltb_lt|].
  apply wp_bind.
  assert (c = mkClient (Some k) (bufPtr c) false) as Hceq by (destruct c; simpl in *; congruence).
  eapply wp_mono; [apply (send_loop_spec results (bufPtr c))| |done].
  - unfold moved. split_and!; try done. by rewrite <- Hceq, insert_id.
  - done.
  - done.
  - intros Hdt. split_and!; auto. destruct (si_sent _ _ _ _ Hok Hdt fd c Hc) as (l & Hl & Hlk).
    rewrite Hk in Hlk. rewrite Hl. f_equal. by apply Hlk.
  - intros [|] s1 H1; [|by apply wp_ret]. destruct H1 as [Hm Hs1].
    pose proof Hm as (M1 & M2 & M3 & M4 & M5 & M6).
    apply wp_bind. eapply wp_readBuild; [rewrite M1; apply Hok|by rewrite M1|].
    destruct (buildCompleted b) eqn:Hcp.
    + eapply closeClient_spec; [exact Hok|exact Hc|done| |exact Hm]. by rewrite Hk.
    + apply wp_bind, wp_eraseFromFds; [rewrite M3; apply fd_in_fds|]. rewrite M3. intros l Hl.
      apply wp_bind, wp_modify. apply wp_bind. eapply wp_readClient; [simpl; by rewrite M5, lookup_insert_eq|].
      apply wp_modify. unfold set_map, set_waiting, set_fds. simpl. rewrite M1, M4, M5, insert_insert_eq.
      eapply waiting_ok; [exact Hm|done|done|done].
Qed.
End sending.

(** ** The events of a build *)

Inductive build_event :=
  | ECommand (cmdId : N) (cmd : list ascii)
  | EOutput (cmdId : N) (l : list ascii) (isStdout : bool)
  | EStatus (cmdId : N) (status : SubProcessExitStatus)
  | ECache (path : list ascii).

Definition exec_event (e : build_event) : M Server unit :=
  match e with
  | ECommand n cmd => newCommand n cmd
  | EOutput n l o => writeCmdOutput n l o
  | EStatus n st => endCommand n st
  | ECache p => cacheRetrieveAction p
  end.

(** The element of the array [cmds] an event adds; [first] is [firstChunk]. *)
Definition separator (first : bool) : list ascii := if first then [] else str "," ++ [nl].
Definition chunk (first : bool) (e : build_event) : list ascii :=
  match e with
  | ECommand n cmd => separator first ++ str "    { " ++ quoted "id" ++ str ": " ++ number n ++
      str ", " ++ quoted "cmd" ++ str ": " ++ [dq] ++ (cmd ≫= escape_json) ++ dq :: str " }"
  | EOutput n l o => separator false ++ str "    { " ++ quoted "id" ++ str ": " ++ number n ++
      str ", " ++ quoted (if o then "stdout" else "stderr") ++ str ": " ++ [dq] ++ (l ≫= escape_json) ++ dq :: str " }"
  | EStatus n st => separator false ++ str "    { " ++ quoted "id" ++ str ": " ++ number n ++
      str ", " ++ quoted "status" ++ str ": " ++ [dq] ++ str (toString st) ++ dq :: str " }"
  | ECache p => separator first ++ str "    { " ++ quoted "cache" ++ str ": " ++ [dq] ++ p ++ dq :: str " }"
  end.
Definition still_first (first : bool) (e : build_event) : bool :=
  match e with ECommand _ _ | ECache _ => false | _ => first end.
(** writeCmdOutput requires that a command was announced. *)
Definition event_ok (first : bool) (e : build_event) : Prop :=
  match e with EOutput _ _ _ => first = false | _ => True end.

Lemma chunk_ne first e : chunk first e ≠ [].
Proof. destruct e; simpl; unfold separator; by destruct first. Qed.

(** The write is complete; the waiting clients are woken up. *)
Lemma wp_flush d s k b b' tl l (Q : unit → Server → Prop) E :
  server_ok d s → builds_ s = (k, b) :: tl → buildCompleted b = false → l ≠ [] → room s →
  buf b' = buf b ++ l → refcount b' = refcount b → buildCompleted b' = false →
  (∀ s' b'', server_ok d s' → waiting_ s' = [] → builds_ s' = (k, b'') :: tl → same_info b' b'' → Q tt s') →
  wp flushWaiting Q E (set_builds ((k, b') :: tl) s).
Proof.
  intros Hok Hb Hcp Hl Hroom Hbuf Href Hcp' HQ.
  pose proof (append_inv d s k b b' tl l Hok Hb Hcp Hl Hbuf Href) as Hi.
  eapply wp_mono; [by apply (flushWaiting_spec d _ k b' tl)| |done].
  intros [] s' (Hok' & Hw & b'' & Hb'' & Hs). by eapply HQ.
Qed.

Lemma wp_writeCons k b tl l Q E s s' :
  s' = set_builds ((k, b) :: tl) s → Q tt (set_builds ((k, set_buf (buf b ++ l) b) :: tl) s) →
  wp (writeBuf l) Q E s'.
Proof. intros -> HQ. by eapply wp_writeBuf. Qed.

Ltac write_step :=
  lazymatch goal with
  | |- wp (mbind _ _) _ _ _ => apply wp_bind
  | |- wp (writeBuf _) _ _ _ => eapply wp_writeBuf; [first [eassumption|reflexivity]|]
  | |- wp (writeBufEscapeJson _) _ _ _ => eapply wp_writeBufEscapeJson; [first [eassumption|reflexivity]|]
  | |- wp (updBuild _ _) _ _ _ => eapply wp_updFront; [first [eassumption|reflexivity]|]
  | |- wp front _ _ _ => eapply wp_front; [first [eassumption|reflexivity]|]
  | |- wp mget _ _ _ => apply wp_mget
  | |- wp (massert (negb (empty_builds _))) _ _ _ => eapply wp_nonempty; [first [eassumption|reflexivity]|]
  end; cbv beta.

Lemma exec_event_spec d s k b tl e :
  server_ok d s → builds_ s = (k, b) :: tl → buildCompleted b = false → room s → event_ok (firstChunk b) e →
  returns (exec_event e) (λ _ s', server_ok d s' ∧ ∃ b', builds_ s' = (k, b') :: tl ∧
    buf b' = buf b ++ chunk (firstChunk b) e ∧ buildCompleted b' = false ∧
    firstChunk b' = still_first (firstChunk b) e ∧ id b' = id b) s.
Proof.
  intros Hok Hb Hcp Hroom He. unfold returns.
  assert (Hfin : ∀ b' (E : exn → Server → Prop), buf b' = buf b ++ chunk (firstChunk b) e → refcount b' = refcount b →
    buildCompleted b' = false → firstChunk b' = still_first (firstChunk b) e → id b' = id b →
    wp flushWaiting (λ _ s', server_ok d s' ∧ ∃ b', builds_ s' = (k, b') :: tl ∧
      buf b' = buf b ++ chunk (firstChunk b) e ∧ buildCompleted b' = false ∧
      firstChunk b' = still_first (firstChunk b) e ∧ id b' = id b) E (set_builds ((k, b') :: tl) s)).
  { intros b' E H1 H2 H3 H4 H5. eapply wp_flush; try done; [apply chunk_ne|].
    intros s' b'' Hok' _ Hb'' (S1 & S2 & S3 & S4). split; [done|]. exists b''. split_and!; congruence. }
  destruct e as [n cmd|n l o|n st|p]; simpl.
  - unfold newCommand. repeat write_step. destruct (firstChunk b) eqn:Hf; repeat write_step;
      apply Hfin; try done; simpl; rewrite <- ?app_assoc; done.
  - unfold writeCmdOutput. do 6 write_step. apply wp_bind, wp_massert; [by rewrite He|].
    repeat write_step. destruct o; repeat write_step;
      apply Hfin; try done; simpl; rewrite <- ?app_assoc; done.
  - unfold endCommand. repeat write_step. apply Hfin; try done; simpl; rewrite <- ?app_assoc; done.
  - unfold cacheRetrieveAction. repeat write_step. destruct (firstChunk b) eqn:Hf; repeat write_step;
      apply Hfin; try done; simpl; rewrite <- ?app_assoc; done.
Qed.

(** ** Starting and ending a build, new clients *)

Lemma clients_none m k : (∀ fd c, m !! fd = Some c → itBuild c ≠ Some k) → clients m k = 0.
Proof.
  apply mcount_none.
Qed.

(** The builds that stay when a new one starts. *)
Definition kept (s : Server) (rest : list (N * BuildInfo)) : Prop :=
  match builds_ s with
  | [] => rest = []
  | (k, b) :: tl => buildCompleted b = true ∧ rest = if bool_decide (refcount b = 0%Z) then tl else builds_ s
  end.

Lemma kept_elem d s rest k b :
  server_ok d s → kept s rest → (k, b) ∈ rest → (k, b) ∈ builds_ s ∧ buildCompleted b = true ∧ refcount b ≠ 0%Z.
Proof.
  intros Hok Hkept Hin. unfold kept in Hkept. pose proof (si_old _ _ _ _ Hok k b) as Hold.
  destruct (builds_ s) as [|[k0 b0] tl]; [subst; by apply elem_of_nil in Hin|].
  destruct Hkept as [Hcp ->]. case_bool_decide as Hz.
  - split; [by apply list_elem_of_further|by apply Hold].
  - split; [done|]. apply elem_of_cons in Hin as [[= -> ->]|Hin]; [done|by apply Hold].
Qed.

Lemma kept_active d s rest fd c :
  server_ok d s → kept s rest → map_ s !! fd = Some c → isWaiting c = false →
  ∃ k b, itBuild c = Some k ∧ (k, b) ∈ rest ∧ bufPtr c < length (buf b).
Proof.
  intros Hok Hkept Hc Hw. destruct (si_active _ _ _ _ Hok fd c Hc Hw) as (k & b & Hk & Hin & Hlt).
  exists k, b. split_and!; [done| |done]. pose proof (si_ref _ _ _ _ Hok k b Hin) as Hr.
  unfold kept in Hkept. destruct (builds_ s) as [|[k0 b0] tl] eqn:Hb; [by apply elem_of_nil in Hin|].
  destruct Hkept as [Hcp ->]. case_bool_decide as Hz; [|done].
  apply elem_of_cons in Hin as [[= -> ->]|Hin]; [|done]. exfalso.
  apply (clients_zero (map_ s) k0 fd c); [lia|done|done].
Qed.

Lemma kept_waiting d s rest fd c :
  server_ok d s → kept s rest → map_ s !! fd = Some c → isWaiting c = true →
  itBuild c = None ∧ bufPtr c = 0.
Proof.
  intros Hok Hkept Hc Hw. pose proof (si_waiting _ _ _ _ Hok fd c Hc Hw) as He. unfold at_end, kept in *.
  destruct (builds_ s) as [|[k b] tl]; [done|]. destruct He as (_ & ? & _), Hkept as [? _]. congruence.
Qed.

Lemma pushed_inv d s rest k b :
  server_ok d s → kept s rest → k ∉ rest.*1 → refcount b = 0%Z → buf b ≠ [] →
  server_inv d (waiting_ s) (behind (set_builds ((k, b) :: rest) s)) (set_builds ((k, b) :: rest) s).
Proof.
  intros Hok Hkept Hk Href Hbuf.
  assert (Hnok : ∀ fd c, map_ s !! fd = Some c → itBuild c ≠ Some k).
  { intros fd c Hc Hit. destruct (isWaiting c) eqn:Hw.
    - destruct (kept_waiting d s rest fd c Hok Hkept Hc Hw) as [? _]. congruence.
    - destruct (kept_active d s rest fd c Hok Hkept Hc Hw) as (k1 & b1 & Hk1 & Hin & _).
      rewrite Hit in Hk1. injection Hk1 as <-. apply Hk, list_elem_of_fmap. by exists (k, b1). }
  pose proof Hok as []. split; simpl; try done.
  - apply NoDup_cons. split; [done|]. unfold kept in Hkept.
    destruct (builds_ s) as [|[k0 b0] tl]; [by subst|]. destruct Hkept as [_ ->]. case_bool_decide; [|done].
    by apply NoDup_cons in si_keys0 as [_ ?].
  - intros k1 b1 Hin. by apply (kept_elem d s rest k1 b1 Hok Hkept).
  - intros k1 b1 [[= -> ->]|Hin]%elem_of_cons; [by rewrite (clients_none _ _ Hnok)|].
    destruct (kept_elem d s rest k1 b1 Hok Hkept Hin) as (? & _). auto.
  - intros k1 b1 [[= -> ->]|Hin]%elem_of_cons; [done|].
    destruct (kept_elem d s rest k1 b1 Hok Hkept Hin) as (? & _). eauto.
  - intros fd c Hc Hw. destruct (kept_active d s rest fd c Hok Hkept Hc Hw) as (k1 & b1 & ? & ? & ?).
    exists k1, b1. split_and!; [done|by apply list_elem_of_further|done].
  - intros fd c Hc Hw. destruct (kept_waiting d s rest fd c Hok Hkept Hc Hw) as [Hn Hp].
    exists k, b, rest. split_and!; [done|by left|]. rewrite Hp. destruct (buf b); [done|]. simpl. lia.
  - intros Hd fd c Hc. destruct (si_sent0 Hd fd c Hc) as (l & Hl & Hlk). exists l. split; [done|].
    destruct (itBuild c) as [k1|] eqn:Hk1; [|done]. simpl.
    intros b1 [[= -> ->]|Hin]%elem_of_cons; [by destruct (Hnok fd c Hc)|].
    destruct (kept_elem d s rest k1 b1 Hok Hkept Hin) as (? & _). auto.
Qed.

Definition header (buildId : N) : list ascii :=
  str "{" ++ [nl] ++ str "  " ++ quoted "id" ++ str ": " ++ number buildId ++
  str "," ++ [nl] ++ str "  " ++ quoted "cmds" ++ str ": [" ++ [nl].
Definition footer (result : BuildResult) : list ascii :=
  [nl] ++ str "  ]," ++ [nl] ++ str "  " ++ quoted "result" ++ str ": " ++ [dq] ++
  str (toString result) ++ [dq; nl] ++ str "}" ++ [nl].

(** No build is going on. *)
Definition idle (s : Server) : Prop :=
  match builds_ s with [] => True | (_, b) :: _ => buildCompleted b = true end.

Section new_build.
Context `{Allocator}.

Lemma newBuild_spec d s buildId :
  server_ok d s → idle s → room s →
  returns (newBuild buildId) (λ _ s', server_ok d s' ∧ ∃ k b tl, builds_ s' = (k, b) :: tl ∧
    buf b = header buildId ∧ buildCompleted b = false ∧ firstChunk b = true ∧ id b = buildId) s.
Proof.
  intros Hok Hidle Hroom. unfold newBuild, returns. apply wp_bind, wp_mget. apply wp_bind.
  eapply (wp_mono _ (λ _ s1, ∃ rest, kept s rest ∧ s1 = set_builds rest s) _ (λ _ _, False)); [| |done].
  - unfold idle, empty_builds, kept in *. destruct (builds_ s) as [|[k b] tl] eqn:Hb.
    + rewrite bool_decide_eq_true_2 by done. apply wp_ret. exists []. split; [done|]. destruct s. simpl in *. by rewrite Hb.
    + rewrite bool_decide_eq_false_2 by done. apply wp_bind. eapply wp_front; [done|].
      apply wp_bind, wp_massert; [done|]. case_bool_decide as Hz.
      * apply wp_bind. eapply wp_readBuild; [apply Hok|rewrite Hb; apply list_elem_of_here|].
        apply wp_bind, wp_massert; [by apply bool_decide_eq_true|]. apply wp_bind, wp_massert; [done|].
        apply wp_modify. exists tl. split; [by split|]. rewrite Hb. simpl. by rewrite decide_True.
      * apply wp_ret. exists ((k, b) :: tl). split; [by split|]. destruct s. simpl in *. by rewrite Hb.
  - intros [] s1 (rest & Hkept & ->). apply wp_bind, wp_modify. simpl.
    set (k := new_addr _). assert (Hk : k ∉ rest.*1).
    { pose proof (new_addr_fresh (list_to_set rest.*1)) as Hf. by rewrite elem_of_list_to_set in Hf. }
    repeat (apply wp_bind; eapply wp_writeBuf; [reflexivity|]; cbv beta). simpl.
    eapply wp_mono; [eapply flushWaiting_spec| |done].
    + apply (pushed_inv d s rest k); done.
    + done.
    + done.
    + done.
    + intros [] s' (Hok' & _ & b' & Hb' & S1 & S2 & S3 & S4). split; [done|].
      exists k, b', rest. split_and!; [done| |done|done|done]. rewrite S2. simpl. by rewrite <- ?app_assoc.
Qed.
End new_build.

Lemma completed_ok d s k b tl :
  server_ok d s → builds_ s = (k, b) :: tl → waiting_ s = [] →
  server_ok d (set_builds ((k, complete b) :: tl) s).
Proof.
  intros Hok Hb Hw. unfold server_ok in *. simpl. rewrite Hw in *. pose proof Hok as [].
  assert (Hel : ∀ k1 b1, (k1, b1) ∈ (k, complete b) :: tl → ∃ b2, (k1, b2) ∈ builds_ s ∧
    refcount b2 = refcount b1 ∧ buf b2 = buf b1).
  { intros k1 b1 [[= -> ->]|Hin]%elem_of_cons; [exists b; rewrite Hb; split_and!; [apply list_elem_of_here|done|done]|].
    exists b1. rewrite Hb. split_and!; [by apply list_elem_of_further|done|done]. }
  rewrite Hb in *. split; simpl; try done.
  - intros k1 b1 Hin. destruct (Hel k1 b1 Hin) as (b2 & ? & <- & _). auto.
  - intros k1 b1 Hin. destruct (Hel k1 b1 Hin) as (b2 & ? & _ & <-). eauto.
  - intros fd c Hc Hw'. destruct (si_active0 fd c Hc Hw') as (k1 & b1 & Hk1 & Hin & Hlt).
    apply elem_of_cons in Hin as [[= -> ->]|Hin].
    + exists k, (complete b). split_and!; [done|apply list_elem_of_here|done].
    + exists k1, b1. split_and!; [done|by apply list_elem_of_further|done].
  - intros fd c Hc Hw'. exfalso. assert (fd ∈ ([] : list Z)) as Hn by (apply si_w0; eauto). by apply elem_of_nil in Hn.
  - intros Hd fd c Hc. destruct (si_sent0 Hd fd c Hc) as (l & Hl & Hlk). exists l. split; [done|].
    destruct (itBuild c); [|done]. simpl. intros b1 Hin. destruct (Hel _ b1 Hin) as (b2 & ? & _ & <-). rewrite Hb in Hlk. auto.
Qed.

Lemma endBuild_spec d s k b tl result :
  server_ok d s → builds_ s = (k, b) :: tl → buildCompleted b = false → room s →
  returns (endBuild result) (λ _ s', server_ok d s' ∧ ∃ b', builds_ s' = (k, b') :: tl ∧
    buf b' = buf b ++ footer result ∧ buildCompleted b' = true ∧ id b' = id b) s.
Proof.
  intros Hok Hb Hcp Hroom. unfold endBuild, returns. do 6 write_step.
  apply wp_bind, wp_massert; [by rewrite Hcp|]. repeat write_step. apply wp_bind.
  eapply (wp_flush d s k b _ tl (footer result)); try done; [simpl; by rewrite <- ?app_assoc|].
  intros s' b'' Hok' Hw Hb'' (S1 & S2 & S3 & S4). repeat write_step.
  split; [by apply completed_ok|]. exists (complete b''). split_and!; [done| |done|done].
  simpl. rewrite S2. simpl. by rewrite <- ?app_assoc.
Qed.

Lemma createClient_spec d s fd :
  server_ok d s → map_ s !! fd = None → (Z.of_nat (size (map_ s)) + 1 < 2 ^ 31)%Z →
  returns (createClient fd) (λ _ s', server_ok d s' ∧ is_Some (map_ s' !! fd)) s.
Proof.
  intros Hok Hfd Hsz. unfold createClient. apply wp_bind, wp_mget, wp_bind. unfold empty_builds.
  assert (Hnw : fd ∉ waiting_ s) by (rewrite (si_w _ _ _ _ Hok); intros (? & ? & _); congruence).
  assert (Hnf : fd ∉ fds_ s) by (rewrite (si_fds _ _ _ _ Hok); intros (? & ? & _); congruence).
  pose proof Hok as []. destruct (builds_ s) as [|[k b] tl] eqn:Hb.
  - rewrite bool_decide_eq_true_2 by done. apply wp_ret. apply wp_bind, wp_modify, wp_bind, wp_gets. simpl.
    rewrite Hb. apply wp_bind, wp_ret, wp_bind, wp_modify, wp_modify. simpl.
    split; [|rewrite lookup_insert_eq; by eexists].
    assert (Hlk : ∀ fd' c', <[fd := mkClient None 0 true]> (map_ s) !! fd' = Some c' →
      fd' = fd ∧ c' = mkClient None 0 true ∨ fd' ≠ fd ∧ map_ s !! fd' = Some c').
    { intros fd' c' [[<- <-]|[? ?]]%lookup_insert_Some; auto. }
    split; simpl; rewrite ?Hb; try done; try (by intros ?? ?%elem_of_nil).
    + intros fd' c' [[-> ->]|[_ Hc']]%Hlk Hw'; [done|]. destruct (si_active0 fd' c' Hc' Hw') as (? & ? & _ & Hin & _).
      by apply elem_of_nil in Hin.
    + intros fd' c' [[-> ->]|[_ Hc']]%Hlk Hw'; unfold at_end in *; simpl; rewrite Hb in *; [done|eauto].
    + intros fd'. rewrite elem_of_cons, si_w0. split.
      * intros [->|(c' & Hc' & ?)]; [rewrite lookup_insert_eq; eauto|]. exists c'. rewrite lookup_insert_ne by congruence. done.
      * intros (c' & [[-> _]|[_ Hc']]%Hlk & Hw'); eauto.
    + intros fd'. rewrite si_fds0. split.
      * intros (c' & Hc' & ?). exists c'. rewrite lookup_insert_ne by congruence. done.
      * intros (c' & [[-> ->]|[_ Hc']]%Hlk & Hw'); [done|eauto].
    + by apply NoDup_cons.
    + rewrite map_size_insert_None by done. lia.
    + intros Hd fd' c' Hc'. simpl in *. apply Hlk in Hc' as [[-> ->]|[Hne Hc']].
      * exists []. by rewrite lookup_insert_eq.
      * rewrite lookup_insert_ne by done. rewrite Hb. destruct (si_sent0 Hd fd' c' Hc') as (l & Hl & Hk).
        rewrite Hb in Hk. by exists l.
  - rewrite bool_decide_eq_false_2 by done. apply wp_bind. eapply wp_front; [done|]. apply wp_ret.
    rewrite bool_decide_eq_false_2 by (eapply si_buf0; apply list_elem_of_here).
    apply wp_bind, wp_modify, wp_bind, wp_gets. simpl. rewrite Hb. apply wp_bind.
    eapply wp_updFront; [done|]. apply wp_bind, wp_modify, wp_modify. simpl.
    split; [|rewrite lookup_insert_eq; by eexists].
    set (c0 := mkClient (Some k) 0 false).
    assert (Hlk : ∀ fd' c', <[fd := c0]> (map_ s) !! fd' = Some c' →
      fd' = fd ∧ c' = c0 ∨ fd' ≠ fd ∧ map_ s !! fd' = Some c').
    { intros fd' c' [[<- <-]|[? ?]]%lookup_insert_Some; auto. }
    assert (Hel : ∀ k1 b1, (k1, b1) ∈ (k, add_ref 1 b) :: tl → ∃ b2, (k1, b2) ∈ (k, b) :: tl ∧ buf b2 = buf b1).
    { intros k1 b1 [[= -> ->]|Hin]%elem_of_cons; [exists b; split; [apply list_elem_of_here|done]|].
      exists b1. split; [by apply list_elem_of_further|done]. }
    split; simpl; try done.
    + intros k1 b1 Hin. rewrite clients_insert by done. rewrite (reads_some c0 k1 k) by done.
      pose proof (clients_le (map_ s) k). apply elem_of_cons in Hin as [[= -> ->]|Hin].
      * rewrite decide_True by done. simpl. rewrite (si_ref0 k b) by apply list_elem_of_here. rewrite wrap32_small; lia.
      * rewrite decide_False by by eapply NoDup_keys_tail. simpl. apply si_ref0. by apply list_elem_of_further.
    + intros k1 b1 Hin. destruct (Hel k1 b1 Hin) as (b2 & ? & <-). eauto.
    + intros fd' c' [[-> ->]|[_ Hc']]%Hlk Hw'.
      * exists k, (add_ref 1 b). split_and!; [done|apply list_elem_of_here|]. simpl.
        assert (buf b ≠ []) by (eapply si_buf0; apply list_elem_of_here). destruct (buf b); [done|]. simpl. lia.
      * destruct (si_active0 fd' c' Hc' Hw') as (k1 & b1 & ? & Hin & ?). apply elem_of_cons in Hin as [[= -> ->]|Hin].
        -- exists k, (add_ref 1 b). split_and!; [done|apply list_elem_of_here|done].
        -- exists k1, b1. split_and!; [done|by apply list_elem_of_further|done].
    + intros fd' c' [[-> ->]|[_ Hc']]%Hlk Hw'; [done|]. pose proof (si_waiting0 fd' c' Hc' Hw') as He.
      unfold at_end in *. simpl. by rewrite Hb in He.
    + intros fd'. rewrite si_w0. split.
      * intros (c' & Hc' & ?). exists c'. rewrite lookup_insert_ne by congruence. done.
      * intros (c' & [[-> ->]|[_ Hc']]%Hlk & Hw'); [done|eauto].
    + intros fd'. rewrite elem_of_cons, si_fds0. split.
      * intros [->|(c' & Hc' & ?)]; [rewrite lookup_insert_eq; eauto|]. exists c'. rewrite lookup_insert_ne by congruence. done.
      * intros (c' & [[-> _]|[_ Hc']]%Hlk & Hw'); eauto.
    + by apply NoDup_cons.
    + rewrite map_size_insert_None by done. lia.
    + intros Hd fd' c' Hc'. simpl in *. apply Hlk in Hc' as [[-> ->]|[Hne Hc']].
      * exists []. by rewrite lookup_insert_eq.
      * rewrite lookup_insert_ne by done. destruct (si_sent0 Hd fd' c' Hc') as (l & Hl & Hk).
        exists l. split; [done|]. destruct (itBuild c'); [|done]. intros b1 Hin.
        destruct (Hel _ b1 Hin) as (b2 & ? & <-). apply Hk. by rewrite Hb.
Qed.

(** ** The server as a whole

    The daemon's threads call newBuild, endBuild and the event methods; the
    thread of run accepts clients, serves the ones poll reports, and empties the
    pipe.  Each call is one step. *)

Inductive sop :=
  | ONewBuild (buildId : N) | OEvent (e : build_event) | OEndBuild (r : BuildResult)
  | OAccept (fd : Z) | OReady (fd : Z) (results : list send_result) | OFlush.

Section run.
Context `{Allocator}.

Definition sexec (o : sop) : M Server unit :=
  match o with
  | ONewBuild n => newBuild n
  | OEvent e => exec_event e
  | OEndBuild r => endBuild r
  | OAccept fd => createClient fd
  | OReady fd results => processClient fd results
  | OFlush => flushEventFd
  end.

(** When a step may be taken: the builds follow each other, an accepted socket
    is new, poll reports sockets of [fds_] and send keeps its contract; with
    [d] it takes all it is given or nothing. *)
Definition enabled (d : bool) (o : sop) (s : Server) : Prop :=
  match o with
  | ONewBuild _ => idle s ∧ room s
  | OEvent e => ∃ k b tl, builds_ s = (k, b) :: tl ∧ buildCompleted b = false ∧ room s ∧ event_ok (firstChunk b) e
  | OEndBuild _ => ∃ k b tl, builds_ s = (k, b) :: tl ∧ buildCompleted b = false ∧ room s
  | OAccept fd => map_ s !! fd = None ∧ (Z.of_nat (size (map_ s)) + 1 < 2 ^ 31)%Z
  | OReady fd results => fd ∈ fds_ s ∧ ∀ c k b, map_ s !! fd = Some c → itBuild c = Some k → (k, b) ∈ builds_ s →
      send_ok (length (buf b) - bufPtr c) results ∧
      (d = true → send_whole (length (buf b) - bufPtr c) results)
  | OFlush => EventNotifier.pending (eventFd_ s) mod 512 ≠ 0
  end.

Inductive serves (d : bool) (cap : nat) : Server → Prop :=
  | serves_init : serves d cap (newServer cap)
  | serves_step s o s' : serves d cap s → enabled d o s → sexec o s = Ret tt s' → serves d cap s'.

Lemma newServer_ok d cap : server_ok d (newServer cap).
Proof.
  split; simpl; try done; try (by intros ? ? ?%elem_of_nil); try apply NoDup_nil_2.
  - intros fd. rewrite elem_of_nil. naive_solver.
  - intros fd. rewrite elem_of_nil. naive_solver.
Qed.

Lemma sexec_spec d s o :
  server_ok d s → enabled d o s → returns (sexec o) (λ _ s', server_ok d s') s.
Proof.
  intros Hok Hen. destruct o as [n|e|r|fd|fd results|]; simpl in *.
  - destruct Hen as [Hidle Hroom]. eapply wp_mono; [by apply newBuild_spec| |done]. by intros [] s' [? _].
  - destruct Hen as (k & b & tl & Hb & Hcp & Hroom & He).
    eapply wp_mono; [by eapply exec_event_spec| |done]. by intros [] s' [? _].
  - destruct Hen as (k & b & tl & Hb & Hcp & Hroom).
    eapply wp_mono; [by eapply endBuild_spec| |done]. by intros [] s' [? _].
  - destruct Hen as [Hfd Hsz]. eapply wp_mono; [by apply createClient_spec| |done]. by intros [] s' [? _].
  - destruct Hen as [Hfd Hsend]. apply (si_fds _ _ _ _ Hok) in Hfd as (c & Hc & Hw).
    destruct (si_active _ _ _ _ Hok fd c Hc Hw) as (k & b & Hk & Hin & _).
    destruct (Hsend c k b Hc Hk Hin) as [H1 H2]. by eapply processClient_spec.
  - unfold flushEventFd. apply wp_bind, wp_mget. unfold EventNotifier.flush.
    rewrite flush_loop_returns by (done || lia). simpl. apply wp_modify. by apply server_inv_event.
Qed.

Lemma serves_ok d cap s : serves d cap s → server_ok d s.
Proof.
  induction 1 as [|s o s' _ IH Hen Hex]; [apply newServer_ok|].
  pose proof (sexec_spec d s o IH Hen) as Hs. unfold returns, wp in Hs. by rewrite Hex in Hs.
Qed.

(** The server is safe.  In every state its threads can reach, the invariant
    holds (the reference count of a build is the number of its clients, a client
    is in exactly one of the two lists, old builds are the ones somebody still
    reads) and no step that may be taken fails an assertion, erases an element
    from the wrong list or follows an iterator to an erased build, whatever the
    results of send. *)
Theorem server_safe d cap s o :
  serves d cap s → enabled d o s →
  server_ok d s ∧ ∃ s', sexec o s = Ret tt s' ∧ server_ok d s'.
Proof.
  intros Hs Hen. pose proof (serves_ok d cap s Hs) as Hok. split; [done|].
  pose proof (sexec_spec d s o Hok Hen) as H1. apply returns_inv in H1 as ([] & s' & Heq & Hok'). eauto.
Qed.

(** C23: delivery.  As long as send takes all of what it is given or fails, the
    bytes a client was sent are at any time a prefix of the output of one build,
    up to the client's position, and a client that waits has received all that
    was written. *)
Theorem server_delivers cap s fd c :
  serves true cap s → map_ s !! fd = Some c →
  match itBuild c with
  | None => sent s !! fd = Some []
  | Some k => ∃ b, (k, b) ∈ builds_ s ∧ sent s !! fd = Some (take (bufPtr c) (buf b)) ∧
      (isWaiting c = true → sent s !! fd = Some (buf b))
  end.
Proof.
  intros Hs Hc. pose proof (serves_ok true cap s Hs) as Hok.
  destruct (si_sent _ _ _ _ Hok eq_refl fd c Hc) as (l & Hl & Hlk).
  destruct (itBuild c) as [k|] eqn:Hk; [|by destruct Hlk as [_ ->]].
  destruct (isWaiting c) eqn:Hw.
  - pose proof (si_waiting _ _ _ _ Hok fd c Hc Hw) as He. unfold at_end in He.
    destruct (builds_ s) as [|[k0 b] tl]; [by destruct He; congruence|]. destruct He as (Hk0 & _ & Hp).
    rewrite Hk in Hk0. injection Hk0 as <-. exists b. rewrite Hl.
    rewrite (Hlk b) by apply list_elem_of_here. rewrite Hp, firstn_all. split_and!; [apply list_elem_of_here|done|done].
  - destruct (si_active _ _ _ _ Hok fd c Hc Hw) as (k' & b & Hk' & Hin & _).
    rewrite Hk in Hk'. injection Hk' as <-. exists b. rewrite Hl, (Hlk b Hin). by split_and!.
Qed.
End run.

(** ** A server to evaluate *)

Definition demo_state (ops : list sop) : Server :=
  fold_left (λ s o, match @sexec first_fit o s with Ret _ s' => s' | _ => s end) ops (newServer 64).
(** A build starts, a client connects. *)
Definition demo : Server := demo_state [ONewBuild 1; OAccept 7%Z].

Lemma demo_serves d : @serves first_fit d 64 demo.
Proof.
  apply (@serves_step first_fit d 64 (demo_state [ONewBuild 1]) (OAccept 7%Z)).
  - apply (@serves_step first_fit d 64 (newServer 64) (ONewBuild 1)); [constructor| |vm_compute; reflexivity].
    split; [done|]. apply Nat.leb_le. vm_compute. reflexivity.
  - split; vm_compute; reflexivity.
  - vm_compute. reflexivity.
Qed.

Lemma demo_enabled d : enabled d (OReady 7%Z [Sent (length (header 1))]) demo.
Proof.
  split; [apply list_elem_of_here|]. intros c k b Hc Hk Hb.
  assert (c = mkClient (Some k) 0 false) as ->.
  { vm_compute in Hc. injection Hc as <-. vm_compute in Hk. injection Hk as <-. reflexivity. }
  assert (buf b = header 1) as ->.
  { assert (snd <$> builds_ demo = [mkBuild 1 (header 1) 1 false true]) as Hbs by (vm_compute; reflexivity).
    assert (b ∈ snd <$> builds_ demo) as Hb' by (apply list_elem_of_fmap; by exists (k, b)).
    rewrite Hbs in Hb'. by apply list_elem_of_singleton in Hb' as ->. }
  rewrite Nat.sub_0_r. simpl. split; [|done]. split; [done|]. intros ?. lia.
Qed.

Lemma server_safe_witness :
  server_ok true demo ∧ ∃ s', @sexec first_fit (OReady 7%Z [Sent (length (header 1))]) demo = Ret tt s' ∧ server_ok true s'.
Proof. apply (@server_safe first_fit true 64); [apply demo_serves|apply demo_enabled]. Defined.

Lemma server_delivers_witness :
  ∃ b, (0%N, b) ∈ builds_ demo ∧ sent demo !! 7%Z = Some [].
Proof.
  destruct (@server_delivers first_fit 64 demo 7%Z (mkClient (Some 0%N) 0 false) (demo_serves true)
    ltac:(vm_compute; reflexivity)) as (b & Hin & Hs & _).
  exists b. split; [exact Hin|exact Hs].
Defined.

(** *** A partial send *)

Lemma processClient_partial s fd c k b r1 r2 :
  server_ok true s → map_ s !! fd = Some c → isWaiting c = false → itBuild c = Some k →
  (k, b) ∈ builds_ s → buildCompleted b = false →
  0 < r1 → 0 < r2 → bufPtr c + r1 + r2 = length (buf b) →
  returns (processClient fd [Sent r1; Sent r2]) (λ _ s', sent s' !! fd =
    Some (take (bufPtr c + r1) (buf b) ++ take r2 (drop (bufPtr c) (buf b)))) s.
Proof.
  intros Hok Hc Hw Hk Hin Hcp H1 H2 Hsum. pose proof (si_keys _ _ _ _ Hok) as Hnd.
  destruct (si_sent _ _ _ _ Hok eq_refl fd c Hc) as (l & Hl & Hlk). rewrite Hk in Hlk.
  specialize (Hlk b Hin). subst l.
  unfold processClient. apply wp_bind. eapply wp_readClient; [done|]. rewrite Hk.
  apply wp_bind. eapply wp_readBuild; [done|done|]. apply wp_bind, wp_massert; [apply Nat.ltb_lt; lia|].
  apply wp_bind. simpl. apply wp_bind. eapply wp_readBuild; [done|done|].
  apply wp_bind. eapply wp_readClient; [done|]. apply wp_bind, wp_modify, wp_bind, wp_modify. simpl.
  destruct (Nat.ltb_spec (bufPtr c + r1) (length (buf b))); [|lia].
  apply wp_bind. eapply wp_readBuild; [done|done|].
  apply wp_bind. eapply wp_readClient; [simpl; by rewrite lookup_insert_eq|]. apply wp_bind, wp_modify, wp_bind, wp_modify. simpl.
  destruct (Nat.ltb_spec (bufPtr c + r1 + r2) (length (buf b))); [lia|]. apply wp_ret.
  apply wp_bind. eapply wp_readBuild; [done|done|]. rewrite Hcp.
  apply wp_bind, wp_eraseFromFds; [simpl; apply (si_fds _ _ _ _ Hok); eauto|]. intros l' _.
  apply wp_bind, wp_modify, wp_bind. eapply wp_readClient; [simpl; by rewrite lookup_insert_eq|]. apply wp_modify.
  simpl. rewrite !lookup_insert_eq, Hl. simpl. by rewrite take_take_drop.
Qed.

(** A send that takes only a part corrupts the stream: processClient goes on
    from the position it started at, so the client receives the first bytes of
    what was left twice and never the last ones. *)
Theorem partial_send_repeats s fd c k b r1 r2 :
  server_ok true s → map_ s !! fd = Some c → isWaiting c = false → itBuild c = Some k →
  (k, b) ∈ builds_ s → buildCompleted b = false →
  0 < r1 → 0 < r2 → bufPtr c + r1 + r2 = length (buf b) →
  returns (processClient fd [Sent r1; Sent r2]) (λ _ s', sent s' !! fd =
    Some (take (bufPtr c + r1) (buf b) ++ take r2 (drop (bufPtr c) (buf b)))) s.
Proof. apply processClient_partial. Qed.

(** The client of [demo] gets the opening brace twice. *)
Lemma partial_send_repeats_witness :
  returns (processClient 7%Z [Sent 1; Sent (length (header 1) - 1)])
    (λ _ s', take 2 (default [] (sent s' !! 7%Z)) = ["{"; "{"]%char) demo.
Proof.
  eapply wp_mono; [apply (partial_send_repeats demo 7%Z (mkClient (Some 0%N) 0 false)
    0%N (mkBuild 1 (header 1) 1 false true))| |done].
  - apply (@serves_ok first_fit true 64), demo_serves.
  - vm_compute. reflexivity.
  - reflexivity.
  - vm_compute. reflexivity.
  - assert (builds_ demo = [(0%N, mkBuild 1 (header 1) 1 false true)]) as -> by (vm_compute; reflexivity).
    apply list_elem_of_here.
  - reflexivity.
  - lia.
  - apply Nat.ltb_lt. vm_compute. reflexivity.
  - vm_compute. reflexivity.
  - intros [] s' Hs. rewrite Hs. vm_compute. reflexivity.
Defined.

(** *** String literals *)

(** A reader of JSON string literals, from after the opening quote. *)
Fixpoint scan_string (l : list ascii) : option (list ascii * list ascii) :=
  match l with
  | [] => None
  | c :: l' =>
    if decide (c = dq) then Some ([], l')
    else if decide (c = "\"%char) then
      match l' with
      | [] => None
      | e :: l'' =>
        '(t, r) ← scan_string l'';
        if decide (e = "n"%char) then Some (nl :: t, r)
        else if decide (e = dq ∨ e = "\"%char) then Some (e :: t, r) else None
      end
    else '(t, r) ← scan_string l'; Some (c :: t, r)
  end.

(** The text of a command or of its output is written as a string literal
    that reads back as the same text, whatever it contains, and ends where it
    was closed. *)
Theorem escape_json_roundtrip l rest :
  scan_string ((l ≫= escape_json) ++ dq :: rest) = Some (l, rest).
Proof.
  induction l as [|c l IH]; [done|]. rewrite bind_cons, <- app_assoc.
  unfold escape_json at 1. destruct (decide (c = dq ∨ c = "\"%char)) as [Hc|Hc].
  - cbn [app scan_string]. rewrite IH. by destruct Hc as [-> | ->].
  - case_decide as Hn.
    + cbn [app scan_string]. rewrite IH. by subst.
    + cbn [app scan_string]. rewrite IH. rewrite !decide_False by naive_solver. done.
Qed.

(** The destructor fails an assertion of closeClient when a client connected
    before the first build: it waits without being assigned to a build. *)
Theorem destroy_waiting_client cap fd :
  (createClient fd;; destroyServer) (newServer cap) = Abort AssertFailed.
Proof.
  assert (Hm : map_to_list (<[fd := mkClient None 0 true]> (∅ : gmap Z ClientInfo)) = [(fd, mkClient None 0 true)]).
  { by rewrite insert_empty, map_to_list_singleton. }
  unfold createClient, destroyServer, writeClient, begin, gets, modify, mget, mbind, M_bind, empty_builds. simpl.
  rewrite Hm. simpl. unfold closeClient, readClient, mget, mbind, M_bind. simpl. by rewrite lookup_insert_eq.
Qed.
