(* ===== verification/StreamBuild.v ===== *)
(** * A build on the stream server (stream_server.cpp)

    What the events of a whole build do to the server: the buffer of the build grows by
    the elements of the JSON array, each call puts at most eight bytes into the pipe
    that wakes up poll ([wakes]), and nothing fails as long as the pipe has room. *)

From Stdlib Require Import Ascii.
From S2P Require Import Prelude GraphModel EventNotifier StreamServer.

(** ** What is put into the pipe *)

Definition in_pipe (s : Server) : nat := EventNotifier.pending (eventFd_ s).
Definition pipe_size (s : Server) : nat := EventNotifier.capacity (eventFd_ s).
Definition wakes (n : nat) {A} (m : M Server A) : Prop :=
  ∀ s a s', m s = Ret a s' → in_pipe s' ≤ in_pipe s + n ∧ pipe_size s' = pipe_size s.

Lemma wakes_ret {A} (a : A) : wakes 0 (mret a).
Proof. intros s b s' [= _ <-]. split; [lia|done]. Qed.
Lemma wakes_bind n n' {A B} (m : M Server A) (f : A → M Server B) : wakes n m → (∀ a, wakes n' (f a)) → wakes (n + n') (m ≫= f).
Proof.
  intros Hm Hf s b s' E. unfold mbind, M_bind in E. destruct (m s) as [a s1| |] eqn:E1; [|done|done].
  destruct (Hm _ _ _ E1), (Hf _ _ _ _ E). split; [lia|congruence].
Qed.
(** Computations that write nothing, before or after one that does. *)
Lemma wakes_before n {A B} (m : M Server A) (f : A → M Server B) : wakes 0 m → (∀ a, wakes n (f a)) → wakes n (m ≫= f).
Proof. apply (wakes_bind 0). Qed.
Lemma wakes_after n {A B} (m : M Server A) (f : A → M Server B) : wakes n m → (∀ a, wakes 0 (f a)) → wakes n (m ≫= f).
Proof. intros Hm Hf. rewrite <- (Nat.add_0_r n). by apply wakes_bind. Qed.
Lemma wakes_get : wakes 0 mget.
Proof. intros s b s' [= _ <-]. split; [lia|done]. Qed.
Lemma wakes_gets {A} (f : Server → A) : wakes 0 (gets f).
Proof. intros s b s' [= _ <-]. split; [lia|done]. Qed.
Lemma wakes_abort {A} r : wakes 0 (mabort r : M Server A).
Proof. by intros s a s'. Qed.
Lemma wakes_assert b : wakes 0 (massert b).
Proof. intros s a s' E. unfold massert in E. destruct b; [|done]. by apply (wakes_ret tt s a). Qed.
Lemma wakes_deref {A} (o : Server → option A) : wakes 0 (λ s, deref (o s) s).
Proof. intros s a s' E. unfold deref in E. cbv beta in E. destruct (o s); [|done]. injection E as _ <-. split; [lia|done]. Qed.
Lemma wakes_modify f : (∀ s, eventFd_ (f s) = eventFd_ s) → wakes 0 (modify f).
Proof. intros Hf s a s' [= _ <-]. unfold in_pipe, pipe_size. rewrite Hf. split; [lia|done]. Qed.
Lemma wakes_foreach {A} (l : list A) body : (∀ x, wakes 0 (body x)) → wakes 0 (foreach l body).
Proof. intros Hb. induction l as [|x l IH]; simpl; [apply wakes_ret|]. apply wakes_before; [done|by intros _]. Qed.
Lemma wakes_notifyPoll : wakes 8 notifyPoll.
Proof.
  intros s a s' E. unfold notifyPoll, mbind, M_bind, mget, EventNotifier.raise in E.
  destruct (_ <=? _); [injection E as _ <-; split; [unfold in_pipe; simpl; lia|done]|].
  destruct (EventNotifier.nonblocking _); [injection E as _ <-; split; [unfold in_pipe; simpl; lia|done]|done].
Qed.

Create HintDb wakes.
Ltac waking := repeat (lazymatch goal with
  | |- wakes _ (flushWaiting ≫= _) => apply wakes_after; [|intros ?]
  | |- wakes _ (_ ≫= _) => apply wakes_before; [|intros ?]
  | |- wakes _ (mret _) => apply wakes_ret
  | |- wakes _ mget => apply wakes_get
  | |- wakes _ (gets _) => apply wakes_gets
  | |- wakes _ (mabort _) => apply wakes_abort
  | |- wakes _ (massert _) => apply wakes_assert
  | |- wakes _ (modify _) => by apply wakes_modify
  | |- wakes _ (foreach _ _) => apply wakes_foreach; intros ?
  | |- wakes _ (match ?x with _ => _ end) => destruct x
  | |- wakes _ _ => solve [auto with wakes]
  end).

Lemma wakes_readBuild k : wakes 0 (readBuild k).
Proof. apply wakes_deref. Qed.
Lemma wakes_front : wakes 0 front.
Proof. apply wakes_deref. Qed.
Lemma wakes_begin : wakes 0 begin.
Proof. apply wakes_gets. Qed.
Hint Resolve wakes_readBuild wakes_front wakes_begin wakes_notifyPoll : wakes.
Lemma wakes_updBuild k f : wakes 0 (updBuild k f).
Proof. unfold updBuild. waking. Qed.
Lemma wakes_readClient fd : wakes 0 (readClient fd).
Proof. unfold readClient. waking. Qed.
Lemma wakes_writeClient fd c : wakes 0 (writeClient fd c).
Proof. unfold writeClient. waking. Qed.
Lemma wakes_removeBuild k : wakes 0 (removeBuild k).
Proof. unfold removeBuild. waking. Qed.
Hint Resolve wakes_updBuild wakes_readClient wakes_writeClient wakes_removeBuild : wakes.
Lemma wakes_writeBuf l : wakes 0 (writeBuf l).
Proof. unfold writeBuf. waking. Qed.
Lemma wakes_writeBufEscapeJson l : wakes 0 (writeBufEscapeJson l).
Proof. unfold writeBufEscapeJson. waking. Qed.
Lemma wakes_flushWaiting : wakes 8 flushWaiting.
Proof. unfold flushWaiting. waking. Qed.
Hint Resolve wakes_writeBuf wakes_writeBufEscapeJson wakes_flushWaiting : wakes.
Lemma wakes_newBuild `{Allocator} n : wakes 8 (newBuild n).
Proof. unfold newBuild. waking. Qed.
Lemma wakes_event e : wakes 8 (exec_event e).
Proof.
  destruct e; cbn [exec_event]; unfold newCommand, writeCmdOutput, endCommand, cacheRetrieveAction; waking.
Qed.

Lemma wp_with_wakes n {A} (m : M Server A) Q s :
  wakes n m → returns m Q s → returns m (λ a s', (in_pipe s' ≤ in_pipe s + n ∧ pipe_size s' = pipe_size s) ∧ Q a s') s.
Proof. intros Hm (a & s' & E & HQ)%returns_inv. unfold returns, wp. rewrite E. split; [by eapply Hm|done]. Qed.

(** ** The events of a build *)

(** Output belongs to a command that was announced. *)
Fixpoint reports_ok (first : bool) (es : list build_event) : Prop :=
  match es with [] => True | e :: es => event_ok first e ∧ reports_ok (still_first first e) es end.
Fixpoint chunks (first : bool) (es : list build_event) : list ascii :=
  match es with [] => [] | e :: es => chunk first e ++ chunks (still_first first e) es end.
(** The pipe has room for the bytes of [n] calls. *)
Definition room_for (n : nat) (s : Server) : Prop := in_pipe s + 8 * n ≤ pipe_size s.

Lemma stream_events d es : ∀ s k b tl,
  server_ok d s → builds_ s = (k, b) :: tl → buildCompleted b = false → reports_ok (firstChunk b) es → room_for (length es) s →
  ∃ s', foreach es exec_event s = Ret tt s' ∧ server_ok d s' ∧ in_pipe s' ≤ in_pipe s + 8 * length es ∧ pipe_size s' = pipe_size s ∧
    ∃ b', builds_ s' = (k, b') :: tl ∧ StreamServer.buf b' = StreamServer.buf b ++ chunks (firstChunk b) es ∧
      buildCompleted b' = false ∧ id b' = id b.
Proof.
  induction es as [|e es IH]; intros s k b tl Hok Hb Hc Hes Hroom.
  - exists s. split_and!; [done|done|simpl; lia|done|]. exists b. by rewrite app_nil_r.
  - destruct Hes as [He Hes]. unfold room_for in Hroom. cbn [length] in Hroom.
    pose proof (exec_event_spec d s k b tl e Hok Hb Hc ltac:(unfold room, in_pipe, pipe_size in *; lia) He) as Hx.
    apply returns_inv in Hx as ([] & s1 & E & Hok1 & b1 & Hb1 & Hbuf & Hc1 & Hf1 & Hid).
    destruct (wakes_event e _ _ _ E) as [Hp1 Hz1].
    destruct (IH s1 k b1 tl) as (s2 & E2 & Hok2 & Hp2 & Hz2 & b2 & Hb2 & Hbuf2 & Hc2 & Hid2); try done.
    { by rewrite Hf1. }
    { unfold room_for. lia. }
    exists s2. cbn [foreach]. unfold mbind, M_bind. rewrite E. split_and!; [done|done|cbn [length]; lia|congruence|].
    exists b2. split_and!; [done| |done|congruence]. cbn [chunks]. by rewrite Hbuf2, Hbuf, Hf1, (assoc_L (++)).
Qed.
