(* ===== verification/StreamLoop.v ===== *)
(** * The event loop of the stream server (stream_server.cpp)

    [run] polls a copy of the descriptors, then handles what is ready, one descriptor
    after the other, taking the mutex for each; in between, the thread of a build
    starts and ends builds and writes.  [lstep] interleaves the two.  The theorems relate
    the loop to the steps of StreamServer.v, whose conditions the copy might have made
    false by the time a descriptor is handled. *)

From S2P Require Import Prelude GraphModel EventNotifier StreamServer.

(** What the kernel answers: the requested event of a descriptor, another one or none;
    the results of [accept] and of [send]. *)
Inductive accept_result := AcceptError (again : bool) (errno : Z) | Accepted (fd : Z).
Inductive revents := Quiet | Requested (accepts : list accept_result) (sends : list send_result) | Unexpected.
Inductive poll_answer := PollFailed (errno : Z) | PollTimeout | Polled (l : list revents).
Definition EINTR : Z := 4.

(** A descriptor of the vector [fds]. *)
Inductive pollfd := PClient (fd : Z) | PServer | PEvent.

Record Loop := mkLoop { lp_server : Server; serverSocket_ : Z; stopped_ : bool; closed : list Z }.
Definition l_lserver : lens Loop Server := Lens lp_server (λ s l, mkLoop s (serverSocket_ l) (stopped_ l) (closed l)).

Module StreamServer.
(** What the calls of [openPort] return, and [errno]. *)
Record Kernel := mkKernel { k_socket : Z; k_setsockopt : Z; k_ioctl : Z; k_bind : Z; k_listen : Z; k_errno : Z }.
Definition close (fd : Z) : M Loop unit := modify (λ l, mkLoop (lp_server l) (serverSocket_ l) (stopped_ l) (fd :: closed l)).
Definition or_close (k : Kernel) (r : Z) (what : string) (rest : M Loop unit) : M Loop unit :=
  if bool_decide (r < 0)%Z then l ← mget; close (serverSocket_ l);; mthrow (Exception (k_errno k) what) else rest.
Definition openPort (k : Kernel) : M Loop unit :=
  modify (λ l, mkLoop (lp_server l) (k_socket k) (stopped_ l) (closed l));;
  if bool_decide (k_socket k < 0)%Z then mthrow (Exception (k_errno k) "Failed to open socket")
  else
    or_close k (k_setsockopt k) "setsockopt" (
    or_close k (k_ioctl k) "ioctl" (
    or_close k (k_bind k) "bind" (
    or_close k (k_listen k) "listen" (mret tt)))).

(** [do ... while (clientFd != -1)]: a descriptor is not negative. *)
Fixpoint acceptClients (results : list accept_result) : M Server unit :=
  match results with
  | [] => mabort OutOfFuel
  | AcceptError again errno :: _ => if again then mret tt else mthrow (Exception errno "accept")
  | Accepted fd :: results => createClient fd;; acceptClients results
  end.

(** The body of the loop over [fds]. *)
Definition handle (p : pollfd) (r : revents) : M Server unit :=
  match p, r with
  | _, Quiet => mret tt
  | PServer, Requested accepts _ => acceptClients accepts
  | PClient fd, Requested _ sends => processClient fd sends
  | PEvent, _ => flushEventFd
  | _, Unexpected => mret tt
  end.
Definition pollfds (s : Server) : list pollfd := (PClient <$> fds_ s) ++ [PServer; PEvent].
Definition processEvents (a : poll_answer) : M Server unit :=
  s ← mget;
  match a with
  | PollFailed errno => if bool_decide (errno = EINTR) then mret tt else mthrow (Exception errno "poll failed")
  | PollTimeout => mret tt
  | Polled l => foreach (zip (pollfds s) l) (λ pr, handle pr.1 pr.2)
  end.

(** The loop, with what poll answers each time; [stopped_] is set by another thread. *)
Fixpoint run (answers : list poll_answer) : M Loop unit :=
  l ← mget;
  if stopped_ l then mret tt
  else match answers with
       | [] => mabort OutOfFuel
       | a :: answers => zoom l_lserver (processEvents a);; run answers
       end.
Definition stop : M Loop unit :=
  modify (λ l, mkLoop (lp_server l) (serverSocket_ l) true (closed l));; zoom l_lserver notifyPoll.
End StreamServer.

(** ** The loop and the thread of a build *)

(** The server, and the descriptors of the last poll that were not looked at yet. *)
Record lstate := mkL { l_s : Server; l_todo : list pollfd }.
(** The steps of the other thread. *)
Definition by_builder (o : sop) : bool := match o with ONewBuild _ | OEvent _ | OEndBuild _ => true | _ => false end.

Section loop.
Context `{Allocator}.
Import StreamServer.

(** [accept] returns descriptors that are not in use, until it fails. *)
Fixpoint accept_ok (s : Server) (l : list accept_result) : Prop :=
  match l with
  | [] => False
  | AcceptError _ _ :: _ => True
  | Accepted fd :: l => enabled false (OAccept fd) s ∧ ∀ s', createClient fd s = Ret tt s' → accept_ok s' l
  end.
(** What the kernel may answer; with [d], [send] takes all or nothing. *)
Definition answer_ok (d : bool) (p : pollfd) (r : revents) (s : Server) : Prop :=
  match p, r with
  | PServer, Requested accepts _ => accept_ok s accepts
  | PClient fd, Requested _ sends => ∀ c k b, map_ s !! fd = Some c → itBuild c = Some k → (k, b) ∈ builds_ s →
      send_ok (length (buf b) - bufPtr c) sends ∧ (d = true → send_whole (length (buf b) - bufPtr c) sends)
  | _, _ => True
  end.

Inductive lstep (d : bool) : lstate → lstate → Prop :=
  | ls_poll s : lstep d (mkL s []) (mkL s (pollfds s))
  | ls_handle s p todo r s' : answer_ok d p r s → handle p r s = Ret tt s' → lstep d (mkL s (p :: todo)) (mkL s' todo)
  | ls_build s todo o s' : by_builder o = true → enabled d o s → sexec o s = Ret tt s' → lstep d (mkL s todo) (mkL s' todo).
Inductive looping (d : bool) (cap : nat) : lstate → Prop :=
  | looping_init : looping d cap (mkL (newServer cap) [])
  | looping_step st st' : looping d cap st → lstep d st st' → looping d cap st'.

(** *** A descriptor leaves [fds_] only when it is handled *)

Definition read_end (s : Server) : EventNotifier.end_flags := EventNotifier.rfd_ (eventFd_ s).
(** The state goes from [s] to [s'] without a descriptor out of [X] leaving [fds_]; the
    flags of the pipe stay. *)
Definition stays (X : list Z) (s s' : Server) : Prop := (∀ y, y ∈ fds_ s → y ∉ X → y ∈ fds_ s') ∧ read_end s' = read_end s.
Definition retains (X : list Z) {A} (m : M Server A) : Prop := ∀ s a s', m s = Ret a s' → stays X s s'.

Section retains.
Context (X : list Z).
Lemma retains_ret {A} (a : A) : retains X (mret a).
Proof. by intros s b s' [= _ <-]. Qed.
Lemma retains_bind {A B} (m : M Server A) (f : A → M Server B) : retains X m → (∀ a, retains X (f a)) → retains X (m ≫= f).
Proof.
  intros Hm Hf s b s' Hs. unfold mbind, M_bind in Hs. destruct (m s) as [a s1| |] eqn:E; try done.
  destruct (Hm _ _ _ E) as [H1 H2], (Hf _ _ _ _ Hs) as [H3 H4]. split; [auto|congruence].
Qed.
Lemma retains_abort {A} r : retains X (mabort r : M Server A).
Proof. by intros s a s'. Qed.
Lemma retains_get : retains X mget.
Proof. by intros s b s' [= _ <-]. Qed.
Lemma retains_gets {A} (f : Server → A) : retains X (gets f).
Proof. by intros s b s' [= _ <-]. Qed.
Lemma retains_assert b : retains X (massert b).
Proof. intros s a s' Hs. unfold massert in Hs. by destruct b; simplify_eq. Qed.
Lemma retains_deref {A} (o : option A) : retains X (deref o).
Proof. intros s a s' Hs. unfold deref in Hs. by destruct o; simplify_eq. Qed.
Lemma retains_modify f : (∀ s, stays X s (f s)) → retains X (modify f).
Proof. intros Hf s a s' [= _ <-]. apply Hf. Qed.
Lemma retains_foreach {A} (l : list A) body : (∀ x, retains X (body x)) → retains X (foreach l body).
Proof. intros Hb. induction l as [|x l IH]; simpl; [apply retains_ret|]. apply retains_bind; [done|by intros _]. Qed.
End retains.

Ltac retain := repeat (match goal with
  | |- retains _ (_ ≫= _) => apply retains_bind; [|intros ?]
  | |- retains _ (mret _) => apply retains_ret
  | |- retains _ mget => apply retains_get
  | |- retains _ (gets _) => apply retains_gets
  | |- retains _ (massert _) => apply retains_assert
  | |- retains _ (mabort _) => apply retains_abort
  | |- retains _ (deref _) => apply retains_deref
  | |- retains _ (λ s, deref _ s) => let s := fresh in let a := fresh in let s' := fresh in let E := fresh in
      intros s a s' E; unfold deref in E; cbv beta in E; case_match; by simplify_eq
  | |- retains _ (foreach _ _) => apply retains_foreach; intros ?
  | |- retains _ (modify _) => apply retains_modify; intros ?; split; [intros ? ? ?; simpl; first [assumption|set_solver]|done]
  | |- context [match ?x with _ => _ end] => destruct x
  end).

Lemma retains_readBuild X k : retains X (readBuild k).
Proof. unfold readBuild. retain. Qed.
Lemma retains_front X : retains X front.
Proof. unfold front. retain. Qed.
Lemma retains_updBuild X k f : retains X (updBuild k f).
Proof. unfold updBuild, readBuild. retain. Qed.
Lemma retains_readClient X fd : retains X (readClient fd).
Proof. unfold readClient. retain. Qed.
Lemma retains_writeClient X fd c : retains X (writeClient fd c).
Proof. unfold writeClient. retain. Qed.
Lemma retains_notifyPoll X : retains X notifyPoll.
Proof.
  intros s a s' Hs. unfold notifyPoll, mbind, M_bind, mget, EventNotifier.raise in Hs.
  destruct (_ <=? _); [injection Hs as _ <-; by split|]. destruct (EventNotifier.nonblocking _); [injection Hs as _ <-; by split|done].
Qed.
Lemma retains_flushEventFd X : retains X flushEventFd.
Proof.
  intros s a s' Hs. unfold flushEventFd, mbind, M_bind, mget, EventNotifier.flush in Hs.
  destruct (EventNotifier.flush_loop _ _ _); [injection Hs as _ <-; by split|done].
Qed.
Lemma retains_begin X : retains X begin.
Proof. unfold begin. retain. Qed.
Hint Resolve retains_readBuild retains_front retains_updBuild retains_readClient retains_writeClient retains_notifyPoll retains_begin : retained.
Ltac retain' := repeat (retain; auto with retained).

Lemma retains_removeBuild X k : retains X (removeBuild k).
Proof. unfold removeBuild. retain'. Qed.
Lemma retains_writeBuf X l : retains X (writeBuf l).
Proof. unfold writeBuf. retain'. Qed.
Lemma retains_writeBufEscapeJson X l : retains X (writeBufEscapeJson l).
Proof. unfold writeBufEscapeJson. retain'. Qed.
Lemma retains_flushWaiting X : retains X flushWaiting.
Proof. unfold flushWaiting. retain'. Qed.
Hint Resolve retains_removeBuild retains_writeBuf retains_writeBufEscapeJson retains_flushWaiting : retained.
Lemma retains_builder X o : by_builder o = true → retains X (sexec o).
Proof.
  intros Ho. destruct o as [n|e|r|fd|fd results|]; try done; cbn [sexec].
  - unfold newBuild. retain'.
  - destruct e; cbn [exec_event]; unfold newCommand, writeCmdOutput, endCommand, cacheRetrieveAction; retain'.
  - unfold endBuild. retain'.
Qed.
Lemma retains_createClient X fd : retains X (createClient fd).
Proof. unfold createClient. retain'. Qed.
Lemma retains_acceptClients X l : retains X (acceptClients l).
Proof.
  induction l as [|[again errno|fd] l IH]; cbn [acceptClients]; [retain| |].
  - destruct again; [retain|]. by intros s a s'.
  - apply retains_bind; [apply retains_createClient|by intros _].
Qed.

(** The client that is handled. *)
Lemma retains_erase fd : retains [fd] (eraseFromFds fd).
Proof.
  intros s a s' Hs. unfold eraseFromFds, mbind, M_bind, mget, deref, modify in Hs.
  destruct (erase_fd fd (fds_ s)) as [l|] eqn:E; [|done]. injection Hs as _ <-. split; [|done]. intros y Hy Hne. simpl.
  assert (Hl : fds_ s ≡ₚ fd :: l).
  { destruct (decide (fd ∈ fds_ s)) as [Hin|Hin].
    - destruct (erase_fd_spec fd (fds_ s) Hin) as (l' & E' & Hp). congruence.
    - exfalso. revert l E Hin. generalize (fds_ s). induction l as [|x l IH]; simpl; [done|]. intros l' E Hin.
      destruct (decide (fd = x)) as [->|]; [set_solver|]. destruct (erase_fd fd l) eqn:E'; [|done]. eapply IH; [done|set_solver]. }
  rewrite Hl in Hy. set_solver.
Qed.
Hint Resolve retains_erase : retained.
Lemma retains_closeClient fd : retains [fd] (closeClient fd).
Proof. unfold closeClient. retain'. Qed.
Hint Resolve retains_closeClient : retained.
Lemma retains_send_loop fd k results : ∀ start size, retains [fd] (send_loop fd k start size results).
Proof. induction results as [|[again|r] results IH]; intros start size; cbn [send_loop]; retain'. Qed.
Hint Resolve retains_send_loop : retained.
Lemma retains_processClient fd results : retains [fd] (processClient fd results).
Proof. unfold processClient. retain'. Qed.

(** ** What may be waiting to be handled *)

Record loop_inv (d : bool) (cap : nat) (st : lstate) : Prop := {
  li_serves : serves d cap (l_s st);
  li_nodup : NoDup (l_todo st);
  li_fds fd : PClient fd ∈ l_todo st → fd ∈ fds_ (l_s st);
}.

(** Accepting is a sequence of steps of the server. *)
Lemma accept_serves d cap l : ∀ s, serves d cap s → accept_ok s l →
  match acceptClients l s with
  | Ret _ s' => serves d cap s'
  | Throw e s' => serves d cap s' ∧ ∃ errno, e = Exception errno "accept"
  | Abort _ => False
  end.
Proof.
  induction l as [|[again errno|fd] l IH]; intros s Hs Hl; [done| |]; cbn [acceptClients].
  - destruct again; [done|]. split; [done|by exists errno].
  - destruct Hl as [[Hnew Hsz] Hl]. pose proof (createClient_spec d s fd (serves_ok d cap s Hs) Hnew Hsz) as Hc.
    apply returns_inv in Hc as ([] & s1 & E & _). unfold mbind, M_bind. rewrite E. apply IH; [|by apply Hl].
    eapply (serves_step d cap s (OAccept fd)); done.
Qed.

Lemma serves_read_end d cap s : serves d cap s → EventNotifier.nonblocking (read_end s) = false.
Proof.
  intros Hs. assert (read_end s = read_end (newServer cap)) as ->; [|done].
  induction Hs as [|s o s' _ IH Hen Hex]; [done|]. rewrite <- IH.
  assert (∃ X, retains X (sexec o)) as [X HX]; [|by apply (HX _ _ _ Hex)]. destruct (by_builder o) eqn:Ho; [exists []; by apply retains_builder|].
  destruct o as [| | |fd|fd results|]; try done; [exists []; apply retains_createClient|exists [fd]; apply retains_processClient|exists []; apply retains_flushEventFd].
Qed.
Lemma flush_serves d cap s : serves d cap s →
  match flushEventFd s with
  | Ret _ s' => serves d cap s'
  | Throw _ _ => False
  | Abort why => why = Blocked ∧ EventNotifier.pending (eventFd_ s) mod 512 = 0
  end.
Proof.
  intros Hs. destruct (decide (EventNotifier.pending (eventFd_ s) mod 512 = 0)) as [E|E].
  - unfold flushEventFd, mbind, M_bind, mget, EventNotifier.flush. change (EventNotifier.rfd_ (eventFd_ s)) with (read_end s).
    rewrite (serves_read_end _ _ _ Hs), flush_loop_blocks by (done || lia). done.
  - pose proof (sexec_spec d s OFlush (serves_ok d cap s Hs) E) as Hx. apply returns_inv in Hx as ([] & s' & Ex & _). simpl in Ex. rewrite Ex.
    by apply (serves_step d cap s OFlush).
Qed.

Lemma handle_serves d cap s p r :
  serves d cap s → (∀ fd, p = PClient fd → fd ∈ fds_ s) → answer_ok d p r s →
  match handle p r s with
  | Ret _ s' => serves d cap s'
  | Throw e s' => p = PServer ∧ ∃ errno, e = Exception errno "accept"
  | Abort why => p = PEvent ∧ why = Blocked ∧ EventNotifier.pending (eventFd_ s) mod 512 = 0
  end.
Proof.
  intros Hs Hp Ha. destruct p as [fd| |], r as [|accepts sends|]; cbn [handle]; try done.
  - assert (Hen : enabled d (OReady fd sends) s) by (split; [by apply Hp|exact Ha]).
    pose proof (sexec_spec d s _ (serves_ok d cap s Hs) Hen) as Hx. apply returns_inv in Hx as ([] & s' & E & _). simpl in E. rewrite E.
    by eapply serves_step.
  - pose proof (accept_serves d cap accepts s Hs Ha) as Hx. destruct (acceptClients accepts s); [done|naive_solver|done].
  - pose proof (flush_serves d cap s Hs). destruct (flushEventFd s); naive_solver.
  - pose proof (flush_serves d cap s Hs). destruct (flushEventFd s); naive_solver.
Qed.

Lemma retains_handle p r : retains (match p with PClient fd => [fd] | _ => [] end) (handle p r).
Proof.
  destruct p as [fd| |], r as [|accepts sends|]; cbn [handle];
    auto using retains_ret, retains_processClient, retains_acceptClients, retains_flushEventFd.
Qed.
Lemma NoDup_pollfds d s : server_ok d s → NoDup (pollfds s).
Proof.
  intros Hok. unfold pollfds. apply NoDup_app. split_and!.
  - apply NoDup_fmap_2; [by intros ? ? [=]|]. apply Hok.
  - intros p (fd & -> & _)%list_elem_of_fmap. set_solver.
  - apply NoDup_cons. split; [set_solver|]. apply NoDup_singleton.
Qed.

Lemma looping_inv d cap st : looping d cap st → loop_inv d cap st.
Proof.
  induction 1 as [|st st' _ [Hs Hnd Hin] Hstep]; [split; simpl; [constructor|constructor|by intros fd ?%elem_of_nil]|].
  destruct Hstep as [s|s p todo r s' Ha Hx|s todo o s' Ho Hen Hx]; simpl in *.
  - split; simpl; [done|by eapply NoDup_pollfds, serves_ok|]. intros fd [(y & [= ->] & Hy)%list_elem_of_fmap|Hx]%elem_of_app; [done|set_solver].
  - apply NoDup_cons in Hnd as [Hnp Hnd].
    pose proof (handle_serves d cap s p r Hs ltac:(intros fd ->; apply Hin; set_solver) Ha) as Hh. rewrite Hx in Hh.
    destruct (retains_handle p r _ _ _ Hx) as [Hk _]. split; simpl; [done|done|]. intros fd Hfd. apply Hk; [apply Hin; set_solver|].
    destruct p as [fd'| |]; [|set_solver|set_solver]. intros ->%list_elem_of_singleton. done.
  - destruct (retains_builder [] o Ho _ _ _ Hx) as [Hk _]. split; simpl; [by eapply serves_step|done|].
    intros fd Hfd. apply Hk; [by apply Hin|set_solver].
Qed.

(** C20: the event loop is safe.  While the thread of a build starts and ends builds and
    writes between any two descriptors that are handled, the descriptors of the last
    poll stay valid: the server goes through states of the server of StreamServer.v,
    and handling the next descriptor, whatever the kernel answers within its contract,
    neither fails an assertion nor uses a client that is gone.  It ends in such a state,
    but for an error of [accept], which ends the loop, and for the pipe, which blocks
    it when it holds a multiple of 512 bytes. *)
Theorem loop_safe d cap s p todo r :
  looping d cap (mkL s (p :: todo)) → answer_ok d p r s →
  server_ok d s ∧
  match handle p r s with
  | Ret _ s' => server_ok d s' ∧ looping d cap (mkL s' todo)
  | Throw e _ => p = PServer ∧ ∃ errno, e = Exception errno "accept"
  | Abort why => p = PEvent ∧ why = Blocked ∧ EventNotifier.pending (eventFd_ s) mod 512 = 0
  end.
Proof.
  intros Hl Ha. destruct (looping_inv _ _ _ Hl) as [Hs _ Hin]. simpl in *. split; [by eapply serves_ok|].
  pose proof (handle_serves d cap s p r Hs ltac:(intros fd ->; apply Hin; set_solver) Ha) as Hh.
  destruct (handle p r s) as [[] s'| |] eqn:E; [|done|done]. split; [by eapply serves_ok|].
  eapply looping_step; [exact Hl|]. by eapply ls_handle.
Qed.

(** ** A whole turn *)

(** What the kernel answers for one turn. *)
Fixpoint answers_ok (d : bool) (todo : list pollfd) (l : list revents) (s : Server) : Prop :=
  match todo, l with
  | p :: todo, r :: l => answer_ok d p r s ∧ ∀ s', handle p r s = Ret tt s' → answers_ok d todo l s'
  | [], [] => True
  | _, _ => False
  end.
Lemma turn_steps d todo l : ∀ s s', answers_ok d todo l s → foreach (zip todo l) (λ pr, handle pr.1 pr.2) s = Ret tt s' →
  rtc (lstep d) (mkL s todo) (mkL s' []).
Proof.
  revert l. induction todo as [|p todo IH]; intros [|r l] s s' Hok Hx; try done; cbn [zip zip_with foreach] in Hx.
  - injection Hx as ->. apply rtc_refl.
  - destruct Hok as [Ha Hl]. unfold mbind, M_bind in Hx. cbn [fst snd] in Hx.
    destruct (handle p r s) as [[] s1| |] eqn:E; [|done|done]. eapply rtc_l; [by eapply ls_handle|]. eapply IH; [by apply Hl|exact Hx].
Qed.
(** One call of [processEvents] that nobody interrupts is a poll and its steps. *)
Lemma processEvents_steps d l s s' :
  answers_ok d (pollfds s) l s → processEvents (Polled l) s = Ret tt s' → rtc (lstep d) (mkL s []) (mkL s' []).
Proof.
  intros Hok Hx. eapply rtc_l; [apply ls_poll|]. by eapply turn_steps.
Qed.
End loop.

(** ** A run: a build starts, a client connects, and is polled *)

Lemma demo_looping d : @looping first_fit d 64 (mkL demo [PClient 7%Z; PServer; PEvent]).
Proof.
  set (s1 := demo_state [ONewBuild 1]).
  assert (H1 : @looping first_fit d 64 (mkL s1 [])).
  { eapply looping_step; [apply looping_init|]. apply (ls_build d (newServer 64) [] (ONewBuild 1)); [done| |vm_compute; reflexivity].
    split; [done|]. apply Nat.leb_le. vm_compute. reflexivity. }
  assert (H2 : @looping first_fit d 64 (mkL demo [PEvent])).
  { eapply looping_step; [eapply looping_step; [exact H1|apply ls_poll]|].
    apply (ls_handle d s1 PServer [PEvent] (Requested [Accepted 7; AcceptError true 11] [])); [|vm_compute; reflexivity].
    split; [split; vm_compute; reflexivity|by intros s' _]. }
  eapply looping_step; [eapply looping_step; [exact H2|by apply (ls_handle d demo PEvent [] Quiet)]|]. apply ls_poll.
Qed.

Lemma loop_safe_witness :
  let r := Requested [] [Sent (length (header 1))] in
  server_ok true demo ∧
  match StreamServer.handle (PClient 7) r demo with
  | Ret _ s' => server_ok true s' ∧ @looping first_fit true 64 (mkL s' [PServer; PEvent])
  | _ => False
  end.
Proof.
  intros r. destruct (@loop_safe first_fit true 64 demo (PClient 7) [PServer; PEvent] r (demo_looping true)) as [Hok Hh].
  - exact (proj2 (demo_enabled true)).
  - split; [exact Hok|]. destruct (StreamServer.handle (PClient 7) r demo); [exact Hh|by destruct Hh|by destruct Hh].
Defined.
