(* ===== verification/Fs.v ===== *)
(** * The file system and fs.cpp

    A file system maps paths to directories and files (with their content and
    modification time).  Paths are compared as strings; the directory a path is
    in is the one [dirname] names, the empty string standing for the current
    directory and for the root, which always exist.  [writable] decides which
    paths the process may create, [now] is the clock that stamps files. *)

From S2P Require Import Prelude.
From Stdlib Require Import Ascii.

Inductive entry := Dir | File (content : string) (mtime : Z).

#[export] Instance entry_eq_dec : EqDecision entry.
Proof. solve_decision. Defined.

Record FS := mkFS {
  fs_entries : gmap string entry;
  fs_writable : string → bool;
  fs_now : Z;
}.
Definition set_entries (m : gmap string entry) (f : FS) : FS := mkFS m (fs_writable f) (fs_now f).

Module fs.
(** [path.find_last_of] for a slash: the index of the last one. *)
Fixpoint find_last_slash (l : list ascii) : option nat :=
  match l with
  | [] => None
  | c :: l' =>
    match find_last_slash l' with
    | Some p => Some (S p)
    | None => if decide (c = "/"%char) then Some 0 else None
    end
  end.

(** [while (slash_pos > 0 && path[slash_pos - 1] == '/') slash_pos--]. *)
Fixpoint strip_slashes (l : list ascii) (slash_pos : nat) : nat :=
  match slash_pos with
  | O => O
  | S p => if decide (l !! p = Some "/"%char) then strip_slashes l p else S p
  end.

Definition dirname_list (l : list ascii) : list ascii :=
  match find_last_slash l with
  | None => []
  | Some slash_pos => take (strip_slashes l slash_pos) l
  end.
Definition dirname (path : string) : string :=
  String.string_of_list_ascii (dirname_list (String.list_ascii_of_string path)).
End fs.

(** [stat(path) == 0], and the entry it finds. *)
Definition stat (path : string) : M FS (option entry) := gets (λ f, fs_entries f !! path).

(** The directory that holds [path] exists. *)
Definition in_directory (f : FS) (path : string) : bool :=
  bool_decide (fs.dirname path = "") ||
  match fs_entries f !! fs.dirname path with Some Dir => true | _ => false end.

(** The system call mkdir: [false] is an error. *)
Definition sys_mkdir (path : string) : M FS bool :=
  f ← mget;
  if bool_decide (fs_entries f !! path = None) && in_directory f path && fs_writable f path
  then mput (set_entries (<[path := Dir]> (fs_entries f)) f);; mret true
  else mret false.

(** An ofstream opens (and truncates) a file that exists or can be created. *)
Definition can_open (f : FS) (path : string) : bool :=
  fs_writable f path &&
  match fs_entries f !! path with
  | Some Dir => false
  | Some (File _ _) => true
  | None => in_directory f path
  end.

(** What an ifstream delivers: nothing when the file could not be opened. *)
Definition read_all (f : FS) (path : string) : string :=
  match fs_entries f !! path with Some (File c _) => c | _ => "" end.

(** [std::ifstream ifs(src); std::ofstream ofs(dst); ofs << ifs.rdbuf()].  The
    streams do not throw: a destination that cannot be opened is left as it is,
    and a source that cannot be read leaves an empty file. *)
Definition write_file (path c : string) (f : FS) : FS :=
  set_entries (<[path := File c (fs_now f)]> (fs_entries f)) f.
Definition copy_file (src dst : string) : M FS unit :=
  modify (λ f, if can_open f dst
               then let f' := write_file dst "" f in write_file dst (read_all f' src) f'
               else f).

(** unlink: [false] is an error. *)
Definition sys_unlink (path : string) : M FS bool :=
  f ← mget;
  match fs_entries f !! path with
  | Some (File _ _) =>
    if fs_writable f path then mput (set_entries (delete path (fs_entries f)) f);; mret true else mret false
  | _ => mret false
  end.

Module fs_ops.
Definition mkdir (path : string) : M FS bool :=
  st ← stat path;
  match st with
  | None => sys_mkdir path
  | Some Dir => mret true
  | Some (File _ _) => mret false
  end.

Fixpoint createPath (fuel : nat) (path : string) : M FS bool :=
  match fuel with
  | O => mabort OutOfFuel
  | S fuel =>
    let dir := fs.dirname path in
    if bool_decide (dir = "") then mret true
    else
      st ← stat dir;
      match st with
      | Some Dir => mret true
      | _ =>
        ok ← createPath fuel dir;
        if negb ok then mret false else mkdir dir
      end
  end.
End fs_ops.

(** ** dirname *)

Lemma find_last_slash_None l : fs.find_last_slash l = None ↔ "/"%char ∉ l.
Proof.
  induction l as [|c l IH]; simpl; [set_solver|]. destruct (fs.find_last_slash l) as [p|].
  - split; [done|]. intros H. assert ("/"%char ∉ l) as H' by set_solver. by apply IH in H'.
  - assert ("/"%char ∉ l) by (by apply IH). case_decide; set_solver.
Qed.

Lemma find_last_slash_Some l p :
  fs.find_last_slash l = Some p → l !! p = Some "/"%char ∧ "/"%char ∉ drop (S p) l.
Proof.
  revert p. induction l as [|c l IH]; intros p; simpl; [done|].
  destruct (fs.find_last_slash l) as [q|] eqn:Hq.
  - intros [= <-]. simpl. by apply IH.
  - case_decide as Hc; [|done]. intros [= <-]. split; [by subst|]. simpl. rewrite drop_0.
    by apply find_last_slash_None.
Qed.

Lemma strip_slashes_spec l p :
  p ≤ length l → ∃ n, fs.strip_slashes l p + n = p ∧
    take p l = take (fs.strip_slashes l p) l ++ replicate n "/"%char ∧
    last (take (fs.strip_slashes l p) l) ≠ Some "/"%char.
Proof.
  induction p as [|p IH]; intros Hp; [exists 0; by simpl|]. simpl. case_decide as Hc.
  - destruct (IH ltac:(lia)) as (n & Hn & Ht & Hl). exists (S n). split_and!; [lia| |done].
    rewrite (take_S_r l p "/"%char) by done. rewrite Ht, <- app_assoc. f_equal.
    by rewrite replicate_S_end.
  - exists 0. split_and!; [lia|by rewrite app_nil_r|]. intros Hl. apply Hc.
    destruct (lookup_lt_is_Some_2 l p) as [x Hx]; [lia|]. rewrite (take_S_r l p x Hx), last_snoc in Hl. congruence.
Qed.

Lemma dirname_list_spec l :
  ("/"%char ∉ l ∧ fs.dirname_list l = []) ∨
  ∃ n base, l = fs.dirname_list l ++ replicate (S n) "/"%char ++ base ∧ "/"%char ∉ base ∧
    last (fs.dirname_list l) ≠ Some "/"%char.
Proof.
  unfold fs.dirname_list. destruct (fs.find_last_slash l) as [p|] eqn:Hp.
  - right. apply find_last_slash_Some in Hp as [Hs Hb].
    assert (p < length l) by (by eapply lookup_lt_Some).
    destruct (strip_slashes_spec l p) as (n & Hn & Ht & Hl); [lia|].
    exists n, (drop (S p) l). split_and!; [|done|done].
    rewrite <- (take_drop (S p) l) at 1. rewrite (take_S_r l p _ Hs), Ht.
    rewrite <- !app_assoc. f_equal. rewrite app_assoc, <- replicate_S_end. done.
  - left. split; [by apply find_last_slash_None|done].
Qed.

Lemma dirname_shorter l : fs.dirname_list l ≠ [] → length (fs.dirname_list l) < length l.
Proof.
  intros Hne. destruct (dirname_list_spec l) as [[_ ?]|(n & base & Heq & _)]; [done|].
  apply (f_equal length) in Heq. rewrite !length_app, length_replicate in Heq. lia.
Qed.

Lemma list_ascii_length (p : string) : length (String.list_ascii_of_string p) = String.length p.
Proof. induction p as [|c p IH]; simpl; [done|]. by rewrite IH. Qed.

Lemma dirname_length path :
  fs.dirname path ≠ "" → String.length (fs.dirname path) < String.length path.
Proof.
  intros Hne. unfold fs.dirname in *. rewrite <- !list_ascii_length.
  rewrite String.list_ascii_of_string_of_list_ascii. apply dirname_shorter.
  intros Heq. apply Hne. by rewrite Heq.
Qed.

(** Dirname splits a path: what it returns, at least one slash, and a last
    component without slash make up the path, and the result has no slash at its
    end; a path without slash has no directory part. *)
Theorem dirname_splits l :
  ("/"%char ∉ l ∧ fs.dirname_list l = []) ∨
  ∃ n base, l = fs.dirname_list l ++ replicate (S n) "/"%char ++ base ∧ "/"%char ∉ base ∧
    last (fs.dirname_list l) ≠ Some "/"%char.
Proof. apply dirname_list_spec. Qed.

(** ** createPath *)

(** [d] is one of the directories [path] lies in. *)
Inductive ancestor (path : string) : string → Prop :=
  | ancestor_dir : fs.dirname path ≠ "" → ancestor path (fs.dirname path)
  | ancestor_up d : ancestor path d → fs.dirname d ≠ "" → ancestor path (fs.dirname d).

Lemma ancestor_trans path d : fs.dirname path ≠ "" → ancestor (fs.dirname path) d → ancestor path d.
Proof. intros Hp. induction 1; [apply ancestor_up; [by constructor|done]|by apply ancestor_up]. Qed.

Lemma ancestor_inv path d : ancestor path d → d = fs.dirname path ∨ fs.dirname path ≠ "" ∧ ancestor (fs.dirname path) d.
Proof.
  induction 1 as [|d Hd IH Hn]; [by left|]. right.
  destruct IH as [->|[? ?]]; [|split; [done|by apply ancestor_up]].
  split; [|by constructor]. intros Heq. apply Hn. by rewrite Heq.
Qed.

(** Only directories above [path] were added. *)
Definition grown (path : string) (f f' : FS) : Prop :=
  fs_writable f' = fs_writable f ∧ fs_now f' = fs_now f ∧
  ∀ p, fs_entries f' !! p = fs_entries f !! p ∨
       (fs_entries f !! p = None ∧ fs_entries f' !! p = Some Dir ∧ ancestor path p).

(** The directories above [path] that exist have theirs. *)
Definition tree_ok (f : FS) : Prop := ∀ p, is_Some (fs_entries f !! p) → in_directory f p = true.

Lemma in_directory_grown path f f' p : grown path f f' → in_directory f p = true → in_directory f' p = true.
Proof.
  unfold in_directory. intros (_ & _ & Hg) [H|H]%orb_true_iff; [by rewrite H|].
  destruct (Hg (fs.dirname p)) as [->|(_ & -> & _)]; [by rewrite H, orb_true_r|by rewrite orb_true_r].
Qed.

Lemma mkdir_spec f d :
  returns (fs_ops.mkdir d) (λ ok f',
    (if (ok : bool) then fs_entries f' !! d = Some Dir else f' = f) ∧
    (f' = f ∨ fs_entries f !! d = None ∧ in_directory f d = true ∧ f' = set_entries (<[d := Dir]> (fs_entries f)) f) ∧
    ((∀ c t, fs_entries f !! d ≠ Some (File c t)) → fs_writable f d = true → in_directory f d = true → ok = true)) f.
Proof.
  unfold fs_ops.mkdir. apply wp_bind, wp_gets. destruct (fs_entries f !! d) as [[|c t]|] eqn:Hd.
  - apply wp_ret. split_and!; [done|by left|done].
  - apply wp_ret. split_and!; [done|by left|]. intros H. by destruct (H c t).
  - unfold sys_mkdir. apply wp_bind, wp_mget. rewrite bool_decide_eq_true_2 by done. simpl.
    destruct (in_directory f d) eqn:Hin, (fs_writable f d) eqn:Hw; simpl.
    + apply wp_bind, wp_mput, wp_ret. split_and!; [simpl; by rewrite lookup_insert_eq|by right|done].
    + apply wp_ret. split_and!; [done|by left|done].
    + apply wp_ret. split_and!; [done|by left|done].
    + apply wp_ret. split_and!; [done|by left|done].
Qed.

Lemma grown_refl path f : grown path f f.
Proof. split_and!; auto. Qed.

Lemma grown_up path f f1 f2 :
  fs.dirname path ≠ "" → grown (fs.dirname path) f f1 →
  (f2 = f1 ∨ fs_entries f1 !! fs.dirname path = None ∧ in_directory f1 (fs.dirname path) = true ∧
     f2 = set_entries (<[fs.dirname path := Dir]> (fs_entries f1)) f1) →
  grown path f f2.
Proof.
  intros Hne (Hw & Hn & Hg) Hor.
  assert (grown path f f1) as H1.
  { split_and!; [done|done|]. intros p. destruct (Hg p) as [?|(? & ? & ?)]; [by left|].
    right. split_and!; [done|done|by apply ancestor_trans]. }
  destruct Hor as [->|(Hd & _ & ->)]; [done|]. split_and!; [done|done|]. simpl. intros p.
  destruct (decide (fs.dirname path = p)) as [<-|Hp].
  - rewrite lookup_insert_eq. right. split_and!; [|done|by constructor].
    destruct (Hg (fs.dirname path)) as [<-|(? & ? & _)]; done.
  - rewrite lookup_insert_ne by done. apply H1.
Qed.

Lemma createPath_spec fuel : ∀ path f,
  String.length path < fuel →
  returns (fs_ops.createPath fuel path) (λ ok f', grown path f f' ∧ (tree_ok f → tree_ok f') ∧
    (ok = true → in_directory f' path = true) ∧
    (tree_ok f → (∀ d c t, ancestor path d → fs_entries f !! d ≠ Some (File c t)) →
     (∀ d, ancestor path d → fs_writable f d = true) → ok = true)) f.
Proof.
  induction fuel as [|fuel IH]; intros path f Hf; [lia|]. simpl.
  case_bool_decide as He.
  { apply wp_ret. split_and!; [apply grown_refl|done| |done]. intros _. unfold in_directory.
    by rewrite bool_decide_eq_true_2. }
  apply wp_bind, wp_gets.
  assert (Hrec : returns (ok ← fs_ops.createPath fuel (fs.dirname path); if negb ok then mret false else fs_ops.mkdir (fs.dirname path))
    (λ ok f', grown path f f' ∧ (tree_ok f → tree_ok f') ∧
    (ok = true → in_directory f' path = true) ∧
    (tree_ok f → (∀ d c t, ancestor path d → fs_entries f !! d ≠ Some (File c t)) →
     (∀ d, ancestor path d → fs_writable f d = true) → ok = true)) f).
  { apply wp_bind. eapply wp_mono; [apply IH; pose proof (dirname_length path He); lia| |done].
    intros ok1 f1 (Hg & Htree & Hok & Hall). destruct ok1; simpl.
    - eapply wp_mono; [apply mkdir_spec| |done]. intros ok f2 (H1 & H2 & H3).
      pose proof (grown_up path f f1 f2 He Hg H2) as Hg2. split_and!; [done| | |].
      + intros Ht. specialize (Htree Ht). destruct H2 as [->|(Hd & Hin & ->)]; [done|].
        intros p [x Hp]. simpl in Hp. unfold in_directory in *. simpl.
        assert (Hup : ∀ q, match fs_entries f1 !! q with Some Dir => true | _ => false end = true →
          match <[fs.dirname path := Dir]> (fs_entries f1) !! q with Some Dir => true | _ => false end = true).
        { intros q Hq. destruct (decide (fs.dirname path = q)) as [<-|Hne]; [by rewrite lookup_insert_eq|by rewrite lookup_insert_ne]. }
        destruct (decide (fs.dirname path = p)) as [<-|Hne].
        * apply orb_true_iff in Hin as [->|Hin]; [done|]. rewrite (Hup _ Hin). apply orb_true_r.
        * rewrite lookup_insert_ne in Hp by done. specialize (Htree p ltac:(by eexists)). unfold in_directory in Htree.
          apply orb_true_iff in Htree as [->|Htree]; [done|]. rewrite (Hup _ Htree). apply orb_true_r.
      + intros ->. unfold in_directory. rewrite H1. apply orb_true_r.
      + intros Ht Hnf Hwr. assert (Hanc : ancestor path (fs.dirname path)) by by constructor. apply H3.
        * intros c t Hc. destruct Hg as (_ & _ & Hg). destruct (Hg (fs.dirname path)) as [Heq|(? & ? & _)].
          -- rewrite Heq in Hc. by apply (Hnf _ c t Hanc).
          -- congruence.
        * destruct Hg as (-> & _ & _). by apply Hwr.
        * by apply Hok.
    - apply wp_ret. split_and!; [eapply grown_up; [done|exact Hg|by left]|done|done|].
      intros Ht Hnf Hwr. apply Hall; [done| |].
      + intros d c t Hd. apply Hnf. by apply ancestor_trans.
      + intros d Hd. apply Hwr. by apply ancestor_trans. }
  destruct (fs_entries f !! fs.dirname path) as [[|c t]|] eqn:Hd; [|exact Hrec|exact Hrec].
  apply wp_ret. split_and!; [apply grown_refl|done| |done]. intros _. unfold in_directory. by rewrite Hd, orb_true_r.
Qed.

(** C30: createPath terminates; when it returns true the directory of the path
    exists, and it does return true if nothing above the path is a file and the
    missing directories may be created; whatever it returns it adds nothing but
    directories above the path, and leaves every existing entry alone. *)
Theorem createPath_correct fuel path f :
  tree_ok f → String.length path < fuel →
  returns (fs_ops.createPath fuel path) (λ ok f', grown path f f' ∧ tree_ok f' ∧
    (ok = true → in_directory f' path = true) ∧
    ((∀ d c t, ancestor path d → fs_entries f !! d ≠ Some (File c t)) →
     (∀ d, ancestor path d → fs_writable f d = true) → ok = true)) f.
Proof.
  intros Ht Hf. eapply wp_mono; [by apply createPath_spec| |done]. intros ok f' (H1 & H2 & H3 & H4).
  split_and!; auto.
Qed.

Definition empty_fs : FS := mkFS ∅ (λ _, true) 0.
Lemma empty_fs_tree : tree_ok empty_fs.
Proof. intros p [x Hx]. discriminate Hx. Qed.
Lemma createPath_correct_witness :
  ∃ ok f', fs_ops.createPath 4 "a/b" empty_fs = Ret ok f' ∧ tree_ok f'.
Proof.
  pose proof (createPath_correct 4 "a/b" empty_fs empty_fs_tree ltac:(simpl; lia)) as H.
  apply returns_inv in H as (ok & f' & Heq & _ & Ht & _). exact (ex_intro _ ok (ex_intro _ f' (conj Heq Ht))).
Defined.

Example createPath_ex :
  match fs_ops.createPath 20 "a/b//c.o" empty_fs with
  | Ret ok f => ok && bool_decide (fs_entries f !! "a" = Some Dir) && bool_decide (fs_entries f !! "a/b" = Some Dir)
  | _ => false
  end = true.
Proof. vm_compute. reflexivity. Qed.
