(* ===== verification/Cache.v ===== *)
(** * The cache on disk and its git directory (cache_fs.cpp, cache_git_directory.cpp)

    [CacheFS] stores files under their hash in a directory.  [CacheGitDirectory]
    counts, for each stored hash, the pairs of an object (a node or a rule) and a
    git reference that need it, and removes the file of a hash nobody needs any
    more.  The entries are objects of a heap shared by [gitHashMap_] and the
    reference maps. *)

From S2P Require Import Prelude Fs.

(** ** CacheFS *)

Module CacheFS.
Section ops.
Variable dir_ : string.

Definition entry_path (hash : string) : string := (dir_ +:+ "/" +:+ hash)%string.
Definition nonempty (hash : string) : bool := negb (bool_decide (hash = "")).

Definition writeEntry (hash path : string) : M FS bool :=
  massert (nonempty hash);;
  fs_ops.mkdir dir_;;
  st ← stat (entry_path hash);
  match st with
  | Some _ => mret true
  | None => copy_file path (entry_path hash);; mret true
  end.

Definition hasEntry (hash : string) : M FS bool :=
  massert (nonempty hash);;
  st ← stat (entry_path hash);
  mret (bool_decide (is_Some st)).

Definition readEntry (hash path : string) : M FS bool :=
  massert (nonempty hash);;
  st ← stat (entry_path hash);
  match st with
  | None => mret false
  | Some _ => copy_file (entry_path hash) path;; mret true
  end.

Definition delEntry (hash : string) : M FS bool :=
  massert (nonempty hash);;
  st ← stat (entry_path hash);
  match st with
  | None => mret true
  | Some _ => sys_unlink (entry_path hash)
  end.
End ops.
End CacheFS.

(** ** CacheGitDirectory *)

Record GitCacheEntry := mkEntry { hash : string; numGitRefs : Z }.

Notation RefMap := (gmap string N).

Record GitDir := mkGitDir {
  currentGitRef_ : string;
  gitNodeMap_ : gmap N RefMap;
  gitRuleMap_ : gmap N RefMap;
  gitHashMap_ : gmap string N;
  git_heap : gmap N GitCacheEntry;       (* the [GitCacheEntry] objects *)
  cacheFs_ : string;
}.

Definition set_ref (r : string) (g : GitDir) : GitDir :=
  mkGitDir r (gitNodeMap_ g) (gitRuleMap_ g) (gitHashMap_ g) (git_heap g) (cacheFs_ g).
Definition set_hashes (m : gmap string N) (h : gmap N GitCacheEntry) (g : GitDir) : GitDir :=
  mkGitDir (currentGitRef_ g) (gitNodeMap_ g) (gitRuleMap_ g) m h (cacheFs_ g).
Definition set_heap (h : gmap N GitCacheEntry) (g : GitDir) : GitDir :=
  set_hashes (gitHashMap_ g) h g.

(** The directory and the file system it works on. *)
Record GF := mkGF { gf_git : GitDir; gf_fs : FS }.
Definition l_git : lens GF GitDir := Lens gf_git (λ g s, mkGF g (gf_fs s)).
Definition l_fs : lens GF FS := Lens gf_fs (λ f s, mkGF (gf_git s) f).

(** A [RefMap&] is the place of a map: the one of a node or of a rule. *)
Inductive obj := ONode (p : N) | ORule (p : N).
#[export] Instance obj_eq_dec : EqDecision obj.
Proof. solve_decision. Defined.

Definition refMap (o : obj) (g : GitDir) : option RefMap :=
  match o with ONode p => gitNodeMap_ g !! p | ORule p => gitRuleMap_ g !! p end.
Definition set_refMap (o : obj) (m : RefMap) (g : GitDir) : GitDir :=
  match o with
  | ONode p => mkGitDir (currentGitRef_ g) (<[p := m]> (gitNodeMap_ g)) (gitRuleMap_ g)
                 (gitHashMap_ g) (git_heap g) (cacheFs_ g)
  | ORule p => mkGitDir (currentGitRef_ g) (gitNodeMap_ g) (<[p := m]> (gitRuleMap_ g))
                 (gitHashMap_ g) (git_heap g) (cacheFs_ g)
  end.

Module CacheGitDirectory.
Definition new (cacheFs : string) : GitDir := mkGitDir "" ∅ ∅ ∅ ∅ cacheFs.

(** libgit2's answer for the working directory: [None] when the repository cannot be
    opened, its head is detached or has no reference. *)
Definition updateRef (head : option string) : M GF unit :=
  zoom l_git (modify (set_ref ""));;
  match head with
  | None => mret tt
  | Some name => zoom l_git (modify (set_ref name))
  end.

Definition isInRef (g : GitDir) : bool := negb (bool_decide (currentGitRef_ g = "")).

(** [entry->numGitRefs += d]. *)
Definition addRefs (e : N) (d : Z) : M GitDir unit :=
  g ← mget;
  x ← deref (git_heap g !! e);
  mput (set_heap (<[e := mkEntry (hash x) (wrap32 (numGitRefs x + d))]> (git_heap g)) g).

Definition findEntry `{Allocator} (h : string) : M GitDir N :=
  g ← mget;
  match gitHashMap_ g !! h with
  | Some e => mret e
  | None =>
    let e := new_addr (dom (git_heap g)) in
    mput (set_hashes (<[h := e]> (gitHashMap_ g)) (<[e := mkEntry h 0]> (git_heap g)) g);;
    mret e
  end.

Definition dropPrevious (prevEntry entry : N) : M GF unit :=
  g ← gets gf_git;
  x ← deref (git_heap g !! prevEntry);
  massert (bool_decide (0 < numGitRefs x)%Z);;
  zoom l_git (addRefs prevEntry (-1));;
  g ← gets gf_git;
  x ← deref (git_heap g !! prevEntry);
  if bool_decide (numGitRefs x = 0%Z) && negb (bool_decide (prevEntry = entry)) then
    zoom l_fs (CacheFS.delEntry (cacheFs_ g) (hash x));;
    zoom l_git (modify (λ g,
      set_hashes (delete (hash x) (gitHashMap_ g)) (delete prevEntry (git_heap g)) g))
  else mret tt.

Definition registerEntryInRefMap `{Allocator} (h : string) (o : obj) : M GF unit :=
  g ← gets gf_git;
  massert (isInRef g);;
  entry ← zoom l_git (findEntry h);
  g ← gets gf_git;
  rm ← deref (refMap o g);
  match rm !! currentGitRef_ g with
  | Some prevEntry => dropPrevious prevEntry entry
  | None => mret tt
  end;;
  g ← gets gf_git;
  rm ← deref (refMap o g);
  zoom l_git (modify (set_refMap o (<[currentGitRef_ g := entry]> rm)));;
  zoom l_git (addRefs entry 1).

Definition register `{Allocator} (h : string) (o : obj) : M GF unit :=
  g ← gets gf_git;
  match refMap o g with
  | None => zoom l_git (modify (set_refMap o ∅))
  | Some _ => mret tt
  end;;
  registerEntryInRefMap h o.

Definition registerNode `{Allocator} (h : string) (node : N) : M GF unit := register h (ONode node).
Definition registerRule `{Allocator} (h : string) (rule : N) : M GF unit := register h (ORule rule).
End CacheGitDirectory.

(** ** The store *)

Section store.
Variable dir : string.
Notation entry_path := (CacheFS.entry_path dir).

Lemma append_length (a b : string) : String.length (a +:+ b) = String.length a + String.length b.
Proof. induction a as [|x a IH]; simpl; [done|]. by rewrite IH. Qed.

Lemma entry_path_inj h h' : entry_path h = entry_path h' → h = h'.
Proof. unfold CacheFS.entry_path. intros H. by do 2 apply (inj (String.append _)) in H. Qed.

Lemma wp_hash_nonempty h Q E (f : FS) : h ≠ "" → Q tt f → wp (massert (CacheFS.nonempty h)) Q E f.
Proof. intros Hh. apply wp_massert. unfold CacheFS.nonempty. by rewrite bool_decide_eq_false_2. Qed.

Lemma copy_file_spec src dst f :
  returns (copy_file src dst) (λ _ f',
    (f' = f ∧ can_open f dst = false ∨
     f' = write_file dst (if decide (src = dst) then "" else read_all f src) f ∧ can_open f dst = true)) f.
Proof.
  apply wp_modify. destruct (can_open f dst) eqn:Ho; [right|by left]. split; [|done].
  unfold read_all, write_file, set_entries. simpl. case_decide as He; [subst|].
  - by rewrite !lookup_insert_eq, insert_insert_eq.
  - by rewrite lookup_insert_ne, insert_insert_eq.
Qed.

(** What a hash is stored with. *)
Definition stored (f : FS) (h : string) (c : string) : Prop :=
  ∃ t, fs_entries f !! entry_path h = Some (File c t).

Lemma stored_write_file f p c c' h : p ≠ entry_path h → stored f h c → stored (write_file p c' f) h c.
Proof. intros Hp [t Ht]. exists t. simpl. by rewrite lookup_insert_ne. Qed.

Lemma stored_mkdir f h c d : stored f h c → returns (fs_ops.mkdir d) (λ _ f', stored f' h c) f.
Proof.
  intros [t Ht]. eapply wp_mono; [apply mkdir_spec| |done].
  intros ok f' (_ & [->|(Hd & _ & ->)] & _); [by exists t|]. exists t. simpl.
  rewrite lookup_insert_ne; [done|]. congruence.
Qed.

(** The operations of the cache, and the commands that write files outside of it. *)
Inductive cache_op :=
  | OpWrite (h path : string)
  | OpRead (h path : string)
  | OpDel (h : string)
  | OpCommand (path content : string).

Definition run_op (o : cache_op) : M FS unit :=
  match o with
  | OpWrite h p => CacheFS.writeEntry dir h p;; mret tt
  | OpRead h p => CacheFS.readEntry dir h p;; mret tt
  | OpDel h => CacheFS.delEntry dir h;; mret tt
  | OpCommand p c => modify (λ f, if can_open f p then write_file p c f else f)
  end.

(** [o] does not drop [h], and writes no file of the cache itself. *)
Definition op_keeps (h : string) (o : cache_op) : Prop :=
  match o with
  | OpWrite h' _ => h' ≠ ""
  | OpRead h' p => h' ≠ "" ∧ p ≠ entry_path h
  | OpDel h' => h' ≠ "" ∧ h' ≠ h
  | OpCommand p _ => p ≠ entry_path h
  end.

Lemma run_op_stored h c o f :
  op_keeps h o → stored f h c → returns (run_op o) (λ _ f', stored f' h c) f.
Proof.
  intros Hk Hs. destruct o as [h' p|h' p|h'|p c']; simpl in *.
  - apply wp_bind, wp_bind, wp_hash_nonempty; [done|]. apply wp_bind.
    eapply wp_mono; [by apply stored_mkdir|cbv beta|done]. intros _ f1 Hs1.
    apply wp_bind, wp_gets. case_eq (fs_entries f1 !! entry_path h'); [intros x _; by do 2 apply wp_ret|intros Hh'].
    apply wp_bind. eapply wp_mono; [apply copy_file_spec| |done].
    intros _ f2 [[-> _]|[-> _]]; do 2 apply wp_ret; [done|]. apply stored_write_file; [|done].
    destruct Hs1 as [t Ht]. congruence.
  - destruct Hk as [Hh' Hp]. apply wp_bind, wp_bind, wp_hash_nonempty; [done|]. apply wp_bind, wp_gets.
    destruct (fs_entries f !! entry_path h'); [|by do 2 apply wp_ret]. apply wp_bind.
    eapply wp_mono; [apply copy_file_spec| |done].
    intros _ f2 [[-> _]|[-> _]]; do 2 apply wp_ret; [done|]. by apply stored_write_file.
  - destruct Hk as [Hh' Hne]. apply wp_bind, wp_bind, wp_hash_nonempty; [done|]. apply wp_bind, wp_gets.
    destruct (fs_entries f !! entry_path h') as [x|] eqn:Hx; [|by do 2 apply wp_ret].
    unfold sys_unlink. apply wp_bind, wp_mget. rewrite Hx. destruct x; [by do 2 apply wp_ret|].
    destruct (fs_writable f (entry_path h')); [|by do 2 apply wp_ret].
    apply wp_bind, wp_mput. do 2 apply wp_ret. destruct Hs as [t Ht]. exists t. simpl.
    rewrite lookup_delete_ne; [done|]. intros Heq. by apply entry_path_inj in Heq.
  - apply wp_modify. destruct (can_open f p); [by apply stored_write_file|done].
Qed.

Lemma run_ops_stored h c os f :
  Forall (op_keeps h) os → stored f h c → returns (foreach os run_op) (λ _ f', stored f' h c) f.
Proof.
  intros Hk Hs. eapply (wp_foreach (λ _ f', stored f' h c)); [done| |done].
  intros pre x post f' -> Hs'. apply run_op_stored; [|done].
  apply Forall_app in Hk as [_ Hk]. by apply Forall_cons in Hk as [? _].
Qed.

Lemma readEntry_spec h c path f :
  h ≠ "" → stored f h c →
  returns (CacheFS.readEntry dir h path) (λ ok f', ok = true ∧
    (can_open f path = true → path ≠ entry_path h → f' = write_file path c f) ∧
    (can_open f path = false → f' = f)) f.
Proof.
  intros Hh [t Ht]. apply wp_bind, wp_hash_nonempty; [done|]. apply wp_bind, wp_gets. rewrite Ht.
  apply wp_bind. eapply wp_mono; [apply copy_file_spec| |done].
  intros _ f' [[-> Ho]|[-> Ho]]; apply wp_ret; split_and!; [done|congruence|done|done| |congruence].
  intros _ Hne. rewrite decide_False by congruence. unfold read_all. by rewrite Ht.
Qed.

(** The cache directory can hold the file of [h]. *)
Definition can_store (f : FS) (h : string) : Prop :=
  h ≠ "" ∧ fs.dirname (entry_path h) = dir ∧ fs_writable f (entry_path h) = true ∧
  fs_entries f !! entry_path h = None ∧ dir ≠ "" ∧
  (fs_entries f !! dir = Some Dir ∨
   fs_entries f !! dir = None ∧ in_directory f dir = true ∧ fs_writable f dir = true).

Lemma dir_not_entry f h : can_store f h → dir ≠ entry_path h.
Proof.
  intros _ Heq. apply (f_equal String.length) in Heq.
  unfold CacheFS.entry_path in Heq. rewrite !append_length in Heq. simpl in Heq. lia.
Qed.

Lemma mkdir_ready f h :
  can_store f h →
  returns (fs_ops.mkdir dir) (λ _ f', fs_entries f' !! dir = Some Dir ∧ fs_writable f' = fs_writable f ∧
    ∀ p, p ≠ dir → fs_entries f' !! p = fs_entries f !! p) f.
Proof.
  intros (_ & _ & _ & _ & _ & Hdir). apply wp_bind, wp_gets. destruct Hdir as [Hd|(Hd & Hin & Hw)]; rewrite Hd.
  - by apply wp_ret.
  - apply wp_bind, wp_mget. rewrite bool_decide_eq_true_2, Hin, Hw by done. apply wp_bind, wp_mput, wp_ret.
    simpl. split_and!; [by rewrite lookup_insert_eq|done|]. intros p Hp. by rewrite lookup_insert_ne.
Qed.

Lemma writeEntry_spec h c t path f :
  can_store f h → fs_entries f !! path = Some (File c t) →
  returns (CacheFS.writeEntry dir h path) (λ ok f', ok = true ∧ stored f' h c ∧
    ∀ p, p ≠ dir → p ≠ entry_path h → fs_entries f' !! p = fs_entries f !! p) f.
Proof.
  intros Hcs Hpath. pose proof (dir_not_entry f h Hcs) as Hde.
  pose proof Hcs as (Hh & Hdn & Hw & Hnone & Hd0 & Hdir).
  assert (path ≠ dir) by (intros ->; destruct Hdir as [?|[? _]]; congruence).
  apply wp_bind, wp_hash_nonempty; [done|]. apply wp_bind.
  eapply wp_mono; [by apply (mkdir_ready f h)| |done]. intros _ f1 (Hd1 & Hw1 & Hframe).
  apply wp_bind, wp_gets. rewrite Hframe, Hnone by done. apply wp_bind.
  eapply wp_mono; [apply copy_file_spec| |done].
  assert (can_open f1 (entry_path h) = true) as Ho.
  { unfold can_open, in_directory. rewrite Hw1, Hw, Hframe, Hnone, Hdn, Hd1 by done. by rewrite orb_true_r. }
  intros _ f2 [[_ ?]|[-> _]]; [congruence|]. apply wp_ret. split_and!; [done| |].
  - exists (fs_now f1). simpl. rewrite lookup_insert_eq, decide_False by congruence.
    unfold read_all. by rewrite Hframe, Hpath.
  - intros p Hp Hpe. simpl. rewrite lookup_insert_ne by done. by apply Hframe.
Qed.

Lemma store_roundtrip_spec h c t path os path' f :
  can_store f h → fs_entries f !! path = Some (File c t) → Forall (op_keeps h) os →
  path' ≠ entry_path h →
  returns (CacheFS.writeEntry dir h path;; foreach os run_op;;
           f1 ← mget; ok ← CacheFS.readEntry dir h path'; mret (can_open f1 path', ok))
    (λ x f', x.2 = true ∧ (x.1 = true → ∃ t', fs_entries f' !! path' = Some (File c t'))) f.
Proof.
  intros Hcs Hp Hos Hp'. apply wp_bind. eapply wp_mono; [by eapply writeEntry_spec| |done].
  intros ok1 f1 (_ & Hst & _). apply wp_bind. eapply wp_mono; [by apply run_ops_stored| |done].
  intros [] f2 Hst2. apply wp_bind, wp_mget, wp_bind.
  eapply wp_mono; [apply readEntry_spec; [apply Hcs|done]| |done].
  intros ok f3 (-> & H1 & _). apply wp_ret. split; [done|]. intros Ho. rewrite (H1 Ho Hp'). exists (fs_now f2).
  simpl. by rewrite lookup_insert_eq.
Qed.
End store.

(** What the cache stores under a hash is what it gives back: after
    [writeEntry] of a file, and any operations of the cache and commands that neither
    delete that hash nor write into its file, [readEntry] of the hash succeeds and
    leaves the stored content at the destination (whenever it can be opened at
    all), however the original was changed in between. *)
Theorem cache_roundtrip dir h c t path os path' f :
  can_store dir f h → fs_entries f !! path = Some (File c t) → Forall (op_keeps dir h) os →
  path' ≠ CacheFS.entry_path dir h →
  returns (CacheFS.writeEntry dir h path;; foreach os (run_op dir);;
           f1 ← mget; ok ← CacheFS.readEntry dir h path'; mret (can_open f1 path', ok))
    (λ x f', x.2 = true ∧ (x.1 = true → ∃ t', fs_entries f' !! path' = Some (File c t'))) f.
Proof. apply store_roundtrip_spec. Qed.

Definition store_fs : FS :=
  mkFS {["a.o" := File "one" 1; ".falcon" := Dir]} (λ _, true) 5.
Lemma cache_roundtrip_witness :
  can_store ".falcon/cache" store_fs "h1" ∧
  returns (CacheFS.writeEntry ".falcon/cache" "h1" "a.o";;
    foreach [OpCommand "a.o" "two"; OpWrite "h2" "a.o"; OpDel "h2"] (run_op ".falcon/cache");;
    f1 ← mget; ok ← CacheFS.readEntry ".falcon/cache" "h1" "a.o"; mret (can_open f1 "a.o", ok))
    (λ x f', x.2 = true ∧ (x.1 = true → ∃ t', fs_entries f' !! "a.o" = Some (File "one" t'))) store_fs.
Proof.
  assert (can_store ".falcon/cache" store_fs "h1") as Hcs.
  { split_and!; try (vm_compute; reflexivity); [done|done|]. right. split_and!; vm_compute; reflexivity. }
  split; [exact Hcs|].
  apply (cache_roundtrip ".falcon/cache" "h1" "one" 1 "a.o"
    [OpCommand "a.o" "two"; OpWrite "h2" "a.o"; OpDel "h2"] "a.o" store_fs Hcs);
    [vm_compute; reflexivity|repeat constructor; done|done].
Defined.

Example cache_keeps_one :
  match (CacheFS.writeEntry ".falcon/cache" "h1" "a.o";;
    foreach [OpCommand "a.o" "two"; OpWrite "h2" "a.o"; OpDel "h2"] (run_op ".falcon/cache");;
    CacheFS.readEntry ".falcon/cache" "h1" "a.o") store_fs with
  | Ret true f => bool_decide (fs_entries f !! "a.o" = Some (File "one" 5))
  | _ => false
  end = true.
Proof. vm_compute. reflexivity. Qed.

(** A file that is not there is cached as an empty one, and the caller is told the
    save succeeded. *)
Lemma writeEntry_missing_source dir h path f :
  can_store dir f h → fs_entries f !! path = None → path ≠ dir →
  returns (CacheFS.writeEntry dir h path) (λ ok f', ok = true ∧ stored dir f' h "") f.
Proof.
  intros Hcs Hpath Hpd. pose proof (dir_not_entry dir f h Hcs) as Hde.
  pose proof Hcs as (Hh & Hdn & Hw & Hnone & Hd0 & Hdir).
  apply wp_bind, wp_hash_nonempty; [done|]. apply wp_bind.
  eapply wp_mono; [by apply (mkdir_ready _ _ h)| |done]. intros _ f1 (Hd1 & Hw1 & Hframe).
  apply wp_bind, wp_gets. rewrite Hframe, Hnone by done. apply wp_bind.
  eapply wp_mono; [apply copy_file_spec| |done].
  assert (can_open f1 (CacheFS.entry_path dir h) = true) as Ho.
  { unfold can_open, in_directory. rewrite Hw1, Hw, Hframe, Hnone, Hdn, Hd1 by done. by rewrite orb_true_r. }
  intros _ f2 [[_ ?]|[-> _]]; [congruence|]. apply wp_ret. split; [done|].
  exists (fs_now f1). simpl. rewrite lookup_insert_eq. case_decide; [done|].
  unfold read_all. by rewrite Hframe, Hpath.
Qed.

(** ** The references *)

(** The references to an entry. *)
Definition refs_in (e : N) (m : RefMap) : nat := mcount (λ e', e' = e) m.
Definition holders (g : GitDir) (e : N) : nat :=
  msum (refs_in e) (gitNodeMap_ g) + msum (refs_in e) (gitRuleMap_ g).

(** What the directory means: the hash an object has under a git reference. *)
Definition refhash (g : GitDir) (o : obj) (r : string) : option string :=
  rm ← refMap o g; e ← rm !! r; x ← git_heap g !! e; Some (hash x).

(** The invariant; [exempt] is an entry that may have no reference yet. *)
Record git_inv (exempt : option N) (g : GitDir) : Prop := {
  gi_map h e : gitHashMap_ g !! h = Some e ↔ ∃ x, git_heap g !! e = Some x ∧ hash x = h;
  gi_count e x : git_heap g !! e = Some x → numGitRefs x = Z.of_nat (holders g e);
  gi_used e x : git_heap g !! e = Some x → hash x ≠ "" ∧ (0 < holders g e ∨ exempt = Some e);
  gi_live o rm r e : refMap o g = Some rm → rm !! r = Some e → is_Some (git_heap g !! e);
}.

Lemma refMap_set o o' m g :
  refMap o' (set_refMap o m g) = if decide (o = o') then Some m else refMap o' g.
Proof.
  destruct (decide (o = o')) as [<-|Hne].
  - by destruct o as [p|p]; simpl; rewrite lookup_insert_eq.
  - destruct o as [p|p], o' as [q|q]; simpl; try done; by rewrite lookup_insert_ne by congruence.
Qed.

Lemma set_refMap_twice o m m' g : set_refMap o m (set_refMap o m' g) = set_refMap o m g.
Proof. destruct g, o; unfold set_refMap; simpl; by rewrite insert_insert_eq. Qed.

Lemma set_refMap_id o m g : refMap o g = Some m → set_refMap o m g = g.
Proof. destruct g, o; unfold set_refMap; simpl; intros H; by rewrite insert_id. Qed.

Lemma holders_set o rm rm' g e :
  refMap o g = Some rm →
  holders (set_refMap o rm' g) e + refs_in e rm = holders g e + refs_in e rm'.
Proof.
  destruct o as [p|p]; simpl; intros H; unfold holders; simpl.
  - pose proof (msum_update (refs_in e) _ p rm rm' H). lia.
  - pose proof (msum_update (refs_in e) _ p rm rm' H). lia.
Qed.

Lemma holders_new o g e : refMap o g = None → holders (set_refMap o ∅ g) e = holders g e.
Proof. destruct o as [p|p]; simpl; intros H; unfold holders; simpl; by rewrite msum_insert. Qed.

Lemma holders_pos o rm r g e : refMap o g = Some rm → rm !! r = Some e → 0 < holders g e.
Proof.
  intros Ho Hr. assert (0 < refs_in e rm) by (by eapply (mcount_pos (λ e', e' = e))).
  destruct o as [p|p]; simpl in Ho; unfold holders.
  - pose proof (msum_le (refs_in e) _ _ _ Ho). lia.
  - pose proof (msum_le (refs_in e) _ _ _ Ho). lia.
Qed.

Lemma refs_in_pos e rm : 0 < refs_in e rm → ∃ r, rm !! r = Some e.
Proof.
  intros Hpos. destruct (mcount_pos_inv (λ e', e' = e) rm Hpos) as (r & e' & Hr & <-). by exists r.
Qed.

Lemma holders_pos_inv g e : 0 < holders g e → ∃ o rm r, refMap o g = Some rm ∧ rm !! r = Some e.
Proof.
  unfold holders. intros Hpos. destruct (decide (0 < msum (refs_in e) (gitNodeMap_ g))) as [H|H].
  - apply msum_pos in H as (p & rm & Hp & [r Hr]%refs_in_pos). by exists (ONode p), rm, r.
  - destruct (msum_pos (refs_in e) (gitRuleMap_ g)) as (p & rm & Hp & [r Hr]%refs_in_pos); [lia|].
    by exists (ORule p), rm, r.
Qed.

Lemma refhash_Some g o r h :
  refhash g o r = Some h ↔
  ∃ rm e x, refMap o g = Some rm ∧ rm !! r = Some e ∧ git_heap g !! e = Some x ∧ hash x = h.
Proof.
  unfold refhash. rewrite bind_Some. setoid_rewrite bind_Some. setoid_rewrite bind_Some. naive_solver.
Qed.

(** *** Finding or making the entry of a hash *)

Lemma refMap_set_hashes o m hp g : refMap o (set_hashes m hp g) = refMap o g.
Proof. by destruct o. Qed.

Lemma git_inv_weaken x g : git_inv None g → git_inv x g.
Proof. intros [H1 H2 H3 H4]. split; [done|done| |done]. intros e y Hy. destruct (H3 e y Hy) as [? [?|?]]; [auto|done]. Qed.

Lemma unreferenced_zero g e : git_inv None g → git_heap g !! e = None → holders g e = 0.
Proof.
  intros Hi He. destruct (decide (holders g e = 0)) as [?|Hn]; [done|].
  destruct (holders_pos_inv g e) as (o & rm & r & Ho & Hr); [lia|].
  destruct (gi_live None g Hi o rm r e Ho Hr) as [x Hx]. congruence.
Qed.

Lemma findEntry_spec `{Allocator} h g :
  git_inv None g → h ≠ "" →
  returns (CacheGitDirectory.findEntry h) (λ e g', ∃ m hp, g' = set_hashes m hp g ∧
    git_inv (Some e) g' ∧ m !! h = Some e ∧
    ∀ e' x, git_heap g !! e' = Some x → hp !! e' = Some x) g.
Proof.
  intros Hi Hh. apply wp_bind, wp_mget. destruct (gitHashMap_ g !! h) as [e|] eqn:He.
  - apply wp_ret. exists (gitHashMap_ g), (git_heap g). split_and!; [by destruct g|by apply git_inv_weaken|done|done].
  - set (e := new_addr (dom (git_heap g))).
    assert (git_heap g !! e = None) as Hfresh by apply not_elem_of_dom, new_addr_fresh.
    pose proof (unreferenced_zero g e Hi Hfresh) as Hz.
    apply wp_bind, wp_mput, wp_ret. do 2 eexists. split_and!; [done| |by rewrite lookup_insert_eq|].
    + split; simpl.
      * intros h' e'. destruct (decide (h = h')) as [<-|Hne].
        -- rewrite lookup_insert_eq. split; [intros [= <-]; by rewrite lookup_insert_eq; eauto|].
           destruct (decide (e = e')) as [<-|Hne']; [done|]. rewrite lookup_insert_ne by done.
           intros Hx. apply (gi_map None g Hi) in Hx. congruence.
        -- rewrite lookup_insert_ne by done. rewrite (gi_map None g Hi). split.
           ++ intros (x & Hx & Hhx). exists x. rewrite lookup_insert_ne by congruence. done.
           ++ destruct (decide (e = e')) as [<-|Hne']; [rewrite lookup_insert_eq; intros (x & [= <-] & ?); done|].
              by rewrite lookup_insert_ne.
      * intros e' x. destruct (decide (e = e')) as [<-|Hne]; [rewrite lookup_insert_eq; intros [= <-]|].
        -- change (holders _ e) with (holders g e). by rewrite Hz.
        -- rewrite lookup_insert_ne by done. apply (gi_count None g Hi).
      * intros e' x. destruct (decide (e = e')) as [<-|Hne]; [rewrite lookup_insert_eq; intros [= <-]; auto|].
        rewrite lookup_insert_ne by done. intros Hx. destruct (gi_used None g Hi e' x Hx) as [? [?|?]]; [auto|done].
      * intros o rm r e'. rewrite refMap_set_hashes. intros Ho Hr.
        destruct (gi_live None g Hi o rm r e' Ho Hr) as [x Hx]. exists x. rewrite lookup_insert_ne by congruence. done.
    + intros e' x Hx. rewrite lookup_insert_ne by congruence. done.
Qed.

(** *** Dropping the previous entry *)

Lemma refs_in_delete e rm r e' :
  rm !! r = Some e' → refs_in e rm = one_if (e' = e) + refs_in e (delete r rm).
Proof. exact (mcount_delete (λ e', e' = e) rm r e'). Qed.

(** The directory without the reference of [o] under [r]. *)
Definition without (o : obj) (r : string) (rm : RefMap) (g : GitDir) : GitDir :=
  set_refMap o (delete r rm) g.

Lemma holders_without o rm r e' g e :
  refMap o g = Some rm → rm !! r = Some e' →
  holders g e = one_if (e' = e) + holders (without o r rm g) e.
Proof.
  intros Ho Hr. pose proof (holders_set o rm (delete r rm) g e Ho) as H.
  rewrite (refs_in_delete e rm r e' Hr) in H. unfold without. lia.
Qed.

Lemma refMap_without o r rm g o' rm' :
  refMap o g = Some rm → refMap o' (without o r rm g) = Some rm' →
  ∀ r' e, rm' !! r' = Some e → ∃ rm0, refMap o' g = Some rm0 ∧ rm0 !! r' = Some e ∧ (o', r') ≠ (o, r).
Proof.
  intros Ho. unfold without. rewrite refMap_set. case_decide as Heq; [subst o'|].
  - intros [= <-] r' e [Hne He]%lookup_delete_Some. exists rm. split_and!; [done|done|congruence].
  - intros Ho' r' e He. exists rm'. split_and!; [done|done|congruence].
Qed.

Lemma drop_inv_keep entry o r rm prev x g :
  git_inv (Some entry) g → refMap o g = Some rm → rm !! r = Some prev → git_heap g !! prev = Some x →
  0 < holders (without o r rm g) prev ∨ prev = entry →
  git_inv (Some entry)
    (without o r rm (set_heap (<[prev := mkEntry (hash x) (numGitRefs x - 1)]> (git_heap g)) g)).
Proof.
  intros Hi Ho Hr Hx Hkeep. set (hp := <[prev := _]> _).
  assert (Hhp : ∀ e y, hp !! e = Some y → ∃ y0, git_heap g !! e = Some y0 ∧ hash y0 = hash y ∧
    numGitRefs y = (numGitRefs y0 - Z.of_nat (one_if (prev = e)))%Z).
  { subst hp. intros e y Hy. unfold one_if. destruct (decide (prev = e)) as [<-|Hne].
    - rewrite lookup_insert_eq in Hy. simplify_eq. exists x. simpl. split_and!; [done|done|lia].
    - rewrite lookup_insert_ne in Hy by done. exists y. split_and!; [done|done|lia]. }
  assert (Hhp' : ∀ e y, git_heap g !! e = Some y → ∃ y', hp !! e = Some y' ∧ hash y' = hash y).
  { subst hp. intros e y Hy. destruct (decide (prev = e)) as [<-|Hne].
    - rewrite lookup_insert_eq. eexists. split; [done|]. simpl. congruence.
    - rewrite lookup_insert_ne by done. eauto. }
  replace (without o r rm (set_heap hp g)) with (set_heap hp (without o r rm g)) by by destruct o.
  split.
  - intros h e. replace (gitHashMap_ _) with (gitHashMap_ g) by by destruct o. simpl. rewrite (gi_map _ g Hi). split.
    + intros (y & Hy & <-). destruct (Hhp' e y Hy) as (y' & ? & ?). eauto.
    + intros (y & Hy & <-). destruct (Hhp e y Hy) as (y' & ? & ? & _). eauto.
  - intros e y Hy. destruct (Hhp e y Hy) as (y0 & Hy0 & _ & ->). rewrite (gi_count _ g Hi e y0 Hy0).
    change (holders (set_heap _ _) e) with (holders (without o r rm g) e).
    rewrite (holders_without o rm r prev g e Ho Hr). lia.
  - intros e y Hy. destruct (Hhp e y Hy) as (y0 & Hy0 & <- & _). destruct (gi_used _ g Hi e y0 Hy0) as [? Hor].
    split; [done|]. change (holders (set_heap _ _) e) with (holders (without o r rm g) e).
    rewrite (holders_without o rm r prev g e Ho Hr) in Hor. unfold one_if in Hor.
    destruct (decide (prev = e)) as [<-|Hne]; [destruct Hkeep as [?| ->]; auto|]. destruct Hor; auto.
  - intros o' rm' r' e. unfold set_heap. rewrite refMap_set_hashes. intros Ho' Hr'.
    destruct (refMap_without o r rm g o' rm' Ho Ho' r' e Hr') as (rm0 & H0 & H1 & _).
    destruct (gi_live _ g Hi o' rm0 r' e H0 H1) as [y Hy]. destruct (Hhp' e y Hy) as (y' & ? & _). by exists y'.
Qed.

Lemma drop_inv_delete entry o r rm prev x g :
  git_inv (Some entry) g → refMap o g = Some rm → rm !! r = Some prev → git_heap g !! prev = Some x →
  holders (without o r rm g) prev = 0 → prev ≠ entry →
  git_inv (Some entry)
    (without o r rm (set_hashes (delete (hash x) (gitHashMap_ g)) (delete prev (git_heap g)) g)).
Proof.
  intros Hi Ho Hr Hx Hz Hne.
  replace (without o r rm (set_hashes _ _ g)) with
    (set_hashes (delete (hash x) (gitHashMap_ g)) (delete prev (git_heap g)) (without o r rm g)) by by destruct o.
  split; simpl.
  - intros h e. rewrite lookup_delete_Some, (gi_map _ g Hi). setoid_rewrite lookup_delete_Some. split.
    + intros (Hh & y & Hy & Hhy). exists y. split_and!; [congruence|done|done].
    + intros (y & (Hpe & Hy) & Hhy). split; [|eauto]. intros Heq. apply Hpe.
      assert (gitHashMap_ g !! h = Some prev) as H1 by (apply (gi_map _ g Hi); eauto).
      assert (gitHashMap_ g !! h = Some e) as H2 by (apply (gi_map _ g Hi); eauto). congruence.
  - intros e y [Hpe Hy]%lookup_delete_Some. rewrite (gi_count _ g Hi e y Hy).
    change (holders (set_hashes _ _ _) e) with (holders (without o r rm g) e).
    rewrite (holders_without o rm r prev g e Ho Hr). unfold one_if. rewrite decide_False by done. lia.
  - intros e y [Hpe Hy]%lookup_delete_Some. destruct (gi_used _ g Hi e y Hy) as [? Hor]. split; [done|].
    change (holders (set_hashes _ _ _) e) with (holders (without o r rm g) e).
    rewrite (holders_without o rm r prev g e Ho Hr) in Hor. unfold one_if in Hor. rewrite decide_False in Hor by done. done.
  - intros o' rm' r' e. rewrite refMap_set_hashes. intros Ho' Hr'.
    assert (0 < holders (without o r rm g) e) as Hpos by by eapply holders_pos.
    destruct (refMap_without o r rm g o' rm' Ho Ho' r' e Hr') as (rm0 & H0 & H1 & _).
    destruct (gi_live _ g Hi o' rm0 r' e H0 H1) as [y Hy]. exists y. rewrite lookup_delete_ne; [done|].
    intros ->. lia.
Qed.

(** [delEntry] of a stored hash. *)
Definition remove_entry (dir h : string) (f : FS) : FS :=
  match fs_entries f !! CacheFS.entry_path dir h with
  | Some (File _ _) =>
    if fs_writable f (CacheFS.entry_path dir h)
    then set_entries (delete (CacheFS.entry_path dir h) (fs_entries f)) f else f
  | _ => f
  end.

Lemma delEntry_spec dir h f :
  h ≠ "" → returns (CacheFS.delEntry dir h) (λ _ f', f' = remove_entry dir h f) f.
Proof.
  intros Hh. apply wp_bind, wp_hash_nonempty; [done|]. apply wp_bind, wp_gets. unfold remove_entry.
  destruct (fs_entries f !! CacheFS.entry_path dir h) as [[|c t]|] eqn:Hx; [|unfold sys_unlink|by apply wp_ret].
  - apply wp_bind, wp_mget. rewrite Hx. by apply wp_ret.
  - apply wp_bind, wp_mget. rewrite Hx. destruct (fs_writable f _); [apply wp_bind, wp_mput|]; by apply wp_ret.
Qed.

Lemma remove_entry_ne dir h h' f :
  h' ≠ h → fs_entries (remove_entry dir h f) !! CacheFS.entry_path dir h' = fs_entries f !! CacheFS.entry_path dir h'.
Proof.
  intros Hne. unfold remove_entry. destruct (fs_entries f !! CacheFS.entry_path dir h) as [[|c t]|]; [done| |done].
  destruct (fs_writable f _); [|done]. simpl. apply lookup_delete_ne. intros Heq. by apply entry_path_inj in Heq.
Qed.

Lemma wp_addRefs e d x Q E g :
  git_heap g !! e = Some x →
  Q tt (set_heap (<[e := mkEntry (hash x) (wrap32 (numGitRefs x + d))]> (git_heap g)) g) →
  wp (CacheGitDirectory.addRefs e d) Q E g.
Proof. intros Hx HQ. apply wp_bind, wp_mget, wp_bind. eapply wp_deref; [done|]. by apply wp_mput. Qed.

(** [holders] fits the width of the counter, with room for one more. *)
Definition refs_bounded (g : GitDir) : Prop := ∀ e, (Z.of_nat (holders g e) + 1 < 2 ^ 32)%Z.

Lemma dropPrevious_spec entry o rm prev x s :
  git_inv (Some entry) (gf_git s) → refs_bounded (gf_git s) →
  refMap o (gf_git s) = Some rm → rm !! currentGitRef_ (gf_git s) = Some prev →
  git_heap (gf_git s) !! prev = Some x →
  returns (CacheGitDirectory.dropPrevious prev entry) (λ _ s', ∃ m hp,
    gf_git s' = set_hashes m hp (gf_git s) ∧
    git_inv (Some entry) (without o (currentGitRef_ (gf_git s)) rm (gf_git s')) ∧
    if decide (holders (without o (currentGitRef_ (gf_git s)) rm (gf_git s)) prev = 0 ∧ prev ≠ entry)
    then m = delete (hash x) (gitHashMap_ (gf_git s)) ∧ hp = delete prev (git_heap (gf_git s)) ∧
         gf_fs s' = remove_entry (cacheFs_ (gf_git s)) (hash x) (gf_fs s)
    else m = gitHashMap_ (gf_git s) ∧ gf_fs s' = gf_fs s ∧
         hp = <[prev := mkEntry (hash x) (numGitRefs x - 1)]> (git_heap (gf_git s))) s.
Proof.
  destruct s as [g f]. cbn [gf_git gf_fs]. set (r := currentGitRef_ g). intros Hi Hb Ho Hr Hx.
  pose proof (gi_count _ g Hi prev x Hx) as Hc. pose proof (holders_pos o rm r g prev Ho Hr) as Hpos.
  pose proof (holders_without o rm r prev g prev Ho Hr) as Hw. unfold one_if in Hw. rewrite decide_True in Hw by done.
  specialize (Hb prev).
  assert (wrap32 (numGitRefs x + -1) = numGitRefs x - 1)%Z as Hwrap by (rewrite wrap32_small; lia).
  apply wp_bind, wp_gets, wp_bind. cbn [gf_git]. eapply wp_deref; [done|].
  apply wp_bind, wp_massert; [apply bool_decide_eq_true; lia|].
  apply wp_bind, wp_zoom. cbn [lget lset l_git gf_git gf_fs]. eapply wp_addRefs; [done|]. rewrite Hwrap.
  apply wp_bind, wp_gets. cbn [gf_git]. apply wp_bind.
  eapply wp_deref; [simpl; by rewrite lookup_insert_eq|]. cbn [numGitRefs hash].
  destruct (decide (holders (without o r rm g) prev = 0 ∧ prev ≠ entry)) as [[Hz Hne]|Hkeep].
  - rewrite (bool_decide_eq_true_2 (_ - 1 = 0)%Z) by lia. rewrite (bool_decide_eq_false_2 (prev = entry)) by done.
    cbn [andb negb]. apply wp_bind, wp_zoom. cbn [lget lset l_fs gf_git gf_fs].
    eapply wp_mono; [apply delEntry_spec; apply (gi_used _ g Hi prev x Hx)| |done].
    intros ok f' ->. apply wp_zoom, wp_modify. cbn [lget lset l_git gf_git gf_fs].
    do 2 eexists. split; [|split; [|split_and!; [reflexivity|reflexivity|reflexivity]]].
    + unfold set_heap, set_hashes. simpl. by rewrite delete_insert_eq.
    + unfold set_heap, set_hashes. simpl. rewrite delete_insert_eq.
      by apply (drop_inv_delete entry o r rm prev x g).
  - replace (bool_decide (_ - 1 = 0)%Z && negb (bool_decide (prev = entry))) with false; last first.
    { symmetry. apply andb_false_iff. destruct (decide (prev = entry)) as [->|Hne];
        [right; by rewrite bool_decide_eq_true_2|left]. apply bool_decide_eq_false. lia. }
    apply wp_ret. cbn [gf_git gf_fs]. do 2 eexists. split; [unfold set_heap; reflexivity|].
    split; [|by split_and!]. apply (drop_inv_keep entry o r rm prev x g); [done|done|done|done|].
    destruct (decide (prev = entry)); [by right|left; lia].
Qed.

(** *** Linking the new entry *)

Lemma link_inv entry o r rm x g :
  git_inv (Some entry) (without o r rm g) → refMap o g = Some rm → git_heap g !! entry = Some x →
  git_inv None (set_heap (<[entry := mkEntry (hash x) (numGitRefs x + 1)]> (git_heap g))
                 (set_refMap o (<[r := entry]> rm) g)).
Proof.
  set (g0 := without o r rm g). set (hp := <[entry := _]> (git_heap g)). intros Hi Ho Hx.
  assert (Hh0 : git_heap g0 = git_heap g) by by destruct o.
  assert (refMap o g0 = Some (delete r rm)) as Ho0 by (unfold g0, without; by rewrite refMap_set, decide_True).
  replace (set_refMap o (<[r:=entry]> rm) g) with (set_refMap o (<[r:=entry]> (delete r rm)) g0)
    by (unfold g0, without; by rewrite set_refMap_twice, insert_delete_eq).
  assert (Hold : ∀ e, holders (set_refMap o (<[r:=entry]> (delete r rm)) g0) e = one_if (entry = e) + holders g0 e).
  { intros e. pose proof (holders_set o _ (<[r:=entry]> (delete r rm)) g0 e Ho0) as H.
    unfold refs_in in H at 2. rewrite mcount_insert in H by apply lookup_delete_eq. unfold refs_in in H. lia. }
  assert (Hhp : ∀ e y, hp !! e = Some y → ∃ y0, git_heap g0 !! e = Some y0 ∧ hash y0 = hash y ∧
    numGitRefs y = (numGitRefs y0 + Z.of_nat (one_if (entry = e)))%Z).
  { rewrite Hh0. subst hp. intros e y Hy. unfold one_if. destruct (decide (entry = e)) as [<-|Hne].
    - rewrite lookup_insert_eq in Hy. simplify_eq. exists x. by split_and!.
    - rewrite lookup_insert_ne in Hy by done. exists y. split_and!; [done|done|lia]. }
  assert (Hhp' : ∀ e y, git_heap g0 !! e = Some y → ∃ y', hp !! e = Some y' ∧ hash y' = hash y).
  { rewrite Hh0. subst hp. intros e y Hy. destruct (decide (entry = e)) as [<-|Hne].
    - rewrite lookup_insert_eq. eexists. split; [done|]. simpl. congruence.
    - rewrite lookup_insert_ne by done. eauto. }
  split.
  - intros h e. replace (gitHashMap_ _) with (gitHashMap_ g0) by by destruct o. simpl. rewrite (gi_map _ g0 Hi). split.
    + intros (y & Hy & <-). destruct (Hhp' e y Hy) as (y' & ? & ?). eauto.
    + intros (y & Hy & <-). destruct (Hhp e y Hy) as (y' & ? & ? & _). eauto.
  - intros e y Hy. destruct (Hhp e y Hy) as (y0 & Hy0 & _ & ->). rewrite (gi_count _ g0 Hi e y0 Hy0).
    change (holders (set_heap hp ?g) e) with (holders g e). rewrite Hold. lia.
  - intros e y Hy. destruct (Hhp e y Hy) as (y0 & Hy0 & <- & _). destruct (gi_used _ g0 Hi e y0 Hy0) as [? Hor].
    split; [done|]. left. change (holders (set_heap hp ?g) e) with (holders g e). rewrite Hold. unfold one_if.
    case_decide as Heq; [lia|]. destruct Hor; [lia|congruence].
  - intros o' rm' r' e. unfold set_heap. rewrite refMap_set_hashes, refMap_set. intros Ho' Hr'.
    assert (is_Some (git_heap g0 !! e)) as [y Hy].
    { case_decide as Heq; [subst o'; simplify_eq|by eapply (gi_live _ g0 Hi)].
      destruct (decide (r = r')) as [<-|Hne]; [rewrite lookup_insert_eq in Hr'; simplify_eq; by rewrite Hh0, Hx|].
      rewrite lookup_insert_ne in Hr' by done. by eapply (gi_live _ g0 Hi). }
    destruct (Hhp' e y Hy) as (y' & ? & _). by exists y'.
Qed.

(** *** Registering *)

(** No other object or reference needs [h]. *)
Definition only_user (g : GitDir) (o : obj) (r h : string) : Prop :=
  ∀ o' r', (o', r') ≠ (o, r) → refhash g o' r' ≠ Some h.

(** What the registration of [h] for [o] does to the directory and to the files. *)
Record registered (h : string) (o : obj) (s s' : GF) : Prop := {
  rg_ref : currentGitRef_ (gf_git s') = currentGitRef_ (gf_git s);
  rg_dir : cacheFs_ (gf_git s') = cacheFs_ (gf_git s);
  rg_new : refhash (gf_git s') o (currentGitRef_ (gf_git s)) = Some h;
  rg_old o' r : (o', r) ≠ (o, currentGitRef_ (gf_git s)) →
    refhash (gf_git s') o' r = refhash (gf_git s) o' r;
  rg_drop h0 : refhash (gf_git s) o (currentGitRef_ (gf_git s)) = Some h0 → h0 ≠ h →
    only_user (gf_git s) o (currentGitRef_ (gf_git s)) h0 →
    gf_fs s' = remove_entry (cacheFs_ (gf_git s)) h0 (gf_fs s);
  rg_fs : gf_fs s' = gf_fs s ∨
    ∃ h0, refhash (gf_git s) o (currentGitRef_ (gf_git s)) = Some h0 ∧ h0 ≠ h ∧
      only_user (gf_git s) o (currentGitRef_ (gf_git s)) h0 ∧
      gf_fs s' = remove_entry (cacheFs_ (gf_git s)) h0 (gf_fs s);
  rg_holders e : holders (gf_git s') e ≤ S (holders (gf_git s) e);
}.

(** The entries of two states carry the same hashes. *)
Definition same_hash (g g' : GitDir) (e : N) : Prop :=
  hash <$> git_heap g' !! e = hash <$> git_heap g !! e.

Lemma refhash_same g g' o r rm rm' :
  refMap o g = Some rm → refMap o g' = Some rm' → rm' !! r = rm !! r →
  (∀ e, rm !! r = Some e → same_hash g g' e) → refhash g' o r = refhash g o r.
Proof.
  intros Ho Ho' Hr Hs. unfold refhash. rewrite Ho, Ho'. simpl. rewrite Hr. destruct (rm !! r) as [e|]; [simpl|done].
  specialize (Hs e eq_refl). unfold same_hash in Hs. destruct (git_heap g !! e), (git_heap g' !! e); naive_solver.
Qed.

Lemma only_user_holders g o r rm prev x :
  git_inv None g → refMap o g = Some rm → rm !! r = Some prev → git_heap g !! prev = Some x →
  holders (without o r rm g) prev = 0 ↔ only_user g o r (hash x).
Proof.
  intros Hi Ho Hr Hx. split.
  - intros Hz o' r' Hne (rm' & e & y & Ho' & Hr' & Hy & Hhy)%refhash_Some.
    assert (e = prev) as ->.
    { assert (gitHashMap_ g !! hash x = Some prev) by (apply (gi_map _ g Hi); eauto).
      assert (gitHashMap_ g !! hash x = Some e) by (apply (gi_map _ g Hi); eauto). congruence. }
    cut (0 < holders (without o r rm g) prev); [lia|].
    unfold without. destruct (decide (o = o')) as [<-|Hno].
    + apply (holders_pos o (delete r rm) r'); [by rewrite refMap_set, decide_True|].
      rewrite lookup_delete_ne; congruence.
    + apply (holders_pos o' rm' r'); [by rewrite refMap_set, decide_False|done].
  - intros Hu. destruct (decide (holders (without o r rm g) prev = 0)) as [?|Hn]; [done|]. exfalso.
    destruct (holders_pos_inv (without o r rm g) prev) as (o' & rm' & r' & Ho' & Hr'); [lia|].
    destruct (refMap_without o r rm g o' rm' Ho Ho' r' prev Hr') as (rm0 & H0 & H1 & Hne).
    apply (Hu o' r' Hne). apply refhash_Some. eauto 10.
Qed.

Definition linked (entry : N) (o : obj) (rm : RefMap) (x : GitCacheEntry) (g : GitDir) : GitDir :=
  set_heap (<[entry := mkEntry (hash x) (numGitRefs x + 1)]> (git_heap g))
    (set_refMap o (<[currentGitRef_ g := entry]> rm) g).

Lemma link_spec entry o rm x s :
  git_inv (Some entry) (without o (currentGitRef_ (gf_git s)) rm (gf_git s)) →
  refs_bounded (without o (currentGitRef_ (gf_git s)) rm (gf_git s)) →
  refMap o (gf_git s) = Some rm → git_heap (gf_git s) !! entry = Some x →
  returns (g ← gets gf_git; rm ← deref (refMap o g);
           zoom l_git (modify (set_refMap o (<[currentGitRef_ g := entry]> rm)));;
           zoom l_git (CacheGitDirectory.addRefs entry 1))
    (λ _ s', git_inv None (gf_git s') ∧ s' = mkGF (linked entry o rm x (gf_git s)) (gf_fs s)) s.
Proof.
  destruct s as [g f]. cbn [gf_git gf_fs]. intros Hi Hb Ho Hx.
  assert (numGitRefs x = Z.of_nat (holders (without o (currentGitRef_ g) rm g) entry)) as Hc.
  { apply (gi_count _ _ Hi). by destruct o. }
  specialize (Hb entry).
  apply wp_bind, wp_gets, wp_bind. eapply wp_deref; [done|]. apply wp_bind, wp_zoom, wp_modify.
  cbn [lget lset l_git gf_git gf_fs]. apply wp_zoom. cbn [lget lset l_git gf_git gf_fs].
  eapply wp_addRefs; [by destruct o|]. rewrite wrap32_small by lia.
  replace (git_heap (set_refMap o _ g)) with (git_heap g) by by destruct o.
  split; [|done]. by apply link_inv.
Qed.

(** The entries other references use keep their hash. *)
Definition others_same (o : obj) (g g' : GitDir) : Prop := ∀ o' rm r e,
  refMap o' g = Some rm → rm !! r = Some e → (o', r) ≠ (o, currentGitRef_ g) → same_hash g g' e.

Lemma refs_in_insert_le e rm r e' : refs_in e (<[r := e']> rm) ≤ S (refs_in e rm).
Proof.
  assert (refs_in e (delete r rm) ≤ refs_in e rm).
  { destruct (rm !! r) as [e0|] eqn:Hr; [rewrite (refs_in_delete e rm r e0 Hr); lia|by rewrite delete_id]. }
  rewrite <- insert_delete_eq. unfold refs_in at 1. rewrite mcount_insert by apply lookup_delete_eq.
  fold (refs_in e (delete r rm)). unfold one_if. case_decide; lia.
Qed.

Lemma registered_intro h o m hp rm entry x s f :
  let g := gf_git s in let g2 := set_hashes m hp g in
  refMap o g = Some rm → hp !! entry = Some x → hash x = h → others_same o g g2 →
  (∀ h0, refhash g o (currentGitRef_ g) = Some h0 → h0 ≠ h → only_user g o (currentGitRef_ g) h0 →
    f = remove_entry (cacheFs_ g) h0 (gf_fs s)) →
  (f = gf_fs s ∨ ∃ h0, refhash g o (currentGitRef_ g) = Some h0 ∧ h0 ≠ h ∧
    only_user g o (currentGitRef_ g) h0 ∧ f = remove_entry (cacheFs_ g) h0 (gf_fs s)) →
  registered h o s (mkGF (linked entry o rm x g2) f).
Proof.
  intros g g2 Ho Hx Hh Hsame Hf1 Hf2.
  assert (Hlook : ∀ o', refMap o' (linked entry o rm x g2) =
    if decide (o = o') then Some (<[currentGitRef_ g := entry]> rm) else refMap o' g).
  { intros o'. unfold linked, set_heap, g2. by rewrite refMap_set_hashes, refMap_set, refMap_set_hashes. }
  assert (Hheap : ∀ e, hash <$> git_heap (linked entry o rm x g2) !! e = hash <$> hp !! e).
  { intros e. simpl. destruct (decide (entry = e)) as [<-|Hne]; [by rewrite lookup_insert_eq, Hx|by rewrite lookup_insert_ne]. }
  split; cbn [gf_git gf_fs]; [by destruct o|by destruct o| | |exact Hf1|exact Hf2|].
  - apply refhash_Some. do 3 eexists. rewrite Hlook, decide_True by done. split_and!; [done|by rewrite lookup_insert_eq| |].
    + simpl. by rewrite lookup_insert_eq.
    + done.
  - intros o' r Hne. destruct (refMap o' g) as [rm'|] eqn:Ho'.
    + destruct (decide (o = o')) as [<-|Hno]; simplify_eq.
      * apply (refhash_same g _ o r rm (<[currentGitRef_ g := entry]> rm)); [done|by rewrite Hlook, decide_True| |].
        -- apply lookup_insert_ne. intros <-. by apply Hne.
        -- intros e He. unfold same_hash. rewrite Hheap. by apply (Hsame o rm r e).
      * apply (refhash_same g _ o' r rm' rm'); [done|by rewrite Hlook, decide_False|done|].
        intros e He. unfold same_hash. rewrite Hheap. by apply (Hsame o' rm' r e).
    + unfold refhash. fold g. rewrite Hlook, Ho'. destruct (decide (o = o')); [congruence|done].
  - intros e. change (holders (linked entry o rm x g2) e) with
      (holders (set_refMap o (<[currentGitRef_ g := entry]> rm) g2) e).
    assert (Ho2 : refMap o g2 = Some rm) by (unfold g2; by rewrite refMap_set_hashes).
    pose proof (holders_set o rm (<[currentGitRef_ g := entry]> rm) g2 e Ho2) as Hset.
    change (holders g2 e) with (holders g e) in Hset.
    pose proof (refs_in_insert_le e rm (currentGitRef_ g) entry).
    change (gf_git s) with g. lia.
Qed.

Lemma others_same_refl o g m hp :
  (∀ e x, git_heap g !! e = Some x → hp !! e = Some x) → git_inv None g → others_same o g (set_hashes m hp g).
Proof.
  intros Hhp Hi o' rm r e Ho Hr _. destruct (gi_live _ g Hi o' rm r e Ho Hr) as [x Hx].
  unfold same_hash. simpl. by rewrite Hx, (Hhp e x Hx).
Qed.

Lemma holders_without_le o r rm g e : refMap o g = Some rm → holders (without o r rm g) e ≤ holders g e.
Proof.
  intros Ho. destruct (rm !! r) as [e'|] eqn:Hr.
  - rewrite (holders_without o rm r e' g e Ho Hr). lia.
  - unfold without. rewrite delete_id, set_refMap_id by done. lia.
Qed.

Lemma registerEntry_fresh entry h o rm m hp s :
  let g := gf_git s in let g1 := set_hashes m hp g in
  git_inv None g → refs_bounded g → refMap o g = Some rm → rm !! currentGitRef_ g = None →
  git_inv (Some entry) g1 → m !! h = Some entry → (∀ e x, git_heap g !! e = Some x → hp !! e = Some x) →
  returns (g ← gets gf_git; rm ← deref (refMap o g);
           zoom l_git (modify (set_refMap o (<[currentGitRef_ g := entry]> rm)));;
           zoom l_git (CacheGitDirectory.addRefs entry 1))
    (λ _ s', git_inv None (gf_git s') ∧ registered h o s s') (mkGF g1 (gf_fs s)).
Proof.
  intros g g1 Hi Hb Ho Hr Hi1 Hm Hhp. pose proof Hi1 as Hi1'.
  assert (without o (currentGitRef_ g1) rm g1 = g1) as Hwo.
  { unfold without. simpl. rewrite delete_id by done. apply set_refMap_id. unfold g1. by rewrite refMap_set_hashes. }
  destruct (proj1 (gi_map _ g1 Hi1 h entry) Hm) as (x & Hx & Hh).
  eapply wp_mono; [eapply (link_spec entry o rm x (mkGF g1 (gf_fs s))); cbn [gf_git]| |done].
  - by rewrite Hwo.
  - rewrite Hwo. exact Hb.
  - unfold g1. by rewrite refMap_set_hashes.
  - done.
  - intros [] s' (Hinv & ->). split; [done|]. apply registered_intro; [done|done|done|by apply others_same_refl| |by left].
    intros h0 Hr0. apply refhash_Some in Hr0 as (rm0 & e0 & _ & H0 & H1 & _). fold g in H0, H1. congruence.
Qed.

Lemma registerEntry_replace entry h o rm prev m hp s :
  let g := gf_git s in let g1 := set_hashes m hp g in
  git_inv None g → refs_bounded g → refMap o g = Some rm → rm !! currentGitRef_ g = Some prev →
  git_inv (Some entry) g1 → m !! h = Some entry → (∀ e x, git_heap g !! e = Some x → hp !! e = Some x) →
  returns (CacheGitDirectory.dropPrevious prev entry;;
           g ← gets gf_git; rm ← deref (refMap o g);
           zoom l_git (modify (set_refMap o (<[currentGitRef_ g := entry]> rm)));;
           zoom l_git (CacheGitDirectory.addRefs entry 1))
    (λ _ s', git_inv None (gf_git s') ∧ registered h o s s') (mkGF g1 (gf_fs s)).
Proof.
  intros g g1 Hi Hb Ho Hr Hi1 Hm Hhp. set (r := currentGitRef_ g) in *.
  assert (Ho1 : refMap o g1 = Some rm) by (unfold g1; by rewrite refMap_set_hashes).
  destruct (gi_live _ g Hi o rm r prev Ho Hr) as [x0 Hx0].
  destruct (proj1 (gi_map _ g1 Hi1 h entry) Hm) as (x & Hx & Hh).
  pose proof (only_user_holders g o r rm prev x0 Hi Ho Hr Hx0) as Honly.
  assert (Hprev : prev = entry ↔ hash x0 = h).
  { split; [intros ->|intros Heq].
    - pose proof (Hhp _ _ Hx0). change (git_heap g1) with hp in Hx. congruence.
    - assert (m !! h = Some prev) by (apply (gi_map _ g1 Hi1); exists x0; split; [by apply Hhp|done]). congruence. }
  assert (Hrh : refhash g o r = Some (hash x0)) by (apply refhash_Some; eauto 10).
  apply wp_bind. eapply wp_mono;
    [apply (dropPrevious_spec entry o rm prev x0 (mkGF g1 (gf_fs s))); [done|exact Hb|done|done|by apply Hhp]| |done].
  cbn [gf_git gf_fs]. intros [] [g2 f2] (m2 & hp2 & Hg2 & Hi2 & Hcase). cbn [gf_git gf_fs] in *.
  change (currentGitRef_ g1) with r in *.
  assert (Hwo : ∀ e, holders (without o r rm g2) e = holders (without o r rm g) e) by (subst g2 g1; by destruct o).
  assert (Hwo1 : ∀ e, holders (without o r rm g1) e = holders (without o r rm g) e) by (subst g1; by destruct o).
  rewrite Hwo1 in Hcase. change (git_heap g1) with hp in *.
  assert (∃ x2, hp2 !! entry = Some x2 ∧ hash x2 = h) as (x2 & Hx2 & Hhx2).
  { case_decide as Hd.
    - destruct Hcase as (_ & -> & _), Hd as [_ Hne]. exists x. by rewrite lookup_delete_ne.
    - destruct Hcase as (_ & _ & ->). destruct (decide (prev = entry)) as [->|Hne].
      + rewrite lookup_insert_eq. eexists. split; [done|]. simpl. by apply Hprev.
      + exists x. by rewrite lookup_insert_ne. }
  assert (Hg2' : g2 = set_hashes m2 hp2 g) by (rewrite Hg2; done).
  assert (Hsame : others_same o g (set_hashes m2 hp2 g)).
  { intros o' rm' r' e Ho' Hr' Hne. destruct (gi_live _ g Hi o' rm' r' e Ho' Hr') as [y Hy].
    unfold same_hash. rewrite Hy. cbn [git_heap set_hashes]. case_decide as Hd.
    - destruct Hcase as (_ & -> & _), Hd as [Hz _]. rewrite lookup_delete_ne; [by rewrite (Hhp e y Hy)|].
      intros ->. apply Honly in Hz. apply (Hz o' r' Hne). apply refhash_Some. exists rm', e, y. split_and!; try done. congruence.
    - destruct Hcase as (_ & _ & ->). destruct (decide (prev = e)) as [<-|Hpe].
      + rewrite lookup_insert_eq. simpl. congruence.
      + rewrite lookup_insert_ne by done. by rewrite (Hhp e y Hy). }
  eapply wp_mono; [eapply (link_spec entry o rm x2 (mkGF g2 f2)); cbn [gf_git]| |done].
  - rewrite Hg2 in Hi2 |- *. exact Hi2.
  - intros e. rewrite Hg2 in Hwo |- *. change (currentGitRef_ _) with r. rewrite Hwo.
    pose proof (holders_without_le o r rm g e Ho). specialize (Hb e). lia.
  - rewrite Hg2'. by rewrite refMap_set_hashes.
  - by rewrite Hg2'.
  - intros [] s' (Hinv & ->). split; [done|]. cbn [gf_git gf_fs]. rewrite Hg2'.
    apply registered_intro; [done|done|done|done| |].
    + change (currentGitRef_ (gf_git s)) with r. change (gf_git s) with g. intros h0 H0 Hne Hu.
      assert (h0 = hash x0) as -> by congruence. rewrite decide_True in Hcase; [by destruct Hcase as (_ & _ & ->)|].
      split; [by apply Honly|]. intros Heq. by apply Hne, Hprev.
    + change (currentGitRef_ (gf_git s)) with r. change (gf_git s) with g. case_decide as Hd.
      * destruct Hcase as (_ & _ & ->), Hd as [Hz Hne]. right. exists (hash x0).
        split_and!; [done|by rewrite <- Hprev|by apply Honly|done].
      * left. by destruct Hcase as (_ & -> & _).
Qed.

Lemma registerEntry_spec `{Allocator} h o rm s :
  git_inv None (gf_git s) → refs_bounded (gf_git s) → h ≠ "" → CacheGitDirectory.isInRef (gf_git s) = true →
  refMap o (gf_git s) = Some rm →
  returns (CacheGitDirectory.registerEntryInRefMap h o) (λ _ s', git_inv None (gf_git s') ∧ registered h o s s') s.
Proof.
  destruct s as [g f]. cbn [gf_git]. intros Hi Hb Hh Hin Ho. apply wp_bind, wp_gets, wp_bind, wp_massert; [done|].
  apply wp_bind, wp_zoom. cbn [lget lset l_git gf_git gf_fs].
  eapply wp_mono; [by apply findEntry_spec| |done]. intros entry g' (m & hp & -> & Hi1 & Hm & Hhp).
  apply wp_bind, wp_gets. cbn [gf_git]. apply wp_bind. rewrite refMap_set_hashes. eapply wp_deref; [done|].
  change (currentGitRef_ (set_hashes m hp g)) with (currentGitRef_ g).
  destruct (rm !! currentGitRef_ g) as [prev|] eqn:Hr.
  - by apply (registerEntry_replace entry h o rm prev m hp (mkGF g f)).
  - apply wp_bind, wp_ret. by apply (registerEntry_fresh entry h o rm m hp (mkGF g f)).
Qed.

(** An empty map for an object changes nothing. *)
Lemma git_inv_new o g : git_inv None g → refMap o g = None → git_inv None (set_refMap o ∅ g).
Proof.
  intros Hi Ho. assert (Hh : git_heap (set_refMap o ∅ g) = git_heap g) by by destruct o.
  assert (Hm : gitHashMap_ (set_refMap o ∅ g) = gitHashMap_ g) by by destruct o. split.
  - rewrite Hh, Hm. apply (gi_map _ g Hi).
  - intros e x. rewrite Hh, holders_new by done. apply (gi_count _ g Hi).
  - intros e x. rewrite Hh, holders_new by done. apply (gi_used _ g Hi).
  - intros o' rm r e. rewrite Hh, refMap_set. case_decide; [by intros [= <-]|apply (gi_live _ g Hi)].
Qed.

Lemma refhash_new o g o' r : refMap o g = None → refhash (set_refMap o ∅ g) o' r = refhash g o' r.
Proof.
  intros Ho. unfold refhash. rewrite refMap_set. replace (git_heap (set_refMap o ∅ g)) with (git_heap g) by by destruct o.
  case_decide; [subst o'; by rewrite Ho|done].
Qed.

Lemma register_spec `{Allocator} h o s :
  git_inv None (gf_git s) → refs_bounded (gf_git s) → h ≠ "" → CacheGitDirectory.isInRef (gf_git s) = true →
  returns (CacheGitDirectory.register h o) (λ _ s', git_inv None (gf_git s') ∧ registered h o s s') s.
Proof.
  intros Hi Hb Hh Hin. apply wp_bind, wp_gets. destruct (refMap o (gf_git s)) as [rm|] eqn:Ho.
  { apply wp_bind, wp_ret. by apply (registerEntry_spec h o rm). }
  apply wp_bind, wp_zoom, wp_modify. destruct s as [g f]. cbn [lget lset l_git gf_git gf_fs] in *.
  assert (Hcur : currentGitRef_ (set_refMap o ∅ g) = currentGitRef_ g) by by destruct o.
  assert (Hdir : cacheFs_ (set_refMap o ∅ g) = cacheFs_ g) by by destruct o.
  eapply wp_mono; [apply (registerEntry_spec h o ∅); cbn [gf_git]| |done].
  - by apply git_inv_new.
  - intros e. rewrite holders_new by done. apply Hb.
  - done.
  - unfold CacheGitDirectory.isInRef. by rewrite Hcur.
  - by rewrite refMap_set, decide_True.
  - intros [] s' (Hi' & [H1 H2 H3 H4 H5 H6 H7]). split; [done|]. cbn [gf_git gf_fs] in *. rewrite ?Hcur, ?Hdir in *.
    split; cbn [gf_git gf_fs]; [done|done|done| | | |].
    + intros o' r Hne. rewrite H4 by done. by apply refhash_new.
    + intros h0 Hr0 Hne Hu. apply H5; [by rewrite refhash_new|done|].
      intros o' r' Hne'. rewrite refhash_new by done. by apply Hu.
    + destruct H6 as [H6|(h0 & Hr0 & Hne & Hu & H6)]; [by left|right]. exists h0.
      rewrite refhash_new in Hr0 by done. split_and!; [done|done| |done].
      intros o' r' Hne'. rewrite <- (refhash_new o) by done. by apply Hu.
    + intros e. specialize (H7 e). by rewrite holders_new in H7.
Qed.

(** The file of every hash that is referred to is in the cache. *)
Definition all_present (s : GF) : Prop := ∀ o r h,
  refhash (gf_git s) o r = Some h →
  is_Some (fs_entries (gf_fs s) !! CacheFS.entry_path (cacheFs_ (gf_git s)) h).

Lemma registered_present h o s s' :
  registered h o s s' → all_present s →
  is_Some (fs_entries (gf_fs s) !! CacheFS.entry_path (cacheFs_ (gf_git s)) h) → all_present s'.
Proof.
  intros Hreg Hall Hh o' r h' Hr. rewrite (rg_dir _ _ _ _ Hreg).
  set (cur := currentGitRef_ (gf_git s)). pose proof (rg_new _ _ _ _ Hreg) as Hnew. fold cur in Hnew.
  assert (Hold : is_Some (fs_entries (gf_fs s) !! CacheFS.entry_path (cacheFs_ (gf_git s)) h')).
  { destruct (decide ((o', r) = (o, cur))) as [[= -> ->]|Hne].
    - rewrite Hnew in Hr. by simplify_eq.
    - rewrite (rg_old _ _ _ _ Hreg) in Hr by done. by apply (Hall o' r). }
  destruct (rg_fs _ _ _ _ Hreg) as [->|(h0 & Hr0 & Hne & Hu & ->)]; [done|].
  rewrite remove_entry_ne; [done|]. intros ->.
  destruct (decide ((o', r) = (o, cur))) as [[= -> ->]|Hne'].
  - rewrite Hnew in Hr. congruence.
  - rewrite (rg_old _ _ _ _ Hreg) in Hr by done. by apply (Hu o' r).
Qed.

Lemma git_inv_empty cacheFs : git_inv None (CacheGitDirectory.new cacheFs).
Proof.
  split; simpl.
  - intros h e. rewrite lookup_empty. split; [done|]. intros (x & Hx & _). by rewrite lookup_empty in Hx.
  - intros e x. by rewrite lookup_empty.
  - intros e x. by rewrite lookup_empty.
  - intros [p|p] rm r e; simpl; by rewrite lookup_empty.
Qed.

(** C25: registering a hash for a node or a rule while the repository is on a
    reference never fails an assertion and touches no freed entry; the hash becomes
    the one of that object under that reference, every other (object, reference)
    keeps its hash, the counters stay exact, and the file of the hash that was
    replaced is removed from the cache exactly when no other object or reference
    needs it, and no other file changes. *)
Theorem register_exact `{Allocator} h o s :
  git_inv None (gf_git s) → refs_bounded (gf_git s) → h ≠ "" → CacheGitDirectory.isInRef (gf_git s) = true →
  returns (CacheGitDirectory.register h o) (λ _ s', git_inv None (gf_git s') ∧ registered h o s s' ∧
    (all_present s → is_Some (fs_entries (gf_fs s) !! CacheFS.entry_path (cacheFs_ (gf_git s)) h) → all_present s')) s.
Proof.
  intros Hi Hb Hh Hin. eapply wp_mono; [by apply register_spec| |done]. intros [] s' [Hi' Hr].
  split_and!; [done|done|by eapply registered_present].
Qed.

Definition git_main : GF := mkGF (set_ref "refs/heads/main" (CacheGitDirectory.new ".falcon/cache")) store_fs.
Lemma git_main_inv : git_inv None (gf_git git_main) ∧ refs_bounded (gf_git git_main).
Proof. split; [|done]. destruct (git_inv_empty ".falcon/cache") as [H1 H2 H3 H4]. by split. Qed.
Lemma register_exact_witness :
  returns (@CacheGitDirectory.register first_fit "h1" (ONode 7)) (λ _ s', git_inv None (gf_git s') ∧
    registered "h1" (ONode 7) git_main s' ∧
    (all_present git_main → is_Some (fs_entries (gf_fs git_main) !! CacheFS.entry_path (cacheFs_ (gf_git git_main)) "h1") →
     all_present s')) git_main.
Proof.
  apply (@register_exact first_fit "h1" (ONode 7) git_main);
    [exact (proj1 git_main_inv)|exact (proj2 git_main_inv)|done|reflexivity].
Defined.

(** Two references share an entry: replacing it in the first one keeps the file,
    replacing it in the second one removes it. *)
Example shared_entry :
  let s := mkGF (gf_git git_main) (mkFS {[".falcon/cache/h1" := File "x" 1]} (λ _, true) 0) in
  let step := λ r h, (CacheGitDirectory.updateRef (Some r);; @CacheGitDirectory.registerNode first_fit h 7) in
  match (step "a" "h1";; step "b" "h1";; step "a" "h2") s, (step "a" "h1";; step "b" "h1";; step "a" "h2";; step "b" "h3") s with
  | Ret _ s1, Ret _ s2 =>
    bool_decide (is_Some (fs_entries (gf_fs s1) !! ".falcon/cache/h1")) &&
    bool_decide (fs_entries (gf_fs s2) !! ".falcon/cache/h1" = None)
  | _, _ => false
  end = true.
Proof. vm_compute. reflexivity. Qed.
