(* ===== verification/Watchman.v ===== *)
(** * The watchman client (watchman.cpp)

    The client keeps a connection to watchman and sends it one JSON command per
    file.  What watchman and the kernel answer is the environment ([WatchEnv]): one
    answer per system call, numbered by [wm_calls]; [wm_wire] is what was written on
    the current connection.  A lost connection shows in three ways: a reset is an error
    of [read] or [write], after which the client reconnects; a write to a closed one
    raises SIGPIPE, which kills the daemon; and an answer that never comes fails an
    assertion ([no_answer_aborts]). *)

From stdpp Require Import pretty.
From Stdlib Require Import Ascii.
From S2P Require Import Prelude Fs.

Definition chars : string → list ascii := String.list_ascii_of_string.
Definition text : list ascii → string := String.string_of_list_ascii.

Inductive write_result := Wrote (n : nat) | WriteAgain | WriteFail (errno : Z).
(** One [read] and the state of the JSON parser after it. *)
Inductive read_result :=
  | ReadFail (errno : Z)
  | ReadAgain
  | ReadPartial                    (* no document yet *)
  | ReadBroken                     (* the parser throws *)
  | ReadDom (error : option string). (* a document, and its member [error] *)

Class WatchEnv := {
  socket_result : nat → option Z;    (* errno of [socket], if it fails *)
  connect_result : nat → option Z;
  start_result : nat → bool;         (* the process "watchman get-pid" succeeded *)
  write_call : nat → write_result;
  read_call : nat → read_result;
  clock : nat → Z;
}.

Record Watchman := mkWatchman {
  workingDirectory_ : string;
  isConnected_ : bool;
  wm_wire : list ascii;
  wm_calls : nat;
}.

Definition EPIPE : Z := 32.
Definition UNIX_PATH_MAX : nat := 108.
Definition socketPath_ (w : Watchman) : string := (workingDirectory_ w +:+ "/.watchman.socket")%string.
Definition newWatchman (dir : string) : option Watchman :=
  let w := mkWatchman dir false [] 0 in
  if bool_decide (String.length (socketPath_ w) < UNIX_PATH_MAX) then Some w else None.

Definition set_connected (b : bool) (w : Watchman) : Watchman :=
  mkWatchman (workingDirectory_ w) b (wm_wire w) (wm_calls w).
Definition set_wire (l : list ascii) (w : Watchman) : Watchman :=
  mkWatchman (workingDirectory_ w) (isConnected_ w) l (wm_calls w).

(** One system call: its answer is taken from the environment. *)
Definition syscall {A} (answer : nat → A) : M Watchman A :=
  w ← mget;
  mput (mkWatchman (workingDirectory_ w) (isConnected_ w) (wm_wire w) (S (wm_calls w)));;
  mret (answer (wm_calls w)).

Section client.
Context `{WatchEnv}.

Definition openWatchmanSocket : M Watchman unit :=
  w ← mget;
  massert (negb (isConnected_ w));;
  r ← syscall socket_result;
  match r with
  | Some errno => mthrow (Exception errno "unable to open the watchman's socket")
  | None =>
    r ← syscall connect_result;
    match r with
    | Some errno => mthrow (Exception errno "unable to connect to the watchman's socket")
    | None => modify (set_wire []);; modify (set_connected true)
    end
  end.

Definition startWatchmanInstance : M Watchman unit :=
  ok ← syscall start_result;
  if ok : bool then mret tt else mthrow (Exception 22 "Could not start watchman.").

Definition connectToWatchman : M Watchman unit :=
  w ← mget;
  massert (negb (isConnected_ w));;
  catch openWatchmanSocket (λ _, startWatchmanInstance;; openWatchmanSocket);;
  w ← mget;
  massert (isConnected_ w).

(** [rest] is the part of the command from index [i] on.  A [write] to a socket
    whose other end was closed does not only fail with [EPIPE]: it raises [SIGPIPE],
    which nothing in the program ignores or handles, so the process ends. *)
Fixpoint write_from (fuel : nat) (rest : list ascii) : M Watchman unit :=
  match fuel with
  | O => mabort OutOfFuel
  | S fuel =>
    if bool_decide (rest = []) then mret tt
    else
      r ← syscall write_call;
      match r with
      | Wrote n =>
        modify (λ w, set_wire (wm_wire w ++ take n rest) w);;
        write_from fuel (drop n rest)
      | WriteAgain => write_from fuel rest
      | WriteFail errno =>
        mwhen (bool_decide (errno = EPIPE)) (mabort Killed);;
        modify (set_connected false);;
        mthrow (Exception errno "unable to write command to watchman")
      end
  end.
Definition writeCommand (fuel : nat) (cmd : string) : M Watchman unit := write_from fuel (chars cmd).

(** The loop of [readAnswer].  [dom] is the variable of the source: [None] while
    it is not initialised, [Some None] when the parser has no document. *)
(** [MAX_JSON_STRING_SIZE / MAX_BUF_SIZE], 1024 / 256. *)
Definition MAX_LOOP : nat := 4.
Fixpoint read_loop (fuel loop : nat) (dom : option (option (option string))) : M Watchman (option (option string)) :=
  match fuel with
  | O => mabort OutOfFuel
  | S fuel =>
    r ← syscall read_call;
    let continue_while := λ loop dom,
      d ← deref dom;
      match d with
      | Some e => mret (Some e)
      | None => if bool_decide (S loop < MAX_LOOP) then read_loop fuel (S loop) dom else mret None
      end in
    match r with
    | ReadFail errno =>
      modify (set_connected false);;
      mthrow (Exception errno "unable to read watchman command response")
    | ReadAgain => continue_while (S loop) dom
    | ReadPartial => continue_while loop (Some None)
    | ReadBroken => mthrow (Exception 22 "json")
    | ReadDom e => continue_while loop (Some (Some e))
    end
  end.

Definition readAnswer : M Watchman unit :=
  dom ← read_loop (S MAX_LOOP) 0 None;
  match dom with
  | None => mthrow (Exception 22 "Error parsing watchman command response")
  | Some (Some error) => mthrow (Exception 22 error)
  | Some None => mret tt
  end.
End client.

(** ** The directory and the name given to watchman *)

(** [size_t] to [unsigned]: [npos] becomes the largest one. *)
Definition unsigned_pos (o : option nat) : nat :=
  match o with Some p => p | None => N.to_nat (2 ^ 32 - 1)%N end.
(** [s.resize(n)]. *)
Definition resize (n : nat) (l : list ascii) : list ascii :=
  take n l ++ replicate (n - length l) "000"%char.

Fixpoint strip_parents (fuel : nat) (dir pattern : list ascii) : list ascii * list ascii :=
  match fuel with
  | O => (dir, pattern)
  | S fuel =>
    if bool_decide (take 3 pattern = chars "../") then
      let pos := unsigned_pos (fs.find_last_slash dir) in
      strip_parents fuel (resize pos (take pos dir)) (drop 3 pattern)
    else (dir, pattern)
  end.

Definition updateTargetPath (dir pattern : list ascii) : list ascii * list ascii :=
  if bool_decide (head pattern = Some "/"%char) then
    let pos := unsigned_pos (fs.find_last_slash pattern) in
    (resize pos (take pos pattern),
     resize (length pattern - pos - 1) (drop (pos + 1) pattern))
  else strip_parents (S (length pattern)) dir pattern.

(** ** Watching a file *)

(** A string between double quotes. *)
Definition q (s : string) : string := String "034" (s +:+ String "034" "").
Definition newline : string := String "010" "".

Definition trigger_command (dir path pattern : string) (time : Z) : string :=
  "[ " +:+ q "trigger" +:+ ", " +:+ q dir +:+ ", { " +:+
  q "name" +:+ ": " +:+ q path +:+ ", " +:+
  q "expression" +:+ ": " +:+
  "   [" +:+ q "allof" +:+ ", " +:+
  "       [" +:+ q "name" +:+ ", " +:+ q pattern +:+ ", " +:+ q "wholename" +:+ "], " +:+
  "       [" +:+ q "anyof" +:+ ", " +:+
  "           [" +:+ q "not" +:+ ", " +:+ q "exists" +:+ "]," +:+
  "           [" +:+ q "since" +:+ ", " +:+ pretty time +:+ ", " +:+ q "mtime" +:+ "]]], " +:+
  q "command" +:+ ": [" +:+
  "    " +:+ q "falcon" +:+ ", " +:+ q "--set-dirty" +:+ ", " +:+ q path +:+
  "]}]" +:+ newline.

Definition trigger_del_command (dir path : string) : string :=
  "[ " +:+ q "trigger-del" +:+ ", " +:+ q dir +:+ ", " +:+ q path +:+ " " +:+ "]" +:+ newline.

Section commands.
Context `{WatchEnv}.

(** Send a command and read the answer; once more when this throws. *)
Definition send (fuel : nat) (cmd : string) : M Watchman unit :=
  catch (writeCommand fuel cmd;; readAnswer)
        (λ _, connectToWatchman;; writeCommand fuel cmd;; readAnswer).

Definition ensure_connected : M Watchman unit :=
  w ← mget;
  if isConnected_ w then mret tt else connectToWatchman.

Definition watchNode (fuel : nat) (path : string) : M Watchman unit :=
  ensure_connected;;
  w ← mget;
  let (dir, pattern) := updateTargetPath (chars (workingDirectory_ w)) (chars path) in
  now ← syscall clock;
  send fuel (trigger_command (text dir) path (text pattern) (now - 1)).

Definition unwatchNode (fuel : nat) (path : string) : M Watchman unit :=
  ensure_connected;;
  w ← mget;
  let (dir, pattern) := updateTargetPath (chars (workingDirectory_ w)) (chars path) in
  send fuel (trigger_del_command (text dir) path).

(** [watchGraph] and [unwatchGraph] on the paths of the nodes of the graph. *)
Definition watchGraph (fuel : nat) (paths : list string) : M Watchman unit :=
  ensure_connected;; foreach paths (watchNode fuel).
Definition unwatchGraph (fuel : nat) (paths : list string) : M Watchman unit :=
  ensure_connected;; foreach paths (unwatchNode fuel).
End commands.

(** ** updateTargetPath *)

Lemma resize_id n l : length l = n → resize n l = l.
Proof. intros <-. unfold resize. rewrite take_ge by done. by rewrite Nat.sub_diag, app_nil_r. Qed.

Lemma find_last_slash_app d b : "/"%char ∉ b → fs.find_last_slash (d ++ "/"%char :: b) = Some (length d).
Proof.
  intros Hb. induction d as [|c d IH]; simpl.
  - by rewrite (proj2 (find_last_slash_None b) Hb).
  - by rewrite IH.
Qed.

Lemma strip_parents_S fuel d p :
  strip_parents (S fuel) d p =
    if bool_decide (take 3 p = chars "../") then
      let pos := unsigned_pos (fs.find_last_slash d) in strip_parents fuel (resize pos (take pos d)) (drop 3 p)
    else (d, p).
Proof. done. Qed.

Lemma take3_up p : take 3 (chars "../" ++ p) = chars "../".
Proof. by destruct p. Qed.

Lemma strip_parents_step fuel d c p :
  "/"%char ∉ c →
  strip_parents (S fuel) (d ++ "/"%char :: c) (chars "../" ++ p) = strip_parents fuel d p.
Proof.
  intros Hc. rewrite strip_parents_S, bool_decide_eq_true_2 by apply take3_up.
  rewrite find_last_slash_app by done. simpl unsigned_pos. cbv zeta. rewrite take_app_length.
  by rewrite resize_id.
Qed.

(** The directory [d]/c1/.../cn. *)
Definition below (d : list ascii) (cs : list (list ascii)) : list ascii :=
  d ++ concat (map (cons "/"%char) cs).

Lemma below_snoc d cs c : below d (cs ++ [c]) = below d cs ++ "/"%char :: c.
Proof. unfold below. rewrite map_app, concat_app. simpl. by rewrite app_nil_r, app_assoc. Qed.

(** [k] times "../" and then [p]. *)
Definition up (k : nat) (p : list ascii) : list ascii := concat (replicate k (chars "../")) ++ p.

Lemma up_S k p : up (S k) p = chars "../" ++ up k p.
Proof. done. Qed.

Lemma up_length k p : length (up k p) = 3 * k + length p.
Proof. induction k as [|k IH]; [done|]. rewrite up_S, length_app, IH. change (length (chars "../")) with 3. lia. Qed.

Lemma strip_parents_up cs : ∀ fuel d p,
  length cs < fuel → Forall (λ c, "/"%char ∉ c) cs → take 3 p ≠ chars "../" →
  strip_parents fuel (below d cs) (up (length cs) p) = (d, p).
Proof.
  induction cs as [|c cs IH] using rev_ind; intros fuel d p Hf Hcs Hp.
  - destruct fuel; [simpl in Hf; lia|]. unfold below, up. cbn [map concat replicate length app].
    by rewrite app_nil_r, strip_parents_S, bool_decide_eq_false_2.
  - rewrite length_app in *. cbn [length] in *. apply Forall_app in Hcs as [Hcs Hc]. apply Forall_cons in Hc as [Hc _].
    destruct fuel; [lia|]. rewrite Nat.add_1_r, below_snoc, up_S. rewrite strip_parents_step by done. apply IH; [lia|done|done].
Qed.

(** For a path that goes up [length cs] directories from a working directory
    that has at least as many components, watchman is given the directory reached
    and the rest of the path; for an absolute path it is given the directory of the
    file and its name. *)
Theorem updateTargetPath_correct d cs p b :
  Forall (λ c, "/"%char ∉ c) cs → take 3 p ≠ chars "../" → head p ≠ Some "/"%char → "/"%char ∉ b →
  updateTargetPath (below d cs) (up (length cs) p) = (d, p) ∧
  (head (d ++ ["/"%char]) = Some "/"%char →
   updateTargetPath (below d cs) (d ++ "/"%char :: b) = (d, b)).
Proof.
  intros Hcs Hp Hh Hb. unfold updateTargetPath. split.
  - rewrite bool_decide_eq_false_2; [|by destruct cs; simpl; [|]].
    apply strip_parents_up; [|done|done]. rewrite up_length. lia.
  - intros Hd. rewrite bool_decide_eq_true_2 by (by destruct d). rewrite find_last_slash_app by done.
    simpl unsigned_pos. rewrite take_app_length, resize_id by done. f_equal.
    rewrite length_app. simpl. replace (length d + S (length b) - length d - 1) with (length b) by lia.
    rewrite drop_app, drop_ge, Nat.add_1_r by lia. replace (S (length d) - length d) with 1 by lia. simpl.
    rewrite drop_0. by apply resize_id.
Qed.

Lemma updateTargetPath_correct_witness :
  updateTargetPath (chars "/home/falcon/build/v1") (chars "../../src/main.cpp") =
    (chars "/home/falcon", chars "src/main.cpp").
Proof.
  exact (proj1 (updateTargetPath_correct (chars "/home/falcon") [chars "build"; chars "v1"] (chars "src/main.cpp") []
    ltac:(repeat constructor; vm_compute; set_solver) ltac:(done) ltac:(done) ltac:(set_solver))).
Defined.

(** A path that goes up past the first component of the working directory
    makes the position of the missing slash the largest [unsigned], and the
    directory given to watchman is padded to 2^32 - 1 characters. *)
Theorem updateTargetPath_past_root dir p :
  "/"%char ∉ dir → take 3 p ≠ chars "../" →
  let (d, pattern) := updateTargetPath dir (up 1 p) in
  N.of_nat (length d) = (2 ^ 32 - 1)%N ∧ pattern = p.
Proof.
  intros Hd Hp. unfold updateTargetPath. rewrite up_S. change (up 0 p) with p.
  rewrite bool_decide_eq_false_2 by done. rewrite length_app.
  change (length (chars "../")) with 3. change (3 + length p) with (S (S (S (length p)))).
  rewrite strip_parents_S, bool_decide_eq_true_2 by apply take3_up.
  rewrite (proj2 (find_last_slash_None dir) Hd). unfold unsigned_pos.
  set (big := N.to_nat (2 ^ 32 - 1)). assert (Hbig : N.of_nat big = (2 ^ 32 - 1)%N) by (subst big; by rewrite N2Nat.id).
  clearbody big. cbv zeta. change (drop 3 (chars "../" ++ p)) with (drop 0 p). rewrite drop_0.
  rewrite strip_parents_S, bool_decide_eq_false_2 by done. split; [|done]. rewrite <- Hbig. f_equal.
  unfold resize. rewrite length_app, length_replicate, !length_take. lia.
Qed.

Lemma updateTargetPath_past_root_witness :
  let (d, pattern) := updateTargetPath (chars "build") (up 1 (chars "main.cpp")) in
  N.of_nat (length d) = (2 ^ 32 - 1)%N ∧ pattern = chars "main.cpp".
Proof. apply updateTargetPath_past_root; [vm_compute; set_solver|done]. Defined.

(** ** Sending *)

Section sending.
Context `{WatchEnv}.

(** From the [n]th system call on, watchman listens and accepts what it is sent,
    possibly in small pieces. *)
Definition listening (n : nat) : Prop := ∀ k, n ≤ k →
  socket_result k = None ∧ connect_result k = None ∧
  (∃ j, write_call k = Wrote (S j)) ∧ read_call k = ReadDom None.

Lemma listening_S n : listening n → listening (S n).
Proof. intros Hl k Hk. apply Hl. lia. Qed.

Lemma listening_le n m : n ≤ m → listening n → listening m.
Proof. intros Hle Hl k Hk. apply Hl. lia. Qed.

Lemma wp_syscall {A} (answer : nat → A) Q E w :
  Q (answer (wm_calls w)) (mkWatchman (workingDirectory_ w) (isConnected_ w) (wm_wire w) (S (wm_calls w))) →
  wp (syscall answer) Q E w.
Proof. intros HQ. apply wp_bind, wp_mget, wp_bind, wp_mput, wp_ret. exact HQ. Qed.

(** What a run may change when everything goes well. *)
Definition sent (cmd : list ascii) (w w' : Watchman) : Prop :=
  workingDirectory_ w' = workingDirectory_ w ∧ isConnected_ w' = isConnected_ w ∧
  wm_wire w' = wm_wire w ++ cmd ∧ wm_calls w ≤ wm_calls w'.

Lemma write_from_spec fuel : ∀ rest w,
  length rest < fuel → listening (wm_calls w) →
  returns (write_from fuel rest) (λ _ w', sent rest w w') w.
Proof.
  induction fuel as [|fuel IH]; intros rest w Hf Hl; [lia|]. simpl. case_bool_decide as Hr.
  { subst. apply wp_ret. split_and!; [done|done|by rewrite app_nil_r|done]. }
  apply wp_bind, wp_syscall. destruct (Hl (wm_calls w)) as (_ & _ & [j Hj] & _); [done|]. rewrite Hj.
  apply wp_bind, wp_modify. cbn [wm_wire set_wire workingDirectory_ isConnected_ wm_calls].
  assert (0 < length rest) by (destruct rest; simpl; [done|lia]).
  eapply wp_mono; [apply IH| |done].
  - rewrite length_drop. lia.
  - by apply listening_S.
  - intros [] w' (H1 & H2 & H3 & H4). cbn [wm_wire set_wire workingDirectory_ isConnected_ wm_calls] in *.
    split_and!; [done|done| |lia]. by rewrite H3, <- app_assoc, take_drop.
Qed.

Lemma readAnswer_spec w :
  listening (wm_calls w) → returns readAnswer (λ _ w', sent [] w w') w.
Proof.
  intros Hl. unfold readAnswer. apply wp_bind. simpl. apply wp_bind, wp_syscall.
  destruct (Hl (wm_calls w)) as (_ & _ & _ & ->); [done|]. apply wp_bind. apply wp_ret. apply wp_ret. apply wp_ret.
  split_and!; simpl; [done|done|by rewrite app_nil_r|lia].
Qed.

Lemma exchange_spec fuel cmd w :
  String.length cmd < fuel → listening (wm_calls w) →
  returns (writeCommand fuel cmd;; readAnswer) (λ _ w', sent (chars cmd) w w') w.
Proof.
  intros Hf Hl. apply wp_bind. eapply wp_mono; [apply write_from_spec; [|done]| |done].
  { unfold chars. by rewrite list_ascii_length. }
  intros [] w1 (H1 & H2 & H3 & H4). eapply wp_mono; [apply readAnswer_spec; by eapply listening_le| |done].
  intros [] w2 (G1 & G2 & G3 & G4). split_and!; [congruence|congruence| |lia]. by rewrite G3, H3, app_nil_r.
Qed.

Lemma connect_spec w :
  isConnected_ w = false → listening (wm_calls w) →
  returns connectToWatchman (λ _ w', workingDirectory_ w' = workingDirectory_ w ∧ isConnected_ w' = true ∧
    wm_wire w' = [] ∧ wm_calls w ≤ wm_calls w') w.
Proof.
  intros Hc Hl. apply wp_bind, wp_mget, wp_bind, wp_massert; [by rewrite Hc|]. apply wp_bind, wp_catch.
  apply wp_bind, wp_mget, wp_bind, wp_massert; [by rewrite Hc|]. apply wp_bind, wp_syscall.
  destruct (Hl (wm_calls w)) as (-> & _); [done|]. apply wp_bind, wp_syscall. cbn [wm_calls].
  destruct (Hl (S (wm_calls w))) as (_ & -> & _); [lia|]. apply wp_bind, wp_modify, wp_modify.
  apply wp_bind, wp_mget, wp_massert; [done|]. simpl. split_and!; [done|done|done|lia].
Qed.

(** The command reached watchman on the connection that is now open. *)
Definition delivered (cmd : string) (w' : Watchman) : Prop :=
  isConnected_ w' = true ∧ ∃ pre, wm_wire w' = pre ++ chars cmd.

(** From the [n]th system call on, watchman listens, but the call [m] may fail: the
    connection is reset, or any error of [write] but the one that comes with a signal. *)
Definition listening_but (m n : nat) : Prop := ∀ k, n ≤ k →
  socket_result k = None ∧ connect_result k = None ∧
  ((∃ j, write_call k = Wrote (S j)) ∨ k = m ∧ ∃ errno, errno ≠ EPIPE ∧ write_call k = WriteFail errno) ∧
  (read_call k = ReadDom None ∨ k = m ∧ ∃ errno, read_call k = ReadFail errno).

Lemma listening_but_le m n n' : n ≤ n' → listening_but m n → listening_but m n'.
Proof. intros Hle Hl k Hk. apply Hl. lia. Qed.

Lemma listening_but_after m n : m < n → listening_but m n → listening n.
Proof. intros Hlt Hl k Hk. destruct (Hl k Hk) as (H1 & H2 & [Hw|[? _]] & [Hr|[? _]]); [done|lia..]. Qed.

(** What is left after a failed call: no connection, and [m] is in the past. *)
Definition lost (m : nat) (w w' : Watchman) : Prop :=
  workingDirectory_ w' = workingDirectory_ w ∧ isConnected_ w' = false ∧ listening (wm_calls w').

Lemma lost_after m w w1 : 
  listening_but m (wm_calls w) → wm_calls w ≤ m → lost m w (mkWatchman (workingDirectory_ w) false w1 (S m)).
Proof.
  intros Hl Hm. split_and!; [done|done|]. simpl. apply (listening_but_after m); [lia|].
  eapply listening_but_le; [|exact Hl]. lia.
Qed.

Lemma write_from_but m fuel : ∀ rest w,
  length rest < fuel → listening_but m (wm_calls w) →
  wp (write_from fuel rest) (λ _ w', sent rest w w') (λ _ w', lost m w w') w.
Proof.
  induction fuel as [|fuel IH]; intros rest w Hf Hl; [lia|]. simpl. case_bool_decide as Hr.
  { subst. apply wp_ret. split_and!; [done|done|by rewrite app_nil_r|done]. }
  apply wp_bind, wp_syscall. destruct (Hl (wm_calls w)) as (_ & _ & [[j Hj]|(Hm & errno & Hne & He)] & _); [done| |].
  - rewrite Hj. apply wp_bind, wp_modify. cbn [wm_wire set_wire workingDirectory_ isConnected_ wm_calls].
    assert (0 < length rest) by (destruct rest; simpl; [done|lia]).
    eapply wp_mono; [apply IH| |].
    + rewrite length_drop. lia.
    + eapply listening_but_le; [|exact Hl]. simpl. lia.
    + intros [] w' (H1 & H2 & H3 & H4). cbn [wm_wire set_wire workingDirectory_ isConnected_ wm_calls] in *.
      split_and!; [done|done| |lia]. by rewrite H3, <- app_assoc, take_drop.
    + intros _ w' (H1 & H2 & H3). split_and!; done.
  - rewrite He, bool_decide_eq_false_2 by done. apply wp_bind, wp_ret, wp_bind, wp_modify, wp_mthrow.
    unfold set_connected. simpl. rewrite Hm. apply lost_after; [done|lia].
Qed.

Lemma readAnswer_but m w :
  listening_but m (wm_calls w) → wp readAnswer (λ _ w', sent [] w w') (λ _ w', lost m w w') w.
Proof.
  intros Hl. unfold readAnswer. apply wp_bind. simpl. apply wp_bind, wp_syscall.
  destruct (Hl (wm_calls w)) as (_ & _ & _ & [-> |(Hm & errno & ->)]); [done| |].
  - apply wp_bind. apply wp_ret. apply wp_ret. apply wp_ret. split_and!; simpl; [done|done|by rewrite app_nil_r|lia].
  - apply wp_bind, wp_modify, wp_mthrow. unfold set_connected. simpl. rewrite Hm. apply lost_after; [done|lia].
Qed.

Lemma exchange_but m fuel cmd w :
  String.length cmd < fuel → listening_but m (wm_calls w) →
  wp (writeCommand fuel cmd;; readAnswer) (λ _ w', sent (chars cmd) w w') (λ _ w', lost m w w') w.
Proof.
  intros Hf Hl. apply wp_bind. eapply wp_mono; [apply write_from_but; [|done]| |done].
  { unfold chars. by rewrite list_ascii_length. }
  intros [] w1 (H1 & H2 & H3 & H4). eapply wp_mono; [apply (readAnswer_but m); by eapply listening_but_le| |].
  - intros [] w2 (G1 & G2 & G3 & G4). split_and!; [congruence|congruence| |lia]. by rewrite G3, H3, app_nil_r.
  - intros _ w2 (G1 & G2 & G3). split_and!; [congruence|done|done].
Qed.

Lemma send_spec m fuel cmd w :
  isConnected_ w = true → String.length cmd < fuel → listening_but m (wm_calls w) →
  returns (send fuel cmd) (λ _ w', delivered cmd w') w.
Proof.
  intros Hc Hf Hl. apply wp_catch. eapply wp_mono; [by apply (exchange_but m)| |].
  - intros [] w' (_ & H2 & H3 & _). split; [congruence|]. by exists (wm_wire w).
  - intros _ w' (_ & Hl2 & Hl3). apply wp_bind.
    eapply wp_mono; [apply connect_spec; [done|exact Hl3]| |done]. intros [] w1 (H1 & H2 & H3 & H4).
    eapply wp_mono; [apply (exchange_spec fuel cmd); [done|by eapply listening_le]| |done].
    intros [] w2 (G1 & G2 & G3 & _). split; [congruence|]. exists []. by rewrite G3, H3.
Qed.

Lemma write_killed fuel cmd w :
  0 < fuel → cmd ≠ "" → write_call (wm_calls w) = WriteFail EPIPE → writeCommand fuel cmd w = Abort Killed.
Proof.
  intros Hf Hne He. unfold writeCommand. destruct fuel as [|fuel]; [lia|]. simpl.
  rewrite bool_decide_eq_false_2 by (by destruct cmd).
  unfold syscall, mbind, M_bind, mget, mput, mret, M_ret. cbn. by rewrite He.
Qed.

Lemma trigger_not_empty dir path pattern t : trigger_command dir path pattern t ≠ "".
Proof. done. Qed.

(** The command that watches [path], sent at [now]. *)
Definition watch_command (w : Watchman) (path : string) : string :=
  let dp := updateTargetPath (chars (workingDirectory_ w)) (chars path) in
  trigger_command (text dp.1) path (text dp.2) (clock (wm_calls w) - 1).

(** [watchNode] with a connection is [send], after the clock was read. *)
Lemma watchNode_send fuel path w :
  isConnected_ w = true →
  watchNode fuel path w = send fuel (watch_command w path)
    (mkWatchman (workingDirectory_ w) (isConnected_ w) (wm_wire w) (S (wm_calls w))).
Proof.
  destruct w as [wd b wire n]. cbn [isConnected_]. intros ->.
  unfold watchNode, ensure_connected, watch_command, syscall, mbind, M_bind, mget, mput, mret, M_ret.
  cbn beta iota delta [isConnected_ workingDirectory_ wm_wire wm_calls].
  destruct (updateTargetPath _ _). reflexivity.
Qed.

Lemma watchNode_spec m fuel path w :
  isConnected_ w = true → String.length (watch_command w path) < fuel → listening_but m (S (wm_calls w)) →
  returns (watchNode fuel path) (λ _ w', delivered (watch_command w path) w') w.
Proof.
  intros Hc Hf Hl. unfold returns, wp. rewrite watchNode_send by done.
  by apply (send_spec m fuel (watch_command w path) (mkWatchman _ _ _ _)).
Qed.

(** An answer that says "error" is thrown by [readAnswer] with the connection still
    open, and the handler of [send] then asserts that it is closed. *)
Lemma send_refused_spec fuel cmd w w' e :
  writeCommand fuel cmd w = Ret tt w' → isConnected_ w' = true →
  read_call (wm_calls w') = ReadDom (Some e) →
  send fuel cmd w = Abort AssertFailed.
Proof.
  intros Hw Hc Hr. unfold send, catch.
  assert ((writeCommand fuel cmd;; readAnswer) w =
    Throw (Exception 22 e) (mkWatchman (workingDirectory_ w') (isConnected_ w') (wm_wire w') (S (wm_calls w')))) as ->.
  { unfold mbind, M_bind. rewrite Hw. unfold readAnswer, read_loop, syscall, mbind, M_bind, mget, mput, mret, M_ret.
    cbn beta iota. rewrite Hr. reflexivity. }
  unfold connectToWatchman, mbind, M_bind, mget, massert. cbn. by rewrite Hc.
Qed.
End sending.

(** C31: a client that is connected and whose watchman listens, and answers without an
    error in one read.  If at most one later call fails, a read, or a write with another
    error than [EPIPE] (so without the signal), [watchNode] reconnects if it has to and
    returns, connected, with the whole trigger command as the last thing written on the
    connection, however small the pieces [write] takes.  If the first write finds that
    watchman closed the connection ([EPIPE]), the daemon does not reconnect: [SIGPIPE]
    kills it. *)
Theorem watchNode_delivers `{WatchEnv} m fuel path w :
  isConnected_ w = true → String.length (watch_command w path) < fuel →
  (listening_but m (S (wm_calls w)) →
   returns (watchNode fuel path) (λ _ w', delivered (watch_command w path) w') w) ∧
  (write_call (S (wm_calls w)) = WriteFail EPIPE → watchNode fuel path w = Abort Killed).
Proof.
  intros Hc Hf. split; [by apply watchNode_spec|]. intros He. rewrite watchNode_send by done.
  unfold send, catch, mbind, M_bind. by rewrite write_killed by (try done; lia).
Qed.

(** An environment whose call [m] is reset, and one whose first write finds the
    connection closed. *)
Definition flaky_env (m : nat) : WatchEnv := {|
  socket_result := λ _, None; connect_result := λ _, None; start_result := λ _, true;
  write_call := λ n, if decide (n = m) then WriteFail 104 else Wrote 7;
  read_call := λ n, if decide (n = m) then ReadFail 104 else ReadDom None; clock := λ _, 100%Z |}.
Definition closed_env : WatchEnv := {|
  socket_result := λ _, None; connect_result := λ _, None; start_result := λ _, true;
  write_call := λ _, WriteFail EPIPE; read_call := λ _, ReadPartial; clock := λ _, 100%Z |}.
Definition connected_client : Watchman := mkWatchman "/home/falcon" true [] 0.

Lemma watchNode_delivers_witness :
  (∀ m, returns (@watchNode (flaky_env m) 1000 "../src/a.cpp")
    (λ _ w', delivered (@watch_command (flaky_env m) connected_client "../src/a.cpp") w') connected_client) ∧
  @watchNode closed_env 1000 "../src/a.cpp" connected_client = Abort Killed.
Proof.
  split.
  - intros m. apply (@watchNode_delivers (flaky_env m) m 1000 "../src/a.cpp" connected_client); [reflexivity|vm_compute; lia|].
    intros k Hk. split_and!; [done|done| |]; simpl; case_decide; [right; split; [done|by exists 104%Z]|left; by exists 6|
      right; split; [done|by exists 104%Z]|by left].
  - apply (@watchNode_delivers closed_env 0 1000 "../src/a.cpp" connected_client); [reflexivity|vm_compute; lia|done].
Defined.

(** If watchman answers a command with an error, the client does not report
    it: [readAnswer] throws with the connection open, and the handler that reconnects
    fails its assertion that there is no connection. *)
Theorem error_answer_aborts `{WatchEnv} fuel cmd w w' e :
  writeCommand fuel cmd w = Ret tt w' → isConnected_ w' = true →
  read_call (wm_calls w') = ReadDom (Some e) →
  send fuel cmd w = Abort AssertFailed.
Proof. apply send_refused_spec. Qed.

Definition refusing_env : WatchEnv := {|
  socket_result := λ _, None; connect_result := λ _, None; start_result := λ _, true;
  write_call := λ _, Wrote 100; read_call := λ _, ReadDom (Some "unable to resolve root");
  clock := λ _, 100%Z |}.
Lemma error_answer_aborts_witness :
  @send refusing_env 3 "[]" connected_client = Abort AssertFailed.
Proof.
  apply (@error_answer_aborts refusing_env 3 "[]" connected_client
    (mkWatchman "/home/falcon" true (chars "[]") 1) "unable to resolve root"); reflexivity.
Defined.

(** A read that gives nothing, or not the whole document. *)
Lemma read_loop_partial `{WatchEnv} fuel loop dom w :
  read_call (wm_calls w) = ReadPartial →
  let w' := mkWatchman (workingDirectory_ w) (isConnected_ w) (wm_wire w) (S (wm_calls w)) in
  read_loop (S fuel) loop dom w =
    if bool_decide (S loop < MAX_LOOP) then read_loop fuel (S loop) (Some None) w' else Ret None w'.
Proof.
  intros Hr w'. simpl. unfold syscall, mbind, M_bind, mget, mput, mret, M_ret. cbn beta iota. rewrite Hr.
  cbn. by case_bool_decide.
Qed.

Lemma readAnswer_nothing `{WatchEnv} w :
  (∀ k, wm_calls w ≤ k → read_call k = ReadPartial) →
  readAnswer w = Throw (Exception 22 "Error parsing watchman command response")
    (mkWatchman (workingDirectory_ w) (isConnected_ w) (wm_wire w) (MAX_LOOP + wm_calls w)).
Proof.
  intros Hr. unfold readAnswer, mbind, M_bind.
  change (S MAX_LOOP) with 5. do 4 (rewrite read_loop_partial by (apply Hr; simpl; lia); cbn zeta; case_bool_decide as Hm; vm_compute in Hm; try lia; clear Hm).
  reflexivity.
Qed.

(** The same happens when watchman took the command and closed the connection:
    every [read] returns nothing, and [readAnswer] gives up with the connection open. *)
Theorem no_answer_aborts `{WatchEnv} fuel cmd w w' :
  writeCommand fuel cmd w = Ret tt w' → isConnected_ w' = true →
  (∀ k, wm_calls w' ≤ k → read_call k = ReadPartial) →
  send fuel cmd w = Abort AssertFailed.
Proof.
  intros Hw Hc Hr. unfold send, catch, mbind at 1, M_bind at 1. rewrite Hw, readAnswer_nothing by done.
  unfold connectToWatchman, mbind, M_bind, mget, massert. cbn. by rewrite Hc.
Qed.

Definition mute_env : WatchEnv := {|
  socket_result := λ _, None; connect_result := λ _, None; start_result := λ _, true;
  write_call := λ _, Wrote 100; read_call := λ _, ReadPartial; clock := λ _, 100%Z |}.
Lemma no_answer_aborts_witness : @send mute_env 3 "[]" connected_client = Abort AssertFailed.
Proof.
  by apply (@no_answer_aborts mute_env 3 "[]" connected_client (mkWatchman "/home/falcon" true (chars "[]") 1)).
Defined.
