(* ===== verification/World.v ===== *)
(** * The state of the daemon and the cache manager (cache_manager.cpp)

    [World] is what the components above the graph share: the graph, the file
    system with the git directory of the cache, the policy, and the watchman
    client. *)

From S2P Require Import Prelude GraphModel Fs Cache Watchman.

Inductive Policy := CACHE_NOTHING | CACHE_EVERYTHING | CACHE_GIT_REFS.
#[export] Instance Policy_eq_dec : EqDecision Policy.
Proof. solve_decision. Defined.

Record World := mkWorld {
  w_g : GState;
  w_gf : GF;
  w_policy : Policy;
  w_dir : string;     (* the directory of [CacheManager::cacheFs_] *)
  w_wm : Watchman;
}.

Definition set_g (g : GState) (w : World) : World := mkWorld g (w_gf w) (w_policy w) (w_dir w) (w_wm w).
Definition set_gf (x : GF) (w : World) : World := mkWorld (w_g w) x (w_policy w) (w_dir w) (w_wm w).
Definition set_wm (x : Watchman) (w : World) : World := mkWorld (w_g w) (w_gf w) (w_policy w) (w_dir w) x.
Definition w_fs (w : World) : FS := gf_fs (w_gf w).
Definition set_fs (f : FS) (w : World) : World := set_gf (mkGF (gf_git (w_gf w)) f) w.

Definition l_graph : lens World GState := Lens w_g set_g.
Definition l_gf : lens World GF := Lens w_gf set_gf.
Definition l_wfs : lens World FS := Lens w_fs set_fs.
Definition l_wm : lens World Watchman := Lens w_wm set_wm.

Module CacheManager.
(** The constructor; [isGitRepository] is what libgit2 answers. *)
Definition initial_policy (isGitRepository : bool) : Policy :=
  if isGitRepository then CACHE_GIT_REFS else CACHE_EVERYTHING.
Definition new (falconDir : string) (isGitRepository : bool) (g : GState) (f : FS) (wm : Watchman) : World :=
  let dir := (falconDir +:+ "/cache")%string in
  mkWorld g (mkGF (CacheGitDirectory.new dir) f) (initial_policy isGitRepository) dir wm.

Definition gitUpdateRef (head : option string) : M World unit :=
  zoom l_gf (CacheGitDirectory.updateRef head).

(** [if (policy_ == Policy::CACHE_GIT_REFS) { m }]. *)
Definition when_git (m : M GF unit) : M World unit :=
  w ← mget; mwhen (bool_decide (w_policy w = CACHE_GIT_REFS)) (zoom l_gf m).
Definition cacheFs {A} (m : string → M FS A) : M World A :=
  w ← mget; zoom l_wfs (m (w_dir w)).

Section manager.
Context `{Allocator}.

Definition saveNode (node : N) : M World bool :=
  n ← zoom l_graph (readNode node);
  ok ← cacheFs (λ dir, CacheFS.writeEntry dir (Node.hash_ n) (Node.path_ n));
  if negb ok then mret false
  else when_git (CacheGitDirectory.registerNode (Node.hash_ n) node);; mret true.

Definition saveRule (rule : N) : M World unit :=
  r ← zoom l_graph (readRule rule);
  if Rule.isPhony r then mret tt
  else
    w ← mget;
    if bool_decide (w_policy w = CACHE_GIT_REFS) && negb (CacheGitDirectory.isInRef (gf_git (w_gf w))) then mret tt
    else
      foreach (Rule.outputs_ r) (λ o, saveNode o;; mret tt);;
      mwhen (Rule.hasDepfile r)
        (cacheFs (λ dir, CacheFS.writeEntry dir (Rule.hashDepfile_ r) (Rule.depfile_ r));; mret tt);;
      when_git (CacheGitDirectory.registerRule (Rule.hashDepfile_ r) rule).

Definition restoreNode (node : N) : M World bool :=
  n ← zoom l_graph (readNode node);
  has ← cacheFs (λ dir, CacheFS.hasEntry dir (Node.hash_ n));
  if negb has then mret false
  else
    when_git (CacheGitDirectory.registerNode (Node.hash_ n) node);;
    cacheFs (λ dir, CacheFS.readEntry dir (Node.hash_ n) (Node.path_ n)).

Definition restoreRule (rule : N) : M World bool :=
  r ← zoom l_graph (readRule rule);
  if Rule.isPhony r then mret false
  else
    found ← allM (Rule.outputs_ r) (λ o,
      n ← zoom l_graph (readNode o);
      has ← cacheFs (λ dir, CacheFS.hasEntry dir (Node.hash_ n));
      if negb has then mret false
      else when_git (CacheGitDirectory.registerNode (Node.hash_ n) o);; mret true);
    if negb found then mret false
    else
      when_git (CacheGitDirectory.registerRule (Rule.hashDepfile_ r) rule);;
      allM (Rule.outputs_ r) (λ o,
        n ← zoom l_graph (readNode o);
        cacheFs (λ dir, CacheFS.readEntry dir (Node.hash_ n) (Node.path_ n))).

Definition restoreDepfile (rule : N) : M World bool :=
  r ← zoom l_graph (readRule rule);
  cacheFs (λ dir, CacheFS.readEntry dir (Rule.hashDepfile_ r) (Rule.depfile_ r)).
End manager.
End CacheManager.
