(* ===== verification/CacheRoundtrip.v ===== *)
(** * Saving a rule and restoring it

    The outputs of a rule saved by [CacheManager::saveRule] come back with
    [CacheManager::restoreRule], whatever happens in between to the files outside
    of the cache, under either policy. *)

From S2P Require Import Prelude GraphModel Fs Cache Watchman World.

Section manager_wp.
Implicit Types w : World.

(** The git directory is usable and belongs to this cache. *)
Definition cache_ok w : Prop :=
  w_policy w = CACHE_GIT_REFS →
  git_inv None (gf_git (w_gf w)) ∧ CacheGitDirectory.isInRef (gf_git (w_gf w)) = true ∧
  cacheFs_ (gf_git (w_gf w)) = w_dir w.
(** Room in the counters for [k] more references. *)
Definition room (k : nat) w : Prop := ∀ e, (Z.of_nat (holders (gf_git (w_gf w)) e + k) + 1 < 2 ^ 32)%Z.

Definition current w : string := currentGitRef_ (gf_git (w_gf w)).

(** What an operation of the manager leaves alone. *)
Definition same_manager w w' : Prop :=
  w_g w' = w_g w ∧ w_policy w' = w_policy w ∧ w_dir w' = w_dir w ∧ current w' = current w.

Lemma same_manager_trans w1 w2 w3 : same_manager w1 w2 → same_manager w2 w3 → same_manager w1 w3.
Proof. intros (? & ? & ? & ?) (? & ? & ? & ?). split_and!; congruence. Qed.

Lemma room_le j k w : j ≤ k → room k w → room j w.
Proof. intros Hle Hr e. specialize (Hr e). lia. Qed.

Lemma room_pos k w : room (S k) w → refs_bounded (gf_git (w_gf w)).
Proof. intros Hr e. specialize (Hr e). lia. Qed.

(** Recording the hash [h] for [o]: the effect on the references and the files. *)
Definition recorded (h : string) (o : obj) w w' : Prop :=
  if decide (w_policy w = CACHE_GIT_REFS) then registered h o (w_gf w) (w_gf w') else w' = w.

Lemma when_git_spec `{Allocator} h o k w :
  cache_ok w → room (S k) w → h ≠ "" →
  returns (CacheManager.when_git (CacheGitDirectory.register h o))
    (λ _ w', same_manager w w' ∧ cache_ok w' ∧ room k w' ∧ recorded h o w w') w.
Proof.
  intros Hok Hroom Hh. apply wp_bind, wp_mget. unfold mwhen, recorded. case_bool_decide as Hp.
  - destruct (Hok Hp) as (Hi & Hin & Hd). apply wp_zoom. cbn [lget lset l_gf].
    eapply wp_mono; [apply register_spec; [done|by eapply room_pos|done|done]| |done].
    intros [] x (Hi' & Hreg). pose proof Hreg as [H1 H2 _ _ _ _ H7]. cbn [w_gf set_gf w_policy].
    rewrite decide_True by done. split_and!; [| | |done].
    + split_and!; [done|done|done|exact H1].
    + intros _. cbn [w_gf set_gf w_dir]. split_and!; [done| |congruence].
      unfold CacheGitDirectory.isInRef in *. by rewrite H1.
    + intros e. cbn [w_gf set_gf]. specialize (Hroom e). specialize (H7 e). lia.
  - apply wp_ret. rewrite decide_False by done. split_and!; try done. eapply room_le; [|done]. lia.
Qed.

(** *** Entries that can be stored *)

(** [dir] exists or can be made, and the file of [h] holds [c] or can be created. *)
Definition storable (dir : string) (f : FS) (h c : string) : Prop :=
  h ≠ "" ∧ fs.dirname (CacheFS.entry_path dir h) = dir ∧ fs_writable f (CacheFS.entry_path dir h) = true ∧
  dir ≠ "" ∧
  (fs_entries f !! dir = Some Dir ∨
   fs_entries f !! dir = None ∧ in_directory f dir = true ∧ fs_writable f dir = true) ∧
  (fs_entries f !! CacheFS.entry_path dir h = None ∨ stored dir f h c).

Lemma dir_ne_entry dir h : dir ≠ CacheFS.entry_path dir h.
Proof.
  intros Heq. apply (f_equal String.length) in Heq.
  unfold CacheFS.entry_path in Heq. rewrite !append_length in Heq. simpl in Heq. lia.
Qed.

(** A path outside of the cache. *)
Definition outside (dir path : string) : Prop := path ≠ dir ∧ ∀ h, path ≠ CacheFS.entry_path dir h.

(** [writeEntry] of a storable hash. *)
Lemma writeEntry_storable dir h c t path f :
  storable dir f h c → fs_entries f !! path = Some (File c t) → outside dir path →
  returns (CacheFS.writeEntry dir h path) (λ ok f', ok = true ∧ stored dir f' h c ∧
    fs_writable f' = fs_writable f ∧ fs_entries f' !! dir = Some Dir ∧
    ∀ p, p ≠ dir → p ≠ CacheFS.entry_path dir h → fs_entries f' !! p = fs_entries f !! p) f.
Proof.
  intros (Hh & Hdn & Hw & Hd & Hdir & Hent) Hp [Hp1 Hp2]. pose proof (dir_ne_entry dir h) as Hde.
  apply wp_bind, wp_hash_nonempty; [done|]. apply wp_bind.
  assert (returns (fs_ops.mkdir dir) (λ _ f', fs_entries f' !! dir = Some Dir ∧ fs_writable f' = fs_writable f ∧
    ∀ p, p ≠ dir → fs_entries f' !! p = fs_entries f !! p) f) as Hmk.
  { apply wp_bind, wp_gets. destruct Hdir as [H1|(H1 & H2 & H3)]; rewrite H1; [by apply wp_ret|].
    apply wp_bind, wp_mget. rewrite bool_decide_eq_true_2, H2, H3 by done. apply wp_bind, wp_mput, wp_ret.
    simpl. split_and!; [by rewrite lookup_insert_eq|done|]. intros p Hne. by rewrite lookup_insert_ne. }
  eapply wp_mono; [exact Hmk| |done]. intros ok f1 (Hd1 & Hw1 & Hframe).
  apply wp_bind, wp_gets. rewrite Hframe by congruence. destruct Hent as [Hent|[t' Hent]]; rewrite Hent.
  - apply wp_bind. eapply wp_mono; [apply copy_file_spec| |done].
    assert (can_open f1 (CacheFS.entry_path dir h) = true) as Ho.
    { unfold can_open, in_directory. rewrite Hw1, Hw, Hframe, Hent, Hdn, Hd1 by congruence. by rewrite orb_true_r. }
    intros _ f2 [[_ ?]|[-> _]]; [congruence|]. apply wp_ret. split_and!; [done| |done| |].
    + exists (fs_now f1). simpl. rewrite lookup_insert_eq, decide_False by done. unfold read_all. by rewrite Hframe, Hp.
    + simpl. by rewrite lookup_insert_ne by congruence.
    + intros p Hne Hpe. simpl. rewrite lookup_insert_ne by done. by apply Hframe.
  - apply wp_ret. split_and!; [done| |done|done|].
    + exists t'. by rewrite Hframe by congruence.
    + intros p Hne _. by apply Hframe.
Qed.

Lemma storable_frame dir f f' h c :
  storable dir f h c → fs_writable f' = fs_writable f → fs_entries f' !! dir = Some Dir →
  (fs_entries f' !! CacheFS.entry_path dir h = None ∨
   fs_entries f' !! CacheFS.entry_path dir h = fs_entries f !! CacheFS.entry_path dir h) →
  storable dir f' h c.
Proof.
  intros (Hh & Hdn & Hw & Hd & Hdir & Hent) Hw' Hd' He. split_and!; [done|done|by rewrite Hw'|done|by left|].
  destruct He as [He|He]; [by left|]. unfold stored. rewrite He. done.
Qed.
End manager_wp.

(** ** Recording *)

Lemma remove_entry_frame dir h f :
  fs_writable (remove_entry dir h f) = fs_writable f ∧
  ∀ p, p ≠ CacheFS.entry_path dir h → fs_entries (remove_entry dir h f) !! p = fs_entries f !! p.
Proof.
  unfold remove_entry. destruct (fs_entries f !! CacheFS.entry_path dir h) as [[|c t]|]; [done| |done].
  destruct (fs_writable f _); [|done]. simpl. split; [done|]. intros p Hp. by rewrite lookup_delete_ne.
Qed.

Lemma recorded_fs h x w w' :
  recorded h x w w' → cache_ok w →
  fs_writable (w_fs w') = fs_writable (w_fs w) ∧
  (∀ p, (∀ h', p ≠ CacheFS.entry_path (w_dir w) h') → fs_entries (w_fs w') !! p = fs_entries (w_fs w) !! p) ∧
  ∀ h', fs_entries (w_fs w') !! CacheFS.entry_path (w_dir w) h' = None ∨
        fs_entries (w_fs w') !! CacheFS.entry_path (w_dir w) h' = fs_entries (w_fs w) !! CacheFS.entry_path (w_dir w) h'.
Proof.
  unfold recorded. intros Hrec Hok. case_decide as Hp; [|subst; split_and!; auto].
  destruct (Hok Hp) as (_ & _ & <-). unfold w_fs.
  destruct (rg_fs _ _ _ _ Hrec) as [->|(h0 & _ & _ & _ & ->)]; [split_and!; auto|].
  destruct (remove_entry_frame (cacheFs_ (gf_git (w_gf w))) h0 (gf_fs (w_gf w))) as [H1 H2].
  split_and!; [done|intros p Hne; by apply H2|]. intros h'. destruct (decide (h' = h0)) as [->|Hne].
  - unfold remove_entry. destruct (fs_entries (gf_fs (w_gf w)) !! CacheFS.entry_path _ h0) as [[|c t]|] eqn:He;
      [by right|destruct (fs_writable _ _); [left; simpl; by rewrite lookup_delete_eq|by right]|by left].
  - right. apply H2. intros Heq. by apply entry_path_inj in Heq.
Qed.

(** The node [o] is in the cache under its hash, with content [c]. *)
Definition kept (c : N → string) (w : World) (o : N) (n : Node.t) : Prop :=
  stored (w_dir w) (w_fs w) (Node.hash_ n) (c o) ∧
  (w_policy w = CACHE_GIT_REFS →
   refhash (gf_git (w_gf w)) (ONode o) (current w) = Some (Node.hash_ n)).

Lemma recorded_kept c h x w w' o n :
  recorded h x w w' → cache_ok w → same_manager w w' → kept c w o n →
  (x = ONode o → Node.hash_ n = h) → kept c w' o n.
Proof.
  unfold recorded. intros Hrec Hok (_ & Hpol & Hdir & Hcur) [[t Ht] Href] Hx.
  case_decide as Hp; [|by subst; split; [exists t|]].
  specialize (Href Hp). destruct (Hok Hp) as (_ & _ & Hd). split.
  - exists t. rewrite Hdir. unfold w_fs in *. destruct (rg_fs _ _ _ _ Hrec) as [->|(h0 & Hr0 & Hne & Hu & ->)]; [done|].
    rewrite Hd. rewrite remove_entry_ne; [done|]. intros Heq.
    destruct (decide (x = ONode o)) as [->|Hxo]; [apply Hne; by rewrite <- Hx|].
    apply (Hu (ONode o) (current w)); [congruence|by rewrite <- Heq].
  - intros _. rewrite Hcur. destruct (decide (x = ONode o)) as [->|Hxo].
    + rewrite Hx by done. apply (rg_new _ _ _ _ Hrec).
    + rewrite (rg_old _ _ _ _ Hrec); [done|]. unfold current. congruence.
Qed.

(** ** saveRule *)

Section save.
Context `{Allocator} (outs : list N) (c : N → string) (node : N → Node.t).

(** The outputs are files outside of the cache that can be stored. *)
Definition outputs_ok (w : World) : Prop := ∀ o, o ∈ outs →
  g_nodes (w_g w) !! o = Some (node o) ∧ storable (w_dir w) (w_fs w) (Node.hash_ (node o)) (c o) ∧
  outside (w_dir w) (Node.path_ (node o)) ∧
  ∃ t, fs_entries (w_fs w) !! Node.path_ (node o) = Some (File (c o) t).
Hypothesis hash_inj : ∀ o o', o ∈ outs → o' ∈ outs → Node.hash_ (node o) = Node.hash_ (node o') → o = o'.

Lemma outputs_ok_recorded h x w w' :
  recorded h x w w' → cache_ok w → same_manager w w' → outputs_ok w →
  fs_entries (w_fs w) !! w_dir w = Some Dir → outputs_ok w' ∧ fs_entries (w_fs w') !! w_dir w' = Some Dir.
Proof.
  intros Hrec Hok (Hg & Hpol & Hdir & _) Hout Hd. destruct (recorded_fs h x w w' Hrec Hok) as (Hw & Hf & He).
  assert (fs_entries (w_fs w') !! w_dir w = Some Dir) as Hd'.
  { rewrite Hf; [done|]. intros h'. apply dir_ne_entry. }
  split; [|by rewrite Hdir]. intros o Ho. destruct (Hout o Ho) as (H1 & H2 & H3 & t & H4). rewrite Hg, Hdir.
  split_and!; [done| |done|].
  - eapply storable_frame; [exact H2|done|done|]. apply He.
  - exists t. rewrite Hf; [done|]. apply H3.
Qed.

Lemma outputs_ok_stored w f o :
  o ∈ outs → outputs_ok w → stored (w_dir w) f (Node.hash_ (node o)) (c o) →
  fs_writable f = fs_writable (w_fs w) → fs_entries f !! w_dir w = Some Dir →
  (∀ p, p ≠ w_dir w → p ≠ CacheFS.entry_path (w_dir w) (Node.hash_ (node o)) →
     fs_entries f !! p = fs_entries (w_fs w) !! p) → outputs_ok (set_fs f w).
Proof.
  intros Ho Hout Hst Hw Hd Hf o' Ho'. destruct (Hout o' Ho') as (H1 & H2 & H3 & t & H4).
  change (w_fs (set_fs f w)) with f. split_and!; [done| |done|].
  - destruct (decide (o = o')) as [<-|Hne].
    + destruct H2 as (? & ? & Hwr & ? & _). split_and!; [done|done|by rewrite Hw|done|by left|by right].
    + eapply storable_frame; [exact H2|done|done|]. right. apply Hf; [apply not_eq_sym, dir_ne_entry|].
      intros Heq. apply entry_path_inj in Heq. by apply Hne, hash_inj.
  - exists t. destruct H3 as [Hp1 Hp2]. by rewrite Hf.
Qed.

Lemma saveNode_spec k o w :
  o ∈ outs → cache_ok w → room (S k) w → outputs_ok w →
  returns (CacheManager.saveNode o) (λ _ w', same_manager w w' ∧ cache_ok w' ∧ room k w' ∧ outputs_ok w' ∧
    kept c w' o (node o) ∧ ∀ o', o' ∈ outs → kept c w o' (node o') → kept c w' o' (node o')) w.
Proof.
  intros Ho Hok Hroom Hout. destruct (Hout o Ho) as (H1 & H2 & H3 & t & H4).
  apply wp_bind, wp_zoom. cbn [lget lset l_graph]. eapply wp_readNode; [done|]. apply wp_bind, wp_bind, wp_mget.
  apply wp_zoom. cbn [lget lset l_wfs]. change (w_dir (set_g (w_g w) w)) with (w_dir w).
  change (w_fs (set_g (w_g w) w)) with (w_fs w).
  eapply wp_mono; [by eapply writeEntry_storable| |done]. intros ok f (-> & Hst & Hw & Hd & Hf). cbn [negb].
  replace (set_fs f (set_g (w_g w) w)) with (set_fs f w) by by destruct w.
  pose proof (outputs_ok_stored w f o Ho Hout Hst Hw Hd Hf) as Hout1.
  apply wp_bind. eapply wp_mono; [apply (when_git_spec _ (ONode o) k); [exact Hok|exact Hroom|apply H2]| |done].
  intros [] w' (Hsm & Hok' & Hroom' & Hrec). apply wp_ret.
  assert (Hkept : ∀ o', o' ∈ outs → kept c w o' (node o') → o' ≠ o → kept c (set_fs f w) o' (node o')).
  { intros o' Ho' [[t' Ht'] Hr'] Hne. split; [|exact Hr']. exists t'. change (w_fs (set_fs f w)) with f.
    cbn [w_dir set_fs set_gf]. rewrite Hf; [done|apply not_eq_sym, dir_ne_entry|].
    intros Heq. apply entry_path_inj in Heq. by apply Hne, hash_inj. }
  assert (kept c w' o (node o)) as Hko.
  { split.
    - assert (Hok1 : cache_ok (set_fs f w)) by exact Hok. destruct Hsm as (_ & _ & Hdir & _).
      unfold recorded in Hrec. case_decide as Hp; [|subst w'; exact Hst]. rewrite Hdir.
      destruct (rg_fs _ _ _ _ Hrec) as [He|(h0 & _ & Hne & _ & He)]; unfold w_fs; rewrite He; [exact Hst|].
      destruct Hst as [t' Ht']. exists t'. destruct (Hok Hp) as (_ & _ & Hcd).
      change (cacheFs_ (gf_git (w_gf (set_fs f w)))) with (cacheFs_ (gf_git (w_gf w))). rewrite Hcd.
      rewrite remove_entry_ne by congruence. exact Ht'.
    - intros Hp. destruct Hsm as (_ & Hpol & _ & Hcur). unfold recorded in Hrec. rewrite decide_True in Hrec by congruence.
      rewrite Hcur. apply (rg_new _ _ _ _ Hrec). }
  split_and!; [exact Hsm|done|done| |done|].
  - eapply outputs_ok_recorded; [exact Hrec|exact Hok|exact Hsm|exact Hout1|exact Hd].
  - intros o' Ho' Hk. destruct (decide (o' = o)) as [->|Hne]; [done|].
    eapply recorded_kept; [exact Hrec|exact Hok|exact Hsm|by apply Hkept|congruence].
Qed.

(** Writing another entry loses none. *)
Lemma writeEntry_mono dir h p f :
  h ≠ "" → returns (CacheFS.writeEntry dir h p) (λ _ f', ∀ h' c', stored dir f h' c' → stored dir f' h' c') f.
Proof.
  intros Hh. apply wp_bind, wp_hash_nonempty; [done|]. apply wp_bind.
  eapply wp_mono; [apply mkdir_spec| |done]. intros ok f1 (_ & Hf1 & _).
  assert (∀ h' c', stored dir f h' c' → stored dir f1 h' c') as Hmono.
  { intros h' c' [t Ht]. exists t. destruct Hf1 as [->|(Hd & _ & ->)]; [done|]. simpl.
    rewrite lookup_insert_ne; [done|]. apply dir_ne_entry. }
  apply wp_bind, wp_gets. case_eq (fs_entries f1 !! CacheFS.entry_path dir h); [by intros; apply wp_ret|intros Hnone].
  apply wp_bind. eapply wp_mono; [apply copy_file_spec| |done].
  intros _ f2 [[-> _]|[-> _]]; apply wp_ret; [done|]. intros h' c' Hs. apply stored_write_file; [|by apply Hmono].
  intros Heq. destruct (Hmono h' c' Hs) as [t Ht]. congruence.
Qed.

Definition all_kept (w : World) : Prop := ∀ o, o ∈ outs → kept c w o (node o).
Definition rule_recorded (w : World) (rule : N) (h : string) : Prop :=
  w_policy w = CACHE_GIT_REFS → refhash (gf_git (w_gf w)) (ORule rule) (current w) = Some h.

Lemma recorded_all_kept h p w w' :
  recorded h (ORule p) w w' → cache_ok w → same_manager w w' → all_kept w → all_kept w'.
Proof. intros Hrec Hok Hsm Hk o Ho. eapply recorded_kept; [done|done|done|by apply Hk|done]. Qed.

Lemma saveRule_spec k rule r w :
  g_rules (w_g w) !! rule = Some r → Rule.isPhony r = false → Rule.outputs_ r = outs → Rule.hashDepfile_ r ≠ "" →
  cache_ok w → room (length outs + S k) w → outputs_ok w →
  returns (CacheManager.saveRule rule) (λ _ w', same_manager w w' ∧ cache_ok w' ∧ room k w' ∧ all_kept w' ∧
    rule_recorded w' rule (Rule.hashDepfile_ r)) w.
Proof.
  intros Hr Hph Houts Hhd Hok Hroom Hout. apply wp_bind, wp_zoom. cbn [lget lset l_graph]. eapply wp_readRule; [done|].
  rewrite Hph. replace (set_g (w_g w) w) with w by by destruct w. apply wp_bind, wp_mget.
  replace (bool_decide _ && _) with false; last first.
  { symmetry. apply andb_false_iff. case_bool_decide as Hp; [right|by left]. by destruct (Hok Hp) as (_ & -> & _). }
  rewrite Houts. apply wp_bind.
  apply (wp_foreach (λ pre w', same_manager w w' ∧ cache_ok w' ∧ room (length outs - length pre + S k) w' ∧
    outputs_ok w' ∧ ∀ o, o ∈ pre → kept c w' o (node o))).
  - split_and!; [done|done| |done|set_solver]. simpl. by rewrite Nat.sub_0_r.
  - intros pre o post w1 Heq (Hsm & Hok1 & Hroom1 & Hout1 & Hk1). apply wp_bind.
    rewrite Heq, length_app in Hroom1. simpl in Hroom1.
    eapply wp_mono; [apply (saveNode_spec (length post + S k) o); [rewrite Heq; set_solver|done| |done]| |done].
    + eapply room_le; [|exact Hroom1]. lia.
    + intros ok w2 (Hsm2 & Hok2 & Hroom2 & Hout2 & Hko & Hothers). apply wp_ret.
      split_and!; [by eapply same_manager_trans|done| |done|].
      * eapply room_le; [|exact Hroom2]. rewrite Heq, !length_app. simpl. lia.
      * intros o' [Ho'|Ho']%elem_of_app; [|apply list_elem_of_singleton in Ho'; by subst].
        apply Hothers; [rewrite Heq; set_solver|by apply Hk1].
  - intros w1 (Hsm & Hok1 & Hroom1 & Hout1 & Hk1). rewrite Nat.sub_diag in Hroom1. simpl in Hroom1. apply wp_bind.
    assert (Hdep : returns (mwhen (Rule.hasDepfile r) (CacheManager.cacheFs (λ dir,
        CacheFS.writeEntry dir (Rule.hashDepfile_ r) (Rule.depfile_ r));; mret tt))
      (λ _ w2, same_manager w1 w2 ∧ cache_ok w2 ∧ room (S k) w2 ∧ all_kept w2) w1).
    { unfold mwhen. destruct (Rule.hasDepfile r); [|by apply wp_ret]. apply wp_bind, wp_bind, wp_mget, wp_zoom.
      cbn [lget lset l_wfs]. eapply wp_mono; [by apply writeEntry_mono| |done]. intros ok f Hf. apply wp_ret.
      split_and!; [done|exact Hok1|exact Hroom1|]. intros o Ho. destruct (Hk1 o Ho) as [Hs Hre].
      split; [by apply Hf|exact Hre]. }
    eapply wp_mono; [exact Hdep| |done]. intros [] w2 (Hsm2 & Hok2 & Hroom2 & Hk2).
    eapply wp_mono; [by apply (when_git_spec _ (ORule rule) k)| |done].
    intros [] w3 (Hsm3 & Hok3 & Hroom3 & Hrec). split_and!; [|done|done|by eapply recorded_all_kept|].
    + eapply same_manager_trans; [|done]. by eapply same_manager_trans.
    + intros Hp. destruct Hsm3 as (_ & Hpol & _ & Hcur). unfold recorded in Hrec.
      rewrite decide_True in Hrec by congruence. rewrite Hcur. apply (rg_new _ _ _ _ Hrec).
Qed.
End save.

(** ** restoreRule *)

(** Recording a hash that is the current one already. *)
Lemma recorded_again h x w w' :
  recorded h x w w' → (w_policy w = CACHE_GIT_REFS → refhash (gf_git (w_gf w)) x (current w) = Some h) →
  w_fs w' = w_fs w ∧
  ∀ x', w_policy w = CACHE_GIT_REFS → refhash (gf_git (w_gf w')) x' (current w) = refhash (gf_git (w_gf w)) x' (current w).
Proof.
  unfold recorded. intros Hrec Href. case_decide as Hp; [|by subst]. specialize (Href Hp). split.
  - destruct (rg_fs _ _ _ _ Hrec) as [?|(h0 & Hr0 & Hne & _)]; [done|]. unfold current in Href. congruence.
  - intros x' _. destruct (decide (x' = x)) as [->|Hne].
    + rewrite Href. apply (rg_new _ _ _ _ Hrec).
    + apply (rg_old _ _ _ _ Hrec). congruence.
Qed.

Lemma can_open_write f p p' c :
  can_open f p = true → can_open f p' = true → can_open (write_file p' c f) p = true.
Proof.
  unfold can_open. intros Hp [Hw' Hc']%andb_true_iff. simpl.
  apply andb_true_iff in Hp as [Hw Hc]. rewrite Hw. simpl. destruct (decide (p' = p)) as [->|Hne].
  - by rewrite lookup_insert_eq.
  - rewrite lookup_insert_ne by done. destruct (fs_entries f !! p) as [[|? ?]|] eqn:Hpe; [done|done|].
    unfold in_directory in *. apply orb_true_iff in Hc as [->|Hc]; [done|]. simpl. apply orb_true_iff. right.
    destruct (decide (p' = fs.dirname p)) as [->|Hnd]; [|by rewrite lookup_insert_ne].
    destruct (fs_entries f !! fs.dirname p) as [[|]|]; [done|done|done].
Qed.

Section restore.
Context `{Allocator} (outs : list N) (c : N → string) (node : N → Node.t).
Hypothesis path_inj : ∀ o o', o ∈ outs → o' ∈ outs → Node.path_ (node o) = Node.path_ (node o') → o = o'.

(** The outputs can be written, outside of the cache. *)
Definition writable_outputs (w : World) : Prop := ∀ o, o ∈ outs →
  g_nodes (w_g w) !! o = Some (node o) ∧ Node.hash_ (node o) ≠ "" ∧
  outside (w_dir w) (Node.path_ (node o)) ∧ can_open (w_fs w) (Node.path_ (node o)) = true.

Lemma register_outputs_spec k rule h w :
  cache_ok w → room (length outs + k) w → writable_outputs w → all_kept outs c node w → rule_recorded w rule h →
  returns (allM outs (λ o,
      n ← zoom l_graph (readNode o);
      has ← CacheManager.cacheFs (λ dir, CacheFS.hasEntry dir (Node.hash_ n));
      if negb has then mret false
      else CacheManager.when_git (CacheGitDirectory.registerNode (Node.hash_ n) o);; mret true))
    (λ ok w', ok = true ∧ same_manager w w' ∧ w_fs w' = w_fs w ∧ cache_ok w' ∧ room k w' ∧
       all_kept outs c node w' ∧ rule_recorded w' rule h) w.
Proof.
  intros Hok Hroom Hwr Hk Hrule.
  apply (wp_allM (λ pre w', same_manager w w' ∧ w_fs w' = w_fs w ∧ cache_ok w' ∧
    room (length outs - length pre + k) w' ∧ all_kept outs c node w' ∧ rule_recorded w' rule h)).
  - split_and!; try done. simpl. by rewrite Nat.sub_0_r.
  - intros pre o post w1 Heq (Hsm & Hfs & Hok1 & Hroom1 & Hk1 & Hrule1). assert (o ∈ outs) as Ho by (rewrite Heq; set_solver).
    destruct (Hwr o Ho) as (Hn & Hh & _). pose proof Hsm as (Hg & Hpol & Hdir & Hcur).
    apply wp_bind, wp_zoom. cbn [lget lset l_graph]. eapply wp_readNode; [by rewrite Hg|].
    replace (set_g (w_g w1) w1) with w1 by by destruct w1. apply wp_bind, wp_bind, wp_mget, wp_zoom.
    cbn [lget lset l_wfs]. apply wp_bind, wp_hash_nonempty; [done|]. apply wp_bind, wp_gets, wp_ret.
    destruct (Hk1 o Ho) as [[t Ht] Href]. rewrite Ht, bool_decide_eq_true_2 by done. cbn [negb].
    replace (set_fs (w_fs w1) w1) with w1 by by destruct w1 as [? [? ?] ? ? ?]. apply wp_bind.
    eapply wp_mono; [apply (when_git_spec _ (ONode o) (length post + k)); [done| |done]| |done].
    { eapply room_le; [|exact Hroom1]. rewrite Heq, !length_app. simpl. lia. }
    intros [] w2 (Hsm2 & Hok2 & Hroom2 & Hrec). apply wp_ret.
    destruct (recorded_again _ _ _ _ Hrec Href) as [Hfs2 Hsame]. pose proof Hsm2 as (_ & Hpol2 & _ & Hcur2).
    split_and!; [done|by eapply same_manager_trans|congruence|done| | |].
    + eapply room_le; [|exact Hroom2]. rewrite Heq, !length_app. simpl. lia.
    + intros o' Ho'. eapply recorded_kept; [done|done|done|by apply Hk1|]. by intros [= ->].
    + intros Hp. rewrite Hcur2, Hsame by congruence. apply Hrule1. congruence.
  - intros w1 (Hsm & Hfs & Hok1 & Hroom1 & Hk1 & Hrule1). rewrite Nat.sub_diag in Hroom1. by split_and!.
Qed.

Lemma read_outputs_spec w :
  writable_outputs w → all_kept outs c node w →
  returns (allM outs (λ o,
      n ← zoom l_graph (readNode o);
      CacheManager.cacheFs (λ dir, CacheFS.readEntry dir (Node.hash_ n) (Node.path_ n))))
    (λ ok w', ok = true ∧ ∀ o, o ∈ outs → ∃ t, fs_entries (w_fs w') !! Node.path_ (node o) = Some (File (c o) t)) w.
Proof.
  intros Hwr Hk.
  apply (wp_allM (λ pre w', w_g w' = w_g w ∧ w_dir w' = w_dir w ∧ (∀ o, o ∈ outs → can_open (w_fs w') (Node.path_ (node o)) = true) ∧
    (∀ o, o ∈ outs → stored (w_dir w) (w_fs w') (Node.hash_ (node o)) (c o)) ∧
    ∀ o, o ∈ pre → ∃ t, fs_entries (w_fs w') !! Node.path_ (node o) = Some (File (c o) t))).
  - split_and!; [done|done|intros o Ho; by apply Hwr|intros o Ho; by apply Hk|set_solver].
  - intros pre o post w1 Heq (Hg & Hdir & Hopen & Hst & Hdone). assert (o ∈ outs) as Ho by (rewrite Heq; set_solver).
    destruct (Hwr o Ho) as (Hn & Hh & Hout & _). apply wp_bind, wp_zoom. cbn [lget lset l_graph].
    eapply wp_readNode; [by rewrite Hg|]. replace (set_g (w_g w1) w1) with w1 by by destruct w1.
    apply wp_bind, wp_mget, wp_zoom. cbn [lget lset l_wfs]. rewrite Hdir.
    eapply wp_mono; [apply readEntry_spec; [done|by apply Hst]| |done]. intros ok f (-> & Hf & _).
    rewrite (Hf (Hopen o Ho) (proj2 Hout _)). cbn [w_g w_dir set_fs set_gf]. split_and!; [done|done|done| | |].
    + intros o' Ho'. change (w_fs (set_fs ?f w1)) with f. apply can_open_write; by apply Hopen.
    + intros o' Ho'. change (w_fs (set_fs ?f w1)) with f. apply stored_write_file; [apply Hout|by apply Hst].
    + intros o' Ho'. change (w_fs (set_fs ?f w1)) with f. simpl. destruct (decide (o' = o)) as [->|Hne].
      * rewrite lookup_insert_eq. by eexists.
      * apply elem_of_app in Ho' as [Ho'|Ho']; [|set_solver].
        rewrite lookup_insert_ne; [by apply Hdone|]. intros Hp. apply Hne. symmetry. apply path_inj; [done|rewrite Heq; set_solver|done].
  - intros w1 (_ & _ & _ & _ & Hdone). done.
Qed.

Lemma restoreRule_spec rule r w :
  g_rules (w_g w) !! rule = Some r → Rule.isPhony r = false → Rule.outputs_ r = outs → Rule.hashDepfile_ r ≠ "" →
  cache_ok w → room (length outs + 1) w → writable_outputs w → all_kept outs c node w →
  rule_recorded w rule (Rule.hashDepfile_ r) →
  returns (CacheManager.restoreRule rule) (λ ok w', ok = true ∧
    ∀ o, o ∈ outs → ∃ t, fs_entries (w_fs w') !! Node.path_ (node o) = Some (File (c o) t)) w.
Proof.
  intros Hr Hph Houts Hhd Hok Hroom Hwr Hk Hrule. apply wp_bind, wp_zoom. cbn [lget lset l_graph].
  eapply wp_readRule; [done|]. rewrite Hph. replace (set_g (w_g w) w) with w by by destruct w. rewrite Houts.
  apply wp_bind. eapply wp_mono; [by apply (register_outputs_spec 1 rule (Rule.hashDepfile_ r))| |done].
  intros ok w1 (-> & Hsm & Hfs & Hok1 & Hroom1 & Hk1 & Hrule1). cbn [negb]. apply wp_bind.
  eapply wp_mono; [by apply (when_git_spec _ (ORule rule) 0)| |done].
  intros [] w2 (Hsm2 & Hok2 & _ & Hrec). destruct (recorded_again _ _ _ _ Hrec Hrule1) as [Hfs2 _].
  apply read_outputs_spec.
  - destruct Hsm as (Hg & _ & Hdir & _), Hsm2 as (Hg2 & _ & Hdir2 & _). intros o Ho.
    rewrite Hg2, Hg, Hdir2, Hdir, Hfs2, Hfs. by apply Hwr.
  - intros o Ho. eapply recorded_kept; [done|done|done|by apply Hk1|done].
Qed.
End restore.

(** A command that leaves the cache alone and the outputs writable. *)
Definition leaves_cache (dir : string) (paths : list string) (cmd : FS → FS) : Prop :=
  ∀ f, (∀ h, fs_entries (cmd f) !! CacheFS.entry_path dir h = fs_entries f !! CacheFS.entry_path dir h) ∧
       ∀ p, p ∈ paths → can_open (cmd f) p = true.


Definition cached_node (path h : string) : Node.t := Node.mk path h "" (Some 10%N) [] true false OUT_OF_DATE 0.
Definition two_nodes (o : N) : Node.t := if decide (o = 1%N) then cached_node "a.o" "h1" else cached_node "b.o" "h2".
Definition two_outputs : Rule.t := Rule.mk [] [1; 2]%N 0 "cc" "" OUT_OF_DATE "h" "hd" 0 0.
Definition two_contents (o : N) : string := if decide (o = 1%N) then "one" else "two".
Definition cached_world : World :=
  mkWorld (mkG {[1%N := two_nodes 1; 2%N := two_nodes 2]} {[10%N := two_outputs]} Graph.new)
    (mkGF (gf_git git_main)
       (mkFS {["a.o" := File "one" 1; "b.o" := File "two" 1; ".falcon" := Dir]} (λ _, true) 5))
    CACHE_GIT_REFS ".falcon/cache" (mkWatchman "/" false [] 0).
Definition clobber (f : FS) : FS :=
  mkFS (<["a.o" := File "" 7]> (<["b.o" := File "x" 7]> (fs_entries f))) (λ _, true) 7.

Lemma cached_world_outputs : outputs_ok [1; 2]%N two_contents two_nodes cached_world.
Proof.
  assert (∀ p, p = "a.o" ∨ p = "b.o" → outside ".falcon/cache" p) as Hout.
  { intros p [-> | ->]; split; [done| |done|]; intros h Heq; unfold CacheFS.entry_path in Heq; simpl in Heq; discriminate Heq. }
  intros o [->|[->|[]%not_elem_of_nil]%elem_of_cons]%elem_of_cons.
  - split_and!; [reflexivity| |apply Hout; by left|by exists 1%Z].
    split_and!; try (vm_compute; reflexivity); [done|done| |by left]. right. split_and!; vm_compute; reflexivity.
  - split_and!; [reflexivity| |apply Hout; by right|by exists 1%Z].
    split_and!; try (vm_compute; reflexivity); [done|done| |by left]. right. split_and!; vm_compute; reflexivity.
Qed.

Lemma clobber_leaves_cache : leaves_cache ".falcon/cache" ["a.o"; "b.o"] clobber.
Proof.
  intros f. split.
  - intros h. simpl. rewrite !lookup_insert_ne; [done| |]; intros Heq; unfold CacheFS.entry_path in Heq; simpl in Heq; discriminate Heq.
  - intros p [->|[->|[]%not_elem_of_nil]%elem_of_cons]%elem_of_cons; unfold can_open; simpl.
    + by rewrite lookup_insert_eq.
    + rewrite lookup_insert_ne by done. by rewrite lookup_insert_eq.
Qed.

Lemma two_nodes_cases (P : N → N → Prop) :
  P 1%N 1%N → P 1%N 2%N → P 2%N 1%N → P 2%N 2%N →
  ∀ o o', o ∈ [1; 2]%N → o' ∈ [1; 2]%N → P o o'.
Proof.
  intros H1 H2 H3 H4 o o' [->|[->|[]%not_elem_of_nil]%elem_of_cons]%elem_of_cons
    [->|[->|[]%not_elem_of_nil]%elem_of_cons]%elem_of_cons; done.
Qed.


(** ** Detached head *)

(** [saveRule] checks that the repository is on a reference; [restoreNode] and
    [restoreRule] do not, and the git directory asserts it. *)
Lemma register_detached `{Allocator} h o s :
  CacheGitDirectory.isInRef (gf_git s) = false → CacheGitDirectory.register h o s = Abort AssertFailed.
Proof.
  intros Hin. unfold CacheGitDirectory.register, CacheGitDirectory.registerEntryInRefMap, mbind, M_bind, gets.
  destruct s as [g f]. cbn [gf_git] in *. destruct (refMap o g) as [rm|]; simpl.
  - unfold massert. by rewrite Hin.
  - unfold massert, CacheGitDirectory.isInRef in *. replace (currentGitRef_ (set_refMap o ∅ g)) with (currentGitRef_ g) by by destruct o.
    by rewrite Hin.
Qed.

(** With the git policy and a detached head, restoring a node that is in the
    cache ends the daemon: [registerNode] is called without the check [saveRule]
    makes, and its assertion that the repository is on a reference fails. *)
Theorem restore_detached_aborts `{Allocator} node n w :
  w_policy w = CACHE_GIT_REFS → CacheGitDirectory.isInRef (gf_git (w_gf w)) = false →
  g_nodes (w_g w) !! node = Some n → Node.hash_ n ≠ "" →
  is_Some (fs_entries (w_fs w) !! CacheFS.entry_path (w_dir w) (Node.hash_ n)) →
  CacheManager.restoreNode node w = Abort AssertFailed.
Proof.
  intros Hp Hin Hn Hh [x Hx]. destruct w as [g [gd f] pol dir wm]. cbn [w_policy w_gf gf_git w_g w_dir] in *.
  change (w_fs (mkWorld g (mkGF gd f) pol dir wm)) with f in Hx. subst pol.
  assert (CacheFS.hasEntry dir (Node.hash_ n) f = Ret true f) as Hhas.
  { unfold CacheFS.hasEntry, stat, CacheFS.nonempty, massert, mbind, M_bind, gets, mret, M_ret.
    rewrite bool_decide_eq_false_2 by done. cbn [negb]. by rewrite Hx, bool_decide_eq_true_2. }
  unfold CacheManager.restoreNode, CacheManager.cacheFs, CacheManager.when_git, zoom, mbind, M_bind, mget, readNode, deref.
  cbn [lget lset l_graph l_wfs w_g w_dir set_g]. rewrite Hn. unfold w_fs, set_fs, set_g. cbn [w_gf gf_fs gf_git w_dir w_g w_policy w_wm].
  rewrite Hhas. cbn [negb w_policy set_fs set_gf]. rewrite bool_decide_eq_true_2 by done.
  unfold mwhen, zoom, CacheGitDirectory.registerNode. cbn [lget l_gf w_gf set_fs set_gf gf_git]. by rewrite register_detached.
Qed.

Definition detached_world : World :=
  mkWorld (w_g cached_world)
    (mkGF (CacheGitDirectory.new ".falcon/cache") (mkFS {[".falcon/cache/h1" := File "one" 1]} (λ _, true) 5))
    CACHE_GIT_REFS ".falcon/cache" (mkWatchman "/" false [] 0).
Lemma restore_detached_aborts_witness : @CacheManager.restoreNode first_fit 1 detached_world = Abort AssertFailed.
Proof.
  apply (@restore_detached_aborts first_fit 1 (two_nodes 1)); [reflexivity|reflexivity|reflexivity|done|].
  exists (File "one" 1). vm_compute. reflexivity.
Defined.
