(* ===== verification/Hash.v ===== *)
(** * Hashes of nodes and rules (graph_hash.cpp), implicit dependencies (depfile.cpp)

    The hash of a source file is the digest of its path and content, the hash of
    an output the one of its path and the hash of its rule, the hash of a rule the one
    of the hashes of its inputs and its command.  A second hash, the one of the
    depfile, leaves out the implicit inputs.  SHA-256 is OpenSSL's: a function to 32
    bytes, and all that is used of it is that it is one. *)

From Stdlib Require Import Ascii.
From S2P Require Import Prelude GraphModel DepfileParser Fs Cache Watchman World.

Class SHA256 := {
  sha256 : string → list N;
  sha256_length s : length (sha256 s) = 32;
  sha256_bytes s : Forall (λ b, b < 256)%N (sha256 s);
}.

(** ** Hasher *)

(** [sprintf("%02x")] of a byte. *)
Definition hex_digit (d : N) : ascii :=
  ascii_of_N (if (d <? 10)%N then 48 + d else 87 + d)%N.
Definition hex_byte (b : N) : list ascii := [hex_digit (b / 16)%N; hex_digit (b mod 16)%N].
Definition hex (l : list N) : string := String.string_of_list_ascii (l ≫= hex_byte).

Section hash.
Context `{SHA256}.

(** [Hasher hasher; hasher << s1 << s2 ...; hasher.get()]: the updates of a
    context amount to one update with the concatenation. *)
Definition Hasher (l : list string) : string := hex (sha256 (foldr String.append "" l)).

Definition updateNodeHash (p : N) (recomputeHash recomputeHashDeps : bool) : M World bool :=
  massert (recomputeHash || recomputeHashDeps);;
  n ← zoom l_graph (readNode p);
  match Node.childRule_ n with
  | None =>
    f ← gets w_fs;
    let hash := Hasher [Node.path_ n; read_all f (Node.path_ n)] in
    changed ← (if recomputeHash then
                 n ← zoom l_graph (readNode p);
                 zoom l_graph (updNode p (Node.setHash hash));;
                 mret (negb (bool_decide (Node.hash_ n = hash)))
               else mret false);
    if recomputeHashDeps then
      n ← zoom l_graph (readNode p);
      zoom l_graph (updNode p (Node.setHashDepfile hash));;
      mret (changed || negb (bool_decide (Node.hash_ n = hash)))
    else mret changed
  | Some c =>
    changed ← (if recomputeHash then
                 child ← zoom l_graph (readRule c);
                 massert (negb (bool_decide (Rule.hash_ child = "")));;
                 let hash := Hasher [Node.path_ n; Rule.hash_ child] in
                 n ← zoom l_graph (readNode p);
                 zoom l_graph (updNode p (Node.setHash hash));;
                 mret (negb (bool_decide (Node.hash_ n = hash)))
               else mret false);
    if recomputeHashDeps then
      child ← zoom l_graph (readRule c);
      massert (negb (bool_decide (Rule.hashDepfile_ child = "")));;
      let hash := Hasher [Node.path_ n; Rule.hashDepfile_ child] in
      n ← zoom l_graph (readNode p);
      zoom l_graph (updNode p (Node.setHashDepfile hash));;
      mret (changed || negb (bool_decide (Node.hashDepfile_ n = hash)))
    else mret changed
  end.

(** The inputs with an index below [inputs.size() - getNumImplicitInputs()], an
    unsigned subtraction. *)
Definition explicit_inputs (r : Rule.t) : list N :=
  let size := length (Rule.inputs_ r) in
  if bool_decide (Rule.numImplicitDeps_ r ≤ size) then take (size - Rule.numImplicitDeps_ r) (Rule.inputs_ r)
  else Rule.inputs_ r.

(** The hashes of some inputs, each asserted not to be empty. *)
Definition input_hashes (get : Node.t → string) (l : list N) : M World (list string) :=
  foldM l [] (λ acc i,
    n ← zoom l_graph (readNode i);
    massert (negb (bool_decide (get n = "")));;
    mret (acc ++ [get n])).

Definition updateRuleHash (p : N) (recomputeHash recomputeHashDeps : bool) : M World unit :=
  r ← zoom l_graph (readRule p);
  mwhen recomputeHash (
    hs ← input_hashes Node.hash_ (Rule.inputs_ r);
    zoom l_graph (updRule p (Rule.setHash (Hasher (hs ++ [Rule.command_ r])))));;
  mwhen recomputeHashDeps (
    hs ← input_hashes Node.hashDepfile_ (explicit_inputs r);
    zoom l_graph (updRule p (Rule.setHashDepfile (Hasher (hs ++ [Rule.command_ r]))))).
End hash.

(** ** Depfile *)

(** A pointer to the watchman client, or null. *)
Inductive Res := SUCCESS | ERROR_CANNOT_OPEN | ERROR_INVALID_FILE.
#[export] Instance Res_eq_dec : EqDecision Res.
Proof. solve_decision. Defined.

(** Bytes of a depfile as a string. *)
Definition string_of_bytes (l : list Z) : string :=
  String.string_of_list_ascii ((λ z, ascii_of_N (Z.to_N (z mod 256))) <$> l).

Section depfile.
Context `{Allocator} `{SHA256} `{WatchEnv}.
(** The bound given to the loop that writes to watchman. *)
Variable wm_fuel : nat.

Definition setRuleDependency (dep : string) (rule : N) (watchmanClient : bool) : M World N :=
  g ← gets (g_graph ∘ w_g);
  let itFind := Graph.nodes_ g !! dep in
  x ← match itFind with
      | None =>
        target ← zoom l_graph (newNode (Node.new dep false));
        updateNodeHash target true true;;
        mret (target, false)
      | Some target =>
        r ← zoom l_graph (readRule rule);
        mret (target, Rule.isInput target r)
      end;
  let target := x.1 in
  if (x.2 : bool) then mret target
  else
    zoom l_graph (updRule rule (Rule.addImplicitInput target));;
    n ← zoom l_graph (readNode target);
    mwhen (negb (Node.hasParent rule n)) (zoom l_graph (updNode target (Node.addParentRule rule)));;
    mwhen (bool_decide (itFind = None)) (zoom l_graph (Graph_addNode target));;
    n ← zoom l_graph (readNode target);
    (if Node.isDirty n && negb (Node.isSource n)
     then zoom l_graph (Rule_markInputDirty rule)
     else zoom l_graph (Rule_markInputReady rule));;
    mwhen watchmanClient
      (catch (zoom l_wm (watchNode wm_fuel (Node.path_ n))) (λ _, mabort AssertFailed));;
    mret target.

(** The nodes left in the set of old implicit dependencies. *)
Definition dropDependency (rule implicitDep : N) : M World unit :=
  zoom l_graph (
    Node_removeParentRule implicitDep rule;;
    n ← readNode implicitDep;
    mwhen (bool_decide (Node.parentRules_ n = []) && Node.isSource n) (
      updGraph (λ g, Graph.setNodes (delete (Node.path_ n) (Graph.nodes_ g)) g);;
      updGraph (λ g, Graph.setRoots (Graph.roots_ g ∖ {[implicitDep]}) g);;
      updGraph (λ g, Graph.setSources (Graph.sources_ g ∖ {[implicitDep]}) g);;
      deleteNode implicitDep)).

(** The first loop of [load]: the implicit inputs, from the last one back. *)
Definition collectImplicit (rule : N) : M World (gset N) :=
  r ← zoom l_graph (readRule rule);
  foldM (take (Rule.numImplicitDeps_ r) (reverse (Rule.inputs_ r))) ∅ (λ before implicitDep,
    n ← zoom l_graph (readNode implicitDep);
    mwhen (negb (Node.isDirty n) || Node.isSource n) (zoom l_graph (Rule_markInputDirty rule));;
    mret ({[implicitDep]} ∪ before)).

(** [DepfileParser depfile; depfile.Parse(&buf, &depfileErr)]. *)
Definition parse_depfile (buf : string) : M World (option (option (list Z) * list (list Z))) :=
  match parsed (bytes buf) with
  | Ret res _ => mret res
  | Throw e _ => mthrow e
  | Abort r => mabort r
  end.

(** A name in UTF-8 is read outside of the table of the scanner. *)
Example parse_depfile_utf8 w :
  parse_depfile (string_of_bytes [97; 195; 169; 58; 32; 98]%Z) w = Abort BadAccess.
Proof. reflexivity. Qed.

Definition load (buf : string) (rule : N) (watchmanClient : bool) : M World bool :=
  before ← collectImplicit rule;
  zoom l_graph (updRule rule (λ r,
    Rule.assignInputs (take (length (Rule.inputs_ r) - Rule.numImplicitDeps_ r) (Rule.inputs_ r)) 0 r));;
  res ← parse_depfile buf;
  match res with
  | None => mret false
  | Some (out, ins) =>
    r ← zoom l_graph (readRule rule);
    match Rule.outputs_ r with
    | [] => mabort AssertFailed
    | o :: _ =>
      n ← zoom l_graph (readNode o);
      if negb (bool_decide (string_of_bytes (default [] out) = Node.path_ n)) then mret false
      else
        left ← foldM ins before (λ left dep,
          node ← setRuleDependency (string_of_bytes dep) rule watchmanClient;
          mret (left ∖ {[node]}));
        foreach (set_elems left) (dropDependency rule);;
        mret true
    end
  end.

Definition loadFromfile (depfile : string) (rule : N) (watchmanClient : bool) : M World Res :=
  f ← gets w_fs;
  match fs_entries f !! depfile with
  | None => mret ERROR_CANNOT_OPEN
  | Some _ =>
    let content := read_all f depfile in
    if bool_decide (content = "") then mret ERROR_INVALID_FILE
    else
      ok ← load content rule watchmanClient;
      mret (if (ok : bool) then SUCCESS else ERROR_INVALID_FILE)
  end.
End depfile.

(** ** Recomputing hashes *)

Section recompute.
Context `{Allocator} `{SHA256} `{WatchEnv}.
Variable wm_fuel : nat.

(** [recomputeRuleHash] and [recomputeNodeHash] call each other; the first one is
    written over the second.  The cache pointer is never null where they are called
    with a rule that has a depfile, or is dereferenced all the same.  The loop of the
    second one iterates over the vector of parents itself: a depfile that changes
    the vector invalidates the iterator ([BadAccess]). *)
Definition recomputeRuleHash_with (recomputeNodeHash : N → M World bool) (rule : N)
    (watchmanClient cache : bool) : M World unit :=
  r ← zoom l_graph (readRule rule);
  let tmp := Rule.hashDepfile_ r in
  updateRuleHash rule true true;;
  r ← zoom l_graph (readRule rule);
  mwhen (Rule.hasDepfile r && negb (bool_decide (tmp = Rule.hashDepfile_ r))) (
    (if cache then mret tt else mabort BadAccess);;
    restored ← CacheManager.restoreDepfile rule;
    mwhen restored (
      loadFromfile wm_fuel (Rule.depfile_ r) rule watchmanClient;;
      updateRuleHash rule true false));;
  r ← zoom l_graph (readRule rule);
  foreach (Rule.outputs_ r) (λ o, recomputeNodeHash o;; mret tt).

Fixpoint recomputeNodeHash (fuel : nat) (watchmanClient cache : bool) (rh rd : bool) (node : N) : M World bool :=
  match fuel with
  | O => mabort OutOfFuel
  | S fuel =>
    changed ← updateNodeHash node rh rd;
    if negb changed then mret false
    else
      n ← zoom l_graph (readNode node);
      foreach (Node.parentRules_ n) (λ rule,
        recomputeRuleHash_with (recomputeNodeHash fuel watchmanClient cache rh rd) rule watchmanClient cache;;
        n' ← zoom l_graph (readNode node);
        if bool_decide (Node.parentRules_ n' = Node.parentRules_ n) then mret tt else mabort BadAccess);;
      mret true
  end.

Definition recomputeRuleHash (fuel : nat) (rule : N) (watchmanClient cache : bool) (rh rd : bool) : M World unit :=
  recomputeRuleHash_with (recomputeNodeHash fuel watchmanClient cache rh rd) rule watchmanClient cache.
End recompute.
