(* ===== verification/HashRecompute.v ===== *)
(** * Recomputing hashes is exact

    [recomputeNodeHash] starts at a node whose hash may be stale and stops where a
    hash does not change.  The result is the same as hashing the whole graph again:
    every stored hash is the one of the reference definition [node_hash]. *)

From Stdlib Require Import Ascii.
From S2P Require Import Prelude GraphModel GraphChecks GraphDirty DepfileParser Fs Cache Watchman World Hash.

Section good.
Context `{SHA256}.

(** The digest is never the empty string, in which the assertions look for a hash
    that was not computed. *)
Lemma hex_length l : String.length (hex l) = 2 * length l.
Proof.
  unfold hex. rewrite <- list_ascii_length, String.list_ascii_of_string_of_list_ascii.
  induction l as [|b l IH]; [done|].
  change ((b :: l) ≫= hex_byte) with (hex_byte b ++ (l ≫= hex_byte)). rewrite length_app, IH. simpl. lia.
Qed.

Lemma Hasher_length l : String.length (Hasher l) = 64.
Proof. unfold Hasher. by rewrite hex_length, sha256_length. Qed.

Lemma Hasher_nonempty l : Hasher l ≠ "".
Proof. intros Heq. pose proof (Hasher_length l) as Hl. by rewrite Heq in Hl. Qed.

(** ** Local consistency of hashes *)

Definition hashes (get : Node.t → string) (g : GState) (l : list N) : list string :=
  (λ i, match g_nodes g !! i with Some n => get n | None => "" end) <$> l.

(** What the hashes of a node should be, given the ones stored in its child rule. *)
Definition node_target (f : FS) (g : GState) (nd : Node.t) : string * string :=
  match Node.childRule_ nd with
  | None => let h := Hasher [Node.path_ nd; read_all f (Node.path_ nd)] in (h, h)
  | Some c =>
    match g_rules g !! c with
    | Some rd => (Hasher [Node.path_ nd; Rule.hash_ rd], Hasher [Node.path_ nd; Rule.hashDepfile_ rd])
    | None => ("", "")
    end
  end.
Definition rule_target (g : GState) (rd : Rule.t) : string * string :=
  (Hasher (hashes Node.hash_ g (Rule.inputs_ rd) ++ [Rule.command_ rd]),
   Hasher (hashes Node.hashDepfile_ g (explicit_inputs rd) ++ [Rule.command_ rd])).

Definition node_good (f : FS) (g : GState) (n : N) : Prop := ∀ nd,
  g_nodes g !! n = Some nd → (Node.hash_ nd, Node.hashDepfile_ nd) = node_target f g nd.
Definition rule_good (g : GState) (r : N) : Prop := ∀ rd,
  g_rules g !! r = Some rd → (Rule.hash_ rd, Rule.hashDepfile_ rd) = rule_target g rd.

(** Every hash was computed once, and a source file has a single one. *)
Record all_hashed (g : GState) : Prop := {
  ah_node n nd : g_nodes g !! n = Some nd → Node.hash_ nd ≠ "" ∧ Node.hashDepfile_ nd ≠ "";
  ah_rule r rd : g_rules g !! r = Some rd → Rule.hash_ rd ≠ "" ∧ Rule.hashDepfile_ rd ≠ "";
  ah_source n nd : g_nodes g !! n = Some nd → Node.childRule_ nd = None → Node.hash_ nd = Node.hashDepfile_ nd;
}.

(** ** Changing hashes only *)

Definition strip_node (nd : Node.t) : Node.t := Node.setHash "" (Node.setHashDepfile "" nd).
Definition strip_rule (rd : Rule.t) : Rule.t := Rule.setHash "" (Rule.setHashDepfile "" rd).

Record rehashed (g g' : GState) : Prop := {
  rh_nodes n : strip_node <$> g_nodes g !! n = strip_node <$> g_nodes g' !! n;
  rh_rules r : strip_rule <$> g_rules g !! r = strip_rule <$> g_rules g' !! r;
  rh_graph : g_graph g = g_graph g';
}.

#[export] Instance rehashed_equiv : Equivalence rehashed.
Proof.
  split.
  - by split.
  - intros s s' []. by split.
  - intros s1 s2 s3 [] []. split; congruence.
Qed.

Lemma rehashed_shape g g' : rehashed g g' → same_shape g g'.
Proof.
  intros [H1 H2 H3]. split; [intros n|intros r|done].
  - specialize (H1 n). destruct (g_nodes g !! n) as [nd|], (g_nodes g' !! n) as [nd'|]; try done.
    simpl in *. injection H1 as H1. unfold strip_node, Node.setHash, Node.setHashDepfile in H1. simpl in H1. unfold node_shape. congruence.
  - specialize (H2 r). destruct (g_rules g !! r) as [rd|], (g_rules g' !! r) as [rd'|]; try done.
    simpl in *. injection H2 as H2. unfold strip_rule, Rule.setHash, Rule.setHashDepfile in H2. simpl in H2. unfold rule_shape. congruence.
Qed.

Definition set_node_hashes (n : N) (nd : Node.t) (h : string * string) (g : GState) : GState :=
  set_nodes (<[n := Node.setHashDepfile h.2 (Node.setHash h.1 nd)]> (g_nodes g)) g.
Definition set_rule_hashes (r : N) (rd : Rule.t) (h : string * string) (g : GState) : GState :=
  set_rules (<[r := Rule.setHashDepfile h.2 (Rule.setHash h.1 rd)]> (g_rules g)) g.

Lemma rehashed_node n nd h g : g_nodes g !! n = Some nd → rehashed g (set_node_hashes n nd h g).
Proof.
  intros Hn. split; [|done|done]. intros m. simpl. destruct (decide (n = m)) as [<-|Hne].
  - rewrite lookup_insert_eq, Hn. done.
  - by rewrite lookup_insert_ne.
Qed.

Lemma rehashed_rule r rd h g : g_rules g !! r = Some rd → rehashed g (set_rule_hashes r rd h g).
Proof.
  intros Hr. split; [done| |done]. intros m. simpl. destruct (decide (r = m)) as [<-|Hne].
  - rewrite lookup_insert_eq, Hr. done.
  - by rewrite lookup_insert_ne.
Qed.

(** ** The primitives *)

Lemma input_hashes_spec get l w :
  (∀ i, i ∈ l → ∃ nd, g_nodes (w_g w) !! i = Some nd ∧ get nd ≠ "") →
  returns (input_hashes get l) (λ hs w', hs = hashes get (w_g w) l ∧ w' = w) w.
Proof.
  intros Hl. apply (wp_foldM (λ pre acc w', acc = hashes get (w_g w) pre ∧ w' = w)); [done| |done].
  intros pre i post acc w' -> [-> ->]. destruct (Hl i) as (nd & Hn & Hg); [set_solver|].
  apply wp_bind, wp_zoom. cbn [lget lset l_graph]. eapply wp_readNode; [done|].
  apply wp_bind, wp_massert; [by rewrite bool_decide_eq_false_2|]. apply wp_ret. split; [|by destruct w].
  unfold hashes. rewrite fmap_app. simpl. by rewrite Hn.
Qed.

Lemma set_g_same (w : World) : set_g (w_g w) w = w.
Proof. by destruct w. Qed.
Lemma set_g_set g g' (w : World) : set_g g (set_g g' w) = set_g g w.
Proof. by destruct w. Qed.

(** The rule is hashed as soon as its inputs are. *)
Definition node_hashed (g : GState) (i : N) : Prop :=
  ∃ nd, g_nodes g !! i = Some nd ∧ Node.hash_ nd ≠ "" ∧ Node.hashDepfile_ nd ≠ "".
Definition rule_hashed (g : GState) (r : N) : Prop :=
  ∃ rd, g_rules g !! r = Some rd ∧ Rule.hash_ rd ≠ "" ∧ Rule.hashDepfile_ rd ≠ "".

Lemma updateRuleHash_local r rd w :
  (∀ i, i ∈ Rule.inputs_ rd → node_hashed (w_g w) i) → g_rules (w_g w) !! r = Some rd →
  returns (updateRuleHash r true true)
    (λ _ w', w' = set_g (set_rule_hashes r rd (rule_target (w_g w) rd) (w_g w)) w) w.
Proof.
  intros Hin Hr.
  assert (Hexp : ∀ i, i ∈ explicit_inputs rd → i ∈ Rule.inputs_ rd).
  { unfold explicit_inputs. intros i. case_bool_decide; [|done]. apply subseteq_take. }
  apply wp_bind, wp_zoom. cbn [lget lset l_graph]. eapply wp_readRule; [done|]. rewrite set_g_same.
  apply wp_bind. unfold mwhen. apply wp_bind.
  eapply wp_mono; [apply (input_hashes_spec Node.hash_)| |done].
  { intros i Hi. destruct (Hin i Hi) as (nd & ? & ? & _). eauto. }
  intros hs w1 [-> ->]. apply wp_zoom. cbn [lget lset l_graph]. eapply wp_updRule; [done|].
  apply wp_bind. eapply wp_mono; [apply (input_hashes_spec Node.hashDepfile_)| |done].
  { intros i Hi. cbn [w_g set_g g_nodes set_rules]. destruct (Hin i (Hexp i Hi)) as (nd & ? & _ & ?). eauto. }
  intros hs w1 [-> ->]. apply wp_zoom. cbn [lget lset l_graph w_g set_g].
  eapply wp_updRule; [simpl; by rewrite lookup_insert_eq|]. rewrite set_g_set. unfold set_rule_hashes, rule_target. simpl.
  unfold set_rules. simpl. by rewrite insert_insert_eq.
Qed.

Lemma updateRuleHash_spec r rd w :
  structure_ok (w_g w) → all_hashed (w_g w) → g_rules (w_g w) !! r = Some rd →
  returns (updateRuleHash r true true)
    (λ _ w', w' = set_g (set_rule_hashes r rd (rule_target (w_g w) rd) (w_g w)) w) w.
Proof.
  intros Hs Ha Hr. apply updateRuleHash_local; [|done]. intros i Hi.
  destruct (so_input _ Hs r rd i Hr Hi) as (nd & Hn & _). exists nd. split; [done|]. by apply (ah_node _ Ha i).
Qed.

Lemma updateNodeHash_local n nd w :
  (∀ c, Node.childRule_ nd = Some c → rule_hashed (w_g w) c) → g_nodes (w_g w) !! n = Some nd →
  returns (updateNodeHash n true true)
    (λ b w', w' = set_g (set_node_hashes n nd (node_target (w_fs w) (w_g w) nd) (w_g w)) w ∧
       ((Node.childRule_ nd = None → Node.hash_ nd = Node.hashDepfile_ nd) → b = negb (bool_decide ((Node.hash_ nd, Node.hashDepfile_ nd) = node_target (w_fs w) (w_g w) nd)))) w.
Proof.
  intros Hch Hn. apply wp_bind, wp_massert; [done|]. apply wp_bind, wp_zoom. cbn [lget lset l_graph].
  eapply wp_readNode; [done|]. rewrite set_g_same. unfold node_target. destruct (Node.childRule_ nd) as [c|] eqn:Hc.
  - destruct (Hch c eq_refl) as (rd & Hr & Hh1 & Hh2). rewrite Hr.
    apply wp_bind, wp_bind, wp_zoom. cbn [lget lset l_graph]. eapply wp_readRule; [done|]. rewrite set_g_same.
    apply wp_bind, wp_massert; [by rewrite bool_decide_eq_false_2|]. apply wp_bind, wp_zoom. cbn [lget lset l_graph].
    eapply wp_readNode; [done|]. rewrite set_g_same. apply wp_bind, wp_zoom. cbn [lget lset l_graph].
    eapply wp_updNode; [done|]. apply wp_ret. apply wp_bind, wp_zoom. cbn [lget lset l_graph w_g set_g].
    eapply wp_readRule; [done|]. rewrite set_g_set. apply wp_bind, wp_massert; [by rewrite bool_decide_eq_false_2|].
    apply wp_bind, wp_zoom. cbn [lget lset l_graph w_g set_g]. eapply wp_readNode; [simpl; by rewrite lookup_insert_eq|].
    rewrite set_g_set. apply wp_bind, wp_zoom. cbn [lget lset l_graph w_g set_g].
    eapply wp_updNode; [simpl; by rewrite lookup_insert_eq|]. apply wp_ret. rewrite set_g_set. split.
    + unfold set_node_hashes, set_nodes. simpl. by rewrite insert_insert_eq.
    + intros _. simpl. destruct (decide (Node.hash_ nd = Hasher [Node.path_ nd; Rule.hash_ rd])) as [E1|E1],
        (decide (Node.hashDepfile_ nd = Hasher [Node.path_ nd; Rule.hashDepfile_ rd])) as [E2|E2];
        repeat case_bool_decide; simpl; congruence.
  - apply wp_bind, wp_gets. apply wp_bind, wp_bind, wp_zoom. cbn [lget lset l_graph]. eapply wp_readNode; [done|].
    rewrite set_g_same. apply wp_bind, wp_zoom. cbn [lget lset l_graph]. eapply wp_updNode; [done|]. apply wp_ret.
    apply wp_bind, wp_zoom. cbn [lget lset l_graph w_g set_g]. eapply wp_readNode; [simpl; by rewrite lookup_insert_eq|].
    rewrite set_g_set. apply wp_bind, wp_zoom. cbn [lget lset l_graph w_g set_g].
    eapply wp_updNode; [simpl; by rewrite lookup_insert_eq|]. apply wp_ret. rewrite set_g_set. split.
    + unfold set_node_hashes, set_nodes. simpl. by rewrite insert_insert_eq.
    + intros Hsrc. specialize (Hsrc eq_refl). simpl. repeat case_bool_decide; simpl; congruence.
Qed.

Lemma updateNodeHash_spec n nd w :
  structure_ok (w_g w) → all_hashed (w_g w) → g_nodes (w_g w) !! n = Some nd →
  returns (updateNodeHash n true true)
    (λ b w', w' = set_g (set_node_hashes n nd (node_target (w_fs w) (w_g w) nd) (w_g w)) w ∧
       b = negb (bool_decide ((Node.hash_ nd, Node.hashDepfile_ nd) = node_target (w_fs w) (w_g w) nd))) w.
Proof.
  intros Hs Ha Hn. eapply wp_mono; [apply (updateNodeHash_local n nd); [|done]| |done].
  - intros c Hc. destruct (so_child _ Hs n nd c Hn Hc) as (rd & Hr & _). exists rd. split; [done|]. by apply (ah_rule _ Ha c).
  - intros b w' [-> Hb]. split; [done|]. apply Hb. intros Hc. by apply (ah_source _ Ha n nd).
Qed.
End good.

(** ** Stale objects *)

Section stale.
Context `{SHA256}.

(** A node or a rule, as in the cache. *)
Definition good (f : FS) (g : GState) (x : obj) : Prop :=
  match x with ONode n => node_good f g n | ORule r => rule_good g r end.
(** Every object outside of [X] has the hashes it should have. *)
Definition stale_in (X : obj → Prop) (w : World) : Prop := ∀ x, good (w_fs w) (w_g w) x ∨ X x.

Lemma stale_in_mono (X Y : obj → Prop) w : stale_in X w → (∀ x, X x → Y x) → stale_in Y w.
Proof. intros Hs HXY x. destruct (Hs x); auto. Qed.

(** What [recomputeNodeHash] needs of the graph, and what it keeps. *)
Record hashable (w : World) : Prop := {
  hb_structure : structure_ok (w_g w);
  hb_hashed : all_hashed (w_g w);
  hb_nodep r rd : g_rules (w_g w) !! r = Some rd → Rule.hasDepfile rd = false;
}.
Definition rehashed_w (w w' : World) : Prop := ∃ g, w' = set_g g w ∧ rehashed (w_g w) g.

Lemma rehashed_w_refl w : rehashed_w w w.
Proof. exists (w_g w). split; [by destruct w|done]. Qed.
Lemma rehashed_w_trans w1 w2 w3 : rehashed_w w1 w2 → rehashed_w w2 w3 → rehashed_w w1 w3.
Proof.
  intros (g & -> & H1) (g' & -> & H2). exists g'. split; [by rewrite set_g_set|]. by transitivity g.
Qed.
Lemma rehashed_w_g w w' : rehashed_w w w' → rehashed (w_g w) (w_g w').
Proof. by intros (g & -> & Hg). Qed.
Lemma rehashed_w_fs w w' : rehashed_w w w' → w_fs w' = w_fs w.
Proof. by intros (g & -> & Hg). Qed.

Lemma rehashed_lookup_node g g' n nd : rehashed g g' → g_nodes g' !! n = Some nd →
  ∃ nd0, g_nodes g !! n = Some nd0 ∧ strip_node nd0 = strip_node nd.
Proof.
  intros [H1 _ _] Hn. specialize (H1 n). rewrite Hn in H1. simpl in H1.
  apply fmap_Some in H1 as (nd0 & ? & ?). eauto.
Qed.

(** Setting the hashes of one object keeps [hashable]. *)
Lemma hashable_set_node w n nd :
  hashable w → g_nodes (w_g w) !! n = Some nd →
  hashable (set_g (set_node_hashes n nd (node_target (w_fs w) (w_g w) nd) (w_g w)) w).
Proof.
  intros [Hs Ha Hd] Hn. split; cbn [w_g set_g].
  - eapply structure_ok_shape; [|exact Hs]. by apply rehashed_shape, rehashed_node.
  - split; simpl.
    + intros m md. destruct (decide (n = m)) as [<-|Hne]; [rewrite lookup_insert_eq|rewrite lookup_insert_ne by done; apply Ha].
      intros [= <-]. simpl. unfold node_target. destruct (Node.childRule_ nd) as [c|] eqn:Hc; [|split; apply Hasher_nonempty].
      destruct (so_child _ Hs n nd c Hn Hc) as (rd & -> & _). split; apply Hasher_nonempty.
    + apply Ha.
    + intros m md. destruct (decide (n = m)) as [<-|Hne]; [rewrite lookup_insert_eq|rewrite lookup_insert_ne by done; apply Ha].
      intros [= <-]. simpl. intros Hc. unfold node_target. by rewrite Hc.
  - exact Hd.
Qed.

Lemma hashable_set_rule w r rd :
  hashable w → g_rules (w_g w) !! r = Some rd →
  hashable (set_g (set_rule_hashes r rd (rule_target (w_g w) rd) (w_g w)) w).
Proof.
  intros [Hs Ha Hd] Hr. split; cbn [w_g set_g].
  - eapply structure_ok_shape; [|exact Hs]. by apply rehashed_shape, rehashed_rule.
  - split; simpl; [apply Ha| |apply Ha].
    intros m md. destruct (decide (r = m)) as [<-|Hne]; [rewrite lookup_insert_eq|rewrite lookup_insert_ne by done; apply Ha].
    intros [= <-]. split; apply Hasher_nonempty.
  - intros m md. simpl. destruct (decide (r = m)) as [<-|Hne]; [rewrite lookup_insert_eq|rewrite lookup_insert_ne by done; apply Hd].
    intros [= <-]. exact (Hd r rd Hr).
Qed.

(** Setting the hashes of a node makes it good; of the others only the rules that
    read it may become stale, and none does if the hashes were right before. *)
Lemma hashes_ext get g g' l :
  (∀ i, i ∈ l → get <$> g_nodes g !! i = get <$> g_nodes g' !! i) → hashes get g l = hashes get g' l.
Proof.
  intros Heq. unfold hashes. apply list_fmap_ext.
  intros i x Hx. specialize (Heq x ltac:(by eapply list_elem_of_lookup_2)).
  destruct (g_nodes g !! x), (g_nodes g' !! x); simpl in *; congruence.
Qed.

Lemma elem_of_explicit i rd : i ∈ explicit_inputs rd → i ∈ Rule.inputs_ rd.
Proof. unfold explicit_inputs. case_bool_decide; [|done]. apply subseteq_take. Qed.

Lemma stale_set_node X w n nd :
  hashable w → g_nodes (w_g w) !! n = Some nd → stale_in (λ x, X x ∨ x = ONode n) w →
  stale_in (λ x, X x ∨ ∃ r, x = ORule r ∧ r ∈ Node.parentRules_ nd)
    (set_g (set_node_hashes n nd (node_target (w_fs w) (w_g w) nd) (w_g w)) w).
Proof.
  intros [Hs _ _] Hn Hst x. change (w_fs (set_g ?g w)) with (w_fs w). cbn [w_g set_g].
  destruct x as [m|r].
  - destruct (decide (n = m)) as [<-|Hne].
    + left. intros md. simpl. rewrite lookup_insert_eq. intros [= <-]. unfold node_target. simpl.
      by destruct (Node.childRule_ nd) as [c|]; [destruct (g_rules (w_g w) !! c)|].
    + destruct (Hst (ONode m)) as [Hg|[?|[= ->]]]; [left|by right; left|done].
      intros md. simpl. rewrite lookup_insert_ne by done. apply Hg.
  - destruct (Hst (ORule r)) as [Hg|[?|?]]; [|by right; left|done].
    destruct (decide (r ∈ Node.parentRules_ nd)) as [Hp|Hp]; [by right; right; eauto|left].
    intros rd Hr. simpl in Hr. specialize (Hg rd Hr). rewrite Hg. unfold rule_target.
    assert (Hne : ∀ i, i ∈ Rule.inputs_ rd → n ≠ i).
    { intros i Hi ->. destruct (so_input _ Hs r rd i Hr Hi) as (nd' & Hnd' & Hin). simplify_eq. done. }
    f_equal; f_equal; f_equal; apply hashes_ext; intros i Hi; simpl; rewrite lookup_insert_ne; auto using elem_of_explicit.
Qed.

Lemma stale_set_rule X w r rd :
  hashable w → g_rules (w_g w) !! r = Some rd → stale_in (λ x, X x ∨ x = ORule r) w →
  stale_in (λ x, X x ∨ ∃ o, x = ONode o ∧ o ∈ Rule.outputs_ rd)
    (set_g (set_rule_hashes r rd (rule_target (w_g w) rd) (w_g w)) w).
Proof.
  intros [Hs _ _] Hr Hst x. change (w_fs (set_g ?g w)) with (w_fs w). cbn [w_g set_g].
  destruct x as [m|p].
  - destruct (Hst (ONode m)) as [Hg|[?|?]]; [|by right; left|done].
    destruct (decide (m ∈ Rule.outputs_ rd)) as [Hp|Hp]; [by right; right; eauto|left].
    intros md Hm. simpl in Hm. specialize (Hg md Hm). rewrite Hg. unfold node_target. simpl.
    destruct (Node.childRule_ md) as [c|] eqn:Hc; [|done]. rewrite lookup_insert_ne; [done|]. intros <-.
    destruct (so_child _ Hs m md r Hm Hc) as (rd' & Hrd' & Hin). simplify_eq. done.
  - destruct (decide (r = p)) as [<-|Hne].
    + left. intros rd'. simpl. rewrite lookup_insert_eq. by intros [= <-].
    + destruct (Hst (ORule p)) as [Hg|[?|[= ->]]]; [left|by right; left|done].
      intros rd'. simpl. rewrite lookup_insert_ne by done. apply Hg.
Qed.
End stale.

(** ** The traversal *)

Section traversal.
Context `{HA : Allocator} `{HS : SHA256} `{HE : WatchEnv} (wm_fuel : nat) (watchmanClient cache : bool).

(** Afterwards nothing but [X] is stale. *)
Definition refreshed (X : obj → Prop) (w w' : World) : Prop :=
  rehashed_w w w' ∧ hashable w' ∧ stale_in X w'.

Definition hash_effect (rank : N → nat) (B fuel : nat) : Prop := ∀ X n w,
  hashable w → ranked rank B (w_g w) → B ≤ fuel + rank n → is_Some (g_nodes (w_g w) !! n) →
  stale_in (λ x, X x ∨ x = ONode n) w →
  returns (recomputeNodeHash wm_fuel fuel watchmanClient cache true true n) (λ _ w', refreshed X w w') w.

Lemma rehashed_w_ranked rank B w w' : rehashed_w w w' → ranked rank B (w_g w) → ranked rank B (w_g w').
Proof. intros Hr. by apply ranked_shape, rehashed_shape, rehashed_w_g. Qed.

Lemma rehashed_w_node w w' n : rehashed_w w w' → is_Some (g_nodes (w_g w) !! n) → is_Some (g_nodes (w_g w') !! n).
Proof.
  intros Hr Hn. destruct (rehashed_w_g w w' Hr) as [H1 _ _]. specialize (H1 n).
  by rewrite <- (fmap_is_Some strip_node), <- H1, fmap_is_Some.
Qed.

Lemma rule_effect rank B fuel X r rd w :
  hash_effect rank B fuel → hashable w → ranked rank B (w_g w) → g_rules (w_g w) !! r = Some rd →
  (∀ o, o ∈ Rule.outputs_ rd → B ≤ fuel + rank o) → stale_in (λ x, X x ∨ x = ORule r) w →
  returns (recomputeRuleHash wm_fuel fuel r watchmanClient cache true true) (λ _ w', refreshed X w w') w.
Proof.
  intros IH Hh Hrk Hr Hf Hst. pose proof Hh as [Hs Ha Hd]. apply wp_bind, wp_zoom. cbn [lget lset l_graph].
  eapply wp_readRule; [done|]. rewrite set_g_same. apply wp_bind.
  eapply wp_mono; [by apply (updateRuleHash_spec r rd)| |done]. intros [] w1 ->.
  set (g1 := set_rule_hashes r rd (rule_target (w_g w) rd) (w_g w)).
  assert (Hr1 : g_rules g1 !! r = Some (Rule.setHashDepfile (rule_target (w_g w) rd).2 (Rule.setHash (rule_target (w_g w) rd).1 rd)))
    by (simpl; by rewrite lookup_insert_eq).
  assert (Hw1 : rehashed_w w (set_g g1 w)) by (exists g1; split; [done|by apply rehashed_rule]).
  apply wp_bind, wp_zoom. cbn [lget lset l_graph w_g set_g]. eapply wp_readRule; [exact Hr1|]. rewrite set_g_set.
  apply wp_bind. unfold mwhen. change (Rule.hasDepfile (Rule.setHashDepfile _ _)) with (Rule.hasDepfile rd).
  rewrite (Hd r rd Hr). cbn [andb]. apply wp_ret, wp_bind, wp_zoom. cbn [lget lset l_graph w_g set_g].
  eapply wp_readRule; [exact Hr1|]. rewrite set_g_set. cbn [Rule.outputs_ Rule.setHashDepfile Rule.setHash].
  apply (wp_foreach (λ pre w', refreshed (λ x, X x ∨ ∃ o, x = ONode o ∧ o ∈ Rule.outputs_ rd ∧ o ∉ pre) w w')).
  - split_and!; [done|by apply hashable_set_rule|]. eapply stale_in_mono; [by apply stale_set_rule|].
    intros x [?|(o & ? & ?)]; [by left|right]. exists o. set_solver.
  - intros pre o post w' Heq (Hre & Hh' & Hst'). apply wp_bind.
    assert (o ∈ Rule.outputs_ rd) as Ho by (rewrite Heq; set_solver).
    destruct (so_output _ Hs r rd o Hr Ho) as (nd & Hn & _).
    eapply wp_mono; [eapply (IH (λ x, X x ∨ ∃ o', x = ONode o' ∧ o' ∈ Rule.outputs_ rd ∧ o' ∉ pre ++ [o]))| |done].
    + done.
    + by eapply rehashed_w_ranked.
    + by apply Hf.
    + by eapply rehashed_w_node.
    + eapply stale_in_mono; [exact Hst'|]. intros x [?|(o' & -> & ? & ?)]; [by do 2 left|].
      destruct (decide (o' = o)) as [->|]; [by right|left; right]. exists o'. set_solver.
    + intros ok w'' (Hre' & Hh'' & Hst''). apply wp_ret. split_and!; [by eapply rehashed_w_trans|done|done].
  - intros w' (Hre & Hh' & Hst'). split_and!; [done|done|]. eapply stale_in_mono; [exact Hst'|].
    intros x [?|(o & -> & ? & ?)]; [done|by exfalso].
Qed.

Lemma recompute_effect rank B fuel : hash_effect rank B fuel.
Proof.
  induction fuel as [|fuel IH]; intros X n w Hh Hrk Hf [nd Hn] Hst.
  { destruct Hrk as [_ Hrk]. specialize (Hrk n ltac:(by eexists)). lia. }
  pose proof Hh as [Hs Ha Hd]. simpl. apply wp_bind.
  eapply wp_mono; [by apply (updateNodeHash_spec n nd)| |done]. intros b w1 [-> ->].
  set (g1 := set_node_hashes n nd (node_target (w_fs w) (w_g w) nd) (w_g w)).
  assert (Hw1 : rehashed_w w (set_g g1 w)) by (exists g1; split; [done|by apply rehashed_node]).
  pose proof (stale_set_node X w n nd Hh Hn Hst) as Hst1. fold g1 in Hst1.
  assert (Hh1 : hashable (set_g g1 w)) by by apply hashable_set_node.
  case_bool_decide as Heq; cbn [negb].
  { apply wp_ret. assert (g1 = w_g w) as ->.
    { subst g1. rewrite <- Heq. unfold set_node_hashes, set_nodes. simpl.
      rewrite insert_id by (rewrite Hn; by destruct nd). by destruct (w_g w). }
    rewrite set_g_same. split_and!; [apply rehashed_w_refl|done|]. intros x.
    destruct (Hst x) as [?|[?| ->]]; [by left|by right|left]. intros nd' Hn'. by simplify_eq. }
  assert (Hn1 : g_nodes g1 !! n = Some (Node.setHashDepfile (node_target (w_fs w) (w_g w) nd).2
    (Node.setHash (node_target (w_fs w) (w_g w) nd).1 nd))) by (simpl; by rewrite lookup_insert_eq).
  apply wp_bind, wp_zoom. cbn [lget lset l_graph w_g set_g]. eapply wp_readNode; [exact Hn1|]. rewrite set_g_set.
  cbn [Node.parentRules_ Node.setHashDepfile Node.setHash]. apply wp_bind.
  apply (wp_foreach (λ pre w', refreshed (λ x, X x ∨ ∃ r, x = ORule r ∧ r ∈ Node.parentRules_ nd ∧ r ∉ pre) w w')).
  - split_and!; [done|done|]. eapply stale_in_mono; [exact Hst1|].
    intros x [?|(r & ? & ?)]; [by left|right]. exists r. set_solver.
  - intros pre r post w' Heq' (Hre & Hh' & Hst'). apply wp_bind.
    assert (r ∈ Node.parentRules_ nd) as Hr by (rewrite Heq'; set_solver).
    destruct (so_parent _ Hs n nd r Hn Hr) as (rd & Hrd & Hin).
    pose proof (rehashed_shape _ _ (rehashed_w_g _ _ Hre)) as Hsh.
    destruct (same_shape_rule _ _ _ _ Hsh Hrd) as (rd' & Hrd' & Hshr).
    assert (Rule.outputs_ rd' = Rule.outputs_ rd) as Hout by (unfold rule_shape in Hshr; congruence).
    eapply wp_mono; [eapply (rule_effect rank B fuel (λ x, X x ∨ ∃ r', x = ORule r' ∧ r' ∈ Node.parentRules_ nd ∧ r' ∉ pre ++ [r]))| |done].
    + done.
    + done.
    + by eapply rehashed_w_ranked.
    + exact Hrd'.
    + rewrite Hout. intros o Ho. assert (rank n < rank o) by (apply Hrk; by exists r, rd). lia.
    + eapply stale_in_mono; [exact Hst'|]. intros x [?|(r' & -> & ? & ?)]; [by do 2 left|].
      destruct (decide (r' = r)) as [->|]; [by right|left; right]. exists r'. set_solver.
    + intros [] w'' (Hre' & Hh'' & Hst''). pose proof (rehashed_w_trans _ _ _ Hre Hre') as Hre2.
      destruct (same_shape_node _ _ _ _ (rehashed_shape _ _ (rehashed_w_g _ _ Hre2)) Hn) as (nd2 & Hn2 & Hsh2).
      apply wp_bind, wp_zoom. cbn [lget lset l_graph]. eapply wp_readNode; [exact Hn2|]. rewrite set_g_same.
      rewrite bool_decide_eq_true_2 by (unfold node_shape in Hsh2; congruence). apply wp_ret. by split_and!.
  - intros w' (Hre & Hh' & Hst'). apply wp_ret. split_and!; [done|done|]. eapply stale_in_mono; [exact Hst'|].
    intros x [?|(r & -> & ? & ?)]; [done|by exfalso].
Qed.

(** The value returned: whether the hashes of the node were other than they should be. *)
Lemma recompute_value fuel n nd w Q :
  hashable w → g_nodes (w_g w) !! n = Some nd →
  returns (recomputeNodeHash wm_fuel (S fuel) watchmanClient cache true true n) Q w →
  returns (recomputeNodeHash wm_fuel (S fuel) watchmanClient cache true true n)
    (λ b w', Q b w' ∧ b = negb (bool_decide ((Node.hash_ nd, Node.hashDepfile_ nd) = node_target (w_fs w) (w_g w) nd))) w.
Proof.
  intros [Hs Ha _] Hn Hrun. simpl in *. apply wp_bind_inv in Hrun. apply wp_bind.
  destruct (proj1 (returns_inv _ _ _) (updateNodeHash_spec n nd w Hs Ha Hn)) as (b & w1 & Hb & _ & ->).
  unfold wp in Hrun |- * at 1. rewrite Hb in Hrun |- *. case_bool_decide; simpl in *; [by split|].
  apply wp_bind_inv in Hrun. apply wp_bind. eapply wp_mono; [exact Hrun| |done]. intros nd1 w2 Hrest. cbv beta in *.
  apply wp_bind_inv in Hrest. apply wp_bind. eapply wp_mono; [exact Hrest| |done]. intros [] w3 HQ. by split.
Qed.
End traversal.

(** ** The reference definition *)

Section reference.
Context `{HS : SHA256} (sel : Rule.t → list N) (f : FS).

(** The hash of a node from the contents of the sources below it; [sel] are the
    inputs that count: all of them, or the explicit ones for the second hash. *)
Fixpoint node_hash (fuel : nat) (g : GState) (n : N) : string :=
  match fuel with
  | O => ""
  | S fuel =>
    match g_nodes g !! n with
    | None => ""
    | Some nd =>
      match Node.childRule_ nd with
      | None => Hasher [Node.path_ nd; read_all f (Node.path_ nd)]
      | Some c =>
        match g_rules g !! c with
        | None => ""
        | Some rd => Hasher [Node.path_ nd; Hasher ((node_hash fuel g <$> sel rd) ++ [Rule.command_ rd])]
        end
      end
    end
  end.

Hypothesis sel_shape : ∀ rd rd', rule_shape rd = rule_shape rd' → sel rd = sel rd'.
Hypothesis sel_inputs : ∀ rd i, i ∈ sel rd → i ∈ Rule.inputs_ rd.

Lemma node_hash_shape fuel g g' n : same_shape g g' → node_hash fuel g n = node_hash fuel g' n.
Proof.
  intros Hsh. revert n. induction fuel as [|fuel IH]; intros n; [done|]. simpl.
  destruct (g_nodes g !! n) as [nd|] eqn:Hn.
  - destruct (same_shape_node _ _ _ _ Hsh Hn) as (nd' & -> & Hs). injection Hs as -> -> _.
    destruct (Node.childRule_ nd) as [c|]; [|done]. destruct (g_rules g !! c) as [rd|] eqn:Hr.
    + destruct (same_shape_rule _ _ _ _ Hsh Hr) as (rd' & -> & Hs'). rewrite (sel_shape _ _ Hs').
      injection Hs' as _ _ _ -> _. by rewrite (list_fmap_ext _ (node_hash fuel g') _ (λ _ i _, IH i)).
    + destruct (g_rules g' !! c) as [rd'|] eqn:Hr'; [|done].
      destruct (same_shape_rule _ _ _ _ (symmetry Hsh) Hr') as (? & ? & _). congruence.
  - destruct (g_nodes g' !! n) as [nd'|] eqn:Hn'; [|done].
    destruct (same_shape_node _ _ _ _ (symmetry Hsh) Hn') as (? & ? & _). congruence.
Qed.

(** Locally right hashes are the reference ones. *)
Lemma good_node_hash (getn : Node.t → string) (getr : Rule.t → string) rank B g :
  structure_ok g → ranked rank B g →
  (∀ n nd, g_nodes g !! n = Some nd → Node.childRule_ nd = None →
     getn nd = Hasher [Node.path_ nd; read_all f (Node.path_ nd)]) →
  (∀ n nd c rd, g_nodes g !! n = Some nd → Node.childRule_ nd = Some c → g_rules g !! c = Some rd →
     getn nd = Hasher [Node.path_ nd; getr rd]) →
  (∀ r rd, g_rules g !! r = Some rd → getr rd = Hasher (hashes getn g (sel rd) ++ [Rule.command_ rd])) →
  ∀ fuel n nd, g_nodes g !! n = Some nd → rank n < fuel → getn nd = node_hash fuel g n.
Proof.
  intros Hs [Hrank _] Hsrc Hout Hrule. induction fuel as [|fuel IH]; intros n nd Hn Hf; [lia|]. simpl. rewrite Hn.
  destruct (Node.childRule_ nd) as [c|] eqn:Hc; [|by apply (Hsrc n)].
  destruct (so_child _ Hs n nd c Hn Hc) as (rd & Hr & Hin). rewrite Hr, (Hout n nd c rd Hn Hc Hr), (Hrule c rd Hr).
  assert (hashes getn g (sel rd) = node_hash fuel g <$> sel rd) as ->; [|done].
  unfold hashes. apply list_fmap_ext. intros k i Hk.
  assert (i ∈ Rule.inputs_ rd) as Hi by (apply sel_inputs; by eapply list_elem_of_lookup_2).
  destruct (so_input _ Hs c rd i Hr Hi) as (md & Hm & _). rewrite Hm. apply IH; [done|].
  assert (rank i < rank n) by (apply Hrank; by exists c, rd). lia.
Qed.
End reference.

(** What every hash of the graph should be. *)
Definition exact_hashes `{SHA256} (f : FS) (g g' : GState) : Prop := ∀ n nd,
  g_nodes g' !! n = Some nd →
  Node.hash_ nd = node_hash Rule.inputs_ f (size (g_nodes g)) g n ∧
  Node.hashDepfile_ nd = node_hash explicit_inputs f (size (g_nodes g)) g n.

Lemma rehashed_size g g' : rehashed g g' → size (g_nodes g) = size (g_nodes g').
Proof.
  intros [H1 _ _]. rewrite <- !size_dom. f_equal. apply set_eq. intros n. rewrite !elem_of_dom.
  by rewrite <- (fmap_is_Some strip_node), H1, fmap_is_Some.
Qed.

Lemma explicit_shape rd rd' : rule_shape rd = rule_shape rd' → explicit_inputs rd = explicit_inputs rd'.
Proof. intros Hs. injection Hs as Hi _ Hk _ _. unfold explicit_inputs. by rewrite Hi, Hk. Qed.

Lemma not_stale_exact `{SHA256} w w' :
  rehashed_w w w' → structure_ok (w_g w) → acyclic (w_g w) → stale_in (λ _, False) w' →
  exact_hashes (w_fs w) (w_g w) (w_g w').
Proof.
  intros Hre Hs Hac Hst n nd Hn. pose proof (rehashed_w_g _ _ Hre) as Hg. pose proof (rehashed_shape _ _ Hg) as Hsh.
  rewrite <- (rehashed_w_fs _ _ Hre). rewrite (rehashed_size _ _ Hg).
  assert (Hs' : structure_ok (w_g w')) by by eapply structure_ok_shape.
  destruct (acyclic_bounded (w_g w') Hs') as (rank & Hrk1 & Hrk2); [by rewrite <- Hsh|].
  assert (Hgood : ∀ x, good (w_fs w') (w_g w') x) by (intros x; by destruct (Hst x)).
  assert (Hsrc : ∀ m md, g_nodes (w_g w') !! m = Some md → Node.childRule_ md = None →
    Node.hash_ md = Hasher [Node.path_ md; read_all (w_fs w') (Node.path_ md)] ∧
    Node.hashDepfile_ md = Hasher [Node.path_ md; read_all (w_fs w') (Node.path_ md)]).
  { intros m md Hm Hc. pose proof (Hgood (ONode m) md Hm) as Ht. unfold node_target in Ht. rewrite Hc in Ht. by simplify_eq/=. }
  assert (Hout : ∀ m md c rd, g_nodes (w_g w') !! m = Some md → Node.childRule_ md = Some c → g_rules (w_g w') !! c = Some rd →
    Node.hash_ md = Hasher [Node.path_ md; Rule.hash_ rd] ∧ Node.hashDepfile_ md = Hasher [Node.path_ md; Rule.hashDepfile_ rd]).
  { intros m md c rd Hm Hc Hr. pose proof (Hgood (ONode m) md Hm) as Ht. unfold node_target in Ht. rewrite Hc, Hr in Ht. by simplify_eq/=. }
  assert (Hrule : ∀ r rd, g_rules (w_g w') !! r = Some rd → (Rule.hash_ rd, Rule.hashDepfile_ rd) = rule_target (w_g w') rd)
    by (intros r rd; apply (Hgood (ORule r))).
  assert (rank n < size (g_nodes (w_g w'))) by (apply Hrk2; by eexists).
  split.
  - rewrite (node_hash_shape Rule.inputs_ _) with (g' := w_g w') by (done || (intros ?? [=]; done)).
    apply (good_node_hash Rule.inputs_ _ ltac:(done) Node.hash_ Rule.hash_ rank (size (g_nodes (w_g w')))); try done.
    + intros m md Hm Hc. by apply (Hsrc m).
    + intros m md c rd Hm Hc Hr. by apply (Hout m md c).
    + intros r rd Hr. specialize (Hrule r rd Hr). unfold rule_target in Hrule. by simplify_eq/=.
  - rewrite (node_hash_shape explicit_inputs _ explicit_shape) with (g' := w_g w') by done.
    apply (good_node_hash explicit_inputs _ (λ rd i, elem_of_explicit i rd) Node.hashDepfile_ Rule.hashDepfile_ rank (size (g_nodes (w_g w')))); try done.
    + intros m md Hm Hc. by apply (Hsrc m).
    + intros m md c rd Hm Hc Hr. by apply (Hout m md c).
    + intros r rd Hr. specialize (Hrule r rd Hr). unfold rule_target in Hrule. by simplify_eq/=.
Qed.

(** C32: after the content of one node changed, [recomputeNodeHash] terminates
    without failing an assertion (on an acyclic graph whose other hashes are right and
    whose rules have no depfile), and although it stops wherever a hash did not
    change, every hash of the graph is then the one of the reference definition; the
    rest of the graph is as it was. *)
Theorem recomputeNodeHash_exact `{Allocator} `{SHA256} `{WatchEnv} wm_fuel wc cache fuel n w :
  hashable w → acyclic (w_g w) → is_Some (g_nodes (w_g w) !! n) →
  (∀ x, x ≠ ONode n → good (w_fs w) (w_g w) x) → size (g_nodes (w_g w)) ≤ fuel →
  returns (recomputeNodeHash wm_fuel fuel wc cache true true n)
    (λ _ w', rehashed_w w w' ∧ exact_hashes (w_fs w) (w_g w) (w_g w')) w.
Proof.
  intros Hh Hac Hn Hgood Hf. destruct (acyclic_bounded (w_g w) (hb_structure w Hh) Hac) as (rank & Hrk).
  eapply wp_mono; [apply (recompute_effect wm_fuel wc cache rank (size (g_nodes (w_g w))) fuel (λ _, False) n w)| |done]; try done.
  - lia.
  - intros x. destruct (decide (x = ONode n)) as [->|Hx]; [by right; right|left; by apply Hgood].
  - intros b w' (Hre & _ & Hst). split; [done|]. by apply not_stale_exact; [|apply Hh| |].
Qed.

(** The same run, as the daemon uses it. *)
Lemma recompute_run `{Allocator} `{SHA256} `{WatchEnv} wm_fuel wc cache fuel n nd w :
  hashable w → acyclic (w_g w) → g_nodes (w_g w) !! n = Some nd →
  (∀ x, x ≠ ONode n → good (w_fs w) (w_g w) x) → size (g_nodes (w_g w)) ≤ fuel →
  returns (recomputeNodeHash wm_fuel fuel wc cache true true n)
    (λ b w', (rehashed_w w w' ∧ hashable w' ∧ ∀ x, good (w_fs w) (w_g w') x) ∧
       b = negb (bool_decide ((Node.hash_ nd, Node.hashDepfile_ nd) = node_target (w_fs w) (w_g w) nd))) w.
Proof.
  intros Hh Hac Hn Hgood Hf. destruct (acyclic_bounded (w_g w) (hb_structure w Hh) Hac) as (rank & Hrk).
  destruct fuel as [|fuel].
  { assert (g_nodes (w_g w) = ∅) as He by (apply map_size_empty_iff; lia). by rewrite He, lookup_empty in Hn. }
  apply recompute_value; [done|done|].
  eapply wp_mono; [apply (recompute_effect wm_fuel wc cache rank (size (g_nodes (w_g w))) (S fuel) (λ _, False) n w)| |done]; try done.
  - lia.
  - intros x. destruct (decide (x = ONode n)) as [->|Hx]; [by right; right|left; by apply Hgood].
  - intros b w' (Hre & Hh' & Hst). split_and!; [done|done|]. intros x. rewrite <- (rehashed_w_fs _ _ Hre). by destruct (Hst x).
Qed.

(** *** An example *)

(** A digest to evaluate with. *)
Definition sum_digest (s : string) : list N :=
  replicate 31 0%N ++ [(foldr (λ c acc, (N_of_ascii c * N_of_ascii c + 5 * acc) mod 251) 0 (String.list_ascii_of_string s))%N].
#[refine] Definition sum_sha : SHA256 := {| sha256 := sum_digest |}.
Proof.
  - intros s. unfold sum_digest. by rewrite length_app, length_replicate.
  - intros s. unfold sum_digest. apply Forall_app. split; [by apply Forall_replicate|].
    apply Forall_singleton. destruct (String.list_ascii_of_string s) as [|c l]; simpl; [done|].
    eapply N.lt_trans; [by apply N.mod_lt|done].
Defined.

Definition silent_env : WatchEnv := {|
  socket_result := λ _, None; connect_result := λ _, None; start_result := λ _, true;
  write_call := λ _, Wrote 100; read_call := λ _, ReadDom None; clock := λ _, 100%Z |}.

Definition world_of (g : GState) (f : FS) : World :=
  mkWorld g (mkGF (CacheGitDirectory.new ".falcon/cache") f) CACHE_EVERYTHING ".falcon/cache" (mkWatchman "/" true [] 0).
Definition final {S A} (o : outcome S A) (d : S) : S := match o with Ret _ s => s | _ => d end.

(** The small graph, hashed while "source" contained "old". *)
Definition old_world : World :=
  let w0 := world_of (mkG (Node.setHashDepfile "h" <$> (Node.setHash "h" <$> g_nodes two_outputs))
      (Rule.setHashDepfile "h" <$> (Rule.setHash "h" <$> g_rules two_outputs)) (g_graph two_outputs))
    (mkFS {["source" := File "old" 1]} (λ _, true) 2) in
  final ((@updateNodeHash sum_sha 1 true true;; @updateRuleHash sum_sha 10 true true;;
          @updateNodeHash sum_sha 2 true true;; @updateNodeHash sum_sha 3 true true;;
          @updateRuleHash sum_sha 11 true true;; @updateNodeHash sum_sha 4 true true) w0) w0.
Definition changed_world : World := set_fs (mkFS {["source" := File "new" 2]} (λ _, true) 2) old_world.

Definition check_hashable (g : GState) : bool :=
  check_structure g &&
  all_nodes g (λ _ nd, negb (bool_decide (Node.hash_ nd = "")) && negb (bool_decide (Node.hashDepfile_ nd = "")) &&
    (negb (Node.isSource nd) || bool_decide (Node.hash_ nd = Node.hashDepfile_ nd))) &&
  all_rules g (λ _ rd, negb (bool_decide (Rule.hash_ rd = "")) && negb (bool_decide (Rule.hashDepfile_ rd = "")) &&
    negb (Rule.hasDepfile rd)).
Definition check_good `{SHA256} (f : FS) (g : GState) (n : N) : bool :=
  all_nodes g (λ m nd, bool_decide (m = n) || bool_decide ((Node.hash_ nd, Node.hashDepfile_ nd) = node_target f g nd)) &&
  all_rules g (λ _ rd, bool_decide ((Rule.hash_ rd, Rule.hashDepfile_ rd) = rule_target g rd)).

Lemma check_hashable_sound w : check_hashable (w_g w) = true → hashable w.
Proof.
  intros [[Hs Hn]%andb_true_iff Hr]%andb_true_iff. split; [by apply check_structure_sound| |].
  - split.
    + intros n nd Hl. pose proof (all_nodes_spec _ _ n nd Hn Hl) as Hb.
      by apply andb_true_iff in Hb as [[H1%negb_true_iff%bool_decide_eq_false H2%negb_true_iff%bool_decide_eq_false]%andb_true_iff _].
    + intros r rd Hl. pose proof (all_rules_spec _ _ r rd Hr Hl) as Hb.
      by apply andb_true_iff in Hb as [[H1%negb_true_iff%bool_decide_eq_false H2%negb_true_iff%bool_decide_eq_false]%andb_true_iff _].
    + intros n nd Hl Hc. pose proof (all_nodes_spec _ _ n nd Hn Hl) as Hb. unfold Node.isSource in Hb.
      rewrite (bool_decide_eq_true_2 (Node.childRule_ nd = None)) in Hb by done. by apply andb_true_iff in Hb as [_ Hb%bool_decide_eq_true].
  - intros r rd Hl. pose proof (all_rules_spec _ _ r rd Hr Hl) as Hb.
    by apply andb_true_iff in Hb as [_ Hb%negb_true_iff].
Qed.

Lemma check_good_sound `{SHA256} f g n x : check_good f g n = true → x ≠ ONode n → good f g x.
Proof.
  intros [Hn Hr]%andb_true_iff Hx. destruct x as [m|r].
  - intros nd Hl. pose proof (all_nodes_spec _ _ m nd Hn Hl) as Hb.
    apply orb_true_iff in Hb as [Hb|Hb]; apply bool_decide_eq_true in Hb; [congruence|done].
  - intros rd Hl. pose proof (all_rules_spec _ _ r rd Hr Hl) as Hb. by apply bool_decide_eq_true in Hb.
Qed.

Lemma recomputeNodeHash_exact_witness :
  returns (@recomputeNodeHash first_fit sum_sha silent_env 9 4 true true true true 1)
    (λ _ w', rehashed_w changed_world w' ∧ @exact_hashes sum_sha (w_fs changed_world) (w_g changed_world) (w_g w')) changed_world.
Proof.
  apply (@recomputeNodeHash_exact first_fit sum_sha silent_env).
  - apply check_hashable_sound. vm_compute. reflexivity.
  - apply (check_rank_sound _ two_outputs_rank). vm_compute. reflexivity.
  - vm_compute. eexists. reflexivity.
  - intros x. apply check_good_sound. vm_compute. reflexivity.
  - vm_compute. lia.
Defined.

Example recompute_changes :
  match @recomputeNodeHash first_fit sum_sha silent_env 9 4 true true true true 1 changed_world with
  | Ret b w => (b, bool_decide (Node.hash_ <$> g_nodes (w_g w) !! 4%N = Node.hash_ <$> g_nodes (w_g changed_world) !! 4%N))
  | _ => (false, true)
  end = (true, false).
Proof. vm_compute. reflexivity. Qed.
