(* ===== verification/Scan.v ===== *)
(** * Scanning the graph when the daemon starts (graph_dependency_scan.cpp)

    [scan] stats every file, then visits the graph from the roots: a rule is dirty if
    an input is newer than its oldest output or comes from a dirty rule.  The scan
    also computes the hashes and loads the depfiles. *)

From S2P Require Import Prelude GraphModel DepfileParser Fs Cache Watchman World Hash.

(** [seen_] of GraphDependencyScan, and the world it works on. *)
Record Scanner := mkScan { sc_w : World; seen_ : gset N }.
Definition l_world : lens Scanner World := Lens sc_w (λ w s, mkScan w (seen_ s)).
Definition onGraph {A} (m : M GState A) : M Scanner A := zoom l_world (zoom l_graph m).

(** [st_mtime] of a directory is not part of the model of the file system. *)
Class DirTime := dir_mtime : string → Z.

Section scan.
Context `{Allocator} `{SHA256} `{WatchEnv} `{DirTime}.
Variable wm_fuel : nat.

Definition mtime (f : FS) (path : string) : option Z :=
  match fs_entries f !! path with
  | None => None
  | Some Dir => Some (dir_mtime path)
  | Some (File _ t) => Some t
  end.

Definition statNode (n : N) : M World unit :=
  nd ← zoom l_graph (readNode n);
  f ← gets w_fs;
  zoom l_graph (updNode n (Node.setTimestamp (default 0%Z (mtime f (Node.path_ nd))))).

(** [std::min_element]: the first of the smallest. *)
Fixpoint min_output (best : N * Z) (l : list (N * Z)) : N * Z :=
  match l with
  | [] => best
  | x :: l' => min_output (if bool_decide (x.2 < best.2)%Z then x else best) l'
  end.

(** The outputs with their timestamps. *)
Definition stamps (l : list N) : M GState (list (N * Z)) :=
  foldM l [] (λ acc o, nd ← readNode o; mret (acc ++ [(o, Node.timestamp_ nd)])).

Definition getOldestOutput (r : N) : M GState N :=
  rd ← readRule r;
  l ← stamps (Rule.outputs_ rd);
  match l with
  | [] => mabort AssertFailed
  | x :: l' => mret (min_output x l').1
  end.

Definition compareInputsWithOutputs (r : N) : M GState bool :=
  oldestOutput ← getOldestOutput r;
  rd ← readRule r;
  foldM (Rule.inputs_ rd) false (λ atLeastOneDirty input,
    nd ← readNode input;
    od ← readNode oldestOutput;
    if bool_decide (Node.timestamp_ od < Node.timestamp_ nd)%Z then
      mwhen (Node.isSource nd) (updNode input (Node.setState OUT_OF_DATE));;
      mret true
    else mret atLeastOneDirty).

Definition ruleLoadDepfile (r : N) : M World bool :=
  rd ← zoom l_graph (readRule r);
  res ← loadFromfile wm_fuel (Rule.depfile_ rd) r false;
  if bool_decide (res = SUCCESS) then mret true
  else
    restored ← CacheManager.restoreDepfile r;
    if negb restored then mret false
    else
      res ← loadFromfile wm_fuel (Rule.depfile_ rd) r false;
      mret (bool_decide (res = SUCCESS)).

(** [updateRule] and [updateNode] call each other. *)
Definition updateRule_with (updateNode : N → M Scanner bool) (r : N) : M Scanner bool :=
  s ← mget;
  if bool_decide (r ∈ seen_ s) then rd ← onGraph (readRule r); mret (Rule.isDirty rd)
  else
    mput (mkScan (sc_w s) ({[r]} ∪ seen_ s));;
    rd ← onGraph (readRule r);
    isDirty ← foldM (Rule.inputs_ rd) false (λ isDirty i,
      d ← updateNode i;
      if (d : bool) then
        nd ← onGraph (readNode i);
        mwhen (negb (Node.isSource nd)) (onGraph (Rule_markInputDirty r));;
        mret true
      else mret isDirty);
    zoom l_world (updateRuleHash r true true);;
    rd ← onGraph (readRule r);
    isDirty ← (if Rule.hasDepfile rd then
                 ok ← zoom l_world (ruleLoadDepfile r);
                 if negb ok then mret true
                 else zoom l_world (updateRuleHash r true false);; mret isDirty
               else mret isDirty);
    rd ← onGraph (readRule r);
    newer ← (if negb (Rule.isPhony rd) then onGraph (compareInputsWithOutputs r) else mret false);
    if isDirty || newer then
      onGraph (updRule r (Rule.setState OUT_OF_DATE));; mret true
    else mret false.

Fixpoint updateNode (fuel : nat) (n : N) : M Scanner bool :=
  match fuel with
  | O => mabort OutOfFuel
  | S fuel =>
    nd ← onGraph (readNode n);
    dirty ← match Node.childRule_ nd with
            | None => mret false
            | Some c =>
              dirty ← updateRule_with (updateNode fuel) c;
              mwhen dirty (onGraph (updNode n (Node.setState OUT_OF_DATE)));;
              mret dirty
            end;
    nd ← onGraph (readNode n);
    mwhen (bool_decide (Node.hash_ nd = "")) (zoom l_world (updateNodeHash n true true);; mret tt);;
    mret dirty
  end.

(** The first loop of [scan]: every node but the outputs of phony rules. *)
Definition statNodes : M World unit :=
  g ← gets (g_graph ∘ w_g);
  foreach (map_to_list (Graph.nodes_ g)).*2 (λ n,
    nd ← zoom l_graph (readNode n);
    phony ← match Node.childRule_ nd with
            | None => mret false
            | Some c => rd ← zoom l_graph (readRule c); mret (Rule.isPhony rd)
            end;
    mwhen (negb phony) (statNode n)).

Definition scan (fuel : nat) : M World unit := λ w,
  match (zoom l_world statNodes;;
         s ← mget;
         foreach (set_elems (Graph.roots_ (g_graph (w_g (sc_w s))))) (λ n, updateNode fuel n;; mret tt))
        (mkScan w ∅) with
  | Ret a s => Ret a (sc_w s)
  | Throw e s => Throw e (sc_w s)
  | Abort r => Abort r
  end.
End scan.
