(* ===== verification/ScanExact.v ===== *)
(** * The scan is exact (graph_dependency_scan.cpp)

    Without depfiles, the scan of a graph in which nothing was marked yet stops, and
    the rules that are dirty afterwards are those of a definition without states: a
    rule is outdated if an input is newer than one of its outputs or is made by an
    outdated rule.  It leaves the counters right and every hash computed. *)

From S2P Require Import Prelude GraphModel GraphChecks DepfileParser Fs Cache Watchman World Hash HashRecompute Scan.

(** ** What the scan is to find *)

Section outdated.
Context (ts : N → Z) (g : GState).

(** [i] is newer than an output of the rule, which has a command. *)
Definition newer (r i : N) : Prop := ∃ rd o,
  g_rules g !! r = Some rd ∧ Rule.command_ rd ≠ "" ∧ o ∈ Rule.outputs_ rd ∧ (ts o < ts i)%Z.

Inductive outdated : N → Prop :=
  | outdated_newer r rd i :
      g_rules g !! r = Some rd → i ∈ Rule.inputs_ rd → newer r i → outdated r
  | outdated_input r rd i nd c :
      g_rules g !! r = Some rd → i ∈ Rule.inputs_ rd →
      g_nodes g !! i = Some nd → Node.childRule_ nd = Some c → outdated c → outdated r.

(** A source that has to be told from the ones the outputs were made of. *)
Definition new_source (n : N) : Prop := ∃ r rd,
  g_rules g !! r = Some rd ∧ n ∈ Rule.inputs_ rd ∧ newer r n.
End outdated.

(** ** Timestamps *)

(** An output of a phony rule is not looked up. *)
Definition phony_output (g : GState) (nd : Node.t) : bool :=
  match Node.childRule_ nd with
  | Some c => match g_rules g !! c with Some rd => Rule.isPhony rd | None => false end
  | None => false
  end.

Section stat.
Context `{DirTime}.

Definition stamp_of (w : World) (nd : Node.t) : Z :=
  if phony_output (w_g w) nd then Node.timestamp_ nd else default 0%Z (mtime (w_fs w) (Node.path_ nd)).
Definition stamp (w : World) (n : N) : Z :=
  match g_nodes (w_g w) !! n with Some nd => stamp_of w nd | None => 0%Z end.

Record stamped (w : World) (l : list N) (w' : World) : Prop := {
  st_world : w' = set_g (w_g w') w;
  st_nodes n : g_nodes (w_g w') !! n =
    (λ nd, if decide (n ∈ l) then Node.setTimestamp (stamp_of w nd) nd else nd) <$> g_nodes (w_g w) !! n;
  st_rules : g_rules (w_g w') = g_rules (w_g w);
  st_graph : g_graph (w_g w') = g_graph (w_g w);
}.

Lemma stamped_fs w l w' : stamped w l w' → w_fs w' = w_fs w.
Proof. intros [-> _ _ _]. done. Qed.

Lemma setTimestamp_id nd : Node.setTimestamp (Node.timestamp_ nd) nd = nd.
Proof. by destruct nd. Qed.
Lemma setTimestamp_twice t t' nd : Node.setTimestamp t (Node.setTimestamp t' nd) = Node.setTimestamp t nd.
Proof. done. Qed.

Lemma statNodes_spec w :
  structure_ok (w_g w) → graph_ok (w_g w) →
  returns statNodes (λ _ w', stamped w ((map_to_list (Graph.nodes_ (g_graph (w_g w)))).*2) w') w.
Proof.
  intros Hs Hg. apply wp_bind, wp_gets. apply (wp_foreach (λ pre w', stamped w pre w')).
  - split; [by destruct w| |done|done]. intros n. simpl. rewrite option_fmap_id. done.
  - intros pre n post w1 Heq Hst.
    assert (Hin : n ∈ (map_to_list (Graph.nodes_ (g_graph (w_g w)))).*2) by (unfold compose in Heq; rewrite Heq; set_solver).
    apply list_elem_of_fmap in Hin as ([p m] & -> & Hin%elem_of_map_to_list). simpl in *.
    apply (go_nodes _ Hg) in Hin as (nd & Hn & Hp). set (nd1 := if decide (m ∈ pre) then Node.setTimestamp (stamp_of w nd) nd else nd).
    assert (Hn1 : g_nodes (w_g w1) !! m = Some nd1) by (by rewrite (st_nodes _ _ _ Hst), Hn).
    assert (Hc1 : Node.childRule_ nd1 = Node.childRule_ nd) by (unfold nd1; by case_decide).
    assert (Hp1 : Node.path_ nd1 = Node.path_ nd) by (unfold nd1; by case_decide).
    assert (Hends : ∀ w2, w2 = set_g (w_g w2) w → g_rules (w_g w2) = g_rules (w_g w) → g_graph (w_g w2) = g_graph (w_g w) →
      g_nodes (w_g w2) = <[m := Node.setTimestamp (stamp_of w nd) nd]> (g_nodes (w_g w1)) → stamped w (pre ++ [m]) w2).
    { intros w2 Hw Hr Hgr Hno. split; [done| |done|done]. intros k. rewrite Hno. destruct (decide (m = k)) as [<-|Hne].
      - rewrite lookup_insert_eq, Hn. simpl. by rewrite decide_True by set_solver.
      - rewrite lookup_insert_ne, (st_nodes _ _ _ Hst) by done. destruct (g_nodes (w_g w) !! k); [|done]. simpl. f_equal.
        by rewrite (decide_ext (k ∈ pre ++ [m]) (k ∈ pre)) by set_solver. }
    apply wp_bind, wp_zoom. cbn [lget lset l_graph]. eapply wp_readNode; [exact Hn1|]. rewrite set_g_same, Hc1. apply wp_bind.
    apply (wp_mono _ (λ phony w2, phony = phony_output (w_g w) nd ∧ w2 = w1) _ (λ _ _, False)); [| |done].
    { unfold phony_output. destruct (Node.childRule_ nd) as [c|] eqn:Hc; [|by apply wp_ret].
      destruct (so_child _ Hs m nd c Hn Hc) as (rd & Hr & _). apply wp_bind, wp_zoom. cbn [lget lset l_graph].
      eapply wp_readRule; [by rewrite (st_rules _ _ _ Hst)|]. rewrite set_g_same. apply wp_ret. by rewrite Hr. }
    intros phony w2 [-> ->]. destruct (phony_output (w_g w) nd) eqn:Hph; simpl.
    + apply wp_ret. apply Hends; [apply Hst|apply Hst|apply Hst|]. rewrite insert_id; [done|]. rewrite Hn1. f_equal.
      unfold nd1, stamp_of. rewrite Hph, setTimestamp_id. by case_decide.
    + apply wp_bind, wp_zoom. cbn [lget lset l_graph]. eapply wp_readNode; [exact Hn1|]. rewrite set_g_same. apply wp_bind, wp_gets.
      apply wp_zoom. cbn [lget lset l_graph]. eapply wp_updNode; [exact Hn1|].
      apply Hends; cbn [w_g set_g g_rules g_graph g_nodes set_nodes]; [|apply Hst|apply Hst|].
      * rewrite (st_world _ _ _ Hst). apply set_g_set.
      * f_equal. rewrite (stamped_fs _ _ _ Hst), Hp1. unfold nd1, stamp_of. rewrite Hph. by case_decide.
  - done.
Qed.

End stat.

(** ** The objects without what the scan changes *)

Definition scrub_node (nd : Node.t) : Node.t := strip_node (Node.setState UP_TO_DATE nd).
Definition scrub_rule (rd : Rule.t) : Rule.t := strip_rule (Rule.assignReady 0 (Rule.setState UP_TO_DATE rd)).

Record scrubbed (g g' : GState) : Prop := {
  sb_nodes n : scrub_node <$> g_nodes g' !! n = scrub_node <$> g_nodes g !! n;
  sb_rules r : scrub_rule <$> g_rules g' !! r = scrub_rule <$> g_rules g !! r;
  sb_graph : g_graph g' = g_graph g;
}.

#[export] Instance scrubbed_equiv : Equivalence scrubbed.
Proof.
  split; [by split|intros s s' []; by split|].
  intros s1 s2 s3 [] []. split; intros; congruence.
Qed.

Lemma scrub_node_eq nd nd' : scrub_node nd = scrub_node nd' →
  Node.path_ nd = Node.path_ nd' ∧ Node.childRule_ nd = Node.childRule_ nd' ∧ Node.parentRules_ nd = Node.parentRules_ nd' ∧
  Node.timestamp_ nd = Node.timestamp_ nd'.
Proof. destruct nd, nd'. unfold scrub_node, strip_node, Node.setHash, Node.setHashDepfile, Node.setState. simpl. by intros [= -> -> -> _ ->]. Qed.
Lemma scrub_rule_eq rd rd' : scrub_rule rd = scrub_rule rd' →
  Rule.inputs_ rd = Rule.inputs_ rd' ∧ Rule.outputs_ rd = Rule.outputs_ rd' ∧ Rule.command_ rd = Rule.command_ rd' ∧
  Rule.depfile_ rd = Rule.depfile_ rd' ∧ Rule.numImplicitDeps_ rd = Rule.numImplicitDeps_ rd'.
Proof.
  destruct rd, rd'. unfold scrub_rule, strip_rule, Rule.setHash, Rule.setHashDepfile, Rule.assignReady, Rule.setState. simpl.
  by intros [= -> -> -> -> -> _].
Qed.

Lemma scrubbed_node g g' n nd : scrubbed g g' → g_nodes g' !! n = Some nd →
  ∃ nd0, g_nodes g !! n = Some nd0 ∧ scrub_node nd = scrub_node nd0.
Proof. intros [H1 _ _] Hn. specialize (H1 n). rewrite Hn in H1. symmetry in H1. apply fmap_Some in H1 as (nd0 & ? & ?). eauto. Qed.
Lemma scrubbed_rule g g' r rd : scrubbed g g' → g_rules g' !! r = Some rd →
  ∃ rd0, g_rules g !! r = Some rd0 ∧ scrub_rule rd = scrub_rule rd0.
Proof. intros [_ H1 _] Hn. specialize (H1 r). rewrite Hn in H1. symmetry in H1. apply fmap_Some in H1 as (rd0 & ? & ?). eauto. Qed.

Lemma scrubbed_shape g g' : scrubbed g g' → same_shape g g'.
Proof.
  intros Hs. split; [intros n|intros r|symmetry; apply Hs].
  - pose proof (sb_nodes _ _ Hs n) as Hn. destruct (g_nodes g !! n), (g_nodes g' !! n); try done. simpl in *.
    apply (inj Some), scrub_node_eq in Hn as (? & ? & ? & _). unfold node_shape. congruence.
  - pose proof (sb_rules _ _ Hs r) as Hr. destruct (g_rules g !! r), (g_rules g' !! r); try done. simpl in *.
    apply (inj Some), scrub_rule_eq in Hr as (? & ? & ? & ? & ?). unfold rule_shape. congruence.
Qed.

Lemma rule_target_scrub `{SHA256} g rd rd' : scrub_rule rd = scrub_rule rd' → rule_target g rd = rule_target g rd'.
Proof. intros (Hi & _ & Hc & _ & Hd)%scrub_rule_eq. unfold rule_target, explicit_inputs. by rewrite Hi, Hc, Hd. Qed.

(** ** The invariant *)

(** Nothing is marked or hashed. *)
Record unscanned (g : GState) : Prop := {
  us_structure : structure_ok g;
  us_nodes n nd : g_nodes g !! n = Some nd → Node.state_ nd = UP_TO_DATE ∧ Node.hash_ nd = "";
  us_rules r rd : g_rules g !! r = Some rd →
    Rule.state_ rd = UP_TO_DATE ∧ Rule.numInputsReady_ rd = length (Rule.inputs_ rd) ∧ Rule.depfile_ rd = "" ∧ Rule.outputs_ rd ≠ [];
}.

Section scan.
Context `{HA : Allocator} `{HS : SHA256} `{HE : WatchEnv} `{HD : DirTime} (wm_fuel : nat).
Context (w0 : World) (g0 : GState).
Hypothesis Hg0 : unscanned g0.

Definition ts (n : N) : Z := match g_nodes g0 !! n with Some nd => Node.timestamp_ nd | None => 0%Z end.

(** [i] is made by a rule that is dirty. *)
Definition waits (g : GState) (i : N) : bool :=
  match g_nodes g0 !! i with
  | Some nd => match Node.childRule_ nd with Some c => rule_dirty g c | None => false end
  | None => false
  end.

(** [D] are the rules [updateRule] has returned from, [P] those it is in, [V] the
    nodes [updateNode] has returned from. *)
Record scanning (D P V : gset N) (g : GState) : Prop := {
  sc_same : scrubbed g0 g;
  sc_disj : D ## P;
  sc_done r : r ∈ D → rule_dirty g r = true ↔ outdated ts g0 r;
  sc_ready r rd : r ∈ D → g_rules g !! r = Some rd →
    Rule.numInputsReady_ rd = countb (λ i, negb (waits g i)) (Rule.inputs_ rd);
  sc_todo r rd : r ∉ D → g_rules g !! r = Some rd →
    Rule.isDirty rd = false ∧ (r ∉ P → Rule.numInputsReady_ rd = length (Rule.inputs_ rd));
  sc_closed r rd i : r ∈ D → g_rules g0 !! r = Some rd → i ∈ Rule.inputs_ rd → i ∈ V;
  sc_child n nd c : n ∈ V → g_nodes g0 !! n = Some nd → Node.childRule_ nd = Some c → c ∈ D;
  sc_node n nd c : g_nodes g !! n = Some nd → Node.childRule_ nd = Some c →
    Node.isDirty nd = true ↔ n ∈ V ∧ rule_dirty g c = true;
  sc_source n nd : g_nodes g !! n = Some nd → Node.childRule_ nd = None →
    Node.isDirty nd = true ↔ ∃ r rd, r ∈ D ∧ g_rules g0 !! r = Some rd ∧ n ∈ Rule.inputs_ rd ∧ newer ts g0 r n;
  sc_lazy n nd : g_nodes g !! n = Some nd → Node.isDirty nd = true → Node.isLazyFetched_ nd = false;
  sc_hashed n : n ∈ V → node_hashed g n ∧ node_good (w_fs w0) g n;
  sc_unhashed n nd : n ∉ V → g_nodes g !! n = Some nd → Node.hash_ nd = "";
  sc_rule_hash r : r ∈ D → rule_hashed g r ∧ rule_good g r;
}.

Lemma scanning_start : scanning ∅ ∅ ∅ g0.
Proof.
  assert (Hno : ∀ x : N, x ∈ (∅ : gset N) → False) by (intros x; apply not_elem_of_empty).
  split; [done|set_solver|naive_solver|naive_solver| |naive_solver|naive_solver| | | |naive_solver| |naive_solver].
  - intros r rd _ Hr. destruct (us_rules _ Hg0 r rd Hr) as (Hst & Hready & _). unfold Rule.isDirty. by rewrite Hst.
  - intros n nd c Hn Hc. unfold Node.isDirty. rewrite (proj1 (us_nodes _ Hg0 n nd Hn)). split; [done|set_solver].
  - intros n nd Hn Hc. unfold Node.isDirty. rewrite (proj1 (us_nodes _ Hg0 n nd Hn)). split; [done|]. intros (? & ? & ? & _). set_solver.
  - intros n nd Hn. unfold Node.isDirty. by rewrite (proj1 (us_nodes _ Hg0 n nd Hn)).
  - intros n nd _ Hn. apply (us_nodes _ Hg0 n nd Hn).
Qed.

Lemma scanning_structure D P V g : scanning D P V g → structure_ok g.
Proof. intros Hsc. eapply structure_ok_shape; [apply scrubbed_shape, Hsc|apply Hg0]. Qed.

(** A rule that is done stays as it is, and so does what waits for it. *)
Lemma waits_stable D P V g D' P' V' g' i :
  scanning D P V g → scanning D' P' V' g' → D ⊆ D' → i ∈ V → waits g' i = waits g i.
Proof.
  intros Hs Hs' Hsub Hi. unfold waits. destruct (g_nodes g0 !! i) as [nd|] eqn:Hn; [|done].
  destruct (Node.childRule_ nd) as [c|] eqn:Hc; [|done]. assert (Hd : c ∈ D) by by eapply sc_child.
  apply eq_bool_prop_intro. rewrite !Is_true_true, (sc_done _ _ _ _ Hs' c) by set_solver. symmetry. by apply (sc_done _ _ _ _ Hs).
Qed.

Lemma scanning_begin D P V g c : scanning D P V g → c ∉ D → scanning D ({[c]} ∪ P) V g.
Proof.
  intros [] Hc. split; try done; [set_solver|]. intros r rd Hr Hrd. destruct (sc_todo0 r rd Hr Hrd) as [? Hready].
  split; [done|]. intros Hn. apply Hready. set_solver.
Qed.

(** *** A change of the counter of a rule in progress *)

Lemma scanning_count D P V g c rd k :
  scanning D P V g → c ∈ P → g_rules g !! c = Some rd →
  scanning D P V (set_rules (<[c := Rule.assignReady k rd]> (g_rules g)) g).
Proof.
  intros Hs Hc Hr. pose proof (sc_disj _ _ _ _ Hs) as Hd. set (g' := set_rules _ g).
  assert (Hrd : ∀ r, rule_dirty g' r = rule_dirty g r).
  { intros r. unfold rule_dirty, g'. simpl. destruct (decide (c = r)) as [<-|Hne]; [by rewrite lookup_insert_eq, Hr|by rewrite lookup_insert_ne]. }
  assert (Hw : ∀ i, waits g' i = waits g i).
  { intros i. unfold waits. destruct (g_nodes g0 !! i) as [nd|]; [|done]. destruct (Node.childRule_ nd); [apply Hrd|done]. }
  assert (Hkeep : ∀ r, r ∈ D → g_rules g' !! r = g_rules g !! r).
  { intros r Hr'. unfold g'. simpl. rewrite lookup_insert_ne; [done|]. intros <-. set_solver. }
  assert (Hng : ∀ n, node_good (w_fs w0) g n → n ∈ V → node_good (w_fs w0) g' n).
  { intros n Hn HV nd Hnd. rewrite (Hn nd Hnd). unfold node_target. destruct (Node.childRule_ nd) as [q|] eqn:Hq; [|done].
    destruct (scrubbed_node _ _ n nd (sc_same _ _ _ _ Hs) Hnd) as (nd0 & Hnd0 & (_ & Hq0 & _)%scrub_node_eq).
    rewrite Hkeep; [done|]. eapply sc_child; [exact Hs|exact HV|exact Hnd0|congruence]. }
  split; [|done| | | |apply Hs|apply Hs| |apply Hs|apply Hs| |apply Hs|].
  - transitivity g; [apply Hs|]. split; [done| |done]. intros r. unfold g'. simpl. destruct (decide (c = r)) as [<-|Hne].
    + by rewrite lookup_insert_eq, Hr.
    + by rewrite lookup_insert_ne.
  - intros r Hr'. rewrite Hrd. by apply Hs.
  - intros r qd Hr'. rewrite Hkeep by done. intros Hq. rewrite (countb_ext _ (λ i, negb (waits g i))) by (intros; by rewrite Hw). by apply (sc_ready _ _ _ _ Hs r).
  - intros r qd Hr'. unfold g'. simpl. destruct (decide (c = r)) as [<-|Hne].
    + rewrite lookup_insert_eq. intros [= <-]. split; [apply (sc_todo _ _ _ _ Hs c rd Hr' Hr)|done].
    + rewrite lookup_insert_ne by done. by apply Hs.
  - intros n nd q Hn Hq. rewrite Hrd. by apply Hs.
  - intros n Hn. destruct (sc_hashed _ _ _ _ Hs n Hn) as [? ?]. split; [done|auto].
  - intros r Hr'. destruct (sc_rule_hash _ _ _ _ Hs r Hr') as [(qd & Hq & ?) Hgood]. split.
    + exists qd. by rewrite Hkeep.
    + intros qd'. rewrite Hkeep by done. apply Hgood.
Qed.

(** *** Leaving a rule *)

(** The sources among the inputs that are newer are marked. *)
Definition mark_new (ins : list N) (newb : N → bool) (n : N) (nd : Node.t) : Node.t :=
  if bool_decide (n ∈ ins) && newb n && Node.isSource nd then Node.setState OUT_OF_DATE nd else nd.

Lemma mark_new_child ins newb n nd : Node.childRule_ (mark_new ins newb n nd) = Node.childRule_ nd.
Proof. unfold mark_new. by case_match. Qed.
Lemma mark_new_scrub ins newb n nd : scrub_node (mark_new ins newb n nd) = scrub_node nd.
Proof. unfold mark_new. by case_match. Qed.
Lemma mark_new_hashes ins newb n nd :
  (Node.hash_ (mark_new ins newb n nd), Node.hashDepfile_ (mark_new ins newb n nd)) = (Node.hash_ nd, Node.hashDepfile_ nd).
Proof. unfold mark_new. by case_match. Qed.
Lemma mark_new_dirty ins newb n nd :
  Node.isDirty (mark_new ins newb n nd) = bool_decide (n ∈ ins) && newb n && Node.isSource nd || Node.isDirty nd.
Proof. unfold mark_new. by case_match. Qed.

Section close.
Context (D P V : gset N) (g g' : GState) (c : N) (rd0 rd rd' : Rule.t) (newb : N → bool).
Hypotheses (Hs : scanning D ({[c]} ∪ P) V g) (HcP : c ∉ P) (Hc0 : g_rules g0 !! c = Some rd0) (Hc : g_rules g !! c = Some rd)
  (Hins : ∀ i, i ∈ Rule.inputs_ rd0 → i ∈ V)
  (Hready : Rule.numInputsReady_ rd' = countb (λ i, negb (waits g i)) (Rule.inputs_ rd0))
  (Hrules : g_rules g' = <[c := rd']> (g_rules g)) (Hgraph : g_graph g' = g_graph g)
  (Hscrub : scrub_rule rd' = scrub_rule rd0) (Hhash : (Rule.hash_ rd', Rule.hashDepfile_ rd') = rule_target g rd)
  (Hdirty : Rule.isDirty rd' = true ↔ outdated ts g0 c)
  (Hnew : ∀ i, newb i = true ↔ newer ts g0 c i)
  (Hnodes : ∀ n, g_nodes g' !! n = mark_new (Rule.inputs_ rd0) newb n <$> g_nodes g !! n).

Lemma close_fresh : c ∉ D.
Proof. pose proof (sc_disj _ _ _ _ Hs). set_solver. Qed.
Lemma close_rule r : r ≠ c → g_rules g' !! r = g_rules g !! r.
Proof. intros Hne. by rewrite Hrules, lookup_insert_ne. Qed.
Lemma close_dirty r : r ≠ c → rule_dirty g' r = rule_dirty g r.
Proof. intros Hne. unfold rule_dirty. by rewrite close_rule. Qed.
Lemma close_waits i : i ∈ V → waits g' i = waits g i.
Proof.
  intros Hi. unfold waits. destruct (g_nodes g0 !! i) as [nd|] eqn:Hn; [|done].
  destruct (Node.childRule_ nd) as [q|] eqn:Hq; [|done]. apply close_dirty. intros ->.
  apply close_fresh. by apply (sc_child _ _ _ _ Hs i nd).
Qed.
Lemma close_node n nd' : g_nodes g' !! n = Some nd' → ∃ nd, g_nodes g !! n = Some nd ∧ nd' = mark_new (Rule.inputs_ rd0) newb n nd.
Proof. rewrite Hnodes, fmap_Some. naive_solver. Qed.
Lemma close_hashes get l : (∀ i nd, get (mark_new (Rule.inputs_ rd0) newb i nd) = get nd) → hashes get g' l = hashes get g l.
Proof.
  intros Hget. unfold hashes. apply list_fmap_ext. intros k i _. rewrite Hnodes. destruct (g_nodes g !! i); [|done]. simpl. apply Hget.
Qed.
Lemma close_target qd : rule_target g' qd = rule_target g qd.
Proof.
  unfold rule_target. rewrite !close_hashes; [done| |]; intros i nd; unfold mark_new; by case_match.
Qed.
Lemma close_same : scrubbed g0 g'.
Proof.
  transitivity g; [apply Hs|]. split; [| |done].
  - intros n. rewrite Hnodes. destruct (g_nodes g !! n); [|done]. simpl. by rewrite mark_new_scrub.
  - intros r. rewrite Hrules. destruct (decide (c = r)) as [<-|Hne]; [|by rewrite lookup_insert_ne].
    rewrite lookup_insert_eq. simpl. rewrite Hscrub. pose proof (sb_rules _ _ (sc_same _ _ _ _ Hs) c) as Hb.
    rewrite Hc0 in Hb. by rewrite Hb.
Qed.
Lemma close_node_good n : n ∈ V → node_good (w_fs w0) g n → node_good (w_fs w0) g' n.
Proof.
  intros HV Hg nd' (nd & Hn & ->)%close_node. rewrite mark_new_hashes, (Hg nd Hn). unfold node_target.
  rewrite mark_new_child. assert (Hp : Node.path_ (mark_new (Rule.inputs_ rd0) newb n nd) = Node.path_ nd) by (unfold mark_new; by case_match).
  rewrite Hp. destruct (Node.childRule_ nd) as [q|] eqn:Hq; [|done]. rewrite close_rule; [done|]. intros ->. apply close_fresh.
  destruct (scrubbed_node _ _ n nd (sc_same _ _ _ _ Hs) Hn) as (nd0 & Hnd0 & (_ & Hq0 & _)%scrub_node_eq).
  eapply sc_child; [exact Hs|exact HV|exact Hnd0|congruence].
Qed.

Lemma scanning_close : scanning ({[c]} ∪ D) P V g'.
Proof.
  pose proof close_fresh as Hcd.
  assert (Hin : Rule.inputs_ rd' = Rule.inputs_ rd0) by by apply scrub_rule_eq in Hscrub as (? & _).
  split.
  - apply close_same.
  - pose proof (sc_disj _ _ _ _ Hs). set_solver.
  - intros r [->%elem_of_singleton|Hr]%elem_of_union.
    + unfold rule_dirty. by rewrite Hrules, lookup_insert_eq.
    + rewrite close_dirty by (intros ->; done). by apply Hs.
  - intros r qd. rewrite Hrules. destruct (decide (c = r)) as [<-|Hne].
    + rewrite lookup_insert_eq. intros _ [= <-]. rewrite Hready, Hin. apply countb_ext. intros i Hi. by rewrite close_waits by auto.
    + rewrite lookup_insert_ne by done. intros Hr Hq. assert (HrD : r ∈ D) by set_solver.
      rewrite (sc_ready _ _ _ _ Hs r qd HrD Hq). apply countb_ext. intros i Hi.
      destruct (scrubbed_rule _ _ r qd (sc_same _ _ _ _ Hs) Hq) as (qd0 & Hq0 & (Heq & _)%scrub_rule_eq).
      rewrite close_waits; [done|]. apply (sc_closed _ _ _ _ Hs r qd0); [done|done|congruence].
  - intros r qd Hr. rewrite close_rule by set_solver. intros Hq.
    destruct (sc_todo _ _ _ _ Hs r qd) as [? Hrd]; [set_solver|done|]. split; [done|]. intros. apply Hrd. set_solver.
  - intros r qd i [->%elem_of_singleton|Hr]%elem_of_union Hq Hi; [simplify_eq; auto|by eapply (sc_closed _ _ _ _ Hs)].
  - intros n nd q HV Hn Hq. apply elem_of_union_r. by eapply (sc_child _ _ _ _ Hs).
  - intros n nd' q (nd & Hn & ->)%close_node. rewrite mark_new_child, mark_new_dirty. intros Hq.
    assert (Node.isSource nd = false) as -> by (unfold Node.isSource; by rewrite Hq). rewrite andb_false_r, orb_false_l, (sc_node _ _ _ _ Hs n nd q Hn Hq).
    destruct (decide (q = c)) as [->|Hne]; [|by rewrite close_dirty]. split; intros [HV _]; exfalso; apply Hcd;
      destruct (scrubbed_node _ _ n nd (sc_same _ _ _ _ Hs) Hn) as (nd0 & Hnd0 & (_ & Hq0 & _)%scrub_node_eq);
      (eapply sc_child; [exact Hs|exact HV|exact Hnd0|congruence]).
  - intros n nd' (nd & Hn & ->)%close_node. rewrite mark_new_child, mark_new_dirty. intros Hq.
    assert (Node.isSource nd = true) as -> by (unfold Node.isSource; by rewrite Hq).
    rewrite andb_true_r, orb_true_iff, andb_true_iff, bool_decide_eq_true, Hnew, (sc_source _ _ _ _ Hs n nd Hn Hq). split.
    + intros [[Hi Hnw]|(r & qd & Hr & ?)]; [exists c, rd0; set_solver|exists r, qd; set_solver].
    + intros (r & qd & [->%elem_of_singleton|Hr]%elem_of_union & Hqd & Hi & Hnw); [left; simplify_eq; done|right; by exists r, qd].
  - intros n nd' (nd & Hn & ->)%close_node. unfold mark_new. case_match; [done|]. by apply (sc_lazy _ _ _ _ Hs n).
  - intros n HV. destruct (sc_hashed _ _ _ _ Hs n HV) as [(nd & Hn & Hh) Hg]. split; [|by apply close_node_good].
    exists (mark_new (Rule.inputs_ rd0) newb n nd). rewrite Hnodes, Hn. split; [done|].
    pose proof (mark_new_hashes (Rule.inputs_ rd0) newb n nd) as [= -> ->]. done.
  - intros n nd' HV (nd & Hn & ->)%close_node. pose proof (mark_new_hashes (Rule.inputs_ rd0) newb n nd) as [= -> _].
    by apply (sc_unhashed _ _ _ _ Hs n).
  - intros r [->%elem_of_singleton|Hr]%elem_of_union.
    + split.
      * exists rd'. rewrite Hrules, lookup_insert_eq. unfold rule_target in Hhash. injection Hhash as -> ->. split_and!; [done|apply Hasher_nonempty|apply Hasher_nonempty].
      * intros qd. rewrite Hrules, lookup_insert_eq. intros [= <-]. rewrite Hhash, close_target.
        destruct (scrubbed_rule _ _ c rd (sc_same _ _ _ _ Hs) Hc) as (qd0 & Hq0 & Heq). assert (qd0 = rd0) as -> by congruence.
        apply rule_target_scrub. congruence.
    + destruct (sc_rule_hash _ _ _ _ Hs r Hr) as [(qd & Hq & Hh) Hg]. assert (r ≠ c) by (intros ->; done). split.
      * exists qd. by rewrite close_rule.
      * intros qd'. rewrite close_rule by done. intros Hq'. rewrite close_target. by apply Hg.
Qed.
End close.


(** *** Leaving a node *)

Definition mark_waiting (b : bool) (nd : Node.t) : Node.t := if b then Node.setState OUT_OF_DATE nd else nd.
Definition visit (g : GState) (n : N) (nd : Node.t) : GState :=
  set_node_hashes n (mark_waiting (waits g n) nd) (node_target (w_fs w0) g nd) g.

Lemma mark_waiting_child b nd : Node.childRule_ (mark_waiting b nd) = Node.childRule_ nd.
Proof. by destruct b. Qed.
Lemma mark_waiting_dirty b nd : Node.isDirty (mark_waiting b nd) = b || Node.isDirty nd.
Proof. by destruct b. Qed.

Section visit.
Context (D P V : gset N) (g : GState) (n : N) (nd : Node.t).
Hypotheses (Hs : scanning D P V g) (HV : n ∉ V) (Hn : g_nodes g !! n = Some nd)
  (Hchild : ∀ c, Node.childRule_ nd = Some c → c ∈ D).

Lemma visit_other m : m ≠ n → g_nodes (visit g n nd) !! m = g_nodes g !! m.
Proof. intros Hne. simpl. by rewrite lookup_insert_ne. Qed.
Lemma visit_self : g_nodes (visit g n nd) !! n = Some (Node.setHashDepfile (node_target (w_fs w0) g nd).2
  (Node.setHash (node_target (w_fs w0) g nd).1 (mark_waiting (waits g n) nd))).
Proof. simpl. by rewrite lookup_insert_eq. Qed.
Lemma visit_same : scrubbed g0 (visit g n nd).
Proof.
  transitivity g; [apply Hs|]. split; [|done|done]. intros m. destruct (decide (m = n)) as [->|Hne]; [|by rewrite visit_other].
  rewrite visit_self, Hn. simpl. by destruct (waits g n).
Qed.
Lemma visit_waits i : waits (visit g n nd) i = waits g i.
Proof. done. Qed.
Lemma visit_node_good m : (m = n ∨ node_good (w_fs w0) g m) → node_good (w_fs w0) (visit g n nd) m.
Proof.
  destruct (decide (m = n)) as [->|Hne]; intros Hm md.
  - rewrite visit_self. intros [= <-]. unfold node_target.
    destruct (waits g n); simpl; (destruct (Node.childRule_ nd) as [c|]; [by destruct (g_rules g !! c)|done]).
  - rewrite visit_other by done. intros Hmd. destruct Hm as [?|Hm]; [done|]. by apply Hm.
Qed.
Lemma visit_hashed : node_hashed (visit g n nd) n.
Proof.
  eexists. split; [apply visit_self|]. unfold node_target. simpl. destruct (Node.childRule_ nd) as [c|] eqn:Hc.
  - destruct (sc_rule_hash _ _ _ _ Hs c (Hchild c eq_refl)) as [(rd & -> & _) _]. split; apply Hasher_nonempty.
  - split; apply Hasher_nonempty.
Qed.
Lemma visit_not_waiting : Node.childRule_ nd = None → waits g n = false.
Proof.
  intros Hc. unfold waits. destruct (scrubbed_node _ _ n nd (sc_same _ _ _ _ Hs) Hn) as (nd0 & -> & (_ & Hq0 & _)%scrub_node_eq).
  by rewrite <- Hq0, Hc.
Qed.
Lemma visit_waiting c : Node.childRule_ nd = Some c → waits g n = rule_dirty g c.
Proof.
  intros Hc. unfold waits. destruct (scrubbed_node _ _ n nd (sc_same _ _ _ _ Hs) Hn) as (nd0 & -> & (_ & Hq0 & _)%scrub_node_eq).
  by rewrite <- Hq0, Hc.
Qed.
Lemma visit_rule_good r : r ∈ D → rule_good g r → rule_good (visit g n nd) r.
Proof.
  intros Hr Hg rd Hrd. rewrite (Hg rd Hrd). unfold rule_target.
  destruct (scrubbed_rule _ _ r rd (sc_same _ _ _ _ Hs) Hrd) as (rd0 & Hrd0 & (Heq & _)%scrub_rule_eq).
  assert (Hne : ∀ i, i ∈ Rule.inputs_ rd → i ≠ n).
  { intros i Hi ->. apply HV, (sc_closed _ _ _ _ Hs r rd0); [done|done|congruence]. }
  f_equal; f_equal; f_equal; apply hashes_ext; intros i Hi; rewrite visit_other; auto using elem_of_explicit.
Qed.

Lemma scanning_visit : scanning D P ({[n]} ∪ V) (visit g n nd).
Proof.
  split.
  - apply visit_same.
  - apply Hs.
  - apply Hs.
  - apply Hs.
  - apply Hs.
  - intros r rd i Hr Hrd Hi. apply elem_of_union_r. by eapply (sc_closed _ _ _ _ Hs).
  - intros m md c [->%elem_of_singleton|Hm]%elem_of_union Hmd Hc; [|by eapply (sc_child _ _ _ _ Hs)].
    destruct (scrubbed_node _ _ n nd (sc_same _ _ _ _ Hs) Hn) as (nd0 & Hnd0 & (_ & Hq0 & _)%scrub_node_eq).
    apply Hchild. congruence.
  - intros m md c. destruct (decide (m = n)) as [->|Hne].
    + rewrite visit_self. intros [= <-]. simpl. rewrite mark_waiting_child. intros Hc.
      change (Node.isDirty (Node.setHashDepfile ?a (Node.setHash ?b ?x))) with (Node.isDirty x).
      rewrite mark_waiting_dirty, (visit_waiting c Hc). pose proof (sc_node _ _ _ _ Hs n nd c Hn Hc) as Hi.
      change (rule_dirty (visit g n nd) c) with (rule_dirty g c). destruct (Node.isDirty nd); [naive_solver|].
      rewrite orb_false_r. set_solver.
    + rewrite visit_other by done. intros Hmd Hc. rewrite (sc_node _ _ _ _ Hs m md c Hmd Hc).
      change (rule_dirty (visit g n nd) c) with (rule_dirty g c). set_solver.
  - intros m md. destruct (decide (m = n)) as [->|Hne].
    + rewrite visit_self. intros [= <-]. simpl. rewrite mark_waiting_child. intros Hc.
      change (Node.isDirty (Node.setHashDepfile ?a (Node.setHash ?b ?x))) with (Node.isDirty x).
      rewrite mark_waiting_dirty, (visit_not_waiting Hc). simpl. by apply (sc_source _ _ _ _ Hs).
    + rewrite visit_other by done. apply Hs.
  - intros m md. destruct (decide (m = n)) as [->|Hne]; [|rewrite visit_other by done; apply Hs].
    rewrite visit_self. intros [= <-]. unfold mark_waiting. destruct (waits g n); [done|]. by apply (sc_lazy _ _ _ _ Hs n nd).
  - intros m [->%elem_of_singleton|Hm]%elem_of_union; [split; [apply visit_hashed|apply visit_node_good; by left]|].
    destruct (sc_hashed _ _ _ _ Hs m Hm) as [Hh Hg]. split; [|apply visit_node_good; by right].
    assert (m ≠ n) by (intros ->; done). unfold node_hashed. by rewrite visit_other.
  - intros m md Hm. rewrite visit_other by set_solver. apply Hs. set_solver.
  - intros r Hr. destruct (sc_rule_hash _ _ _ _ Hs r Hr) as [Hh Hg]. split; [exact Hh|by apply visit_rule_good].
Qed.
End visit.


(** *** Comparing timestamps *)

Lemma min_output_spec l : ∀ best, min_output best l ∈ best :: l ∧ ∀ y, y ∈ best :: l → ((min_output best l).2 ≤ y.2)%Z.
Proof.
  induction l as [|x l IH]; intros best; simpl; [split; [set_solver|]; intros y ->%list_elem_of_singleton; lia|].
  destruct (IH (if bool_decide (x.2 < best.2)%Z then x else best)) as [Hin Hle]. split.
  - apply elem_of_cons in Hin as [-> | ?]; [|set_solver]. case_bool_decide; set_solver.
  - assert ((min_output (if bool_decide (x.2 < best.2)%Z then x else best) l).2 ≤ x.2 ∧
            (min_output (if bool_decide (x.2 < best.2)%Z then x else best) l).2 ≤ best.2)%Z as [? ?].
    { specialize (Hle _ (list_elem_of_here _ _)). case_bool_decide; lia. }
    intros y [->|[->|Hy]%elem_of_cons]%elem_of_cons; [done|done|]. apply Hle. set_solver.
Qed.

Lemma scrubbed_ts g n nd : scrubbed g0 g → g_nodes g !! n = Some nd → Node.timestamp_ nd = ts n.
Proof. intros Hs Hn. destruct (scrubbed_node _ _ n nd Hs Hn) as (nd0 & Hnd0 & (_ & _ & _ & Ht)%scrub_node_eq). unfold ts. by rewrite Hnd0. Qed.

Lemma stamps_spec l g :
  scrubbed g0 g → (∀ o, o ∈ l → is_Some (g_nodes g !! o)) →
  returns (stamps l) (λ v g', g' = g ∧ v = (λ o, (o, ts o)) <$> l) g.
Proof.
  intros Hs Hl. apply (wp_foldM (λ pre acc g', g' = g ∧ acc = (λ o, (o, ts o)) <$> pre)); [done| |done].
  intros pre o post acc g' -> [-> ->]. destruct (Hl o) as [nd Hn]; [set_solver|].
  apply wp_bind. eapply wp_readNode; [exact Hn|]. apply wp_ret. by rewrite fmap_app, (scrubbed_ts g o nd).
Qed.

Lemma getOldestOutput_spec c rd g :
  scrubbed g0 g → structure_ok g → g_rules g !! c = Some rd → Rule.outputs_ rd ≠ [] →
  returns (getOldestOutput c) (λ o g', g' = g ∧ o ∈ Rule.outputs_ rd ∧ ∀ o', o' ∈ Rule.outputs_ rd → (ts o ≤ ts o')%Z) g.
Proof.
  intros Hs Hok Hc Hne. apply wp_bind. eapply wp_readRule; [exact Hc|]. apply wp_bind.
  eapply wp_mono; [apply stamps_spec; [done|]| |done].
  { intros o Ho. destruct (so_output _ Hok c rd o Hc Ho) as (nd & ? & _). by eexists. }
  intros v g' [-> ->]. destruct (Rule.outputs_ rd) as [|x l]; [done|]. simpl. apply wp_ret. split; [done|].
  destruct (min_output_spec ((λ o, (o, ts o)) <$> l) (x, ts x)) as [Hin Hle].
  change ((x, ts x) :: ((λ o, (o, ts o)) <$> l)) with ((λ o, (o, ts o)) <$> x :: l) in *.
  destruct (min_output _ _) as [o t]. apply list_elem_of_fmap in Hin as (o1 & [= -> ->] & Ho1). split; [done|].
  intros o' Ho'. apply (Hle (o', ts o')). apply list_elem_of_fmap. eauto.
Qed.

Lemma compare_spec c rd g :
  scrubbed g0 g → structure_ok g → g_rules g !! c = Some rd → Rule.outputs_ rd ≠ [] →
  returns (compareInputsWithOutputs c) (λ b g', ∃ newb,
    (∀ i, newb i = true ↔ ∃ o, o ∈ Rule.outputs_ rd ∧ (ts o < ts i)%Z) ∧ b = existsb newb (Rule.inputs_ rd) ∧
    g_rules g' = g_rules g ∧ g_graph g' = g_graph g ∧
    ∀ n, g_nodes g' !! n = mark_new (Rule.inputs_ rd) newb n <$> g_nodes g !! n) g.
Proof.
  intros Hs Hok Hc Hne. apply wp_bind. eapply wp_mono; [by apply (getOldestOutput_spec c rd)| |done].
  intros o g' (-> & Ho & Hmin). apply wp_bind. eapply wp_readRule; [exact Hc|].
  destruct (so_output _ Hok c rd o Hc Ho) as (od & Hod & Hoc).
  set (newb i := bool_decide (ts o < ts i)%Z).
  apply (wp_foldM (λ pre b g', b = existsb newb pre ∧ g_rules g' = g_rules g ∧ g_graph g' = g_graph g ∧
    ∀ n, g_nodes g' !! n = mark_new pre newb n <$> g_nodes g !! n)).
  - split_and!; try done. intros n. destruct (g_nodes g !! n); [|done]. done.
  - intros pre i post b g' Heq (-> & Hr & Hgr & Hn).
    destruct (so_input _ Hok c rd i Hc) as (nd & Hnd & _); [rewrite Heq; set_solver|].
    apply wp_bind. eapply wp_readNode; [by rewrite Hn, Hnd|]. apply wp_bind. eapply wp_readNode; [by rewrite Hn, Hod|].
    assert (Ht : ∀ m md, Node.timestamp_ (mark_new pre newb m md) = Node.timestamp_ md) by (intros; unfold mark_new; by case_match).
    rewrite !Ht, (scrubbed_ts g o od), (scrubbed_ts g i nd), existsb_app by done. simpl. rewrite orb_false_r. fold (newb i).
    assert (Hsrc : Node.isSource (mark_new pre newb i nd) = Node.isSource nd) by (unfold mark_new; by case_match).
    assert (Hother : ∀ n, n ≠ i → mark_new (pre ++ [i]) newb n <$> g_nodes g !! n = mark_new pre newb n <$> g_nodes g !! n).
    { intros n Hne'. unfold mark_new. by rewrite (bool_decide_ext (n ∈ pre ++ [i]) (n ∈ pre)) by set_solver. }
    assert (Hself : bool_decide (i ∈ pre ++ [i]) = true) by (apply bool_decide_eq_true; set_solver).
    destruct (newb i) eqn:Hi.
    + apply wp_bind. rewrite Hsrc. destruct (Node.isSource nd) eqn:His.
      * eapply wp_updNode; [by rewrite Hn, Hnd|]. apply wp_ret. split_and!; [by rewrite orb_true_r|done|done|].
        intros n. simpl. destruct (decide (n = i)) as [->|Hne']; [|by rewrite lookup_insert_ne, Hother].
        rewrite lookup_insert_eq, Hnd. simpl. unfold mark_new. rewrite Hself, Hi, His. simpl. by case_match.
      * apply wp_ret, wp_ret. split_and!; [by rewrite orb_true_r|done|done|]. intros n. rewrite Hn.
        destruct (decide (n = i)) as [->|Hne']; [|by rewrite Hother]. rewrite Hnd. unfold mark_new. simpl. by rewrite His, !andb_false_r.
    + apply wp_ret. split_and!; [by rewrite orb_false_r|done|done|]. intros n. rewrite Hn.
      destruct (decide (n = i)) as [->|Hne']; [|by rewrite Hother]. rewrite Hnd. unfold mark_new. simpl. by rewrite Hi, !andb_false_r.
  - intros b g' (-> & Hr & Hgr & Hn). exists newb. split_and!; try done. intros i. unfold newb. rewrite bool_decide_eq_true.
    split; [eauto|]. intros (o' & Ho' & Hlt). specialize (Hmin o' Ho'). lia.
Qed.


(** *** The traversal *)

Definition at_ (g : GState) (X : gset N) : Scanner := mkScan (set_g g w0) X.

Lemma wp_onGraph {A} (m : M GState A) (Q : A → Scanner → Prop) E g X :
  wp m (λ a g', Q a (at_ g' X)) (λ e g', E e (at_ g' X)) g → wp (onGraph m) Q E (at_ g X).
Proof. intros Hm. apply wp_zoom, wp_zoom. exact Hm. Qed.
Lemma wp_onWorld {A} (m : M World A) (Q : A → Scanner → Prop) g X :
  returns m (λ a w', ∃ g', w' = set_g g' w0 ∧ Q a (at_ g' X)) (set_g g w0) → returns (zoom l_world m) Q (at_ g X).
Proof. intros Hm. apply wp_zoom. eapply wp_mono; [exact Hm| |done]. intros a w' (g' & -> & HQ). exact HQ. Qed.

(** A rule turns out outdated as the definition says. *)
Lemma outdated_iff D P V g c rd0 newb :
  scanning D P V g → g_rules g0 !! c = Some rd0 → (∀ i, i ∈ Rule.inputs_ rd0 → i ∈ V) →
  (∀ i, newb i = true ↔ newer ts g0 c i) →
  existsb (waits g) (Rule.inputs_ rd0) || existsb newb (Rule.inputs_ rd0) = true ↔ outdated ts g0 c.
Proof.
  intros Hs Hc0 Hins Hnb. rewrite orb_true_iff, !existsb_exists. setoid_rewrite <- list_elem_of_In. split.
  - intros [(i & Hi & Hw)|(i & Hi & Hw)]; [|by eapply outdated_newer; [exact Hc0|exact Hi|apply Hnb]].
    unfold waits in Hw. destruct (g_nodes g0 !! i) as [nd|] eqn:Hnd; [|done]. destruct (Node.childRule_ nd) as [q|] eqn:Hq; [|done].
    eapply outdated_input; [exact Hc0|exact Hi|exact Hnd|exact Hq|]. apply (sc_done _ _ _ _ Hs); [|done]. eapply (sc_child _ _ _ _ Hs i); eauto.
  - inversion 1 as [? qd i Hq Hi Hnw|? qd i nd q Hq Hi Hnd Hch Ho]; subst; simplify_eq.
    + right. exists i. split; [done|]. by apply Hnb.
    + left. exists i. split; [done|]. unfold waits. rewrite Hnd, Hch. apply (sc_done _ _ _ _ Hs); [|done].
      eapply (sc_child _ _ _ _ Hs i); eauto.
Qed.

(** The comparison, which phony rules do without. *)
Lemma compare_stage c rd0 rd g X :
  scrubbed g0 g → g_rules g0 !! c = Some rd0 → g_rules g !! c = Some rd → scrub_rule rd = scrub_rule rd0 →
  returns (if negb (Rule.isPhony rd) then onGraph (compareInputsWithOutputs c) else mret false)
    (λ b s', ∃ newb g', s' = at_ g' X ∧ (∀ i, newb i = true ↔ newer ts g0 c i) ∧ b = existsb newb (Rule.inputs_ rd0) ∧
       g_rules g' = g_rules g ∧ g_graph g' = g_graph g ∧
       ∀ n, g_nodes g' !! n = mark_new (Rule.inputs_ rd0) newb n <$> g_nodes g !! n) (at_ g X).
Proof.
  intros Hs Hc0 Hc (Hin & Hout & Hcmd & _)%scrub_rule_eq. unfold Rule.isPhony. case_bool_decide as Hph; simpl.
  - apply wp_ret. exists (λ _, false), g. split_and!; try done.
    + intros i. split; [done|]. intros (qd & o & Hq & Hne & _). assert (qd = rd0) as -> by congruence. congruence.
    + clear -rd0. induction (Rule.inputs_ rd0) as [|x l IH]; [done|exact IH].
    + intros n. unfold mark_new. destruct (g_nodes g !! n); [|done]. simpl. by rewrite andb_false_r.
  - apply wp_onGraph. eapply wp_mono; [apply (compare_spec c rd)| |done]; try done.
    { eapply structure_ok_shape; [by apply scrubbed_shape|apply Hg0]. }
    { rewrite Hout. apply (us_rules _ Hg0 c rd0 Hc0). }
    rewrite Hin, Hout. intros b g2 (newb & Hnb & -> & Hr & Hgr & Hn). exists newb, g2. split_and!; try done.
    intros i. rewrite Hnb. split.
    + intros (o & Ho & Hlt). exists rd0, o. split_and!; [done|congruence|done|done].
    + intros (qd & o & Hq & _ & Ho & Hlt). assert (qd = rd0) as -> by congruence. eauto.
Qed.

(** The end of [updateRule], after its inputs were traversed. *)
Lemma leave_rule D P V g c rd0 rd (X : gset N) :
  scanning D ({[c]} ∪ P) V g → c ∉ P → g_rules g0 !! c = Some rd0 → g_rules g !! c = Some rd →
  (∀ i, i ∈ Rule.inputs_ rd0 → i ∈ V) → Rule.numInputsReady_ rd = countb (λ i, negb (waits g i)) (Rule.inputs_ rd0) →
  let isDirty := existsb (waits g) (Rule.inputs_ rd0) in
  returns (zoom l_world (updateRuleHash c true true);;
    rd ← onGraph (readRule c);
    isDirty ← (if Rule.hasDepfile rd then
                 ok ← zoom l_world (ruleLoadDepfile wm_fuel c);
                 if negb ok then mret true
                 else zoom l_world (updateRuleHash c true false);; mret isDirty
               else mret isDirty);
    rd ← onGraph (readRule c);
    newer ← (if negb (Rule.isPhony rd) then onGraph (compareInputsWithOutputs c) else mret false);
    if isDirty || newer then
      onGraph (updRule c (Rule.setState OUT_OF_DATE));; mret true
    else mret false)
    (λ b s', ∃ g', s' = at_ g' X ∧ scanning ({[c]} ∪ D) P V g' ∧
       (∀ p, p ∈ P → g_rules g' !! p = g_rules g !! p) ∧ b = rule_dirty g' c) (at_ g X).
Proof.
  intros Hs HcP Hc0 Hc Hins Hready isDirty.
  destruct (scrubbed_rule _ _ c rd (sc_same _ _ _ _ Hs) Hc) as (qd & Hqd & Hscr). assert (qd = rd0) as -> by congruence.
  pose proof Hscr as (Hin & _ & _ & Hdep & _)%scrub_rule_eq. destruct (us_rules _ Hg0 c rd0 Hc0) as (_ & _ & Hnodep & _).
  apply wp_bind, wp_onWorld. eapply wp_mono; [apply (updateRuleHash_local c rd); [|exact Hc]| |done].
  { intros i Hi. apply (sc_hashed _ _ _ _ Hs). apply Hins. congruence. }
  intros [] w1 ->. cbn [w_g set_g]. unfold set_rule_hashes. set (rd1 := Rule.setHashDepfile _ (Rule.setHash _ rd)).
  set (g1 := set_rules (<[c := rd1]> (g_rules g)) g). exists g1. split; [apply set_g_set|].
  assert (Hc1 : g_rules g1 !! c = Some rd1) by apply lookup_insert_eq.
  apply wp_bind, wp_onGraph. eapply wp_readRule; [exact Hc1|].
  assert (Rule.hasDepfile rd1 = false) as -> by (unfold Rule.hasDepfile; simpl; by rewrite Hdep, Hnodep).
  apply wp_bind, wp_ret, wp_bind, wp_onGraph. eapply wp_readRule; [exact Hc1|].
  apply wp_bind. eapply wp_mono; [apply (compare_stage c rd0 rd1 g1)| |done]; try done.
  { transitivity g; [apply Hs|]. split; [done| |done]. intros r. unfold g1. simpl.
    destruct (decide (c = r)) as [<-|Hne]; [by rewrite lookup_insert_eq, Hc|by rewrite lookup_insert_ne]. }
  intros b s2 (newb & g2 & -> & Hnb & -> & Hr2 & Hgr2 & Hn2).
  pose proof (outdated_iff _ _ _ _ c rd0 newb Hs Hc0 Hins Hnb) as Hiff. fold isDirty in Hiff.
  set (d := isDirty || existsb newb (Rule.inputs_ rd0)) in *. set (rd' := if d then Rule.setState OUT_OF_DATE rd1 else rd1).
  assert (Hd' : Rule.isDirty rd' = d).
  { unfold rd'. destruct d; [done|]. apply (sc_todo _ _ _ _ Hs c rd); [pose proof (sc_disj _ _ _ _ Hs); set_solver|done]. }
  assert (Hend : ∀ g3, g_rules g3 = <[c := rd']> (g_rules g) → g_graph g3 = g_graph g → (∀ n, g_nodes g3 !! n = g_nodes g2 !! n) →
    scanning ({[c]} ∪ D) P V g3 ∧ (∀ p, p ∈ P → g_rules g3 !! p = g_rules g !! p) ∧ d = rule_dirty g3 c).
  { intros g3 Hr3 Hgr3 Hn3. split_and!.
    - eapply (scanning_close D P V g g3 c rd0 rd rd' newb); try done.
      + rewrite <- Hready. unfold rd'. by destruct d.
      + rewrite <- Hscr. unfold rd'. by destruct d.
      + unfold rd'. by destruct d.
      + by rewrite Hd'.
      + intros n. by rewrite Hn3, Hn2.
    - intros p Hp. rewrite Hr3, lookup_insert_ne; [done|]. intros ->. done.
    - unfold rule_dirty. by rewrite Hr3, lookup_insert_eq. }
  unfold rd' in Hend. destruct d.
  - apply wp_bind, wp_onGraph. eapply wp_updRule; [by rewrite Hr2|]. apply wp_ret. eexists. split; [done|].
    apply Hend; simpl; [by rewrite Hr2; unfold g1; simpl; rewrite insert_insert_eq|done|done].
  - apply wp_ret. eexists. split; [done|]. apply Hend; [by rewrite Hr2|done|done].
Qed.


(** What a call leaves: more rules and nodes are done, those in progress untouched. *)
Record progress (D P V : gset N) (g : GState) (D' V' : gset N) (g' : GState) : Prop := {
  pg_rules : D ⊆ D';
  pg_nodes : V ⊆ V';
  pg_scanning : scanning D' P V' g';
  pg_frame p : p ∈ P → g_rules g' !! p = g_rules g !! p;
}.

Lemma countb_negb {A} (p : A → bool) l : countb (λ x, negb (p x)) l + countb p l = length l.
Proof. induction l as [|x l IH]; [done|]. rewrite !countb_cons. simpl. destruct (p x); simpl; lia. Qed.

Section traversal.
Context (rank : N → nat).

Definition below (P : gset N) (n : N) : Prop := ∀ p rd o,
  p ∈ P → g_rules g0 !! p = Some rd → o ∈ Rule.outputs_ rd → rank n < rank o.
Definition scans (fuel : nat) : Prop := ∀ n D P V g,
  scanning D P V g → is_Some (g_nodes g0 !! n) → rank n < fuel → below P n →
  returns (updateNode wm_fuel fuel n) (λ b s', ∃ D' V' g', s' = at_ g' (D' ∪ P) ∧ n ∈ V' ∧
    progress D P V g D' V' g' ∧ b = waits g' n) (at_ g (D ∪ P)).

(** The loop over the inputs, after [pre]. *)
Record looped (D P V : gset N) (g : GState) (c : N) (len : nat) (pre : list N) (b : bool)
    (D' V' : gset N) (g' : GState) (rd : Rule.t) : Prop := {
  lp_rules : D ⊆ D';
  lp_nodes : V ⊆ V';
  lp_frame p : p ∈ P → g_rules g' !! p = g_rules g !! p;
  lp_scanning : scanning D' ({[c]} ∪ P) V' g';
  lp_rule : g_rules g' !! c = Some rd;
  lp_visited i : i ∈ pre → i ∈ V';
  lp_ready : Rule.numInputsReady_ rd + countb (waits g') pre = len;
  lp_dirty : b = existsb (waits g') pre;
}.

Lemma waits_not_source D P V g i :
  scanning D P V g → waits g i = true → ∃ nd, g_nodes g !! i = Some nd ∧ Node.isSource nd = false.
Proof.
  intros Hs Hw. unfold waits in Hw. destruct (g_nodes g0 !! i) as [nd0|] eqn:Hn; [|done]. destruct (Node.childRule_ nd0) as [q|] eqn:Hq; [|done].
  pose proof (sb_nodes _ _ (sc_same _ _ _ _ Hs) i) as Hb. rewrite Hn in Hb. apply fmap_Some in Hb as (nd & Hnd & (_ & Hq2 & _)%scrub_node_eq).
  exists nd. split; [done|]. unfold Node.isSource. by rewrite <- Hq2, Hq.
Qed.

Lemma existsb_ext {A} (p q : A → bool) l : (∀ x, x ∈ l → p x = q x) → existsb p l = existsb q l.
Proof. induction l as [|x l IH]; intros Heq; [done|]. simpl. rewrite (Heq x) by set_solver. f_equal. apply IH. set_solver. Qed.

(** One input, from what the call for it leaves. *)
Lemma looped_step D P V g c len pre b D1 V1 g1 rd D2 V2 g2 i :
  looped D P V g c len pre b D1 V1 g1 rd → progress D1 ({[c]} ∪ P) V1 g1 D2 V2 g2 → i ∈ V2 →
  (waits g2 i = false → looped D P V g c len (pre ++ [i]) b D2 V2 g2 rd) ∧
  (waits g2 i = true → c ∉ P → length pre < len →
   0 < Rule.numInputsReady_ rd ∧ g_rules g2 !! c = Some rd ∧
   looped D P V g c len (pre ++ [i]) true D2 V2
     (set_rules (<[c := Rule.assignReady (pred (Rule.numInputsReady_ rd)) rd]> (g_rules g2)) g2)
     (Rule.assignReady (pred (Rule.numInputsReady_ rd)) rd)).
Proof.
  intros [HD1 HV1 Hfr Hs1 Hc1 Hpre Hn1 Hb] [HD2 HV2 Hs2 Hfr2] Hi.
  assert (Hc2 : g_rules g2 !! c = Some rd) by (rewrite Hfr2 by set_solver; done).
  assert (Hw : ∀ j, j ∈ pre → waits g2 j = waits g1 j) by (intros j Hj; eapply (waits_stable D1); [exact Hs1|exact Hs2|done|auto]).
  assert (Hcount : countb (waits g2) pre = countb (waits g1) pre) by by apply countb_ext.
  assert (Hframe : ∀ p, p ∈ P → g_rules g2 !! p = g_rules g !! p) by (intros p Hp; rewrite Hfr2 by set_solver; auto).
  assert (Hvis : ∀ j, j ∈ pre ++ [i] → j ∈ V2) by set_solver.
  split; intros Hwi.
  - split; [set_solver|set_solver|done|done|done|done| |].
    + rewrite countb_app, countb_cons, countb_nil, Hwi. lia.
    + rewrite existsb_app, (existsb_ext _ _ _ Hw). simpl. by rewrite Hwi, !orb_false_r.
  - intros HcP Hlen. pose proof (countb_le_length (waits g1) pre). split_and!; [lia|done|].
    set (g3 := set_rules _ g2). assert (Hs3 : scanning D2 ({[c]} ∪ P) V2 g3) by (apply scanning_count; [done|set_solver|done]).
    assert (Hw4 : ∀ j, j ∈ pre ++ [i] → waits g3 j = waits g2 j) by (intros j Hj; eapply (waits_stable D2); [exact Hs2|exact Hs3|done|auto]).
    split; [set_solver|set_solver| |done|apply lookup_insert_eq|done| |].
    + intros p Hp. unfold g3. simpl. rewrite lookup_insert_ne by (intros ->; done). auto.
    + rewrite (countb_ext _ (waits g2)) by done. rewrite countb_app, countb_cons, countb_nil, Hwi. simpl. lia.
    + symmetry. apply existsb_exists. exists i. split; [apply list_elem_of_In; set_solver|]. by rewrite Hw4 by set_solver.
Qed.

Lemma inputs_loop fuel D P V g c rd0 rd :
  scans fuel → scanning D ({[c]} ∪ P) V g → c ∉ P → g_rules g0 !! c = Some rd0 → g_rules g !! c = Some rd →
  Rule.numInputsReady_ rd = length (Rule.inputs_ rd0) →
  (∀ i, i ∈ Rule.inputs_ rd0 → rank i < fuel ∧ below ({[c]} ∪ P) i) →
  returns (foldM (Rule.inputs_ rd0) false (λ isDirty i,
      d ← updateNode wm_fuel fuel i;
      if (d : bool) then
        nd ← onGraph (readNode i);
        mwhen (negb (Node.isSource nd)) (onGraph (Rule_markInputDirty c));;
        mret true
      else mret isDirty))
    (λ b s', ∃ D' V' g' rd', s' = at_ g' (D' ∪ ({[c]} ∪ P)) ∧
       looped D P V g c (length (Rule.inputs_ rd0)) (Rule.inputs_ rd0) b D' V' g' rd')
    (at_ g (D ∪ ({[c]} ∪ P))).
Proof.
  intros IH Hs HcP Hc0 Hc Hlen Hrk.
  apply (wp_foldM (λ pre b s', ∃ D1 V1 g1 rd1, s' = at_ g1 (D1 ∪ ({[c]} ∪ P)) ∧
    looped D P V g c (length (Rule.inputs_ rd0)) pre b D1 V1 g1 rd1)).
  - exists D, V, g, rd. split; [done|]. split; try done; [set_solver|]. rewrite countb_nil. lia.
  - intros pre i post b s1 Heq (D1 & V1 & g1 & rd1 & -> & Hloop).
    assert (Hi : i ∈ Rule.inputs_ rd0) by (rewrite Heq; set_solver). destruct (Hrk i Hi) as [Hrank Hbelow].
    destruct (so_input _ (us_structure _ Hg0) c rd0 i Hc0 Hi) as (nd0 & Hnd0 & _).
    apply wp_bind. eapply wp_mono; [apply (IH i D1 _ V1 g1 (lp_scanning _ _ _ _ _ _ _ _ _ _ _ _ Hloop)); [by eexists|done|done]| |done].
    intros d s2 (D2 & V2 & g2 & -> & Hi2 & Hpg & ->). destruct (looped_step _ _ _ _ _ _ _ _ _ _ _ _ _ _ _ _ Hloop Hpg Hi2) as [Hno Hyes].
    destruct (waits g2 i) eqn:Hwi; [|apply wp_ret; exists D2, V2, g2, rd1; auto].
    destruct Hyes as (Hpos & Hc2 & Hloop'); [done|done|rewrite Heq, length_app; simpl; lia|].
    destruct (waits_not_source _ _ _ g2 i (pg_scanning _ _ _ _ _ _ _ Hpg) Hwi) as (nd2 & Hnd2 & Hsrc).
    apply wp_bind, wp_onGraph. eapply wp_readNode; [exact Hnd2|]. rewrite Hsrc. cbn [negb mwhen].
    apply wp_bind, wp_onGraph. eapply wp_markInputDirty; [exact Hc2|done|]. apply wp_ret. eauto 10.
  - done.
Qed.

(** [updateRule], the first time it is called on a rule. *)
Lemma updateRule_spec fuel D P V g c rd0 :
  scans fuel → scanning D P V g → c ∉ P → g_rules g0 !! c = Some rd0 →
  (∀ i, i ∈ Rule.inputs_ rd0 → rank i < fuel ∧ below ({[c]} ∪ P) i) →
  returns (updateRule_with wm_fuel (updateNode wm_fuel fuel) c) (λ b s', ∃ D' V' g', s' = at_ g' (D' ∪ P) ∧ c ∈ D' ∧
    progress D P V g D' V' g' ∧ b = rule_dirty g' c) (at_ g (D ∪ P)).
Proof.
  intros IH Hs HcP Hc0 Hrk. pose proof (sb_rules _ _ (sc_same _ _ _ _ Hs) c) as Hb. rewrite Hc0 in Hb.
  apply fmap_Some in Hb as (rd & Hc & Hscr). pose proof Hscr as (Hin & _)%scrub_rule_eq.
  apply wp_bind, wp_mget. case_bool_decide as Hseen.
  { assert (c ∈ D) by (simpl in Hseen; set_solver). apply wp_bind, wp_onGraph. eapply wp_readRule; [exact Hc|]. apply wp_ret.
    exists D, V, g. split_and!; [done|done|by split|]. unfold rule_dirty. by rewrite Hc. }
  simpl in Hseen. assert (HcD : c ∉ D) by set_solver. apply wp_bind, wp_mput.
  assert (mkScan (sc_w (at_ g (D ∪ P))) ({[c]} ∪ seen_ (at_ g (D ∪ P))) = at_ g (D ∪ ({[c]} ∪ P))) as ->.
  { unfold at_. simpl. f_equal. apply set_eq. set_solver. }
  apply wp_bind, wp_onGraph. eapply wp_readRule; [exact Hc|]. rewrite <- Hin.
  destruct (sc_todo _ _ _ _ Hs c rd HcD Hc) as [_ Hready]. specialize (Hready HcP).
  apply wp_bind. eapply wp_mono; [apply (inputs_loop fuel D P V g c rd0 rd); try done; [by apply scanning_begin|congruence]| |done].
  intros b s1 (D1 & V1 & g1 & rd1 & -> & [HD1 HV1 Hfr Hs1 Hc1 Hvis Hn1 ->]).
  pose proof (countb_negb (waits g1) (Rule.inputs_ rd0)) as Hneg.
  eapply wp_mono; [apply (leave_rule D1 P V1 g1 c rd0 rd1); try done; lia| |done].
  intros b s2 (g2 & -> & Hs2 & Hfr2 & ->). exists ({[c]} ∪ D1), V1, g2. split_and!; [|set_solver| |done].
  - f_equal. apply set_eq. set_solver.
  - split; [set_solver|done|done|]. intros p Hp. rewrite Hfr2 by done. auto.
Qed.

(** The end of [updateNode]: it marks the node and hashes it if nobody has. *)
Lemma leave_node D P V g n (X : gset N) :
  scanning D P V g → is_Some (g_nodes g0 !! n) →
  (∀ nd c, g_nodes g0 !! n = Some nd → Node.childRule_ nd = Some c → c ∈ D) →
  returns (mwhen (waits g n) (onGraph (updNode n (Node.setState OUT_OF_DATE)));;
    nd ← onGraph (readNode n);
    mwhen (bool_decide (Node.hash_ nd = "")) (zoom l_world (updateNodeHash n true true);; mret tt);;
    mret (waits g n))
    (λ b s', ∃ V' g', s' = at_ g' X ∧ n ∈ V' ∧ progress D P V g D V' g' ∧ b = waits g' n) (at_ g X).
Proof.
  intros Hs [nd0 Hn0] HcD. pose proof (sb_nodes _ _ (sc_same _ _ _ _ Hs) n) as Hb. rewrite Hn0 in Hb.
  apply fmap_Some in Hb as (nd & Hn & (_ & Hch & _)%scrub_node_eq).
  set (g1 := set_nodes (<[n := mark_waiting (waits g n) nd]> (g_nodes g)) g).
  apply wp_bind. apply (wp_mono _ (λ _ s', s' = at_ g1 X) _ (λ _ _, False)); [| |done].
  { unfold g1, mwhen, mark_waiting. destruct (waits g n).
    - apply wp_onGraph. by eapply wp_updNode.
    - apply wp_ret. rewrite insert_id by done. by destruct g. }
  intros [] s1 ->. assert (Hn1 : g_nodes g1 !! n = Some (mark_waiting (waits g n) nd)) by apply lookup_insert_eq.
  apply wp_bind, wp_onGraph. eapply wp_readNode; [exact Hn1|].
  assert (Node.hash_ (mark_waiting (waits g n) nd) = Node.hash_ nd) as -> by by destruct (waits g n).
  destruct (decide (n ∈ V)) as [HV|HV].
  - destruct (sc_hashed _ _ _ _ Hs n HV) as [(nd' & Hnd' & Hh & _) _]. simplify_eq. rewrite bool_decide_eq_false_2 by done.
    apply wp_bind, wp_ret, wp_ret. exists V, g1. assert (g1 = g) as ->; [|by split_and!].
    unfold g1. rewrite insert_id; [by destruct g|]. rewrite Hn. f_equal. destruct (waits g n) eqn:Hw; [|done].
    assert (Hd : Node.isDirty nd = true).
    { unfold waits in Hw. rewrite Hn0 in Hw. destruct (Node.childRule_ nd0) as [c|] eqn:Hc; [|done].
      by apply (sc_node _ _ _ _ Hs n nd c). }
    pose proof (sc_lazy _ _ _ _ Hs n nd Hn Hd) as Hlz. apply bool_decide_eq_true in Hd. destruct nd. simpl in *. by subst.
  - rewrite (sc_unhashed _ _ _ _ Hs n nd HV Hn), bool_decide_eq_true_2 by done. cbn [mwhen].
    assert (Hcd : ∀ c, Node.childRule_ nd = Some c → c ∈ D) by (intros c Hc; eapply HcD; [done|congruence]).
    apply wp_bind, wp_bind, wp_onWorld. eapply wp_mono; [apply (updateNodeHash_local n (mark_waiting (waits g n) nd)); [|exact Hn1]| |done].
    { intros c. rewrite mark_waiting_child. intros Hc. apply (sc_rule_hash _ _ _ _ Hs). auto. }
    intros b w1 [-> _]. exists (visit g n nd). split.
    { cbn [w_g set_g]. rewrite set_g_set. f_equal. unfold visit, set_node_hashes, g1, set_nodes. simpl. rewrite insert_insert_eq. f_equal. f_equal.
      unfold node_target. rewrite mark_waiting_child. by destruct (waits g n). }
    apply wp_ret, wp_ret. exists ({[n]} ∪ V), (visit g n nd). split_and!; [done|set_solver| |done].
    split; [done|set_solver|by apply scanning_visit|done].
Qed.

Hypothesis Hrank : ∀ i o, feeds g0 i o → rank i < rank o.

Lemma updateNode_spec fuel : scans fuel.
Proof.
  induction fuel as [|fuel IH]; intros n D P V g Hs [nd0 Hn0] Hfuel Hbelow; [lia|].
  pose proof (sb_nodes _ _ (sc_same _ _ _ _ Hs) n) as Hb. rewrite Hn0 in Hb.
  apply fmap_Some in Hb as (nd & Hn & (_ & Hch & _)%scrub_node_eq).
  simpl. apply wp_bind, wp_onGraph. eapply wp_readNode; [exact Hn|]. rewrite <- Hch.
  destruct (Node.childRule_ nd0) as [c|] eqn:Hc.
  2: { apply wp_bind, wp_ret. assert (Hw : waits g n = false) by (unfold waits; by rewrite Hn0, Hc).
       pose proof (leave_node D P V g n (D ∪ P) Hs) as Hleave. rewrite Hw in Hleave. apply wp_bind_inv in Hleave.
       - eapply wp_mono; [exact Hleave| |done]. intros b s' (V' & g' & ? & ? & ? & ?). exists D, V', g'. auto.
       - by eexists.
       - intros. congruence. }
  destruct (so_child _ (us_structure _ Hg0) n nd0 c Hn0 Hc) as (rd0 & Hc0 & Hout).
  assert (HcP : c ∉ P) by (intros HcP; specialize (Hbelow c rd0 n HcP Hc0 Hout); lia).
  apply wp_bind, wp_bind. eapply wp_mono; [apply (updateRule_spec fuel D P V g c rd0 IH Hs HcP Hc0)| |done].
  { intros i Hi. assert (rank i < rank n) by (apply Hrank; by exists c, rd0). split; [lia|].
    intros p pd o [->%elem_of_singleton|Hp]%elem_of_union Hpd Ho; [apply Hrank; by exists c, pd; simplify_eq|].
    specialize (Hbelow p pd o Hp Hpd Ho). lia. }
  intros dirty s1 (D1 & V1 & g1 & -> & HcD & [HD1 HV1 Hs1 Hfr1] & ->).
  assert (Hw : waits g1 n = rule_dirty g1 c) by (unfold waits; by rewrite Hn0, Hc). rewrite <- Hw.
  pose proof (leave_node D1 P V1 g1 n (D1 ∪ P) Hs1) as Hleave. apply wp_bind_inv in Hleave; [|by eexists|intros; congruence].
  apply wp_bind. eapply wp_mono; [exact Hleave| |done]. intros [] s2 Hleave2. apply wp_ret. cbv beta. eapply wp_mono; [exact Hleave2| |done].
  intros b s3 (V2 & g2 & -> & Hn2 & [HD2 HV2 Hs2 Hfr2] & ->). exists D1, V2, g2. split_and!; [done|done| |done].
  split; [done|set_solver|done|]. intros p Hp. rewrite Hfr2 by done. auto.
Qed.
Lemma roots_loop fuel roots :
  (∀ n, n ∈ roots → is_Some (g_nodes g0 !! n)) → (∀ n, is_Some (g_nodes g0 !! n) → rank n < fuel) →
  returns (foreach roots (λ n, updateNode wm_fuel fuel n;; mret tt))
    (λ _ s', ∃ D V g', s' = at_ g' (D ∪ ∅) ∧ (∀ n, n ∈ roots → n ∈ V) ∧ scanning D ∅ V g') (at_ g0 (∅ ∪ ∅)).
Proof.
  intros Hroots Hfuel. apply (wp_foreach (λ pre s', ∃ D V g', s' = at_ g' (D ∪ ∅) ∧ (∀ n, n ∈ pre → n ∈ V) ∧ scanning D ∅ V g')).
  - exists ∅, ∅, g0. split_and!; [done|set_solver|apply scanning_start].
  - intros pre n post s1 Heq (D & V & g & -> & Hpre & Hs). assert (Hn : is_Some (g_nodes g0 !! n)) by (apply Hroots; rewrite Heq; set_solver).
    apply wp_bind. eapply wp_mono; [apply (updateNode_spec fuel n D ∅ V g Hs Hn); [auto|intros ???; set_solver]| |done].
    intros b s2 (D2 & V2 & g2 & -> & Hn2 & [HD2 HV2 Hs2 _] & _). apply wp_ret. exists D2, V2, g2. split_and!; [done|set_solver|done].
  - done.
Qed.

(** From the roots the whole of an acyclic graph is visited. *)
Lemma all_visited D V g B :
  graph_ok g0 → scanning D ∅ V g → (∀ n, is_Some (g_nodes g0 !! n) → rank n < B) →
  (∀ n, n ∈ Graph.roots_ (g_graph g0) → n ∈ V) → ∀ n, is_Some (g_nodes g0 !! n) → n ∈ V.
Proof.
  intros Hg Hs HB Hroots.
  cut (∀ k n, B ≤ k + rank n → is_Some (g_nodes g0 !! n) → n ∈ V); [intros Hc n Hn; apply (Hc B n); [lia|done]|].
  induction k as [|k IH]; intros n Hk Hn; [specialize (HB n Hn); lia|]. destruct Hn as [nd Hn].
  destruct (Node.parentRules_ nd) as [|r l] eqn:Hp; [apply Hroots, (go_roots _ Hg); eauto|].
  destruct (so_parent _ (us_structure _ Hg0) n nd r Hn) as (rd & Hr & Hi); [rewrite Hp; set_solver|].
  destruct (Rule.outputs_ rd) as [|o outs] eqn:Ho; [by destruct (us_rules _ Hg0 r rd Hr) as (_ & _ & _ & ?)|].
  destruct (so_output _ (us_structure _ Hg0) r rd o Hr) as (od & Hod & Hoc); [rewrite Ho; set_solver|].
  assert (rank n < rank o) by (apply Hrank; exists r, rd; rewrite Ho; set_solver).
  eapply (sc_closed _ _ _ _ Hs r rd); [|done|done]. eapply (sc_child _ _ _ _ Hs o); [apply IH; [lia|by eexists]|done|done].
Qed.

Lemma all_done D V g r :
  scanning D ∅ V g → (∀ n, is_Some (g_nodes g0 !! n) → n ∈ V) → is_Some (g_rules g0 !! r) → r ∈ D.
Proof.
  intros Hs HV [rd Hr]. destruct (Rule.outputs_ rd) as [|o outs] eqn:Ho; [by destruct (us_rules _ Hg0 r rd Hr) as (_ & _ & _ & ?)|].
  destruct (so_output _ (us_structure _ Hg0) r rd o Hr) as (od & Hod & Hoc); [rewrite Ho; set_solver|].
  eapply (sc_child _ _ _ _ Hs o); [apply HV; by eexists|done|done].
Qed.
End traversal.
End scan.

(** ** The result of the scan *)

Lemma outdated_ext ts ts' g g' r :
  (∀ n, ts n = ts' n) → g_rules g = g_rules g' →
  (∀ n, Node.childRule_ <$> g_nodes g !! n = Node.childRule_ <$> g_nodes g' !! n) →
  outdated ts g r → outdated ts' g' r.
Proof.
  intros Hts Hr Hn. induction 1 as [r rd i Hrd Hi (rd' & o & Hrd' & Hc & Ho & Hlt)|r rd i nd c Hrd Hi Hnd Hc _ IH].
  - rewrite Hr in *. eapply outdated_newer; [exact Hrd|exact Hi|]. exists rd', o. by rewrite <- !Hts.
  - rewrite Hr in *. specialize (Hn i). rewrite Hnd in Hn. symmetry in Hn. apply fmap_Some in Hn as (nd' & Hnd' & Hc').
    eapply outdated_input; [exact Hrd|exact Hi|exact Hnd'| |exact IH]. congruence.
Qed.

Section result.
Context `{HA : Allocator} `{HS : SHA256} `{HE : WatchEnv} `{HD : DirTime} (wm_fuel : nat).

(** What [updateNode] finds: the state of a node without regard to the run. *)
Definition outdated_node (w : World) (n : N) (nd : Node.t) : Prop :=
  match Node.childRule_ nd with
  | Some c => outdated (stamp w) (w_g w) c
  | None => new_source (stamp w) (w_g w) n
  end.

Record scanned (w w' : World) : Prop := {
  sd_world : w' = set_g (w_g w') w;
  sd_shape : same_shape (w_g w) (w_g w');
  sd_time n nd : g_nodes (w_g w') !! n = Some nd → Node.timestamp_ nd = stamp w n;
  sd_rule r : is_Some (g_rules (w_g w) !! r) → rule_dirty (w_g w') r = true ↔ outdated (stamp w) (w_g w) r;
  sd_node n nd : g_nodes (w_g w) !! n = Some nd → node_dirty (w_g w') n = true ↔ outdated_node w n nd;
  sd_counters : counters_ok (w_g w');
  sd_good x : good (w_fs w) (w_g w') x;
  sd_hashed : all_hashed (w_g w');
}.


Section stamped.
Context (w : World) (g0 : GState).
Hypotheses (Hu : unscanned (w_g w)) (Hg : graph_ok (w_g w))
  (Hst : stamped w ((map_to_list (Graph.nodes_ (g_graph (w_g w)))).*2) (set_g g0 w)).

Lemma stamped_node n : g_nodes g0 !! n = (λ nd, Node.setTimestamp (stamp_of w nd) nd) <$> g_nodes (w_g w) !! n.
Proof.
  pose proof (st_nodes _ _ _ Hst n) as Hn. cbn [w_g set_g] in Hn. rewrite Hn. destruct (g_nodes (w_g w) !! n) as [nd|] eqn:Hnd; [|done].
  simpl. rewrite decide_True; [done|]. apply list_elem_of_fmap. exists (Node.path_ nd, n). split; [done|].
  apply elem_of_map_to_list, (go_nodes _ Hg). eauto.
Qed.
Lemma stamped_rules : g_rules g0 = g_rules (w_g w).
Proof. apply (st_rules _ _ _ Hst). Qed.
Lemma stamped_shape : same_shape (w_g w) g0.
Proof.
  split; [|intros r; by rewrite stamped_rules|symmetry; apply (st_graph _ _ _ Hst)].
  intros n. rewrite stamped_node. by destruct (g_nodes (w_g w) !! n).
Qed.
Lemma stamped_unscanned : unscanned g0.
Proof.
  split; [eapply structure_ok_shape; [apply stamped_shape|apply Hu]| |rewrite stamped_rules; apply Hu].
  intros n nd. rewrite stamped_node. intros (nd0 & Hnd0 & ->)%fmap_Some. apply (us_nodes _ Hu n nd0 Hnd0).
Qed.
Lemma stamped_ts n : ts g0 n = stamp w n.
Proof. unfold ts, stamp. rewrite stamped_node. by destruct (g_nodes (w_g w) !! n). Qed.

Lemma stamped_outdated r : outdated (ts g0) g0 r ↔ outdated (stamp w) (w_g w) r.
Proof.
  assert (Hc : ∀ n, Node.childRule_ <$> g_nodes g0 !! n = Node.childRule_ <$> g_nodes (w_g w) !! n).
  { intros n. rewrite stamped_node. by destruct (g_nodes (w_g w) !! n). }
  split; apply outdated_ext; try (intros n; by rewrite ?stamped_ts, ?Hc); by rewrite stamped_rules.
Qed.
Lemma stamped_newer r i : newer (ts g0) g0 r i ↔ newer (stamp w) (w_g w) r i.
Proof. unfold newer. rewrite stamped_rules. setoid_rewrite stamped_ts. done. Qed.
End stamped.

Lemma scanning_result w g0 D V g :
  unscanned (w_g w) → graph_ok (w_g w) → stamped w ((map_to_list (Graph.nodes_ (g_graph (w_g w)))).*2) (set_g g0 w) →
  scanning w g0 D ∅ V g → (∀ n, is_Some (g_nodes g0 !! n) → n ∈ V) → (∀ r, is_Some (g_rules g0 !! r) → r ∈ D) →
  scanned w (set_g g w).
Proof.
  intros Hu Hg Hst Hs HV Hall.
  assert (Hin : ∀ n nd, g_nodes g !! n = Some nd → ∃ nd0, g_nodes g0 !! n = Some nd0 ∧ scrub_node nd = scrub_node nd0 ∧ n ∈ V).
  { intros n nd Hn. destruct (scrubbed_node _ _ n nd (sc_same _ _ _ _ _ _ Hs) Hn) as (nd0 & Hn0 & ?). eauto 10. }
  assert (HinD : ∀ r rd, g_rules g !! r = Some rd → r ∈ D).
  { intros r rd Hr. destruct (scrubbed_rule _ _ r rd (sc_same _ _ _ _ _ _ Hs) Hr) as (rd0 & Hr0 & _). eauto. }
  assert (Hready : ∀ i, is_Some (g_nodes g !! i) → node_ready g i = negb (waits g0 g i)).
  { intros i [nd Hn]. destruct (Hin i nd Hn) as (nd0 & Hn0 & (_ & Hch & _)%scrub_node_eq & HiV).
    unfold node_ready, waits, Node.isSource. rewrite Hn, Hn0, <- Hch. destruct (Node.childRule_ nd) as [c|] eqn:Hc.
    - rewrite bool_decide_eq_false_2 by done. simpl. f_equal. apply eq_bool_prop_intro. rewrite !Is_true_true, (sc_node _ _ _ _ _ _ Hs i nd c Hn Hc). tauto.
    - by rewrite bool_decide_eq_true_2. }
  split; cbn [w_g set_g].
  - done.
  - transitivity g0; [by apply stamped_shape|apply scrubbed_shape, Hs].
  - intros n nd Hn. destruct (Hin n nd Hn) as (nd0 & Hn0 & (_ & _ & _ & ->)%scrub_node_eq & _).
    rewrite <- (stamped_ts w g0 Hg Hst). unfold ts. by rewrite Hn0.
  - intros r Hr. rewrite (sc_done _ _ _ _ _ _ Hs r); [by apply stamped_outdated|]. apply Hall. by rewrite (stamped_rules w g0 Hst).
  - intros n nd Hn. assert (Hn0 : g_nodes g0 !! n = Some (Node.setTimestamp (stamp_of w nd) nd)) by (rewrite (stamped_node w g0 Hg Hst); by rewrite Hn).
    pose proof (sb_nodes _ _ (sc_same _ _ _ _ _ _ Hs) n) as Hb. rewrite Hn0 in Hb. apply fmap_Some in Hb as (nd1 & Hn1 & (_ & Hch & _)%scrub_node_eq).
    unfold node_dirty, outdated_node. rewrite Hn1. change (Node.childRule_ nd = Node.childRule_ nd1) in Hch. rewrite Hch.
    destruct (Node.childRule_ nd1) as [c|] eqn:Hc.
    + assert (HnV : n ∈ V) by (apply HV; by eexists).
      rewrite (sc_node _ _ _ _ _ _ Hs n nd1 c Hn1 Hc), (sc_done _ _ _ _ _ _ Hs c), (stamped_outdated w g0 Hg Hst); [tauto|].
      eapply (sc_child _ _ _ _ _ _ Hs n); [done|exact Hn0|exact Hch].
    + rewrite (sc_source _ _ _ _ _ _ Hs n nd1 Hn1 Hc). unfold new_source. rewrite (stamped_rules w g0 Hst). split.
      * intros (r & rd & _ & Hr & Hi & Hnw%(stamped_newer w g0 Hg Hst)). eauto.
      * intros (r & rd & Hr & Hi & Hnw%(stamped_newer w g0 Hg Hst)). exists r, rd. split_and!; try done. apply Hall. rewrite (stamped_rules w g0 Hst). by eexists.
  - intros r rd Hr. rewrite (sc_ready _ _ _ _ _ _ Hs r rd (HinD r rd Hr) Hr). apply countb_ext. intros i Hi. symmetry. apply Hready.
    destruct (so_input _ (scanning_structure _ _ (stamped_unscanned w g0 Hu Hg Hst) _ _ _ _ Hs) r rd i Hr Hi) as (nd & ? & _). by eexists.
  - intros [n|r]; simpl.
    + destruct (g_nodes g !! n) as [nd|] eqn:Hn; [|by intros ?; rewrite Hn]. destruct (Hin n nd Hn) as (_ & _ & _ & HnV). by apply (sc_hashed _ _ _ _ _ _ Hs).
    + destruct (g_rules g !! r) as [rd|] eqn:Hr; [|by intros ?; rewrite Hr]. apply (sc_rule_hash _ _ _ _ _ _ Hs). eauto.
  - split.
    + intros n nd Hn. destruct (Hin n nd Hn) as (_ & _ & _ & HnV). destruct (sc_hashed _ _ _ _ _ _ Hs n HnV) as [(nd' & Hn' & ?) _]. by simplify_eq.
    + intros r rd Hr. destruct (sc_rule_hash _ _ _ _ _ _ Hs r (HinD r rd Hr)) as [(rd' & Hr' & ?) _]. by simplify_eq.
    + intros n nd Hn Hc. destruct (Hin n nd Hn) as (_ & _ & _ & HnV). destruct (sc_hashed _ _ _ _ _ _ Hs n HnV) as [_ Hgood].
      specialize (Hgood nd Hn). unfold node_target in Hgood. rewrite Hc in Hgood. by injection Hgood as -> ->.
Qed.

Lemma scan_finds w fuel :
  unscanned (w_g w) → graph_ok (w_g w) → acyclic (w_g w) → size (g_nodes (w_g w)) ≤ fuel →
  returns (scan wm_fuel fuel) (λ _ w', scanned w w') w.
Proof.
  intros Hu Hg Hac Hfuel. pose proof (statNodes_spec w (us_structure _ Hu) Hg) as Hstat.
  cut (returns (zoom l_world statNodes;; s ← mget;
    foreach (set_elems (Graph.roots_ (g_graph (w_g (sc_w s))))) (λ n, updateNode wm_fuel fuel n;; mret tt))
    (λ _ s', scanned w (sc_w s')) (mkScan w ∅)).
  { unfold returns, wp, scan. by destruct ((zoom l_world statNodes;; _) (mkScan w ∅)). }
  apply wp_bind, wp_zoom. eapply wp_mono; [exact Hstat| |done]. intros [] w1 Hst. cbn [lset l_world]. apply wp_bind, wp_mget.
  set (g0 := w_g w1). assert (Hw1 : w1 = set_g g0 w) by apply Hst. rewrite Hw1 in Hst |- *. cbn [sc_w seen_ w_g set_g].
  pose proof (stamped_unscanned w g0 Hu Hg Hst) as Hu0. pose proof (stamped_shape w g0 Hg Hst) as Hsh.
  destruct (acyclic_bounded (w_g w)) as (rank & Hrank & HB); [apply Hu|done|].
  assert (Hrank0 : ∀ i o, feeds g0 i o → rank i < rank o) by (intros i o Hio; apply Hrank; by rewrite Hsh).
  assert (HB0 : ∀ n, is_Some (g_nodes g0 !! n) → rank n < size (g_nodes (w_g w))).
  { intros n Hn. apply HB. by rewrite (stamped_node w g0 Hg Hst), fmap_is_Some in Hn. }
  assert (Hg0 : graph_ok g0) by by eapply graph_ok_shape.
  replace (mkScan (set_g g0 w) ∅) with (at_ w g0 (∅ ∪ ∅)) by (unfold at_; by rewrite (left_id_L ∅ (∪))).
  eapply wp_mono; [apply (roots_loop wm_fuel w g0 Hu0 rank Hrank0)| |done].
  - intros n Hn%elem_of_set_elems. apply (go_roots _ Hg0) in Hn as (nd & Hn & _). by eexists.
  - intros n Hn. specialize (HB0 n Hn). lia.
  - intros [] s (D & V & g & -> & Hroots & Hs).
    assert (HV : ∀ n, is_Some (g_nodes g0 !! n) → n ∈ V).
    { eapply (all_visited w g0 Hu0 rank Hrank0 D V g); [done|done|exact HB0|]. intros n Hn. by apply Hroots, elem_of_set_elems. }
    eapply (scanning_result w g0 D V g); try done. intros r. by apply (all_done w g0 Hu0 rank Hrank0 D V g r).
Qed.

(** C2: on an acyclic graph in which nothing is marked or hashed, whose rules have outputs
    and no depfile (with a depfile the scan can miss a change), the scan terminates with enough fuel, without an exception or a failed assertion, and
    computes what the definition without states says: a rule is dirty exactly when
    it is [outdated], a node when its rule is or, for a source, when it is newer
    than an output of a rule with a command that reads it; the counters are right
    and every hash is the one of its file or of its inputs. *)
Theorem scan_exact w fuel :
  unscanned (w_g w) → graph_ok (w_g w) → acyclic (w_g w) → size (g_nodes (w_g w)) ≤ fuel →
  returns (scan wm_fuel fuel) (λ _ w', scanned w w') w.
Proof. apply scan_finds. Qed.

End result.

(** ** Runs *)

Definition check_unscanned (g : GState) : bool :=
  check_structure g &&
  all_nodes g (λ _ nd, negb (Node.isDirty nd) && bool_decide (Node.hash_ nd = "")) &&
  all_rules g (λ _ rd, negb (Rule.isDirty rd) && Rule.ready rd && negb (Rule.hasDepfile rd) && negb (bool_decide (Rule.outputs_ rd = []))).

Lemma check_unscanned_sound g : check_unscanned g = true → unscanned g.
Proof.
  intros [[Hs Hn]%andb_true_iff Hr]%andb_true_iff. split; [by apply check_structure_sound| |].
  - intros n nd Hl. pose proof (all_nodes_spec _ _ n nd Hn Hl) as [Hb ?%bool_decide_eq_true]%andb_true_iff.
    split; [|done]. unfold Node.isDirty in Hb. by destruct (Node.state_ nd).
  - intros r rd Hl. pose proof (all_rules_spec _ _ r rd Hr Hl) as Hb.
    apply andb_true_iff in Hb as [[[Hst Hready%bool_decide_eq_true]%andb_true_iff Hdep]%andb_true_iff Hout%negb_true_iff%bool_decide_eq_false].
    unfold Rule.isDirty, Rule.hasDepfile in *. split_and!; [by destruct (Rule.state_ rd)|done| |done].
    by destruct (decide (Rule.depfile_ rd = "")) as [?|Hne]; [|rewrite bool_decide_eq_false_2 in Hdep].
Qed.

(** The source is newer than [o1], [o2] is missing. *)
Definition stale_world : World :=
  world_of two_outputs (mkFS {["source" := File "new" 7; "o1" := File "one" 3]} (λ _, true) 8).
Definition no_dirs : DirTime := λ _, 0%Z.
Definition run_scan (w : World) : World :=
  final (@scan first_fit sum_sha silent_env no_dirs 9 4 w) w.

Example stale_world_scan : let g := w_g (run_scan stale_world) in
  (map (node_dirty g) [1; 2; 3; 4]%N, map (rule_dirty g) [10; 11]%N, Rule.numInputsReady_ <$> g_rules g !! 11%N) =
  ([true; true; true; true], [true; true], Some 0).
Proof. vm_compute. reflexivity. Qed.

Lemma scan_exact_witness :
  returns (@scan first_fit sum_sha silent_env no_dirs 9 4) (λ _ w', @scanned sum_sha no_dirs stale_world w') stale_world.
Proof.
  apply (@scan_exact first_fit sum_sha silent_env no_dirs).
  - apply check_unscanned_sound. vm_compute. reflexivity.
  - apply two_outputs_graph_ok.
  - apply two_outputs_acyclic.
  - vm_compute. lia.
Defined.

(** A source that is newer than the output of one of its two rules. *)
Definition shared_source : GState :=
  mkG (list_to_map
        [(1%N, mk_node "source" None [10%N; 11%N] UP_TO_DATE);
         (2%N, mk_node "o1" (Some 10%N) [] UP_TO_DATE);
         (3%N, mk_node "o2" (Some 11%N) [] UP_TO_DATE)])
      (list_to_map
        [(10%N, mk_rule [1%N] [2%N] "gen1" UP_TO_DATE 1); (11%N, mk_rule [1%N] [3%N] "gen2" UP_TO_DATE 1)])
      (Graph.mk {[2%N; 3%N]} {[1%N]} (list_to_map [("source", 1%N); ("o1", 2%N); ("o2", 3%N)]) [10%N; 11%N]).
Definition shared_world : World :=
  world_of shared_source (mkFS {["source" := File "x" 5; "o1" := File "1" 9; "o2" := File "2" 3]} (λ _, true) 8).
Definition shared_rank (n : N) : nat := N.to_nat n.

Lemma run_scanned w :
  unscanned (w_g w) → graph_ok (w_g w) → acyclic (w_g w) → size (g_nodes (w_g w)) ≤ 4 → @scanned sum_sha no_dirs w (run_scan w).
Proof.
  intros Hu Hg Hac Hf. pose proof (@scan_finds first_fit sum_sha silent_env no_dirs 9 w 4 Hu Hg Hac Hf) as Hr.
  unfold returns, wp in Hr. unfold run_scan, final. by destruct (scan _ _ _).
Qed.


(** The source is dirty and the rule that is up to date reads it. *)
Example shared_source_inconsistent : ¬ consistent (w_g (run_scan shared_world)).
Proof.
  intros Hc. assert (Hr : g_rules (w_g (run_scan shared_world)) !! 10%N =
    Some (default (mk_rule [] [] "" UP_TO_DATE 0) (g_rules (w_g (run_scan shared_world)) !! 10%N))) by (vm_compute; reflexivity).
  pose proof (c_inputs _ Hc 10%N _ 1%N Hr) as Hd. assert (Hf : rule_dirty (w_g (run_scan shared_world)) 10 = false) by (vm_compute; reflexivity).
  rewrite Hf in Hd. discriminate Hd; vm_compute; [constructor|reflexivity].
Qed.

(** A dependency that is only in the depfile, newer than the output, seen for the
    first time: its node is made during the scan, with the timestamp 0, and the rule
    stays up to date. *)
Definition depfile_graph : GState :=
  mkG (list_to_map [(1%N, mk_node "a.c" None [10%N] UP_TO_DATE); (2%N, mk_node "a.o" (Some 10%N) [] UP_TO_DATE)])
      (list_to_map [(10%N, Rule.setDepfile "a.d" (mk_rule [1%N] [2%N] "cc" UP_TO_DATE 1))])
      (Graph.mk {[2%N]} {[1%N]} (list_to_map [("a.c", 1%N); ("a.o", 2%N)]) [10%N]).
Definition depfile_world : World :=
  world_of depfile_graph
    (mkFS {["a.c" := File "c" 1; "a.h" := File "changed" 9; "a.o" := File "o" 5; "a.d" := File "a.o: a.c a.h" 5]} (λ _, true) 10).

Example depfile_dependency_unseen : let g := w_g (run_scan depfile_world) in
  ((λ rd, (Rule.isDirty rd, length (Rule.inputs_ rd))) <$> g_rules g !! 10%N,
   (λ n, Node.timestamp_ <$> g_nodes g !! n) <$> Graph.nodes_ (g_graph g) !! "a.h") =
  (Some (false, 2), Some (Some 0%Z)).
Proof. vm_compute. reflexivity. Qed.
