(* ===== verification/SubProcess.v ===== *)
(** * Subprocesses (posix_subprocess.cpp, posix_subprocess_manager.cpp)

    The manager starts commands, reads their output as [poll] reports it, and hands
    out the rules whose command completed.  What the kernel answers is given with
    each call: descriptors of new pipes, ready descriptors with what [read] delivers,
    exit statuses.  The consumer of the output is behind the interface [Consumer]. *)

From Stdlib Require Import Ascii.
From S2P Require Import Prelude GraphModel StreamServer.

(** IBuildOutputConsumer: what the builder and the subprocesses report to. *)
Class Consumer (C : Type) := { consume : build_event → M C unit }.

(** A consumer that keeps what it is told. *)
#[export] Instance log_consumer : Consumer (list build_event) :=
  {| consume := λ e, modify (λ l, l ++ [e]) |}.

Module Proc.
Record t := mk {
  id_ : N;
  command_ : string;
  stdoutFd_ : Z;
  stderrFd_ : Z;
  pid_ : Z;
  status_ : SubProcessExitStatus;
}.
(** The constructor. *)
Definition new (command : string) (id : N) : t := mk id command (-1) (-1) (-1) StreamServer.UNKNOWN.
Definition setFds (out err pid : Z) (p : t) : t := mk (id_ p) (command_ p) out err pid (status_ p).
Definition setFd (isStdout : bool) (fd : Z) (p : t) : t :=
  if isStdout then mk (id_ p) (command_ p) fd (stderrFd_ p) (pid_ p) (status_ p)
  else mk (id_ p) (command_ p) (stdoutFd_ p) fd (pid_ p) (status_ p).
Definition setStatus (st : SubProcessExitStatus) (p : t) : t :=
  mk (id_ p) (command_ p) (stdoutFd_ p) (stderrFd_ p) (pid_ p) st.
Definition completed (p : t) : bool := bool_decide (stdoutFd_ p = -1)%Z && bool_decide (stderrFd_ p = -1)%Z.
End Proc.

(** [FdInfo]: the iterators into [running_] and [pollfds_] are the process and the
    descriptor they point to. *)
Record FdInfo := mkFd { itRunning : N; isStdout : bool }.

Record Manager := mkManager {
  id_ : Z;                       (* unsigned *)
  running_ : list N;             (* addresses of the processes *)
  finished_ : list N;
  pollfds_ : list Z;
  map_ : gmap Z FdInfo;
  mapToRule_ : gmap N N;
  procs : gmap N Proc.t;         (* the process objects *)
}.

Definition newManager : Manager := mkManager 0 [] [] [] ∅ ∅ ∅.
Definition nbRunning (m : Manager) : nat := length (running_ m) + length (finished_ m).

Definition set_procs (x : gmap N Proc.t) (m : Manager) : Manager :=
  mkManager (id_ m) (running_ m) (finished_ m) (pollfds_ m) (map_ m) (mapToRule_ m) x.
Definition set_running (x y : list N) (m : Manager) : Manager :=
  mkManager (id_ m) x y (pollfds_ m) (map_ m) (mapToRule_ m) (procs m).
Definition set_polled (x : list Z) (y : gmap Z FdInfo) (m : Manager) : Manager :=
  mkManager (id_ m) (running_ m) (finished_ m) x y (mapToRule_ m) (procs m).
Definition set_rules_of (x : gmap N N) (m : Manager) : Manager :=
  mkManager (id_ m) (running_ m) (finished_ m) (pollfds_ m) (map_ m) x (procs m).
Definition set_id (i : Z) (m : Manager) : Manager :=
  mkManager i (running_ m) (finished_ m) (pollfds_ m) (map_ m) (mapToRule_ m) (procs m).

(** What [start] gets from the kernel: the ends of the two pipes and the process, or
    the errno of the call that failed. *)
Inductive start_result := Started (out err pid : Z) | StartFailed (errno : Z).
(** What [read] delivers. *)
Inductive fd_event := Data (l : list ascii) | Eof | ReadError (errno : Z).
#[export] Instance fd_event_eq_dec : EqDecision fd_event.
Proof. solve_decision. Defined.
(** What [waitpid] delivers. *)
Inductive wait_status := Exited (code : Z) | Signaled (sig : Z) | WaitFailed (errno : Z).
Definition SIGINT : Z := 2.

Section manager.
Context `{Allocator} {C : Type} `{Consumer C}.

(** The manager and the consumer it reports to. *)
Record MC := mkMC { mc_m : Manager; mc_c : C }.
Definition l_m : lens MC Manager := Lens mc_m (λ m s, mkMC m (mc_c s)).
Definition l_c : lens MC C := Lens mc_c (λ c s, mkMC (mc_m s) c).

Definition updProc (p : N) (f : Proc.t → Proc.t) : M Manager unit :=
  m ← mget;
  x ← deref (procs m !! p);
  mput (set_procs (<[p := f x]> (procs m)) m).

(** PosixSubProcess::start. *)
Definition start (p : N) (res : start_result) : M Manager unit :=
  match res with
  | StartFailed errno => mthrow (Exception errno "start")
  | Started out err pid => updProc p (Proc.setFds out err pid)
  end.

Definition addProcess (rule : N) (command : string) (res : start_result) : M Manager N :=
  m ← mget;
  let id := Z.to_N (id_ m) in
  mput (set_id (wrap32 (id_ m + 1)) m);;
  massert (negb (bool_decide (command = "")));;
  m ← mget;
  let proc := new_addr (dom (procs m)) in
  mput (set_procs (<[proc := Proc.new command id]> (procs m)) m);;
  modify (λ m, set_rules_of (if decide (is_Some (mapToRule_ m !! proc)) then mapToRule_ m
                             else <[proc := rule]> (mapToRule_ m)) m);;
  (* when [start] throws, the unique pointer deletes the process *)
  catch (start proc res) (λ e, modify (λ m, set_procs (delete proc (procs m)) m);; mthrow e);;
  m ← mget;
  x ← deref (procs m !! proc);
  modify (λ m, set_running (proc :: running_ m) (finished_ m) m);;
  modify (λ m, set_polled (Proc.stdoutFd_ x :: pollfds_ m) (<[Proc.stdoutFd_ x := mkFd proc true]> (map_ m)) m);;
  modify (λ m, set_polled (Proc.stderrFd_ x :: pollfds_ m) (<[Proc.stderrFd_ x := mkFd proc false]> (map_ m)) m);;
  mret id.

(** PosixSubProcess::onFdReady, through readStdout or readStderr: true at the end
    of the stream. *)
Definition onFdReady (p : N) (isStdout : bool) (ev : fd_event) : M MC bool :=
  m ← gets mc_m;
  x ← deref (procs m !! p);
  massert (negb (bool_decide ((if isStdout then Proc.stdoutFd_ x else Proc.stderrFd_ x) = -1)%Z));;
  match ev with
  | Data l => zoom l_c (consume (EOutput (Proc.id_ x) l isStdout));; mret false
  | ReadError errno => mthrow (Exception errno "Read error")
  | Eof => zoom l_m (updProc p (Proc.setFd isStdout (-1)));; mret true
  end.

Definition erase_fd (fd : Z) (l : list Z) : list Z := filter (λ x, x ≠ fd) l.

Definition readFd (fd : Z) (ev : fd_event) : M MC unit :=
  m ← gets mc_m;
  match map_ m !! fd with
  | None => mabort AssertFailed
  | Some info =>
    fdDone ← onFdReady (itRunning info) (isStdout info) ev;
    if (fdDone : bool) then
      zoom l_m (modify (λ m, set_polled (erase_fd fd (pollfds_ m)) (delete fd (map_ m)) m));;
      m ← gets mc_m;
      x ← deref (procs m !! itRunning info);
      mwhen (Proc.completed x)
        (zoom l_m (modify (λ m, set_running (filter (λ p, p ≠ itRunning info) (running_ m))
                                 (finished_ m ++ [itRunning info]) m)))
    else mret tt
  end.

(** What [poll] reports: an error, or for each descriptor what there is to read.
    The vector [fds] is a copy: a descriptor closed meanwhile is still in it. *)
Inductive poll_result := PollFailed (errno : Z) | Polled (ready : Z → option fd_event).

Definition run (res : poll_result) : M MC unit :=
  m ← gets mc_m;
  match res with
  | PollFailed errno => mthrow (Exception errno "poll failed")
  | Polled ready =>
    foreach (pollfds_ m) (λ fd,
      match ready fd with Some ev => readFd fd ev | None => mret tt end)
  end.

(** PosixSubProcess::waitFinished. *)
Definition exit_status (st : wait_status) : SubProcessExitStatus :=
  match st with
  | Exited code => if bool_decide (code = 0)%Z then SUCCEEDED else FAILED
  | Signaled sig => if bool_decide (sig = SIGINT) then INTERRUPTED else FAILED
  | WaitFailed _ => StreamServer.UNKNOWN
  end.
Definition waitFinished (p : N) (st : wait_status) : M Manager unit :=
  match st with
  | WaitFailed errno => mthrow (Exception errno "waitpid failed")
  | _ => updProc p (Proc.setStatus (exit_status st))
  end.

(** [while (finished_.empty()) run()]: one poll after the other; when nothing more
    is reported the call waits forever. *)
Fixpoint run_until (polls : list poll_result) : M MC (list poll_result) :=
  m ← gets mc_m;
  if negb (bool_decide (finished_ m = [])) then mret polls
  else
    match polls with
    | [] => mabort Blocked
    | res :: polls => run res;; run_until polls
    end.

Record BuiltRule := mkBuilt { rule : N; status : SubProcessExitStatus; cmdId : N }.

Definition waitForNext (polls : list poll_result) (wait : N → wait_status) : M MC (BuiltRule * list poll_result) :=
  m ← gets mc_m;
  massert (negb (bool_decide (finished_ m = [])) || negb (bool_decide (running_ m = [])));;
  polls ← run_until polls;
  m ← gets mc_m;
  p ← deref (head (finished_ m));
  zoom l_m (modify (λ m, set_running (running_ m) (tail (finished_ m)) m));;
  zoom l_m (waitFinished p (wait p));;
  m ← gets mc_m;
  match mapToRule_ m !! p with
  | None => mabort AssertFailed
  | Some rule =>
    zoom l_m (modify (λ m, set_rules_of (delete p (mapToRule_ m)) m));;
    x ← deref (procs m !! p);
    (* the unique pointer goes out of scope *)
    zoom l_m (modify (λ m, set_procs (delete p (procs m)) m));;
    mret (mkBuilt rule (Proc.status_ x) (Proc.id_ x), polls)
  end.

(** The signals sent by [interrupt]: one SIGINT per running process. *)
Definition interrupt : M Manager (list (Z * Z)) :=
  m ← mget;
  foldM (running_ m) [] (λ acc p,
    x ← deref (procs m !! p);
    massert (bool_decide (0 <= Proc.pid_ x)%Z);;
    mret (acc ++ [(Proc.pid_ x, SIGINT)])).

(** The destructor. *)
Definition destroyManager : M Manager unit :=
  m ← mget; massert (bool_decide (nbRunning m = 0)).
End manager.
Arguments MC : clear implicits.

(** ** The manager *)

(** What is going on: every process is running, with an open descriptor, or finished,
    and belongs to a rule; the descriptors that are polled are the open ones. *)
Record manager_ok (m : Manager) : Prop := {
  mk_nodup : NoDup (running_ m ++ finished_ m);
  mk_procs p : is_Some (procs m !! p) ↔ p ∈ running_ m ++ finished_ m;
  mk_rules p : is_Some (mapToRule_ m !! p) ↔ p ∈ running_ m ++ finished_ m;
  mk_map fd p o : map_ m !! fd = Some (mkFd p o) ↔
    ∃ x, procs m !! p = Some x ∧ (if o then Proc.stdoutFd_ x else Proc.stderrFd_ x) = fd ∧ fd ≠ (-1)%Z;
  mk_poll fd : fd ∈ pollfds_ m ↔ is_Some (map_ m !! fd);
  mk_poll_nodup : NoDup (pollfds_ m);
  mk_done p x : procs m !! p = Some x → (Proc.completed x = true ↔ p ∈ finished_ m);
}.

(** The processes and what they were started for. *)
Definition same_pending (m m' : Manager) : Prop :=
  mapToRule_ m' = mapToRule_ m ∧ running_ m' ++ finished_ m' ≡ₚ running_ m ++ finished_ m ∧
  ∀ p, Proc.id_ <$> procs m' !! p = Proc.id_ <$> procs m !! p.

Lemma same_pending_refl m : same_pending m m.
Proof. by split_and!. Qed.
Lemma same_pending_trans m1 m2 m3 : same_pending m1 m2 → same_pending m2 m3 → same_pending m1 m3.
Proof. intros (? & H1 & ?) (? & H2 & ?). split_and!; [congruence|by rewrite H2|intros p; congruence]. Qed.

Lemma completed_true x : Proc.completed x = true ↔ Proc.stdoutFd_ x = (-1)%Z ∧ Proc.stderrFd_ x = (-1)%Z.
Proof. unfold Proc.completed. by rewrite andb_true_iff, !bool_decide_eq_true. Qed.

Lemma setFd_completed p o x : Proc.completed (Proc.setFd o p x) = true ↔
  p = (-1)%Z ∧ (if o then Proc.stderrFd_ x else Proc.stdoutFd_ x) = (-1)%Z.
Proof. rewrite completed_true. destruct o; simpl; tauto. Qed.

(** A descriptor reached the end of its stream. *)
Definition closed (fd : Z) (p : N) (o : bool) (x : Proc.t) (m : Manager) : Manager :=
  let x' := Proc.setFd o (-1) x in
  let m' := set_polled (erase_fd fd (pollfds_ m)) (delete fd (map_ m)) (set_procs (<[p := x']> (procs m)) m) in
  if Proc.completed x' then set_running (filter (λ q, q ≠ p) (running_ m)) (finished_ m ++ [p]) m' else m'.

Lemma filter_remove (p : N) l : NoDup l → p ∈ l → p :: filter (λ q, q ≠ p) l ≡ₚ l.
Proof.
  induction 1 as [|q l Hq Hl IH]; [by intros ?%elem_of_nil|]. intros Hp. rewrite filter_cons.
  destruct (decide (q ≠ p)) as [Hne|He].
  - rewrite Permutation_swap, IH; [done|set_solver].
  - assert (q = p) as <- by by destruct (decide (q = p)).
    f_equiv. clear -Hq. induction l as [|r l IH]; [done|]. rewrite filter_cons, decide_True by set_solver.
    f_equiv. apply IH. set_solver.
Qed.

Lemma closed_spec fd p o x m :
  manager_ok m → map_ m !! fd = Some (mkFd p o) → procs m !! p = Some x →
  manager_ok (closed fd p o x m) ∧ same_pending m (closed fd p o x m) ∧
  map_ (closed fd p o x m) = delete fd (map_ m).
Proof.
  intros Hok Hfd Hx.
  assert ((if o then Proc.stdoutFd_ x else Proc.stderrFd_ x) = fd ∧ fd ≠ (-1)%Z) as [Hfdx Hfd1].
  { apply (mk_map m Hok) in Hfd as (y & Hy & H1 & H2). assert (y = x) as -> by congruence. done. }
  assert (Hnc : Proc.completed x = false).
  { apply not_true_iff_false. rewrite completed_true. destruct o; intros [? ?]; congruence. }
  assert (Hnf : p ∉ finished_ m) by (intros Hf; apply (mk_done m Hok p x Hx) in Hf; congruence).
  assert (Hrun : p ∈ running_ m) by (pose proof (proj1 (mk_procs m Hok p) ltac:(by eexists)); set_solver).
  pose proof (mk_nodup m Hok) as Hnd. apply NoDup_app in Hnd as (Hnd1 & Hdis & Hnd2).
  assert (Hperm : running_ (closed fd p o x m) ++ finished_ (closed fd p o x m) ≡ₚ running_ m ++ finished_ m).
  { unfold closed. destruct (Proc.completed (Proc.setFd o (-1) x)); simpl; [|reflexivity].
    rewrite app_assoc, <- Permutation_cons_append. rewrite <- (filter_remove p (running_ m)) at 2 by done. done. }
  assert (Hprocs : procs (closed fd p o x m) = <[p := Proc.setFd o (-1) x]> (procs m)) by (unfold closed; by destruct (Proc.completed (Proc.setFd o (-1) x))).
  assert (Hrules : mapToRule_ (closed fd p o x m) = mapToRule_ m) by (unfold closed; by destruct (Proc.completed (Proc.setFd o (-1) x))).
  assert (Hmap : map_ (closed fd p o x m) = delete fd (map_ m)) by (unfold closed; by destruct (Proc.completed (Proc.setFd o (-1) x))).
  assert (Hpoll : pollfds_ (closed fd p o x m) = erase_fd fd (pollfds_ m)) by (unfold closed; by destruct (Proc.completed (Proc.setFd o (-1) x))).
  split_and!; [|split_and!; [done|done|]|done].
  - split.
    + rewrite Hperm. by apply (mk_nodup m Hok).
    + intros q. rewrite Hperm, Hprocs, <- (mk_procs m Hok). destruct (decide (p = q)) as [<-|Hne].
      * rewrite lookup_insert_eq, Hx. split; intros _; by eexists.
      * by rewrite lookup_insert_ne.
    + intros q. rewrite Hperm, Hrules. apply (mk_rules m Hok).
    + intros fd' q o'. rewrite Hmap, Hprocs, lookup_delete_Some, (mk_map m Hok). split.
      * intros (Hne & y & Hy & Hyf & Hy1). destruct (decide (p = q)) as [<-|Hpq].
        -- rewrite lookup_insert_eq. eexists. split; [done|]. simplify_eq. destruct o, o'; simpl; by split.
        -- rewrite lookup_insert_ne by done. eauto.
      * destruct (decide (p = q)) as [<-|Hpq].
        -- rewrite lookup_insert_eq. intros (y & [= <-] & Hyf & Hy1).
           assert (Hoo : (if o' then Proc.stdoutFd_ x else Proc.stderrFd_ x) = fd' ∧ o' ≠ o).
           { destruct o, o'; simpl in *; by subst. }
           destruct Hoo as [Hoo Hno]. split; [|eauto]. intros <-.
           assert (map_ m !! fd = Some (mkFd p o')) by (apply (mk_map m Hok); eauto). congruence.
        -- rewrite lookup_insert_ne by done. intros (y & Hy & Hyf & Hy1). split; [|eauto]. intros <-.
           assert (map_ m !! fd = Some (mkFd q o')) by (apply (mk_map m Hok); eauto). congruence.
    + intros fd'. rewrite Hmap, Hpoll. unfold erase_fd. rewrite list_elem_of_filter, (mk_poll m Hok).
      destruct (decide (fd = fd')) as [<-|Hne]; [rewrite lookup_delete_eq; split; [naive_solver|by intros [? ?]]|].
      rewrite lookup_delete_ne by done. naive_solver.
    + rewrite Hpoll. apply NoDup_filter, (mk_poll_nodup m Hok).
    + intros q y. rewrite Hprocs. unfold closed. destruct (decide (p = q)) as [<-|Hpq].
      * rewrite lookup_insert_eq. intros [= <-]. destruct (Proc.completed (Proc.setFd o (-1) x)) eqn:Hc; simpl; [set_solver|].
        split; [done|]. intros Hf. done.
      * rewrite lookup_insert_ne by done. intros Hy. rewrite (mk_done m Hok q y Hy).
        destruct (Proc.completed (Proc.setFd o (-1) x)); simpl; [set_solver|done].
  - intros q. rewrite Hprocs. destruct (decide (p = q)) as [<-|Hpq].
    + rewrite lookup_insert_eq, Hx. simpl. f_equal. by destruct o.
    + by rewrite lookup_insert_ne.
Qed.

(** What the manager relies on: a consumer takes what it is given. *)
Class TotalConsumer (C : Type) `{Consumer C} := consume_total : ∀ e (c : C), ∃ c', consume e c = Ret tt c'.
#[export] Instance log_total : TotalConsumer (list build_event).
Proof. intros e c. by exists (c ++ [e]). Qed.

Section manager_spec.
Context `{Allocator} {C : Type} `{TotalConsumer C}.
Implicit Types s : MC C.

Lemma wp_consume e Q E (c : C) : (∀ c', Q tt c') → wp (consume e) Q E c.
Proof. intros HQ. destruct (consume_total e c) as [c' Hc]. unfold wp. rewrite Hc. apply HQ. Qed.

Definition good_event (ev : fd_event) : Prop := ∀ errno, ev ≠ ReadError errno.

Lemma readFd_spec fd ev s :
  manager_ok (mc_m s) → is_Some (map_ (mc_m s) !! fd) → good_event ev →
  returns (readFd fd ev) (λ _ s', manager_ok (mc_m s') ∧ same_pending (mc_m s) (mc_m s') ∧
    map_ (mc_m s') = if decide (ev = Eof) then delete fd (map_ (mc_m s)) else map_ (mc_m s)) s.
Proof.
  destruct s as [m c]. cbn [mc_m]. intros Hok [[p o] Hfd] Hev. apply wp_bind, wp_gets. cbn [mc_m]. rewrite Hfd.
  destruct (proj1 (mk_map m Hok fd p o) Hfd) as (x & Hx & Hxfd & Hne).
  apply wp_bind, wp_bind, wp_gets, wp_bind. cbn [mc_m itRunning isStdout]. eapply wp_deref; [done|].
  apply wp_bind, wp_massert; [rewrite Hxfd; by rewrite bool_decide_eq_false_2|]. destruct ev as [l| |errno].
  - apply wp_bind, wp_zoom. cbn [lget lset l_c mc_c]. apply wp_consume. intros c'. apply wp_ret, wp_ret.
    cbn [mc_m]. split_and!; [done|apply same_pending_refl|]. by rewrite decide_False.
  - apply wp_bind, wp_zoom. cbn [lget lset l_m mc_m]. apply wp_bind, wp_mget, wp_bind. eapply wp_deref; [done|].
    apply wp_mput, wp_ret. cbn [mc_m mc_c]. apply wp_bind, wp_zoom, wp_modify. cbn [lget lset l_m mc_m mc_c].
    apply wp_bind, wp_gets. cbn [mc_m]. apply wp_bind. eapply wp_deref; [simpl; by rewrite lookup_insert_eq|].
    pose proof (closed_spec fd p o x m Hok Hfd Hx) as (H1' & H2' & H3'). rewrite decide_True by done.
    unfold closed in *. unfold mwhen. destruct (Proc.completed (Proc.setFd o (-1) x)).
    + apply wp_zoom, wp_modify. by split_and!.
    + apply wp_ret. by split_and!.
  - by destruct (Hev errno).
Qed.

(** [poll] and [read] do not fail. *)
Definition good_poll (res : poll_result) : Prop :=
  ∃ ready, res = Polled ready ∧ ∀ fd ev, ready fd = Some ev → good_event ev.
(** Every descriptor is at its end. *)
Definition hangup (res : poll_result) : Prop := ∃ ready, res = Polled ready ∧ ∀ fd, ready fd = Some Eof.

Lemma run_spec res s :
  manager_ok (mc_m s) → good_poll res →
  returns (run res) (λ _ s', manager_ok (mc_m s') ∧ same_pending (mc_m s) (mc_m s') ∧
    (hangup res → map_ (mc_m s') = ∅)) s.
Proof.
  intros Hok (ready & -> & Hready). apply wp_bind, wp_gets.
  apply (wp_foreach (λ pre s', manager_ok (mc_m s') ∧ same_pending (mc_m s) (mc_m s') ∧
    (∀ fd, fd ∉ pre → map_ (mc_m s') !! fd = map_ (mc_m s) !! fd) ∧
    ∀ fd, fd ∈ pre → ready fd = Some Eof → map_ (mc_m s') !! fd = None)).
  - split_and!; [done|apply same_pending_refl|done|set_solver].
  - intros pre fd post s' Heq (Hok' & Hsame & Hrest & Hgone).
    assert (fd ∉ pre) as Hpre.
    { pose proof (mk_poll_nodup _ Hok) as Hnd. rewrite Heq in Hnd. apply NoDup_app in Hnd as (_ & Hnd & _). set_solver. }
    assert (is_Some (map_ (mc_m s') !! fd)) as Hfd.
    { rewrite Hrest by done. apply (mk_poll _ Hok). rewrite Heq. set_solver. }
    destruct (ready fd) as [ev|] eqn:Hev.
    + eapply wp_mono; [by apply readFd_spec; [| |by eapply Hready]| |done].
      intros [] s'' (Hok'' & Hsame' & Hmap). split_and!; [done|by eapply same_pending_trans| |].
      * intros fd' Hfd'. rewrite Hmap. case_decide; [rewrite lookup_delete_ne by set_solver|]; apply Hrest; set_solver.
      * intros fd' [Hfd'|Hfd']%elem_of_app Heof.
        -- rewrite Hmap. case_decide; [apply lookup_delete_None; right|]; by apply Hgone.
        -- apply list_elem_of_singleton in Hfd' as ->. rewrite Hmap. assert (ev = Eof) as -> by congruence.
           by rewrite decide_True, lookup_delete_eq.
    + apply wp_ret. split_and!; [done|done| |].
      * intros fd' Hfd'. apply Hrest. set_solver.
      * intros fd' [Hfd'|Hfd']%elem_of_app Heof; [by apply Hgone|].
        apply list_elem_of_singleton in Hfd' as ->. congruence.
  - intros s' (Hok' & Hsame & Hrest & Hgone). split_and!; [done|done|]. intros (ready' & [= <-] & Heof).
    apply map_eq. intros fd. rewrite lookup_empty. destruct (decide (fd ∈ pollfds_ (mc_m s))) as [Hin|Hin].
    + by apply Hgone.
    + rewrite Hrest by done. apply eq_None_not_Some. by rewrite <- (mk_poll _ Hok).
Qed.

(** With every descriptor closed, everything is finished. *)
Lemma all_closed m : manager_ok m → map_ m = ∅ → running_ m = [] .
Proof.
  intros Hok Hm. destruct (running_ m) as [|p l] eqn:Hr; [done|].
  destruct (proj2 (mk_procs m Hok p)) as [x Hx]; [rewrite Hr; set_solver|].
  assert (p ∈ finished_ m) as Hf.
  { apply (mk_done m Hok p x Hx), completed_true.
    assert (Hno : ∀ o : bool, (if o then Proc.stdoutFd_ x else Proc.stderrFd_ x) = (-1)%Z).
    { intros o. destruct (decide ((if o then Proc.stdoutFd_ x else Proc.stderrFd_ x) = (-1)%Z)) as [?|Hne]; [done|].
      assert (map_ m !! (if o then Proc.stdoutFd_ x else Proc.stderrFd_ x) = Some (mkFd p o)) as Hl by (apply (mk_map m Hok); eauto).
      by rewrite Hm, lookup_empty in Hl. }
    split; [apply (Hno true)|apply (Hno false)]. }
  pose proof (mk_nodup m Hok) as Hnd. rewrite Hr in Hnd. apply NoDup_app in Hnd as (_ & Hnd & _). exfalso. apply (Hnd p); set_solver.
Qed.

Lemma run_until_spec polls : ∀ s,
  manager_ok (mc_m s) → running_ (mc_m s) ++ finished_ (mc_m s) ≠ [] → Forall good_poll polls →
  finished_ (mc_m s) ≠ [] ∨ Exists hangup polls →
  returns (run_until polls) (λ _ s', manager_ok (mc_m s') ∧ same_pending (mc_m s) (mc_m s') ∧
    finished_ (mc_m s') ≠ []) s.
Proof.
  induction polls as [|res polls IH]; intros s Hok Hne Hgood Hor.
  - apply wp_bind, wp_gets. destruct Hor as [Hf|Hh]; [|by apply Exists_nil in Hh].
    rewrite bool_decide_eq_false_2 by done. apply wp_ret. split_and!; [done|apply same_pending_refl|done].
  - apply Forall_cons in Hgood as [Hg Hgood]. apply wp_bind, wp_gets. case_bool_decide as Hf; cbn [negb].
    + apply wp_bind. eapply wp_mono; [by apply run_spec| |done]. intros [] s1 (Hok1 & Hsame1 & Hhang).
      assert (running_ (mc_m s1) ++ finished_ (mc_m s1) ≠ []) as Hne1.
      { intros Heq. pose proof (proj1 (proj2 Hsame1)) as Hp. rewrite Heq in Hp. by apply Permutation_nil_l in Hp. }
      eapply wp_mono; [apply IH; [done|done|done|]| |done].
      * destruct Hor as [?|Hor]; [done|]. apply Exists_cons in Hor as [Hh|?]; [left|by right].
        pose proof (all_closed _ Hok1 (Hhang Hh)) as Hr. intros Hf1. apply Hne1. by rewrite Hr, Hf1.
      * intros rest s2 (? & ? & ?). split_and!; [done|by eapply same_pending_trans|done].
    + apply wp_ret. split_and!; [done|apply same_pending_refl|done].
Qed.

(** Handing out the process [p]. *)
Definition handed_out (p : N) (m m' : Manager) : Prop :=
  mapToRule_ m' = delete p (mapToRule_ m) ∧
  running_ m ++ finished_ m ≡ₚ p :: (running_ m' ++ finished_ m') ∧
  (∀ q, q ≠ p → Proc.id_ <$> procs m' !! q = Proc.id_ <$> procs m !! q).

Lemma manager_ok_pop m p l x :
  manager_ok m → finished_ m = p :: l → procs m !! p = Some x →
  manager_ok (set_procs (delete p (procs m)) (set_rules_of (delete p (mapToRule_ m)) (set_running (running_ m) l m))).
Proof.
  intros Hok Hf Hx. pose proof (mk_nodup m Hok) as Hnd. rewrite Hf in Hnd.
  assert (Hc : Proc.completed x = true) by (apply (mk_done m Hok p x Hx); rewrite Hf; set_solver).
  rewrite completed_true in Hc. rewrite <- Permutation_middle in Hnd. apply NoDup_cons in Hnd as [Hp Hnd].
  assert (Hin : ∀ q, q ∈ running_ m ++ finished_ m ↔ q = p ∨ q ∈ running_ m ++ l) by (intros q; rewrite Hf; set_solver).
  split; simpl.
  - done.
  - intros q. destruct (decide (p = q)) as [<-|Hne].
    + rewrite lookup_delete_eq. split; [by intros [? ?]|done].
    + rewrite lookup_delete_ne, (mk_procs m Hok), Hin by done. naive_solver.
  - intros q. destruct (decide (p = q)) as [<-|Hne].
    + rewrite lookup_delete_eq. split; [by intros [? ?]|done].
    + rewrite lookup_delete_ne, (mk_rules m Hok), Hin by done. naive_solver.
  - intros fd q o. rewrite (mk_map m Hok). split; intros (y & Hy & Hyf & Hy1); exists y; split_and!; try done.
    + rewrite lookup_delete_ne; [done|]. intros <-. assert (y = x) as -> by congruence. destruct o; naive_solver.
    + by apply lookup_delete_Some in Hy as [_ ?].
  - apply (mk_poll m Hok).
  - apply (mk_poll_nodup m Hok).
  - intros q y [Hne Hy]%lookup_delete_Some. rewrite (mk_done m Hok q y Hy), Hf. set_solver.
Qed.

Lemma waitForNext_spec polls wait s :
  manager_ok (mc_m s) → running_ (mc_m s) ++ finished_ (mc_m s) ≠ [] →
  Forall good_poll polls → Exists hangup polls → (∀ p errno, wait p ≠ WaitFailed errno) →
  returns (waitForNext polls wait) (λ x s', manager_ok (mc_m s') ∧
    ∃ p, handed_out p (mc_m s) (mc_m s') ∧ mapToRule_ (mc_m s) !! p = Some (rule x.1) ∧
      status x.1 = exit_status (wait p) ∧ Proc.id_ <$> procs (mc_m s) !! p = Some (cmdId x.1)) s.
Proof.
  intros Hok Hne Hgood Hex Hwait. apply wp_bind, wp_gets, wp_bind, wp_massert.
  { destruct (finished_ (mc_m s)); [|by rewrite bool_decide_eq_false_2]. destruct (running_ (mc_m s)); [done|].
    rewrite (bool_decide_eq_false_2 (_ :: _ = [])) by done. by rewrite orb_true_r. }
  apply wp_bind. eapply wp_mono; [apply run_until_spec; try done; by right| |done].
  intros rest [m c] (Hok1 & (Hr1 & Hp1 & Hid1) & Hf1). cbn [mc_m] in *.
  destruct (finished_ m) as [|p l] eqn:Hf; [done|].
  assert (p ∈ running_ m ++ finished_ m) as Hp by (rewrite Hf; set_solver).
  destruct (proj2 (mk_procs m Hok1 p) Hp) as [x Hx]. destruct (proj2 (mk_rules m Hok1 p) Hp) as [r Hr].
  apply wp_bind, wp_gets, wp_bind. cbn [mc_m]. eapply wp_deref; [by rewrite Hf|].
  apply wp_bind, wp_zoom, wp_modify. cbn [lget lset l_m mc_m mc_c]. apply wp_bind, wp_zoom. cbn [lget lset l_m mc_m mc_c].
  assert (∀ Q E m0, procs m0 !! p = Some x → Q tt (set_procs (<[p := Proc.setStatus (exit_status (wait p)) x]> (procs m0)) m0) →
    wp (waitFinished p (wait p)) Q E m0) as Hwf.
  { intros Q E m0 Hx0 HQ. unfold waitFinished. destruct (wait p) as [| |errno] eqn:Hw; [| |by destruct (Hwait p errno)].
    - apply wp_bind, wp_mget, wp_bind. eapply wp_deref; [done|]. apply wp_mput. exact HQ.
    - apply wp_bind, wp_mget, wp_bind. eapply wp_deref; [done|]. apply wp_mput. exact HQ. }
  apply Hwf; [done|]. cbn [mc_m mc_c]. apply wp_bind, wp_gets. cbn [mc_m].
  change (mapToRule_ (set_procs _ _)) with (mapToRule_ m). rewrite Hr.
  apply wp_bind, wp_zoom, wp_modify. cbn [lget lset l_m mc_m mc_c]. apply wp_bind.
  eapply wp_deref; [simpl; by rewrite lookup_insert_eq|]. apply wp_bind, wp_zoom, wp_modify. cbn [lget lset l_m mc_m mc_c].
  apply wp_ret. cbn [mc_m fst rule status cmdId Proc.setStatus Proc.status_ Proc.id_]. rewrite Hf. cbn [tail].
  unfold set_procs, set_rules_of, set_running. simpl. rewrite delete_insert_eq. split.
  - exact (manager_ok_pop m p l x Hok1 Hf Hx).
  - exists p. split_and!; [split_and!| |done|].
    + by rewrite <- Hr1.
    + transitivity (running_ m ++ p :: l); [symmetry; exact Hp1|]. simpl. by rewrite Permutation_middle.
    + intros q Hq. simpl. by rewrite lookup_delete_ne, Hid1.
    + by rewrite <- Hr1.
    + rewrite <- Hid1, Hx. done.
Qed.

Lemma addProcess_spec r command out err pid m :
  manager_ok m → command ≠ "" → out ≠ err → out ≠ (-1)%Z → err ≠ (-1)%Z →
  map_ m !! out = None → map_ m !! err = None →
  returns (addProcess r command (Started out err pid)) (λ id m', manager_ok m' ∧ id = Z.to_N (id_ m) ∧
    id_ m' = wrap32 (id_ m + 1) ∧ finished_ m' = finished_ m ∧
    ∃ p, p ∉ running_ m ++ finished_ m ∧ running_ m' = p :: running_ m ∧ mapToRule_ m' = <[p := r]> (mapToRule_ m) ∧
      Proc.id_ <$> procs m' !! p = Some id ∧ ∀ q, q ≠ p → procs m' !! q = procs m !! q) m.
Proof.
  intros Hok Hcmd Hoe Ho1 He1 Ho He. apply wp_bind, wp_mget, wp_bind, wp_mput, wp_bind, wp_massert; [by rewrite bool_decide_eq_false_2|].
  apply wp_bind, wp_mget. set (p := new_addr _).
  assert (procs m !! p = None) as Hp by (apply not_elem_of_dom, new_addr_fresh).
  assert (p ∉ running_ m ++ finished_ m) as Hpin by (rewrite <- (mk_procs m Hok), Hp; by intros [? ?]).
  assert (mapToRule_ m !! p = None) as Hpr by (apply eq_None_not_Some; by rewrite (mk_rules m Hok)).
  apply wp_bind, wp_mput, wp_bind, wp_modify. rewrite decide_False by (simpl; rewrite Hpr; by intros [? ?]).
  apply wp_bind, wp_catch, wp_bind, wp_mget, wp_bind. eapply wp_deref; [simpl; by rewrite lookup_insert_eq|].
  apply wp_mput, wp_bind, wp_mget, wp_bind. eapply wp_deref; [simpl; by rewrite lookup_insert_eq|].
  do 3 (apply wp_bind, wp_modify). apply wp_ret. simpl. rewrite insert_insert_eq.
  set (x := Proc.setFds out err pid (Proc.new command (Z.to_N (id_ m)))).
  split_and!; [|done|done|done|].
  - split; simpl.
    + apply NoDup_cons. split; [done|]. apply (mk_nodup m Hok).
    + intros q. rewrite elem_of_cons, <- (mk_procs m Hok). destruct (decide (p = q)) as [<-|Hne].
      * rewrite lookup_insert_eq. naive_solver.
      * rewrite lookup_insert_ne by done. naive_solver.
    + intros q. rewrite elem_of_cons, <- (mk_rules m Hok). destruct (decide (p = q)) as [<-|Hne].
      * rewrite lookup_insert_eq. naive_solver.
      * rewrite lookup_insert_ne by done. naive_solver.
    + intros fd q o. destruct (decide (fd = err)) as [->|Hfe]; [|destruct (decide (fd = out)) as [->|Hfo]].
      * rewrite lookup_insert_eq. split.
        -- intros [= <- <-]. exists x. rewrite lookup_insert_eq. by split_and!.
        -- intros (y & Hy & Hyf & _). destruct (decide (p = q)) as [<-|Hne].
           ++ rewrite lookup_insert_eq in Hy. injection Hy as <-. destruct o; simpl in Hyf; [congruence|done].
           ++ rewrite lookup_insert_ne in Hy by done.
              assert (map_ m !! err = Some (mkFd q o)) by (apply (mk_map m Hok); eauto). congruence.
      * rewrite lookup_insert_ne, lookup_insert_eq by done. split.
        -- intros [= <- <-]. exists x. rewrite lookup_insert_eq. by split_and!.
        -- intros (y & Hy & Hyf & _). destruct (decide (p = q)) as [<-|Hne].
           ++ rewrite lookup_insert_eq in Hy. injection Hy as <-. destruct o; simpl in Hyf; [done|congruence].
           ++ rewrite lookup_insert_ne in Hy by done.
              assert (map_ m !! out = Some (mkFd q o)) by (apply (mk_map m Hok); eauto). congruence.
      * rewrite !lookup_insert_ne, (mk_map m Hok) by done. split.
        -- intros (y & Hy & ?). exists y. rewrite lookup_insert_ne by congruence. done.
        -- intros (y & Hy & Hyf & Hy1). destruct (decide (p = q)) as [<-|Hne].
           ++ rewrite lookup_insert_eq in Hy. injection Hy as <-. destruct o; simpl in Hyf; congruence.
           ++ rewrite lookup_insert_ne in Hy by done. eauto.
    + intros fd. rewrite !elem_of_cons, (mk_poll m Hok). destruct (decide (fd = err)) as [->|Hfe]; [|destruct (decide (fd = out)) as [->|Hfo]].
      * rewrite lookup_insert_eq. naive_solver.
      * rewrite lookup_insert_ne, lookup_insert_eq by done. naive_solver.
      * rewrite !lookup_insert_ne by done. naive_solver.
    + apply NoDup_cons. split; [|apply NoDup_cons; split; [|apply (mk_poll_nodup m Hok)]].
      * rewrite elem_of_cons, (mk_poll m Hok), He. intros [?|[? ?]]; congruence.
      * rewrite (mk_poll m Hok), Ho. by intros [? ?].
    + intros q y. destruct (decide (p = q)) as [<-|Hne].
      * rewrite lookup_insert_eq. intros [= <-]. rewrite completed_true. simpl. split; [naive_solver|].
        intros Hq. exfalso. apply Hpin. set_solver.
      * rewrite lookup_insert_ne by done. apply (mk_done m Hok).
  - exists p. split_and!; [done|done|done|by rewrite lookup_insert_eq|]. intros q Hq. by rewrite lookup_insert_ne.
Qed.
End manager_spec.

(** AddProcess gives a fresh process to the rule, keeps the bookkeeping of the
    manager right (each descriptor that is polled belongs to one stream of one
    running process), and takes its number from the 32-bit counter. *)
Theorem addProcess_exact `{Allocator} r command out err pid m :
  manager_ok m → command ≠ "" → out ≠ err → out ≠ (-1)%Z → err ≠ (-1)%Z →
  map_ m !! out = None → map_ m !! err = None →
  returns (addProcess r command (Started out err pid)) (λ id m', manager_ok m' ∧ id = Z.to_N (id_ m) ∧
    id_ m' = wrap32 (id_ m + 1) ∧ finished_ m' = finished_ m ∧
    ∃ p, p ∉ running_ m ++ finished_ m ∧ running_ m' = p :: running_ m ∧ mapToRule_ m' = <[p := r]> (mapToRule_ m) ∧
      Proc.id_ <$> procs m' !! p = Some id ∧ ∀ q, q ≠ p → procs m' !! q = procs m !! q) m.
Proof. apply addProcess_spec. Qed.

Lemma newManager_ok : manager_ok newManager.
Proof.
  split; simpl; try done; try apply NoDup_nil_2.
  - intros p. rewrite lookup_empty. split; [by intros [? ?]|set_solver].
  - intros p. rewrite lookup_empty. split; [by intros [? ?]|set_solver].
  - intros fd p o. rewrite lookup_empty. split; [done|]. intros (x & Hx & _). by rewrite lookup_empty in Hx.
  - intros fd. rewrite lookup_empty. split; [set_solver|by intros [? ?]].
Qed.

Lemma addProcess_exact_witness :
  ∃ id m', @addProcess first_fit 10 "cc" (Started 3 4 100) newManager = Ret id m' ∧ manager_ok m'.
Proof.
  pose proof (@addProcess_exact first_fit 10 "cc" 3 4 100 newManager newManager_ok
    ltac:(done) ltac:(done) ltac:(done) ltac:(done) ltac:(reflexivity) ltac:(reflexivity)) as H.
  unfold returns, wp in H. destruct (@addProcess first_fit 10 "cc" (Started 3 4 100) newManager) as [id m'| |]; [|done|done].
  exists id, m'. split; [reflexivity|]. exact (proj1 H).
Defined.

(** C33: waitForNext returns as soon as the streams of a command end: whatever is
    read meanwhile, no descriptor is looked up that is not known and no assertion
    fails; it hands out one of the pending commands, with the rule it was started
    for, its own number and the exit status of its process, and forgets that command
    and no other. *)
Theorem waitForNext_exact {C} `{TotalConsumer C} polls wait (s : MC C) :
  manager_ok (mc_m s) → running_ (mc_m s) ++ finished_ (mc_m s) ≠ [] →
  Forall good_poll polls → Exists hangup polls → (∀ p errno, wait p ≠ WaitFailed errno) →
  returns (waitForNext polls wait) (λ x s', manager_ok (mc_m s') ∧
    ∃ p, handed_out p (mc_m s) (mc_m s') ∧ mapToRule_ (mc_m s) !! p = Some (rule x.1) ∧
      status x.1 = exit_status (wait p) ∧ Proc.id_ <$> procs (mc_m s) !! p = Some (cmdId x.1)) s.
Proof. apply waitForNext_spec. Qed.

Definition one_running : Manager :=
  match @addProcess first_fit 10 "cc" (Started 3 4 100) newManager with Ret _ m => m | _ => newManager end.
Lemma one_running_ok : manager_ok one_running.
Proof.
  pose proof (@addProcess_spec first_fit (list build_event) _ _ 10 "cc" 3 4 100 newManager newManager_ok
    ltac:(done) ltac:(done) ltac:(done) ltac:(done) ltac:(reflexivity) ltac:(reflexivity)) as H.
  unfold returns, wp in H. unfold one_running.
  destruct (@addProcess first_fit 10 "cc" (Started 3 4 100) newManager); [exact (proj1 H)|done|done].
Qed.

Definition some_output : poll_result := Polled (λ fd, if decide (fd = 3%Z) then Some (Data ["x"%char]) else None).
Definition all_eof : poll_result := Polled (λ _, Some Eof).
Lemma waitForNext_exact_witness :
  returns (waitForNext [some_output; all_eof] (λ _, Exited 0)) (λ x s', manager_ok (mc_m s') ∧
    ∃ p, handed_out p one_running (mc_m s') ∧ mapToRule_ one_running !! p = Some (rule x.1) ∧
      status x.1 = exit_status (Exited 0) ∧ Proc.id_ <$> procs one_running !! p = Some (cmdId x.1))
    (mkMC one_running ([] : list build_event)).
Proof.
  apply (waitForNext_exact [some_output; all_eof] (λ _, Exited 0) (mkMC one_running [])).
  - exact one_running_ok.
  - vm_compute. discriminate.
  - repeat constructor; eexists; (split; [reflexivity|]); intros fd ev Hev errno ->; simpl in Hev; [case_decide|]; congruence.
  - apply Exists_cons_tl, Exists_cons_hd. by exists (λ _, Some Eof).
  - done.
Defined.

Example wait_ex :
  match waitForNext [some_output; all_eof] (λ _, Exited 0) (mkMC one_running []) with
  | Ret (b, _) s => (rule b, status b, mc_c s)
  | _ => (0%N, FAILED, [])
  end = (10%N, SUCCEEDED, [EOutput 0 ["x"%char] true]).
Proof. vm_compute. reflexivity. Qed.
