(* ===== verification/Spawn.v ===== *)
(** * Starting a command (posix_subprocess.cpp)

    PosixSubProcess::start on the table of descriptors of a process: two pipes, a fork,
    and the child's side up to execl.  Descriptors are handed out as POSIX says, the
    lowest that is free.  Which calls fail, and on which side of the fork we are, is
    given.  The theorem says what the parent keeps and what the command finds. *)

From S2P Require Import Prelude GraphModel StreamServer SubProcess.

(** ** The kernel's side *)

(** What a descriptor stands for: an end of the pipe [n], /dev/null, or something else
    that the daemon has open. *)
Inductive file := PipeRead (n : N) | PipeWrite (n : N) | DevNull | Other (n : N).
#[export] Instance file_eq_dec : EqDecision file.
Proof. solve_decision. Defined.
(** With FD_CLOEXEC, as [EventNotifier.set_flags] sets it. *)
Record descriptor := mkDescr { d_file : file; d_cloexec : bool }.

Record Process := mkProcess {
  table : gmap Z descriptor;
  cwd : string;
  pipes : N;                  (* pipes made so far, by anybody *)
  self : Proc.t;              (* the PosixSubProcess object *)
}.
Definition set_table (t : gmap Z descriptor) (s : Process) : Process := mkProcess t (cwd s) (pipes s) (self s).
Definition set_cwd (d : string) (s : Process) : Process := mkProcess (table s) d (pipes s) (self s).
Definition set_self (p : Proc.t) (s : Process) : Process := mkProcess (table s) (cwd s) (pipes s) p.
Definition set_pipes (n : N) (s : Process) : Process := mkProcess (table s) (cwd s) n (self s).

(** The errno of each call that fails; what fork returns. *)
Record Calls := mkCalls {
  c_pipe1 : option Z; c_pipe2 : option Z;
  c_fork : Z; c_errno : Z;    (* negative: it failed; 0: this is the child *)
  c_open : option Z; c_chdir : option Z; c_exec : option Z;
}.

Definition candidates (X : gset Z) : list Z := seqZ 0 (Z.of_nat (S (size X))).
Definition lowest (X : gset Z) : Z :=
  match list_find (λ fd, fd ∉ X) (candidates X) with Some (_, fd) => fd | None => 0 end.

Lemma lowest_found X : ∃ i, list_find (λ fd, fd ∉ X) (candidates X) = Some (i, lowest X).
Proof.
  unfold lowest. destruct (list_find _ (candidates X)) as [[i fd]|] eqn:E; [by exists i|]. exfalso.
  apply list_find_None in E. assert (Hsub : list_to_set (C := gset Z) (candidates X) ⊆ X).
  { intros x Hx%elem_of_list_to_set. rewrite Forall_forall in E. specialize (E x Hx). destruct (decide (x ∈ X)); [done|by destruct E]. }
  apply subseteq_size in Hsub. rewrite size_list_to_set in Hsub by apply NoDup_seqZ. unfold candidates in Hsub. rewrite length_seqZ in Hsub. lia.
Qed.
Lemma lowest_free X : lowest X ∉ X.
Proof. destruct (lowest_found X) as [i E]. apply list_find_Some in E. apply E. Qed.
(** Every smaller one is in use. *)
Lemma lowest_least X x : (0 ≤ x < lowest X)%Z → x ∈ X.
Proof.
  intros [H0 Hx]. destruct (lowest_found X) as [i E]. apply list_find_Some in E as (Hi & _ & Hbefore).
  apply lookup_seqZ in Hi as [Hlow Hi]. destruct (decide (x ∈ X)) as [?|Hn]; [done|]. exfalso.
  apply (Hbefore (Z.to_nat x) x); [|lia|done]. apply lookup_seqZ. lia.
Qed.
Lemma lowest_nonneg X : (0 ≤ lowest X)%Z.
Proof. destruct (lowest_found X) as [i E]. apply list_find_Some in E as (Hi & _ & _). apply lookup_seqZ in Hi. lia. Qed.

(** ** The calls *)

Definition open_fd (f : file) : M Process Z :=
  s ← mget; let fd := lowest (dom (table s)) in
  mput (set_table (<[fd := mkDescr f false]> (table s)) s);; mret fd.
(** pipe(2): the reading end is the first of the two. *)
Definition pipe (failed : option Z) : M Process (Z * Z) :=
  match failed with
  | Some errno => mthrow (Exception errno "Failed to open pipe")
  | None =>
    s ← mget; let n := pipes s in
    mput (set_pipes (n + 1)%N s);;
    r ← open_fd (PipeRead n); w ← open_fd (PipeWrite n); mret (r, w)
  end.
(** close(2): its result is not looked at. *)
Definition close (fd : Z) : M Process unit := modify (λ s, set_table (delete fd (table s)) s).
(** dup2(2): true when it returns -1; nothing happens when both are the same. *)
Definition dup2 (from to : Z) : M Process bool :=
  s ← mget;
  match table s !! from with
  | None => mret true
  | Some d => mput (if decide (from = to) then s else set_table (<[to := mkDescr (d_file d) false]> (table s)) s);; mret false
  end.
(** execl: the descriptors that stay open are the new program's. *)
Definition execl : M Process unit := modify (λ s, set_table (filter (λ kv, d_cloexec kv.2 = false) (table s)) s).

(** ** PosixSubProcess::start *)

Inductive side := Parent | Became (argv : list string).
Definition LOG_FATAL {A} : M Process A := mabort AssertFailed.

(** [break] leaves the loop that runs once; in a debug build, which this is, a failed chdir
    is fatal, too (DLOG). *)
Definition or_break {A} (failed : bool) (rest : M Process A) : M Process A := if failed then LOG_FATAL else rest.
Definition childProcess (k : Calls) (workingDirectory : string) (out err : Z) : M Process side :=
  or_break (bool_decide (is_Some (c_open k))) (
  devnull ← open_fd DevNull;
  failed ← dup2 devnull 0; or_break failed (
  close devnull;;
  failed ← dup2 out 1; or_break failed (
  close out;;
  failed ← dup2 err 2; or_break failed (
  close err;;
  or_break (bool_decide (is_Some (c_chdir k))) (
  modify (set_cwd workingDirectory);;
  or_break (bool_decide (is_Some (c_exec k))) (
  execl;; s ← mget; mret (Became ["/bin/sh"; "-c"; Proc.command_ (self s)]))))))).

Definition start (k : Calls) (workingDirectory : string) : M Process side :=
  '(r1, w1) ← pipe (c_pipe1 k);
  modify (λ s, set_self (Proc.setFd true r1 (self s)) s);;
  '(r2, w2) ← pipe (c_pipe2 k);
  modify (λ s, set_self (Proc.setFd false r2 (self s)) s);;
  modify (λ s, set_self (Proc.setFds (Proc.stdoutFd_ (self s)) (Proc.stderrFd_ (self s)) (c_fork k) (self s)) s);;
  if bool_decide (c_fork k < 0)%Z then mthrow (Exception (c_errno k) "Failed to fork")
  else if bool_decide (c_fork k = 0)%Z then
    close r1;; close r2;; childProcess k workingDirectory w1 w2
  else
    close w1;; close w2;; mret Parent.

(** ** What the parent keeps and what the command finds *)

(** Standard input, output and error are open. *)
Definition std_open (t : gmap Z descriptor) : Prop := ∀ fd, (0 ≤ fd < 3)%Z → is_Some (t !! fd).
Definition no_errors (k : Calls) : Prop :=
  c_pipe1 k = None ∧ c_pipe2 k = None ∧ (0 ≤ c_fork k)%Z ∧ c_open k = None ∧ c_chdir k = None ∧ c_exec k = None.
Definition plain (f : file) : descriptor := mkDescr f false.
Definition inherited (t : gmap Z descriptor) : gmap Z descriptor := filter (λ kv, d_cloexec kv.2 = false) t.

Lemma wp_open_fd f Q E s : std_open (table s) →
  (∀ fd, table s !! fd = None → (3 ≤ fd)%Z → Q fd (set_table (<[fd := plain f]> (table s)) s)) → wp (open_fd f) Q E s.
Proof.
  intros Hstd HQ. apply wp_bind, wp_mget, wp_bind, wp_mput, wp_ret. apply HQ.
  - apply not_elem_of_dom, lowest_free.
  - pose proof (lowest_nonneg (dom (table s))). destruct (decide (3 ≤ lowest (dom (table s)))%Z) as [?|Hlt]; [done|].
    exfalso. apply (lowest_free (dom (table s))), elem_of_dom, Hstd. lia.
Qed.
Lemma std_insert fd d t : std_open t → std_open (<[fd := d]> t).
Proof. intros H y Hy. destruct (decide (fd = y)) as [->|]; [rewrite lookup_insert_eq; by eexists|rewrite lookup_insert_ne by done; by apply H]. Qed.
Lemma std_delete fd t : (3 ≤ fd)%Z → std_open t → std_open (delete fd t).
Proof. intros Hfd H y Hy. rewrite lookup_delete_ne by lia. by apply H. Qed.
Lemma wp_dup2 from to d Q E s : table s !! from = Some d → from ≠ to →
  Q false (set_table (<[to := plain (d_file d)]> (table s)) s) → wp (dup2 from to) Q E s.
Proof. intros Hd Hne HQ. apply wp_bind, wp_mget. rewrite Hd, decide_False by done. by apply wp_bind, wp_mput, wp_ret. Qed.
Lemma wp_pipe failed Q E s : failed = None → std_open (table s) →
  (∀ r w, table s !! r = None → table s !! w = None → r ≠ w → (3 ≤ r)%Z → (3 ≤ w)%Z →
    Q (r, w) (set_table (<[w := plain (PipeWrite (pipes s))]> (<[r := plain (PipeRead (pipes s))]> (table s))) (set_pipes (pipes s + 1)%N s))) →
  wp (pipe failed) Q E s.
Proof.
  intros -> Hstd HQ. apply wp_bind, wp_mget, wp_bind, wp_mput, wp_bind. apply wp_open_fd; [done|]. intros r Hr Hr3.
  apply wp_bind, wp_open_fd; [by apply std_insert|]. intros w Hw Hw3. cbn in Hw. apply lookup_insert_None in Hw as [Hw Hne].
  apply wp_ret. by apply HQ.
Qed.

Ltac lookups := repeat first
  [ rewrite lookup_insert_eq | rewrite lookup_delete_eq | rewrite lookup_insert_ne by (lia || congruence) | rewrite lookup_delete_ne by (lia || congruence)].

(** The child: from the table after the fork to the program. *)
Lemma childProcess_spec k wd w1 w2 f1 f2 s :
  no_errors k → std_open (table s) → (3 ≤ w1)%Z → (3 ≤ w2)%Z → w1 ≠ w2 →
  table s !! w1 = Some (plain f1) → table s !! w2 = Some (plain f2) →
  returns (childProcess k wd w1 w2) (λ x s', x = Became ["/bin/sh"; "-c"; Proc.command_ (self s)] ∧ cwd s' = wd ∧
    table s' = <[0%Z := plain DevNull]> (<[1%Z := plain f1]> (<[2%Z := plain f2]> (inherited (delete w1 (delete w2 (table s))))))) s.
Proof.
  intros (_ & _ & _ & Ho & Hc & He) Hstd H1 H2 Hne Hw1 Hw2. unfold childProcess, or_break. rewrite Ho, Hc, He, !bool_decide_eq_false_2 by by intros [].
  apply wp_bind, wp_open_fd; [done|]. intros dn Hdn Hdn3. apply wp_bind.
  eapply wp_dup2; [cbn; by rewrite lookup_insert_eq|lia|]. apply wp_bind, wp_modify, wp_bind.
  assert (dn ≠ w1 ∧ dn ≠ w2) as [Hd1 Hd2] by (split; congruence).
  eapply wp_dup2; [cbn; lookups; done|lia|]. apply wp_bind, wp_modify, wp_bind.
  eapply wp_dup2; [cbn; lookups; done|lia|]. apply wp_bind, wp_modify, wp_bind, wp_modify, wp_bind, wp_modify, wp_bind, wp_mget, wp_ret.
  cbn. split_and!; [done|done|]. apply map_eq. intros y. unfold inherited. rewrite map_lookup_filter.
  destruct (decide (y = 0%Z)) as [->|]; [by lookups|]. destruct (decide (y = 1%Z)) as [->|]; [by lookups|].
  destruct (decide (y = 2%Z)) as [->|]; [by lookups|]. rewrite !(lookup_insert_ne _ _ y) by done. rewrite map_lookup_filter. f_equal.
  destruct (decide (y = w2)) as [->|]; [by lookups|]. destruct (decide (y = w1)) as [->|]; [by lookups|].
  destruct (decide (y = dn)) as [->|]; lookups; [|done]. by rewrite Hdn.
Qed.

(** The process on the side where [start] returns, or becomes the command. *)
Record started_parent (k : Calls) (s s' : Process) (out err : Z) : Prop := {
  sp_table : table s' = <[err := plain (PipeRead (pipes s + 1))]> (<[out := plain (PipeRead (pipes s))]> (table s));
  sp_self : self s' = Proc.setFds out err (c_fork k) (self s);
  sp_cwd : cwd s' = cwd s;
}.
Record started_child (wd : string) (s s' : Process) (argv : list string) : Prop := {
  sc_argv : argv = ["/bin/sh"; "-c"; Proc.command_ (self s)];
  sc_cwd : cwd s' = wd;
  sc_table : table s' = <[0%Z := plain DevNull]> (<[1%Z := plain (PipeWrite (pipes s))]>
    (<[2%Z := plain (PipeWrite (pipes s + 1))]> (inherited (table s))));
}.

(** C34: PosixSubProcess::start, when no call fails and the three standard
    descriptors are open.  The parent keeps two new descriptors, distinct and not open
    before, which read from two new pipes, and nothing else.  The child becomes the
    shell with the command, in the working directory; it reads from /dev/null and
    writes to the two pipes, and has of the descriptors of the daemon exactly those
    without FD_CLOEXEC. *)
Theorem start_exact k wd s :
  no_errors k → std_open (table s) →
  returns (start k wd) (λ x s', match x with
    | Parent => (0 < c_fork k)%Z ∧ ∃ out err, out ≠ err ∧ (3 ≤ out)%Z ∧ (3 ≤ err)%Z ∧
        table s !! out = None ∧ table s !! err = None ∧ started_parent k s s' out err
    | Became argv => c_fork k = 0%Z ∧ started_child wd s s' argv
    end) s.
Proof.
  intros Hk Hstd. pose proof Hk as (H1 & H2 & Hf & _). unfold start.
  apply wp_bind, wp_pipe; [done|done|]. intros r1 w1 Hr1 Hw1 Hn1 Hr13 Hw13. apply wp_bind, wp_modify.
  apply wp_bind, wp_pipe; [done|by apply std_insert, std_insert|]. cbn. intros r2 w2 Hr2 Hw2 Hn2 Hr23 Hw23.
  apply lookup_insert_None in Hr2 as [[Hr2 Hr21]%lookup_insert_None Hr2w], Hw2 as [[Hw2 Hw2r]%lookup_insert_None Hw2w].
  apply wp_bind, wp_modify, wp_bind, wp_modify. rewrite (bool_decide_eq_false_2 (c_fork k < 0)%Z) by lia. case_bool_decide as Hz.
  - apply wp_bind, wp_modify, wp_bind, wp_modify. eapply wp_mono; [eapply (childProcess_spec k wd w1 w2 (PipeWrite (pipes s)) (PipeWrite (pipes s + 1)))| |done].
    + done.
    + cbn. apply std_delete; [done|]. apply std_delete; [done|]. by repeat apply std_insert.
    + done.
    + done.
    + congruence.
    + cbn. by lookups.
    + cbn. by lookups.
    + intros x s' (-> & Hc & Ht). split; [done|]. split; [done|done|]. rewrite Ht. cbn. do 4 f_equal. apply map_eq. intros y.
      destruct (decide (y = w1)) as [->|]; [by lookups|]. destruct (decide (y = w2)) as [->|]; [by lookups|].
      destruct (decide (y = r2)) as [->|]; [by lookups|]. destruct (decide (y = r1)) as [->|]; by lookups.
  - apply wp_bind, wp_modify, wp_bind, wp_modify, wp_ret. split; [lia|]. exists r1, r2. split_and!; try done. split; [|done|done].
    cbn. apply map_eq. intros y. destruct (decide (y = w2)) as [->|]; [by lookups|]. destruct (decide (y = w1)) as [->|]; [by lookups|].
    destruct (decide (y = r2)) as [->|]; [by lookups|]. destruct (decide (y = r1)) as [->|]; by lookups.
Qed.

(** When fork fails, start throws with all four ends of the pipes open. *)
Lemma fork_failed_leaks k wd s :
  std_open (table s) → c_pipe1 k = None → c_pipe2 k = None → (c_fork k < 0)%Z →
  wp (start k wd) (λ _ _, False) (λ e s', e = Exception (c_errno k) "Failed to fork" ∧
    size (table s') = size (table s) + 4) s.
Proof.
  intros Hstd H1 H2 Hf. unfold start. apply wp_bind, wp_pipe; [done|done|]. intros r1 w1 Hr1 Hw1 Hn1 Hr13 Hw13. apply wp_bind, wp_modify.
  apply wp_bind, wp_pipe; [done|by apply std_insert, std_insert|]. cbn. intros r2 w2 Hr2 Hw2 Hn2 Hr23 Hw23.
  apply wp_bind, wp_modify, wp_bind, wp_modify. rewrite bool_decide_eq_true_2 by done. apply wp_mthrow. split; [done|]. cbn.
  rewrite !map_size_insert_None; [lia|done| |done|]; by apply lookup_insert_None.
Qed.

(** ** Runs *)

(** A daemon with a socket and the pipe of the event notifier. *)
Definition some_daemon : Process :=
  mkProcess (list_to_map [(0%Z, plain (Other 0)); (1%Z, plain (Other 1)); (2%Z, plain (Other 2)); (3%Z, plain (Other 3)); (4%Z, mkDescr (Other 4) true)])
    "/home" 0 (Proc.new "cc -c a.c" 7).
Definition works (fork : Z) : Calls := mkCalls None None fork 0 None None None.
Lemma start_exact_witness :
  std_open (table some_daemon) ∧
  returns (start (works 0) "/src") (λ x s', match x with
    | Parent => (0 < 0)%Z ∧ ∃ out err, out ≠ err ∧ (3 ≤ out)%Z ∧ (3 ≤ err)%Z ∧
        table some_daemon !! out = None ∧ table some_daemon !! err = None ∧ started_parent (works 0) some_daemon s' out err
    | Became argv => 0%Z = 0%Z ∧ started_child "/src" some_daemon s' argv
    end) some_daemon.
Proof.
  assert (Hstd : std_open (table some_daemon)).
  { intros fd Hfd. assert (fd = 0 ∨ fd = 1 ∨ fd = 2)%Z as [->|[->| ->]] by lia; vm_compute; by eexists. }
  split; [exact Hstd|]. apply (start_exact (works 0) "/src" some_daemon); [|exact Hstd].
  split_and!; [reflexivity|reflexivity|vm_compute; discriminate|reflexivity|reflexivity|reflexivity].
Defined.

(** With standard input closed, /dev/null is opened as 0 and closed again: the
    command has no standard input. *)
Definition no_stdin : Process := mkProcess (delete 0%Z (table some_daemon)) "/home" 0 (Proc.new "cc -c a.c" 7).
Example closed_stdin_stays :
  match start (works 0) "/src" no_stdin with Ret (Became _) s' => table s' !! 0%Z = None | _ => False end.
Proof. vm_compute. reflexivity. Qed.
