(* ===== verification/InterruptRace.v ===== *)
(** * Interrupting a build from another thread (posix_subprocess_manager.cpp)

    PosixSubProcessManager::interrupt is called by a thread of the command server while
    the build thread works on the same lists; the mutex is taken around some of the
    accesses only.  The operations of SubProcess.v are taken apart into the pieces
    between which the other thread can run.  The theorems say what an interruption does
    in every interleaving, and in which it ends the daemon. *)

From S2P Require Import Prelude GraphModel StreamServer SubProcess.

(** ** The two threads *)

(** Where the build thread is, inside of an operation. *)
Inductive builder_at :=
  | Outside
  | Pushing (p : N) (out err : Z)  (* addProcess, before the mutex *)
  | Erasing (p : N)                (* readFd: the pointer is moved out of its element *)
  | Waited (p : N).                (* waitForNext: waitpid returned *)
#[export] Instance builder_at_eq_dec : EqDecision builder_at.
Proof. solve_decision. Defined.
(** The other thread has the mutex unless it is [Away]. *)
Inductive interrupter_at :=
  | Away
  | At (it : list N)               (* the elements it has not looked at *)
  | Signalling (p : N) (it : list N) (* an element is read, kill is not called yet *)
  | Crashed.                       (* the element holds a null pointer *)

Record Shared := mkShared {
  mgr : Manager;
  builder : builder_at;
  interrupter : interrupter_at;
  signals : list (Z * Z);          (* sent by this interruption *)
}.

(** [addProcess] up to the mutex, and from there on; the address of the new process is
    fresh, so that [mapToRule_.insert] adds an entry ([addProcess_pieces]). *)
Definition started (r p : N) (command : string) (out err pid : Z) (m : Manager) : Manager :=
  mkManager (wrap32 (id_ m + 1)) (running_ m) (finished_ m) (pollfds_ m) (map_ m) (<[p := r]> (mapToRule_ m))
    (<[p := Proc.setFds out err pid (Proc.new command (Z.to_N (id_ m)))]> (procs m)).
Definition pushed (p : N) (out err : Z) (m : Manager) : Manager :=
  mkManager (id_ m) (p :: running_ m) (finished_ m) (err :: out :: pollfds_ m)
    (<[err := mkFd p false]> (<[out := mkFd p true]> (map_ m))) (mapToRule_ m) (procs m).

(** The end of a stream, in [readFd]: [finished_.push(std::move(proc))] is not under the
    mutex, the erasure of the element is. *)
Definition ended (fd : Z) (p : N) (x' : Proc.t) (m : Manager) : Manager :=
  set_polled (erase_fd fd (pollfds_ m)) (delete fd (map_ m)) (set_procs (<[p := x']> (procs m)) m).
Definition moved (p : N) (m : Manager) : Manager := set_running (running_ m) (finished_ m ++ [p]) m.
Definition erased (p : N) (m : Manager) : Manager := set_running (filter (λ q, q ≠ p) (running_ m)) (finished_ m) m.

(** [waitForNext] with something finished: up to [waitFinished], and the rest. *)
Definition waited (p : N) (l : list N) (x' : Proc.t) (m : Manager) : Manager :=
  set_procs (<[p := x']> (procs m)) (set_running (running_ m) l m).
Definition forgotten (p : N) (m : Manager) : Manager :=
  set_procs (delete p (procs m)) (set_rules_of (delete p (mapToRule_ m)) m).

Section steps.
Context `{Allocator}.

(** The build thread.  With the mutex: only when the other is [Away]. *)
Inductive bpiece : Shared → Shared → Prop :=
  | b_start m i k r command out err pid p :
      command ≠ "" → out ≠ err → out ≠ (-1)%Z → err ≠ (-1)%Z → (0 ≤ pid)%Z →
      map_ m !! out = None → map_ m !! err = None → p = new_addr (dom (procs m)) →
      bpiece (mkShared m Outside i k) (mkShared (started r p command out err pid m) (Pushing p out err) i k)
  | b_push m k p out err :
      bpiece (mkShared m (Pushing p out err) Away k) (mkShared (pushed p out err m) Outside Away k)
  | b_eof m i k fd p o x :
      map_ m !! fd = Some (mkFd p o) → procs m !! p = Some x → Proc.completed (Proc.setFd o (-1) x) = false →
      bpiece (mkShared m Outside i k) (mkShared (ended fd p (Proc.setFd o (-1) x) m) Outside i k)
  | b_last m i k fd p o x :
      map_ m !! fd = Some (mkFd p o) → procs m !! p = Some x → Proc.completed (Proc.setFd o (-1) x) = true →
      bpiece (mkShared m Outside i k) (mkShared (moved p (ended fd p (Proc.setFd o (-1) x) m)) (Erasing p) i k)
  | b_erase m k p :
      bpiece (mkShared m (Erasing p) Away k) (mkShared (erased p m) Outside Away k)
  | b_wait m i k p l x st :
      finished_ m = p :: l → procs m !! p = Some x → st ≠ UNKNOWN →
      bpiece (mkShared m Outside i k) (mkShared (waited p l (Proc.setStatus st x) m) (Waited p) i k)
  | b_forget m i k p :
      bpiece (mkShared m (Waited p) i k) (mkShared (forgotten p m) Outside i k).

(** What is read from a stream changes nothing here.  The other thread: [interrupt] is called through the pointer of each element of the
    list. *)
Inductive ipiece : Shared → Shared → Prop :=
  | i_lock m b k : ipiece (mkShared m b Away k) (mkShared m b (At (running_ m)) [])
  | i_read m b k p it : b ≠ Erasing p → ipiece (mkShared m b (At (p :: it)) k) (mkShared m b (Signalling p it) k)
  | i_null m k p it : ipiece (mkShared m (Erasing p) (At (p :: it)) k) (mkShared m (Erasing p) Crashed k)
  | i_kill m b k p it x : procs m !! p = Some x → (0 ≤ Proc.pid_ x)%Z →
      ipiece (mkShared m b (Signalling p it) k) (mkShared m b (At it) (k ++ [(Proc.pid_ x, SIGINT)]))
  | i_unlock m b k : ipiece (mkShared m b (At []) k) (mkShared m b Away k).

Definition piece (s s' : Shared) : Prop := bpiece s s' ∨ ipiece s s'.
End steps.

(** ** What holds in every interleaving *)

(** What the build thread is about to have done. *)
Definition settled (s : Shared) : Manager :=
  match builder s with
  | Outside => mgr s
  | Pushing p out err => pushed p out err (mgr s)
  | Erasing p => erased p (mgr s)
  | Waited p => forgotten p (mgr s)
  end.
Definition signal_of (m : Manager) (p : N) : option (Z * Z) := (λ x, (Proc.pid_ x, SIGINT)) <$> procs m !! p.
(** The elements before the iterator have got their signal. *)
Definition visited (m : Manager) (k : list (Z * Z)) (it : list N) : Prop :=
  ∃ done, running_ m = done ++ it ∧ signal_of m <$> done = Some <$> k.

Record ok (s : Shared) : Prop := {
  ok_mgr : manager_ok (settled s);
  ok_procs q x : procs (mgr s) !! q = Some x → (0 ≤ Proc.pid_ x)%Z ∧ (Proc.status_ x = UNKNOWN ∨ builder s = Waited q);
  ok_moved p : builder s = Erasing p → p ∈ finished_ (mgr s);
  ok_visit : match interrupter s with
    | At it => visited (mgr s) (signals s) it
    | Signalling p it => visited (mgr s) (signals s) (p :: it)
    | _ => True
    end;
}.

(** A process of the list is a child that nobody has waited for. *)
Definition unreaped (m : Manager) (p : N) : Prop :=
  ∃ x, procs m !! p = Some x ∧ (0 ≤ Proc.pid_ x)%Z ∧ Proc.status_ x = UNKNOWN.
Lemma running_unreaped s p : ok s → p ∈ running_ (mgr s) → unreaped (mgr s) p.
Proof.
  intros [Hm Hp Hmv _] Hin. assert (∃ x, procs (mgr s) !! p = Some x ∧ builder s ≠ Waited p) as (x & Hx & Hb).
  { destruct s as [m b i k]. cbn in *. destruct b as [|q out err|q|q]; cbn [settled builder mgr] in Hm.
    - destruct (proj2 (mk_procs _ Hm p)) as [x Hx]; [set_solver|by exists x].
    - destruct (proj2 (mk_procs _ Hm p)) as [x Hx]; [cbn; set_solver|by exists x].
    - destruct (proj2 (mk_procs _ Hm p)) as [x Hx]; [|by exists x]. cbn. rewrite elem_of_app, list_elem_of_filter.
      destruct (decide (p = q)) as [->|Hne]; [right; by apply Hmv|by left].
    - destruct (proj2 (mk_procs _ Hm p)) as [x Hx]; [cbn; set_solver|]. cbn in Hx. apply lookup_delete_Some in Hx as [Hne Hx].
      exists x. split; [done|congruence]. }
  exists x. destruct (Hp p x Hx) as [? [?|?]]; [by split_and!|done].
Qed.

(** The list does not change under the mutex, and processes in it keep their pid. *)
Lemma visited_keep m m' k it : running_ m' = running_ m →
  (∀ p, p ∈ running_ m → signal_of m' p = signal_of m p) → visited m k it → visited m' k it.
Proof.
  intros Hr Hs (done & Hd & Hf). exists done. split; [congruence|]. rewrite <- Hf. apply list_fmap_ext. intros i p Hp.
  apply Hs. rewrite Hd. apply elem_of_app. left. by eapply list_elem_of_lookup_2.
Qed.
Definition same_list (m m' : Manager) : Prop :=
  running_ m' = running_ m ∧ ∀ p, p ∈ running_ m → signal_of m' p = signal_of m p.
Lemma visit_keep i k m m' : same_list m m' →
  match i with At it => visited m k it | Signalling p it => visited m k (p :: it) | _ => True end →
  match i with At it => visited m' k it | Signalling p it => visited m' k (p :: it) | _ => True end.
Proof. intros [Hr Hs]. destruct i; try done; by apply visited_keep. Qed.
Lemma signal_insert m p x x' q : procs m !! p = Some x → Proc.pid_ x' = Proc.pid_ x →
  (λ x, (Proc.pid_ x, SIGINT)) <$> (<[p := x']> (procs m)) !! q = signal_of m q.
Proof.
  intros Hx Hpid. unfold signal_of. destruct (decide (p = q)) as [<-|Hne]; [rewrite lookup_insert_eq, Hx; simpl; congruence|].
  by rewrite lookup_insert_ne.
Qed.

Lemma returns_eq {S A} (c : M S A) Q s a s' : returns c Q s → (∀ b t, Q b t → b = a ∧ t = s') → c s = Ret a s'.
Proof. intros (b & t & -> & HQ)%returns_inv Heq. by destruct (Heq b t HQ) as [-> ->]. Qed.

Section invariant.
Context `{Allocator}.

(** *** The pieces are the operations of the build thread *)

Lemma addProcess_pieces r command out err pid m : manager_ok m → command ≠ "" →
  returns (addProcess r command (Started out err pid)) (λ _ m', let p := new_addr (dom (procs m)) in
    m' = pushed p out err (started r p command out err pid m)) m.
Proof.
  intros Hok Hc. apply wp_bind, wp_mget, wp_bind, wp_mput, wp_bind, wp_massert; [by rewrite bool_decide_eq_false_2|].
  apply wp_bind, wp_mget. set (p := new_addr _). assert (procs m !! p = None) as Hp by (apply not_elem_of_dom, new_addr_fresh).
  assert (mapToRule_ m !! p = None) as Hr.
  { apply eq_None_not_Some. rewrite (mk_rules m Hok), <- (mk_procs m Hok), Hp. by intros [? ?]. }
  apply wp_bind, wp_mput, wp_bind, wp_modify. rewrite decide_False by (simpl; rewrite Hr; by intros [? ?]).
  apply wp_bind, wp_catch, wp_bind, wp_mget, wp_bind. eapply wp_deref; [simpl; by rewrite lookup_insert_eq|].
  apply wp_mput, wp_bind, wp_mget, wp_bind. eapply wp_deref; [simpl; by rewrite lookup_insert_eq|].
  do 3 (apply wp_bind, wp_modify). apply wp_ret. simpl. unfold pushed, started. cbn. by rewrite insert_insert_eq.
Qed.

Lemma closed_pieces fd p o x m : let x' := Proc.setFd o (-1) x in
  closed fd p o x m = if Proc.completed x' then erased p (moved p (ended fd p x' m)) else ended fd p x' m.
Proof. unfold closed. by destruct (Proc.completed _). Qed.

(** *** The invariant *)

Lemma started_ok r command out err pid m : manager_ok m → command ≠ "" → out ≠ err → out ≠ (-1)%Z → err ≠ (-1)%Z →
  map_ m !! out = None → map_ m !! err = None →
  manager_ok (let p := new_addr (dom (procs m)) in pushed p out err (started r p command out err pid m)).
Proof.
  intros Hok Hc Hoe Ho He Hmo Hme. pose proof (addProcess_pieces r command out err pid m Hok Hc) as H1.
  pose proof (addProcess_spec (C := list build_event) r command out err pid m Hok Hc Hoe Ho He Hmo Hme) as H2.
  apply returns_inv in H1 as (id & m' & E & ->). unfold returns, wp in H2. rewrite E in H2. by destruct H2.
Qed.

(** A stream that ends changes neither the pid nor the status. *)
Lemma ended_procs m b p o x fd :
  procs m !! p = Some x →
  (∀ q y, procs m !! q = Some y → (0 ≤ Proc.pid_ y)%Z ∧ (Proc.status_ y = UNKNOWN ∨ b = Waited q)) →
  ∀ q y, procs (ended fd p (Proc.setFd o (-1) x) m) !! q = Some y → (0 ≤ Proc.pid_ y)%Z ∧ (Proc.status_ y = UNKNOWN ∨ b = Waited q).
Proof.
  intros Hx Hp q y. cbn. destruct (decide (p = q)) as [<-|Hne].
  - rewrite lookup_insert_eq. intros [= <-]. destruct o; by apply (Hp p x).
  - rewrite lookup_insert_ne by done. apply Hp.
Qed.
Lemma ended_list m p o x fd : procs m !! p = Some x → same_list m (ended fd p (Proc.setFd o (-1) x) m).
Proof. intros Hx. split; [done|]. intros q _. eapply signal_insert; [done|]. by destruct o. Qed.

Lemma bpiece_ok s s' : ok s → bpiece s s' → ok s'.
Proof.
  intros Hs Hstep. pose proof Hs as [Hm Hp Hmv Hv]. inversion Hstep; subst; cbn [settled builder mgr interrupter signals] in *.
  - (* start *)
    set (p := new_addr (dom (procs m))) in *. assert (procs m !! p = None) as Hfresh by (apply not_elem_of_dom, new_addr_fresh).
    split; cbn [settled builder mgr interrupter signals].
    + by apply started_ok.
    + intros q x Hx. cbn in Hx. destruct (decide (p = q)) as [<-|Hne].
      * rewrite lookup_insert_eq in Hx. injection Hx as <-. split; [done|by left].
      * rewrite lookup_insert_ne in Hx by done. destruct (Hp q x Hx) as [? [?|?]]; [split; [done|by left]|done].
    + done.
    + eapply visit_keep; [|exact Hv]. split; [done|]. intros q Hq. unfold signal_of. cbn. rewrite lookup_insert_ne; [done|].
      intros ->. destruct (running_unreaped _ _ Hs Hq) as (x & Hx & _). cbn in Hx. congruence.
  - (* push *) split; cbn [settled builder mgr interrupter signals]; try done. 
    intros q x Hx. destruct (Hp q x Hx) as [? [?|?]]; [split; [done|by left]|done].
  - (* a stream ends *)
    pose proof (proj1 (closed_spec fd p o x m Hm ltac:(done) ltac:(done))) as Hc. rewrite closed_pieces in Hc. match goal with E : Proc.completed _ = _ |- _ => rewrite E in Hc end.
    split; cbn [settled builder mgr interrupter signals]; try done.
    + by apply (ended_procs m Outside p o x).
    + eapply visit_keep; [|exact Hv]. by apply ended_list.
  - (* the last one *)
    pose proof (proj1 (closed_spec fd p o x m Hm ltac:(done) ltac:(done))) as Hc. rewrite closed_pieces in Hc. match goal with E : Proc.completed _ = _ |- _ => rewrite E in Hc end.
    split; cbn [settled builder mgr interrupter signals]; try done.
    + intros q y Hy. destruct (ended_procs m Outside p o x fd ltac:(done) Hp q y Hy) as [? [?|?]]; [split; [done|by left]|done].
    + intros q [= <-]. cbn. set_solver.
    + eapply visit_keep; [|exact Hv]. by apply ended_list.
  - (* erase *) split; cbn [settled builder mgr interrupter signals]; try done.
    intros q x Hx. destruct (Hp q x Hx) as [? [?|?]]; [split; [done|by left]|done].
  - (* waitpid *)
    split; cbn [settled builder mgr interrupter signals].
    + pose proof (manager_ok_pop m p l x Hm ltac:(done) ltac:(done)) as Hc. unfold forgotten, waited. cbn.
      by rewrite delete_insert_eq.
    + intros q y Hy. cbn in Hy. destruct (decide (p = q)) as [<-|Hne].
      * rewrite lookup_insert_eq in Hy. injection Hy as <-. cbn. destruct (Hp p x ltac:(done)). split; [done|by right].
      * rewrite lookup_insert_ne in Hy by done. destruct (Hp q y Hy) as [? [?|?]]; [split; [done|by left]|done].
    + done.
    + eapply visit_keep; [|exact Hv]. split; [done|]. intros q _. by eapply signal_insert.
  - (* forget *)
    assert (Hnot : p ∉ running_ m).
    { intros Hin. pose proof (proj2 (mk_procs _ Hm p)) as Hl. cbn in Hl. rewrite lookup_delete_eq in Hl. destruct Hl; [set_solver|done]. }
    split; cbn [settled builder mgr interrupter signals]; try done.
    + intros q y Hy. cbn in Hy. apply lookup_delete_Some in Hy as [Hne Hy]. destruct (Hp q y Hy) as [? [?|?]]; [split; [done|by left]|congruence].
    + eapply visit_keep; [|exact Hv]. split; [done|]. intros q Hq. unfold signal_of. cbn. rewrite lookup_delete_ne; [done|congruence].
Qed.

Lemma ipiece_ok s s' : ok s → ipiece s s' → ok s'.
Proof.
  intros [Hm Hp Hmv Hv] Hstep. inversion Hstep; subst; cbn [settled builder mgr interrupter signals] in *;
    split; cbn [settled builder mgr interrupter signals]; try done.
  - exists []. by split.
  - destruct Hv as (done & Hd & Hf). exists (done ++ [p]). split; [by rewrite Hd, <- (assoc_L (++))|].
    rewrite !fmap_app, Hf. do 2 f_equal. cbn. unfold signal_of. by rewrite H0.
Qed.
Lemma pieces_ok s s' : ok s → rtc piece s s' → ok s'.
Proof. intros Hs. induction 1 as [|s s1 s' [Hb|Hi] _ IH]; [done|apply IH; by eapply bpiece_ok|apply IH; by eapply ipiece_ok]. Qed.

(** Between two operations, with nothing waited for. *)
Definition quiet (m : Manager) : Prop :=
  manager_ok m ∧ ∀ q x, procs m !! q = Some x → (0 ≤ Proc.pid_ x)%Z ∧ Proc.status_ x = UNKNOWN.
Lemma quiet_ok m : quiet m → ok (mkShared m Outside Away []).
Proof. intros [Hm Hp]. split; cbn; try done. intros q x Hx. destruct (Hp q x Hx). split; [done|by left]. Qed.

(** ** The interruption *)

(** When every process of the list is there, [interrupt] signals each once. *)
Lemma interrupt_signals m k : (∀ p, p ∈ running_ m → unreaped m p) → signal_of m <$> running_ m = Some <$> k →
  SubProcess.interrupt m = Ret k m.
Proof.
  intros Hrun Hk. apply (returns_eq _ (λ k' m', k' = k ∧ m' = m)); [|by intros].
  apply wp_bind, wp_mget. eapply (wp_foldM (λ pre k' m', m' = m ∧ signal_of m <$> pre = Some <$> k')).
  - done.
  - intros pre p post k' m' Heq [-> Hpre]. destruct (Hrun p) as (x & Hx & Hpid & _); [rewrite Heq; set_solver|].
    apply wp_bind. eapply wp_deref; [exact Hx|]. apply wp_bind, wp_massert; [by apply bool_decide_eq_true|]. apply wp_ret.
    split; [done|]. rewrite !fmap_app, Hpre. f_equal. cbn. unfold signal_of. by rewrite Hx.
  - intros k' m' [-> Hk']. split; [|done]. apply (inj (fmap Some)). congruence.
Qed.

(** C35: an interruption in any interleaving with the build thread.  It signals only
    processes that have not been waited for, whose pid can belong to nobody else; it
    is never stuck; when it gets to the end of the list, it has done what the
    uninterrupted [interrupt] does at that moment; and it ends the daemon only if it
    comes to the element of a process whose last stream just ended. *)
Theorem interrupt_interleaved m0 s :
  quiet m0 → rtc piece (mkShared m0 Outside Away []) s →
  (∀ p it, interrupter s = Signalling p it → unreaped (mgr s) p) ∧
  (interrupter s = At [] → SubProcess.interrupt (mgr s) = Ret (signals s) (mgr s)) ∧
  (interrupter s ≠ Crashed → ∃ s', ipiece s s') ∧
  (∀ s', ipiece s s' → interrupter s' = Crashed → ∃ p, builder s = Erasing p ∧ p ∈ finished_ (mgr s)).
Proof.
  intros Hm0 Hrun. pose proof (pieces_ok _ _ (quiet_ok _ Hm0) Hrun) as Hs. pose proof (ok_visit _ Hs) as Hv.
  assert (Hsig : ∀ p it, interrupter s = Signalling p it → unreaped (mgr s) p).
  { intros p it Hi. rewrite Hi in Hv. destruct Hv as (done & Hd & _). apply running_unreaped; [done|]. rewrite Hd. set_solver. }
  split_and!; [done| | |].
  - intros Hi. rewrite Hi in Hv. destruct Hv as (done & Hd & Hf). rewrite app_nil_r in Hd.
    apply interrupt_signals; [by intros p; apply running_unreaped|by rewrite Hd].
  - intros Hc. destruct s as [m b [|[|p it]|p it|] k]; cbn in *.
    + eexists. apply i_lock.
    + eexists. apply i_unlock.
    + destruct (decide (b = Erasing p)) as [->|Hb]; eexists; [apply i_null|by apply i_read].
    + destruct (Hsig p it eq_refl) as (x & Hx & Hpid & _). eexists. by eapply i_kill.
    + done.
  - intros s' Hi Hc. inversion Hi; subst; cbn in *; try done. exists p. split; [done|by apply (ok_moved _ Hs)].
Qed.

(** The elements in front of one that is not null. *)
Lemma visits m b pre : ∀ k it, (∀ p, p ∈ pre → unreaped m p ∧ b ≠ Erasing p) →
  ∃ k', rtc piece (mkShared m b (At (pre ++ it)) k) (mkShared m b (At it) k').
Proof.
  induction pre as [|p pre IH]; intros k it Hp; [by exists k|].
  destruct (Hp p) as [(x & Hx & Hpid & _) Hb]; [set_solver|]. destruct (IH (k ++ [(Proc.pid_ x, SIGINT)]) it) as [k' Hk'].
  { intros q Hq. apply Hp. set_solver. }
  exists k'. eapply rtc_l; [right; by apply i_read|]. eapply rtc_l; [right; by eapply i_kill|]. exact Hk'.
Qed.

(** C36: whenever the last open stream of a command ends, an interruption can come at
    this moment and end the daemon: [finished_.push(std::move(proc))] leaves a null
    pointer in the list, and takes the mutex only afterwards. *)
Theorem interrupt_crashes m fd p o x :
  quiet m → map_ m !! fd = Some (mkFd p o) → procs m !! p = Some x → Proc.completed (Proc.setFd o (-1) x) = true →
  ∃ s, rtc piece (mkShared m Outside Away []) s ∧ interrupter s = Crashed.
Proof.
  intros Hq Hfd Hx Hc. set (m1 := moved p (ended fd p (Proc.setFd o (-1) x) m)).
  assert (Hb : piece (mkShared m Outside Away []) (mkShared m1 (Erasing p) Away [])) by (left; by eapply b_last).
  assert (Hl : piece (mkShared m1 (Erasing p) Away []) (mkShared m1 (Erasing p) (At (running_ m1)) [])) by (right; apply i_lock).
  assert (Hp : p ∈ running_ m).
  { assert (Hin : p ∈ running_ m ++ finished_ m) by (apply (mk_procs m (proj1 Hq)); by eexists). apply elem_of_app in Hin as [?|Hf]; [done|].
    apply (mk_done m (proj1 Hq) p x Hx), completed_true in Hf as [H1 H2]. apply (mk_map m (proj1 Hq)) in Hfd as (y & Hy & Hyf & Hne).
    assert (y = x) as -> by congruence. by destruct o; congruence. }
  apply list_elem_of_split in Hp as (pre & post & Hsplit).
  assert (Hok1 : ok (mkShared m1 (Erasing p) Away [])) by (eapply pieces_ok; [by apply quiet_ok|by apply rtc_once]).
  pose proof (mk_nodup m (proj1 Hq)) as Hnd. apply NoDup_app in Hnd as (Hnd & _ & _). rewrite Hsplit in Hnd.
  apply NoDup_app in Hnd as (_ & Hdis & _).
  destruct (visits m1 (Erasing p) pre [] (p :: post)) as [k Hk].
  { intros q Hin. split; [apply (running_unreaped _ _ Hok1); cbn; rewrite Hsplit; set_solver|]. intros [= <-].
    apply (Hdis p Hin). set_solver. }
  exists (mkShared m1 (Erasing p) Crashed k). split; [|done]. eapply rtc_l; [exact Hb|]. eapply rtc_l; [exact Hl|]. change (running_ m1) with (running_ m). rewrite Hsplit.
  etrans; [exact Hk|]. apply rtc_once. right. apply i_null.
Qed.

(** ** Every operation of the build thread is made of these pieces *)

Section operations.
Context {C : Type} `{Consumer C}.

Definition in_pieces {A} (c : M (MC C) A) : Prop := ∀ t a t' k, c t = Ret a t' →
  rtc piece (mkShared (mc_m t) Outside Away k) (mkShared (mc_m t') Outside Away k).

Lemma pieces_ret {A} (a : A) : in_pieces (mret a).
Proof. intros t b t' k [= <- <-]. apply rtc_refl. Qed.
Lemma pieces_bind {A B} (c : M (MC C) A) (f : A → M (MC C) B) : in_pieces c → (∀ a, in_pieces (f a)) → in_pieces (c ≫= f).
Proof.
  intros Hc Hf t b t' k E. unfold mbind, M_bind in E. destruct (c t) as [a t1| |] eqn:E1; [|done|done].
  etrans; [by eapply Hc|by eapply Hf].
Qed.
Lemma pieces_foreach {A} (l : list A) body : (∀ x, in_pieces (body x)) → in_pieces (foreach l body).
Proof. intros Hb. induction l as [|x l IH]; [apply pieces_ret|]. apply pieces_bind; [apply Hb|done]. Qed.

Lemma readFd_closes fd ev t t' : readFd fd ev t = Ret tt t' →
  mc_m t' = mc_m t ∨ ∃ p o x, map_ (mc_m t) !! fd = Some (mkFd p o) ∧ procs (mc_m t) !! p = Some x ∧ mc_m t' = closed fd p o x (mc_m t).
Proof.
  destruct t as [m c]. unfold readFd, onFdReady, updProc, mwhen. unfold mbind, M_bind, gets, zoom, mget, mput, modify, deref, massert. cbn.
  destruct (map_ m !! fd) as [[p o]|] eqn:Hfd; [cbn|done]. destruct (procs m !! p) as [x|] eqn:Hx; [cbn|done].
  destruct (negb _); [cbn|done]. destruct ev as [l| |errno]; cbn.
  - destruct (consume _ c) as [[] c'| |]; cbn; [intros [= <-]; by left|done|done].
  - rewrite Hx. cbn. rewrite lookup_insert_eq. cbn. intros E. right. exists p, o, x. split_and!; [done|done|].
    unfold closed. destruct (Proc.completed _); injection E as <-; done.
  - done.
Qed.
Lemma pieces_readFd fd ev : in_pieces (readFd fd ev).
Proof.
  intros t [] t' k [->|(p & o & x & Hfd & Hx & ->)]%readFd_closes; [done|]. rewrite closed_pieces.
  destruct (Proc.completed _) eqn:Hc; [|apply rtc_once; left; by eapply b_eof].
  eapply rtc_l; [left; by eapply b_last|]. apply rtc_once. left. apply b_erase.
Qed.
Lemma pieces_run res : in_pieces (run res).
Proof.
  destruct res as [errno|ready]; [done|].
  assert (Hloop : ∀ l, in_pieces (foreach l (λ fd, match ready fd with Some ev => readFd fd ev | None => mret tt end))).
  { intros l. apply pieces_foreach. intros fd. destruct (ready fd); [apply pieces_readFd|apply pieces_ret]. }
  intros t [] t' k E. exact (Hloop _ t tt t' k E).
Qed.
Lemma pieces_run_until polls : in_pieces (run_until polls).
Proof.
  induction polls as [|res polls IH]; intros t a t' k E; cbn in E; unfold mbind, M_bind, gets in E;
    (destruct (negb _); [injection E as _ <-; done|]); [done|].
  destruct (run res t) as [[] t1| |] eqn:E1; [|done|done]. etrans; [by eapply pieces_run|by eapply IH].
Qed.
Lemma waitFinished_sets p st m m' : waitFinished p st m = Ret tt m' →
  ∃ x, procs m !! p = Some x ∧ exit_status st ≠ UNKNOWN ∧ m' = set_procs (<[p := Proc.setStatus (exit_status st) x]> (procs m)) m.
Proof.
  intros E. assert (Hst : exit_status st ≠ UNKNOWN).
  { destruct st as [code|sig|errno]; cbn; [by case_bool_decide|by case_bool_decide|done]. }
  assert (E' : updProc p (Proc.setStatus (exit_status st)) m = Ret tt m') by by destruct st. clear E.
  unfold updProc in E'. unfold mbind, M_bind, mget, deref, mput in E'. destruct (procs m !! p) as [x|]; [|done].
  exists x. by injection E' as <-.
Qed.
(** waitForNext is a run of the pieces of the build thread. *)
Theorem waitForNext_pieces polls wait : in_pieces (waitForNext polls wait).
Proof.
  intros t b t' k E. unfold waitForNext in E. unfold mbind, M_bind, gets, massert in E.
  destruct (negb _ || negb _); [|done]. destruct (run_until polls t) as [rest t1| |] eqn:E1; [|done|done].
  etrans; [by eapply pieces_run_until|]. clear E1. destruct t1 as [m c]. unfold deref in E. cbn in E.
  destruct (finished_ m) as [|p l] eqn:Hf; [done|]. cbn in E. unfold zoom, modify in E. cbn in E.
  destruct (waitFinished p (wait p) _) as [[] m1| |] eqn:Ew; [|done|done]. apply waitFinished_sets in Ew as (x & Hx & Hst & ->). cbn in E, Hx.
  destruct (mapToRule_ m !! p) as [r|]; [|done]. cbn in E. rewrite lookup_insert_eq in E. injection E as _ <-. cbn. rewrite Hf.
  eapply rtc_l; [left; by eapply (b_wait m Away k p l x)|]. apply rtc_once. left. apply b_forget.
Qed.
End operations.
End invariant.

(** ** Runs *)

Definition the_process : Proc.t := Proc.setFds 3 4 100 (Proc.new "cc" 0).
Lemma one_running_quiet : quiet one_running.
Proof.
  split; [exact one_running_ok|]. intros q x Hx. assert (E : procs one_running = {[0%N := the_process]}) by (vm_compute; reflexivity).
  rewrite E in Hx. apply lookup_singleton_Some in Hx as [_ <-]. done.
Qed.
(** Its standard output ended already. *)
Definition half_closed : Manager := ended 3 0 (Proc.setFd true (-1) the_process) one_running.
Lemma half_closed_quiet : quiet half_closed.
Proof.
  split.
  - change half_closed with (closed 3 0 true the_process one_running). apply closed_spec; [exact one_running_ok|reflexivity|reflexivity].
  - intros q x Hx. assert (E : procs half_closed = {[0%N := Proc.setFd true (-1) the_process]}) by (vm_compute; reflexivity).
    rewrite E in Hx. apply lookup_singleton_Some in Hx as [_ <-]. done.
Qed.

Lemma interrupt_interleaved_witness :
  (∀ p it, Signalling 0 [] = Signalling p it → unreaped one_running p) ∧
  (Signalling 0 [] = At [] → SubProcess.interrupt one_running = Ret [] one_running) ∧
  (Signalling 0 [] ≠ Crashed → ∃ s', ipiece (mkShared one_running Outside (Signalling 0 []) []) s') ∧
  (∀ s', ipiece (mkShared one_running Outside (Signalling 0 []) []) s' → interrupter s' = Crashed →
    ∃ p, Outside = Erasing p ∧ p ∈ finished_ one_running).
Proof.
  apply (@interrupt_interleaved first_fit one_running (mkShared one_running Outside (Signalling 0 []) [])); [exact one_running_quiet|].
  eapply rtc_l; [right; apply i_lock|]. apply rtc_once. right. change (running_ one_running) with [0%N]. by apply i_read.
Defined.
Lemma interrupt_crashes_witness :
  ∃ s, rtc (@piece first_fit) (mkShared half_closed Outside Away []) s ∧ interrupter s = Crashed.
Proof.
  apply (@interrupt_crashes first_fit half_closed 4 0 false (Proc.setFd true (-1) the_process)); [exact half_closed_quiet|reflexivity..].
Defined.
