(* ===== verification/LazyCache.v ===== *)
(** * Lazy fetching (lazy_cache.cpp)

    [fetch] walks down from the targets and takes from the cache the first node of
    each branch that is there.  The theorem gives the set of nodes that are fetched,
    what becomes of the graph and of the files, and that the graph stays
    consistent, so that a build plan can be made of what is left. *)

From Stdlib Require Import Ascii.
From S2P Require Import StreamServer SubProcess Prelude GraphModel GraphChecks BuildPlan BuildCore Fs Cache Watchman World CacheRoundtrip.

(** The world and the consumer. *)
Record WC (C : Type) := mkWC { wc_w : World; wc_c : C }.
Arguments mkWC {C}.
Arguments wc_w {C}.
Arguments wc_c {C}.
Definition l_wcw {C} : lens (WC C) World := Lens wc_w (λ w s, mkWC w (wc_c s)).
Definition l_wcc {C} : lens (WC C) C := Lens wc_c (λ c s, mkWC (wc_w s) c).
Definition wcGraph {C A} (m : M GState A) : M (WC C) A := zoom l_wcw (zoom l_graph m).

Section lazy.
Context `{Allocator} {C : Type} `{Consumer C}.
Variable time : N → Z.  (* [time(NULL)] when the node is fetched *)

Definition traverseRule_with (traverseNode : N → M (WC C) unit) (rule : N) : M (WC C) unit :=
  r ← wcGraph (readRule rule);
  foreach (Rule.inputs_ r) traverseNode.

Fixpoint traverseNode (fuel : nat) (node : N) : M (WC C) unit :=
  match fuel with
  | O => mabort OutOfFuel
  | S fuel =>
    n ← wcGraph (readNode node);
    if negb (Node.isDirty n) then mret tt
    else
      match Node.childRule_ n with
      | None => mret tt
      | Some rule =>
        r ← wcGraph (readRule rule);
        if Rule.isPhony r then traverseRule_with (traverseNode fuel) rule
        else
          ok ← zoom l_wcw (CacheManager.restoreNode node);
          if (ok : bool) then
            zoom l_wcc (consume (ECache (String.list_ascii_of_string (Node.path_ n))));;
            wcGraph (updNode node (Node.setState UP_TO_DATE));;
            wcGraph (updNode node (Node.setLazyFetched true));;
            wcGraph (updNode node (Node.setTimestamp (time node)));;
            n ← wcGraph (readNode node);
            wcGraph (foreach (Node.parentRules_ n) Rule_markInputReady)
          else traverseRule_with (traverseNode fuel) rule
      end
  end.

Definition fetch (fuel : nat) (targets : gset N) : M (WC C) unit :=
  foreach (set_elems targets) (traverseNode fuel).
End lazy.

(** ** Restoring a node *)

Definition entry_of (w : World) (h : string) := fs_entries (w_fs w) !! CacheFS.entry_path (w_dir w) h.

Lemma recorded_entry h x w w' :
  recorded h x w w' → cache_ok w → w_dir w' = w_dir w → entry_of w' h = entry_of w h.
Proof.
  unfold recorded, entry_of. intros Hrec Hok Hd. case_decide as Hp; [|by subst]. rewrite Hd. unfold w_fs.
  destruct (Hok Hp) as (_ & _ & Hc).
  destruct (rg_fs _ _ _ _ Hrec) as [->|(h0 & _ & Hne & _ & ->)]; [done|]. rewrite Hc, remove_entry_ne; congruence.
Qed.

Lemma remove_entry_open dir h f p :
  p ≠ CacheFS.entry_path dir h → can_open f p = true → can_open (remove_entry dir h f) p = true.
Proof.
  intros Hp. unfold remove_entry. destruct (fs_entries f !! CacheFS.entry_path dir h) as [[|c t]|] eqn:He; [done| |done].
  destruct (fs_writable f (CacheFS.entry_path dir h)); [|done]. unfold can_open. simpl. intros [-> Hc]%andb_true_iff.
  rewrite lookup_delete_ne by done. destruct (fs_entries f !! p) as [[|]|]; [done|done|].
  unfold in_directory in *. simpl. apply orb_true_iff in Hc as [->|Hc]; [done|].
  destruct (decide (fs.dirname p = CacheFS.entry_path dir h)) as [Heq|Hne].
  - rewrite Heq, He in Hc. done.
  - rewrite lookup_delete_ne by done. by rewrite Hc, orb_true_r.
Qed.

Lemma recorded_open h x w w' p :
  recorded h x w w' → cache_ok w → outside (w_dir w) p → can_open (w_fs w) p = true → can_open (w_fs w') p = true.
Proof.
  unfold recorded. intros Hrec Hok Hout Ho. case_decide as Hp; [|by subst]. destruct (Hok Hp) as (_ & _ & Hc). unfold w_fs in *.
  destruct (rg_fs _ _ _ _ Hrec) as [->|(h0 & _ & _ & _ & ->)]; [done|]. apply remove_entry_open; [|done].
  rewrite Hc. apply Hout.
Qed.

(** What fetching the file of [h] into [path] does. *)
Record restored (h path : string) (w w' : World) : Prop := {
  rs_manager : same_manager w w';
  rs_entries h' : entry_of w' h' = None ∨ entry_of w' h' = entry_of w h';
  rs_file : ∃ t, fs_entries (w_fs w') !! path = Some (File (read_all (w_fs w) (CacheFS.entry_path (w_dir w) h)) t);
  rs_others p : outside (w_dir w) p → p ≠ path → fs_entries (w_fs w') !! p = fs_entries (w_fs w) !! p;
  rs_open p : outside (w_dir w) p → can_open (w_fs w) p = true → can_open (w_fs w') p = true;
}.

Lemma restoreNode_spec `{Allocator} k o nd w :
  g_nodes (w_g w) !! o = Some nd → Node.hash_ nd ≠ "" → outside (w_dir w) (Node.path_ nd) →
  can_open (w_fs w) (Node.path_ nd) = true → cache_ok w → room (S k) w →
  returns (CacheManager.restoreNode o) (λ ok w',
    if ok then is_Some (entry_of w (Node.hash_ nd)) ∧ restored (Node.hash_ nd) (Node.path_ nd) w w' ∧ cache_ok w' ∧ room k w'
    else entry_of w (Node.hash_ nd) = None ∧ w' = w) w.
Proof.
  intros Hn Hh Hout Hopen Hok Hroom. apply wp_bind, wp_zoom. cbn [lget lset l_graph]. eapply wp_readNode; [done|].
  replace (set_g (w_g w) w) with w by by destruct w. apply wp_bind, wp_bind, wp_mget, wp_zoom. cbn [lget lset l_wfs].
  apply wp_bind, wp_hash_nonempty; [done|]. apply wp_bind, wp_gets, wp_ret.
  replace (set_fs (w_fs w) w) with w by by destruct w as [? [? ?] ? ? ?]. fold (entry_of w (Node.hash_ nd)).
  destruct (entry_of w (Node.hash_ nd)) as [x|] eqn:He; [rewrite bool_decide_eq_true_2 by done|
    rewrite bool_decide_eq_false_2 by by intros [? ?]]; cbn [negb]; [|apply wp_ret; done].
  apply wp_bind. eapply wp_mono; [by apply (when_git_spec _ (ONode o) k)| |done].
  intros [] w1 (Hsm & Hok1 & Hroom1 & Hrec). pose proof Hsm as (Hg & Hpol & Hdir & Hcur).
  pose proof (recorded_entry _ _ _ _ Hrec Hok Hdir) as He1. destruct (recorded_fs _ _ _ _ Hrec Hok) as (_ & Hf & Hent).
  assert (can_open (w_fs w1) (Node.path_ nd) = true) as Ho1 by by eapply recorded_open.
  apply wp_bind, wp_mget, wp_zoom. cbn [lget lset l_wfs]. rewrite Hdir. apply wp_bind, wp_hash_nonempty; [done|].
  apply wp_bind, wp_gets. unfold entry_of in He1, He. rewrite Hdir in He1. rewrite He1, He.
  apply wp_bind. eapply wp_mono; [apply copy_file_spec| |done]. intros _ f [[_ ?]|[-> _]]; [congruence|].
  rewrite decide_False by (apply not_eq_sym, Hout). apply wp_ret. split_and!; [by eexists| |done|done].
  assert (Hr1 : read_all (w_fs w1) (CacheFS.entry_path (w_dir w) (Node.hash_ nd)) =
    read_all (w_fs w) (CacheFS.entry_path (w_dir w) (Node.hash_ nd))) by (unfold read_all; by rewrite He1).
  rewrite Hr1. split; [done| | | |].
  - intros h'. unfold entry_of. change (w_fs (set_fs ?f w1)) with f. cbn [w_dir set_fs set_gf]. rewrite Hdir. simpl.
    rewrite lookup_insert_ne; [apply Hent|]. apply Hout.
  - change (w_fs (set_fs ?f w1)) with f. simpl. rewrite lookup_insert_eq. by eexists.
  - intros p Hp Hne. change (w_fs (set_fs ?f w1)) with f. simpl. rewrite lookup_insert_ne by done. apply Hf. apply Hp.
  - intros p Hp Hpo. change (w_fs (set_fs ?f w1)) with f. apply can_open_write; [|done]. by eapply recorded_open.
Qed.

(** ** What fetching does to the graph *)

Section fetched.
Variable time : N → Z.

Definition fetched_node (n : N) (nd : Node.t) : Node.t :=
  Node.setTimestamp (time n) (Node.setLazyFetched true (Node.setState UP_TO_DATE nd)).

(** The nodes of [F] are up to date, and their parents know. *)
Record fetched (F : gset N) (s s' : GState) : Prop := {
  fe_nodes n : g_nodes s' !! n = (λ nd, if decide (n ∈ F) then fetched_node n nd else nd) <$> g_nodes s !! n;
  fe_rules : same_rules s s';
  fe_counters : counters_ok s';
  fe_graph : g_graph s' = g_graph s;
}.

Lemma same_rules_lookup s s' r rd :
  same_rules s s' → g_rules s !! r = Some rd → ∃ k, g_rules s' !! r = Some (Rule.assignReady k rd).
Proof.
  intros Hs Hr. specialize (Hs r). rewrite Hr in Hs. apply fmap_Some in Hs as (rd' & Hr' & Heq).
  exists (Rule.numInputsReady_ rd'). rewrite Hr'. f_equal. destruct rd, rd'. unfold Rule.assignReady in *. simpl in *. congruence.
Qed.

Lemma same_rules_dirty s s' r : same_rules s s' → rule_dirty s' r = rule_dirty s r.
Proof.
  intros Hs. unfold rule_dirty. destruct (g_rules s !! r) as [rd|] eqn:Hr.
  - by destruct (same_rules_lookup s s' r rd Hs Hr) as [k ->].
  - specialize (Hs r). rewrite Hr in Hs. simpl in Hs. by apply fmap_None in Hs as ->.
Qed.

Lemma fetched_shape F s s' : fetched F s s' → same_shape s s'.
Proof.
  intros [Hn Hr _ Hg]. split; [| |done].
  - intros n. rewrite Hn. destruct (g_nodes s !! n); [|done]. simpl. by case_decide.
  - intros r. destruct (g_rules s !! r) as [rd|] eqn:Hrd.
    + by destruct (same_rules_lookup s s' r rd Hr Hrd) as [k ->].
    + specialize (Hr r). rewrite Hrd in Hr. simpl in Hr. by apply fmap_None in Hr as ->.
Qed.

Lemma fetched_dirty F s s' n : fetched F s s' → node_dirty s' n = node_dirty s n && bool_decide (n ∉ F).
Proof.
  intros [Hn _ _ _]. unfold node_dirty. rewrite Hn. destruct (g_nodes s !! n) as [nd|]; [|done]. simpl. case_decide.
  - rewrite bool_decide_eq_false_2 by set_solver. by rewrite andb_false_r.
  - by rewrite bool_decide_eq_true_2, andb_true_r.
Qed.

Lemma fetched_none s : counters_ok s → fetched ∅ s s.
Proof. intros Hc. split; try done. intros n. destruct (g_nodes s !! n); simpl; [|done]. by rewrite decide_False by set_solver. Qed.

Lemma fetched_consistent F s s' : consistent s → fetched F s s' → consistent s'.
Proof.
  intros Hc Hf. pose proof (fetched_shape _ _ _ Hf) as Hs. assert (Hs' : same_shape s' s) by by symmetry.
  pose proof (same_rules_dirty s s') as Hrd. pose proof (fe_rules _ _ _ Hf) as Hr.
  split; [by rewrite <- Hs; apply c_structure|apply Hf| | |].
  - intros r rd i Hrr Hi Hd. rewrite (fetched_dirty F s) in Hd by done. apply andb_true_iff in Hd as [Hd _].
    shape_rule Hs' Hrr. rewrite Hrd by done. eapply (c_inputs s Hc); [done| |done]. congruence.
  - intros r rd o Hrr Hd Ho. rewrite Hrd in Hd by done. shape_rule Hs' Hrr. rewrite (fetched_dirty F s) by done.
    destruct (so_output s (c_structure s Hc) r x o) as (nd & Hnd & _); [done|congruence|].
    unfold node_lazy. rewrite (fe_nodes _ _ _ Hf), Hnd. simpl. case_decide; [by left|].
    rewrite bool_decide_eq_true_2, andb_true_r by done.
    destruct (c_outputs s Hc r x o) as [Hlz|Hlz]; [done|done|congruence| |by right]. left. unfold node_lazy in Hlz. by rewrite Hnd in Hlz.
  - intros n nd r Hn Hch Hd. rewrite (fetched_dirty F s) in Hd by done. apply andb_true_iff in Hd as [Hd _].
    shape_node Hs' Hn. rewrite Hrd by done. eapply (c_child s Hc n); [done|congruence|done].
Qed.

(** One more node. *)
Lemma fetch_one n nd s :
  structure_ok s → counters_ok s → g_nodes s !! n = Some nd → node_ready s n = false →
  returns (updNode n (Node.setState UP_TO_DATE);; updNode n (Node.setLazyFetched true);;
           updNode n (Node.setTimestamp (time n));; n' ← readNode n;
           foreach (Node.parentRules_ n') Rule_markInputReady) (λ _ s', fetched {[n]} s s') s.
Proof.
  intros Hok Hc Hn Hnr.
  apply wp_bind. eapply wp_updNode; [done|]. apply wp_bind. eapply wp_updNode; [apply lookup_insert_eq|].
  apply wp_bind. eapply wp_updNode; [apply lookup_insert_eq|]. apply wp_bind. eapply wp_readNode; [apply lookup_insert_eq|].
  eapply wp_mono; [by apply (notify_parents_spec s _ n nd)| |done]. intros [] s' (Hg & Hns & Hrs).
  simpl in Hns. rewrite !insert_insert_eq in Hns. change (g_nodes s' = <[n := fetched_node n nd]> (g_nodes s)) in Hns.
  set (s2 := set_nodes (alter (Node.setState UP_TO_DATE) n (g_nodes s)) s').
  assert (Hd : output_done s n s2) by (split_and!; [done|done|by exists nd]).
  assert (Hready : ∀ m, node_ready s' m = node_ready s2 m).
  { intros m. unfold node_ready. rewrite Hns. simpl. destruct (decide (n = m)) as [<-|Hne].
    - by rewrite lookup_insert_eq, lookup_alter_eq, Hn.
    - by rewrite lookup_insert_ne, lookup_alter_ne. }
  pose proof (output_done_counters s n s2 Hok Hnr Hd Hc) as Hc2.
  split; [|intros r; rewrite Hrs; by destruct (g_rules s !! r)| |done].
  - intros m. rewrite Hns. destruct (decide (n = m)) as [<-|Hne].
    + rewrite lookup_insert_eq, Hn. simpl. by rewrite decide_True by set_solver.
    + rewrite lookup_insert_ne by done. destruct (g_nodes s !! m); simpl; [|done]. by rewrite decide_False by set_solver.
  - intros r rd Hr. rewrite (Hc2 r rd Hr). apply countb_ext. by intros.
Qed.

Lemma fetched_snoc F n s s1 s2 : n ∉ F → fetched F s s1 → fetched {[n]} s1 s2 → fetched ({[n]} ∪ F) s s2.
Proof.
  intros Hn [H1 H2 H3 H4] [K1 K2 K3 K4]. split; [|intros r; by rewrite K2, H2|done|congruence].
  intros m. rewrite K1, H1. destruct (g_nodes s !! m) as [nd|]; [|done]. simpl. f_equal.
  destruct (decide (m = n)) as [->|Hne].
  - by rewrite (decide_True (P := n ∈ {[n]})), (decide_False (P := n ∈ F)), decide_True by set_solver.
  - rewrite (decide_False (P := m ∈ {[n]})) by set_solver. repeat case_decide; try done; set_solver.
Qed.
End fetched.

(** ** The traversal *)

(** What [fetch] needs: a consistent graph without loops, hashes, built files that
    can be written outside of the cache under paths of their own, and room for the
    references. *)
Record fetchable (w : World) : Prop := {
  fb_consistent : consistent (w_g w);
  fb_acyclic : acyclic (w_g w);
  fb_hash n nd : g_nodes (w_g w) !! n = Some nd → Node.hash_ nd ≠ "";
  fb_path n n' nd nd' : g_nodes (w_g w) !! n = Some nd → g_nodes (w_g w) !! n' = Some nd' →
    Node.path_ nd = Node.path_ nd' → n = n';
  fb_outside n nd : g_nodes (w_g w) !! n = Some nd → outside (w_dir w) (Node.path_ nd);
  fb_open n nd : g_nodes (w_g w) !! n = Some nd → Node.childRule_ nd ≠ None →
    can_open (w_fs w) (Node.path_ nd) = true;
  fb_cache : cache_ok w;
  fb_room : room (size (g_nodes (w_g w))) w;
}.

Section traversal.
Context {HA : Allocator} {C : Type} {HC : Consumer C} {HT : TotalConsumer C}.
Variable time : N → Z.
Variable w0 : World.
Hypothesis Hw0 : fetchable w0.
Notation s0 := (w_g w0).

(** [n] is dirty and built by the rule [c], which is not phony or is. *)
Definition built (phony : bool) (n c : N) (nd : Node.t) : Prop :=
  g_nodes s0 !! n = Some nd ∧ Node.isDirty nd = true ∧ Node.childRule_ nd = Some c ∧
  ∃ rd, g_rules s0 !! c = Some rd ∧ Rule.isPhony rd = phony.

(** The state between two nodes of the traversal, when [F] has been fetched. *)
Record fetching (F : gset N) (w : World) : Prop := {
  fg_graph : fetched time F s0 (w_g w);
  fg_built n : n ∈ F → ∃ c nd, built false n c nd ∧ is_Some (entry_of w0 (Node.hash_ nd));
  fg_manager : w_policy w = w_policy w0 ∧ w_dir w = w_dir w0 ∧ current w = current w0;
  fg_cache : cache_ok w;
  fg_room : room (size (dom (g_nodes s0) ∖ F)) w;
  fg_entries h : entry_of w h = None ∨ entry_of w h = entry_of w0 h;
  fg_files n nd : n ∈ F → g_nodes s0 !! n = Some nd → ∃ t, fs_entries (w_fs w) !! Node.path_ nd =
    Some (File (read_all (w_fs w0) (CacheFS.entry_path (w_dir w0) (Node.hash_ nd))) t);
  fg_others p : outside (w_dir w0) p → (∀ n nd, n ∈ F → g_nodes s0 !! n = Some nd → Node.path_ nd ≠ p) →
    fs_entries (w_fs w) !! p = fs_entries (w_fs w0) !! p;
  fg_open p : outside (w_dir w0) p → can_open (w_fs w0) p = true → can_open (w_fs w) p = true;
}.

(** The traversal went below [n]: its rule is phony, or its file is not in the cache. *)
Inductive descends (F : gset N) (w : World) (n c : N) : Prop :=
  | descends_phony nd : built true n c nd → descends F w n c
  | descends_missing nd : built false n c nd → n ∉ F → entry_of w (Node.hash_ nd) = None → descends F w n c.

Inductive reached (F : gset N) (w : World) (targets : N → Prop) : N → Prop :=
  | reached_target n : targets n → reached F w targets n
  | reached_input k c rd n : reached F w targets k → descends F w k c → g_rules s0 !! c = Some rd →
      n ∈ Rule.inputs_ rd → reached F w targets n.

(** Nothing is left to do for [n]. *)
Inductive handled (F : gset N) (w : World) : N → Prop :=
  | handled_clean n nd : g_nodes s0 !! n = Some nd → Node.isDirty nd = false → handled F w n
  | handled_source n nd : g_nodes s0 !! n = Some nd → Node.childRule_ nd = None → handled F w n
  | handled_fetched n : n ∈ F → handled F w n
  | handled_below n c rd : descends F w n c → g_rules s0 !! c = Some rd →
      (∀ i, i ∈ Rule.inputs_ rd → handled F w i) → handled F w n.

(** Going on: more nodes are fetched, entries may disappear. *)
Record advanced (F F' : gset N) (w w' : World) : Prop := {
  gr_subset : F ⊆ F';
  gr_new n : n ∈ F' → n ∉ F → ∃ c nd, built false n c nd ∧ is_Some (entry_of w (Node.hash_ nd));
  gr_entries h : entry_of w' h = None ∨ entry_of w' h = entry_of w h;
}.

Lemma advanced_refl F w : advanced F F w w.
Proof. split; [done|done|auto]. Qed.
Lemma advanced_trans F1 F2 F3 w1 w2 w3 : advanced F1 F2 w1 w2 → advanced F2 F3 w2 w3 → advanced F1 F3 w1 w3.
Proof.
  intros [Hs1 Hn1 He1] [Hs2 Hn2 He2]. split; [set_solver| |].
  - intros n Hn3 Hn. destruct (decide (n ∈ F2)) as [Hin|Hin]; [by apply Hn1|].
    destruct (Hn2 n Hn3 Hin) as (c & nd & Hb & [x Hx]). exists c, nd. split; [done|].
    destruct (He1 (Node.hash_ nd)) as [He|<-]; [congruence|by eexists].
  - intros h. destruct (He2 h) as [HE|HE]; rewrite HE; [by left|apply He1].
Qed.

Lemma built_fun p p' n c c' nd nd' : built p n c nd → built p' n c' nd' → p = p' ∧ c = c' ∧ nd = nd'.
Proof. intros (H1 & _ & H2 & rd & H3 & H4) (K1 & _ & K2 & rd' & K3 & K4). simplify_eq. done. Qed.

Lemma descends_advanced F F' w w' n c : advanced F F' w w' → descends F w n c → descends F' w' n c.
Proof.
  intros [Hs Hn He] [nd Hb|nd Hb HnF Hm]; [by eapply descends_phony|]. eapply descends_missing; [done| |].
  - intros Hin. destruct (Hn n Hin HnF) as (c' & nd' & Hb' & [x Hx]).
    destruct (built_fun _ _ _ _ _ _ _ Hb Hb') as (_ & _ & <-). congruence.
  - destruct (He (Node.hash_ nd)) as [HE|HE]; congruence.
Qed.

Lemma reached_mono F F' w w' (P Q : N → Prop) n :
  advanced F F' w w' → (∀ m, P m → reached F' w' Q m) → reached F w P n → reached F' w' Q n.
Proof.
  intros Hg HP. induction 1 as [n Hn|k c rd n Hk IH Hd Hr Hi]; [by apply HP|].
  eapply reached_input; [exact IH|by eapply descends_advanced|done|done].
Qed.

Lemma handled_advanced F F' w w' n : advanced F F' w w' → handled F w n → handled F' w' n.
Proof.
  intros Hg. induction 1 as [n nd Hn Hd|n nd Hn Hc|n Hn|n c rd Hd Hr Hi IH].
  - by eapply handled_clean.
  - by eapply handled_source.
  - apply handled_fetched. by apply (gr_subset _ _ _ _ Hg).
  - eapply handled_below; [by eapply descends_advanced|done|done].
Qed.

(** From what is handled, everything that is reached is. *)
Lemma handled_reached F w (P : N → Prop) n :
  (∀ k c, descends F w k c → k ∉ F) →
  (∀ m, P m → handled F w m) → reached F w P n → handled F w n.
Proof.
  intros HF HP. induction 1 as [n Hn|k c rd n Hk IH Hd Hr Hi]; [by apply HP|].
  assert (∃ p nd, built p k c nd) as (p & nd & Hb) by (destruct Hd; eauto). pose proof Hb as (H1 & H2 & H3 & _).
  destruct IH as [k nd' Hn' Hd'|k nd' Hn' Hc'|k Hin|k c' rd' Hd' Hr' Hi']; try congruence.
  - by destruct (HF k c Hd).
  - assert (c' = c) as -> by (destruct Hd' as [? (?&?&?&?)|? (?&?&?&?)]; congruence).
    apply Hi'. congruence.
Qed.
End traversal.

(** ** One node after the other *)

Lemma wp_wcRead {C} n nd Q E (s : WC C) :
  g_nodes (w_g (wc_w s)) !! n = Some nd → Q nd s → wp (wcGraph (readNode n)) Q E s.
Proof.
  intros Hn HQ. apply wp_zoom, wp_zoom. cbn [lget lset l_wcw l_graph]. eapply wp_readNode; [done|]. by destruct s as [[] ?].
Qed.
Lemma wp_wcReadRule {C} r rd Q E (s : WC C) :
  g_rules (w_g (wc_w s)) !! r = Some rd → Q rd s → wp (wcGraph (readRule r)) Q E s.
Proof.
  intros Hn HQ. apply wp_zoom, wp_zoom. cbn [lget lset l_wcw l_graph]. eapply wp_readRule; [done|]. by destruct s as [[] ?].
Qed.
Lemma wp_wcGraph_bind {C A B} (m : M GState A) (f : A → M GState B) Q E (s : WC C) :
  wp (wcGraph (m ≫= f)) Q E s → wp (wcGraph m ≫= λ a, wcGraph (f a)) Q E s.
Proof.
  unfold wp, wcGraph, zoom, mbind, M_bind. cbn [lget lset l_wcw l_graph].
  destruct (m (w_g (wc_w s))) as [a g|e g|]; done.
Qed.
(** The same for a continuation that is not zoomed itself but as good as. *)
Lemma wp_wcGraph_bind' {C A B} (m : M GState A) (f : A → M GState B) (f' : A → M (WC C) B) Q E (s : WC C) :
  (∀ a s', wp (wcGraph (f a)) Q E s' → wp (f' a) Q E s') →
  wp (wcGraph (m ≫= f)) Q E s → wp (wcGraph m ≫= f') Q E s.
Proof.
  intros Hf Hw. apply wp_wcGraph_bind, wp_bind_inv in Hw. apply wp_bind.
  eapply wp_mono; [exact Hw| |done]. intros a s'. apply Hf.
Qed.

Section steps.
Context {HA : Allocator} {C : Type} {HC : Consumer C} {HT : TotalConsumer C}.
Variable time : N → Z.
Variable w0 : World.
Hypothesis Hw0 : fetchable w0.
Notation s0 := (w_g w0).
Notation fetching := (fetching time w0).

Lemma fetching_start : fetching ∅ w0.
Proof.
  split; try done; try set_solver.
  - apply fetched_none, c_counters, Hw0.
  - apply Hw0.
  - eapply room_le; [|apply Hw0]. rewrite difference_empty_L, size_dom. done.
Qed.

Lemma fetching_node F w n nd : fetching F w → g_nodes (w_g w) !! n = Some nd → Node.isDirty nd = true →
  n ∉ F ∧ g_nodes s0 !! n = Some nd.
Proof.
  intros Hf Hn Hd. rewrite (fe_nodes _ _ _ _ (fg_graph _ _ _ _ Hf)) in Hn. apply fmap_Some in Hn as (nd0 & Hn & ->).
  case_decide as HF; [done|]. done.
Qed.

Lemma built_undone F w n ph rule nd : fetching F w → built w0 ph n rule nd → n ∉ F →
  g_nodes (w_g w) !! n = Some nd ∧ node_ready (w_g w) n = false.
Proof.
  intros Hf (Hn & Hd & Hc & _) HF. assert (g_nodes (w_g w) !! n = Some nd) as Hn'.
  { by rewrite (fe_nodes _ _ _ _ (fg_graph _ _ _ _ Hf)), Hn; simpl; rewrite decide_False. }
  split; [done|]. unfold node_ready, Node.isSource. by rewrite Hn', Hc, Hd.
Qed.

(** The file of [n] comes out of the cache, and the graph learns it. *)
Lemma fetching_snoc F n rule nd w w' g :
  fetching F w → built w0 false n rule nd → n ∉ F → is_Some (entry_of w (Node.hash_ nd)) →
  restored (Node.hash_ nd) (Node.path_ nd) w w' → cache_ok w' → room (pred (size (dom (g_nodes s0) ∖ F))) w' →
  fetched time {[n]} (w_g w') g →
  fetching ({[n]} ∪ F) (set_g g w') ∧ advanced w0 F ({[n]} ∪ F) w (set_g g w').
Proof.
  intros Hf Hb HF [x Hx] Hr Hok Hroom Hg. pose proof (rs_manager _ _ _ _ Hr) as (Hwg & Hp & Hd & Hcur).
  pose proof (fg_manager _ _ _ _ Hf) as (Hp0 & Hd0 & Hcur0).
  pose proof Hb as (Hn & _ & Hch & _). rewrite Hwg in Hg.
  assert (He0 : ∀ h, entry_of w h = None ∨ entry_of w h = entry_of w0 h) by apply Hf.
  assert (Hent : ∀ h, entry_of (set_g g w') h = None ∨ entry_of (set_g g w') h = entry_of w h) by apply Hr.
  assert (Hx0 : entry_of w0 (Node.hash_ nd) = Some x) by (destruct (He0 (Node.hash_ nd)); congruence).
  assert (Hcont : read_all (w_fs w) (CacheFS.entry_path (w_dir w) (Node.hash_ nd)) =
                  read_all (w_fs w0) (CacheFS.entry_path (w_dir w0) (Node.hash_ nd))).
  { unfold read_all. unfold entry_of in Hx, Hx0. by rewrite Hx, Hx0. }
  assert (Hnew : ∃ c nd, built w0 false n c nd ∧ is_Some (entry_of w (Node.hash_ nd))) by (exists rule, nd; split; [done|by eexists]).
  split; [split|split].
  - eapply fetched_snoc; [done|apply Hf|done].
  - intros m [->%elem_of_singleton|Hm]%elem_of_union; [|by apply Hf]. exists rule, nd. split; [done|by eexists].
  - cbn [w_policy w_dir set_g]. split_and!; [congruence|congruence|]. change (current w' = current w0). congruence.
  - exact Hok.
  - eapply room_le; [|exact Hroom]. apply elem_of_dom_2 in Hn as Hdom.
    replace (dom (g_nodes s0) ∖ ({[n]} ∪ F)) with ((dom (g_nodes s0) ∖ F) ∖ {[n]}) by set_solver.
    rewrite size_difference by set_solver. rewrite size_singleton. lia.
  - intros h. destruct (Hent h) as [E1|E1]; rewrite E1; [by left|apply He0].
  - intros m md [->%elem_of_singleton|Hm]%elem_of_union Hmd.
    + assert (md = nd) as -> by congruence. rewrite <- Hcont. apply Hr.
    + destruct (decide (m = n)) as [->|Hne]; [congruence|].
      destruct (fg_files _ _ _ _ Hf m md Hm Hmd) as [t Ht]. exists t. change (w_fs (set_g g w')) with (w_fs w').
      rewrite (rs_others _ _ _ _ Hr); [done| |].
      * rewrite Hd0. by eapply fb_outside.
      * intros Heq. apply Hne. by eapply fb_path.
  - intros p Hp1 Hp2. change (w_fs (set_g g w')) with (w_fs w'). rewrite (rs_others _ _ _ _ Hr); [|by rewrite Hd0|].
    + apply Hf; [done|]. intros m md Hm. apply Hp2. set_solver.
    + intros ->. eapply Hp2; [|exact Hn|done]. set_solver.
  - intros p Hp1 Hp2. apply Hr; [by rewrite Hd0|]. by apply Hf.
  - set_solver.
  - intros m Hm1 Hm2. assert (m = n) as -> by set_solver. done.
  - exact Hent.
Qed.

(** What one call leaves: [P] are the nodes it was called for. *)
Definition traversed (P : N → Prop) (F : gset N) (w w' : World) : Prop :=
  ∃ F', fetching F' w' ∧ advanced w0 F F' w w' ∧ (∀ i, P i → handled w0 F' w' i) ∧
    ∀ m, m ∈ F' → m ∈ F ∨ reached w0 F' w' P m.

Lemma traversed_none F w : fetching F w → traversed (λ i, i ∈ []) F w w.
Proof. intros Hf. exists F. split_and!; [done|apply advanced_refl|set_solver|auto]. Qed.

Lemma traversed_weaken (P Q : N → Prop) F w w' : (∀ i, P i ↔ Q i) → traversed P F w w' → traversed Q F w w'.
Proof.
  intros HPQ (F' & Hf & Hg & Hh & Hr). exists F'. split_and!; [done|done|intros i Hi; by apply Hh, HPQ|].
  intros m Hm. destruct (Hr m Hm) as [?|Hr']; [by left|right]. eapply reached_mono; [apply advanced_refl| |exact Hr'].
  intros i Hi. apply reached_target. by apply HPQ.
Qed.

Lemma traversed_snoc l n F w w1 w2 F1 :
  fetching F1 w1 → advanced w0 F F1 w w1 → (∀ i, i ∈ l → handled w0 F1 w1 i) →
  (∀ m, m ∈ F1 → m ∈ F ∨ reached w0 F1 w1 (λ i, i ∈ l) m) →
  traversed (λ i, i = n) F1 w1 w2 → traversed (λ i, i ∈ l ++ [n]) F w w2.
Proof.
  intros Hf Hg Hh Hr (F2 & Hf2 & Hg2 & Hh2 & Hr2). exists F2. split_and!; [done|by eapply advanced_trans| |].
  - intros i [Hi|Hi%list_elem_of_singleton]%elem_of_app; [|by apply Hh2]. eapply handled_advanced; [exact Hg2|by apply Hh].
  - intros m Hm. destruct (Hr2 m Hm) as [Hm1|Hm2].
    + destruct (Hr m Hm1) as [?|Hr1]; [by left|right]. eapply reached_mono; [exact Hg2| |exact Hr1].
      intros i Hi. apply reached_target. set_solver.
    + right. eapply reached_mono; [apply advanced_refl| |exact Hm2]. intros i ->. apply reached_target. set_solver.
Qed.

(** Going below [n]. *)
Lemma traversed_below n rule rd F w w' :
  traversed (λ i, i ∈ Rule.inputs_ rd) F w w' → g_rules s0 !! rule = Some rd →
  descends w0 F w n rule → traversed (λ i, i = n) F w w'.
Proof.
  intros (F' & Hf & Hg & Hh & Hr) Hrd Hd. assert (descends w0 F' w' n rule) as Hd' by by eapply descends_advanced.
  exists F'. split_and!; [done|done| |].
  - intros i ->. by eapply handled_below.
  - intros m Hm. destruct (Hr m Hm) as [?|Hr']; [by left|right]. eapply reached_mono; [apply advanced_refl| |exact Hr'].
    intros i Hi. eapply reached_input; [by apply reached_target|done|done|done].
Qed.

Lemma foreach_traverse fuel l F w cc :
  (∀ n F w cc, n ∈ l → fetching F w →
     returns (traverseNode time fuel n) (λ _ s, traversed (λ i, i = n) F w (wc_w s)) (mkWC w cc)) →
  fetching F w →
  returns (foreach l (traverseNode time fuel)) (λ _ s, traversed (λ i, i ∈ l) F w (wc_w s)) (mkWC w cc).
Proof.
  intros Hstep Hf. apply (wp_foreach (λ pre s, traversed (λ i, i ∈ pre) F w (wc_w s))); [by apply traversed_none| |done].
  intros pre n post [w1 c1] Heq (F1 & Hf1 & Hg1 & Hh1 & Hr1). cbn [wc_w] in *.
  eapply wp_mono; [apply Hstep; [rewrite Heq; set_solver|exact Hf1]| |done].
  intros [] [w2 c2] Ht. cbn [wc_w] in *. by eapply traversed_snoc.
Qed.

Lemma wp_consume_wc e Q E (s : WC C) : (∀ c', Q tt (mkWC (wc_w s) c')) → wp (zoom l_wcc (consume e)) Q E s.
Proof. intros HQ. apply wp_zoom. cbn [lget l_wcc]. apply wp_consume. intros c'. apply HQ. Qed.

(** The updates of the graph, one after the other, are those of [fetch_one]. *)
Lemma fetched_updates n nd Q E (s : WC C) :
  structure_ok (w_g (wc_w s)) → counters_ok (w_g (wc_w s)) → g_nodes (w_g (wc_w s)) !! n = Some nd →
  node_ready (w_g (wc_w s)) n = false →
  (∀ g, fetched time {[n]} (w_g (wc_w s)) g → Q tt (mkWC (set_g g (wc_w s)) (wc_c s))) →
  wp (wcGraph (updNode n (Node.setState UP_TO_DATE));;
      wcGraph (updNode n (Node.setLazyFetched true));;
      wcGraph (updNode n (Node.setTimestamp (time n)));;
      n' ← wcGraph (readNode n);
      wcGraph (foreach (Node.parentRules_ n') Rule_markInputReady)) Q E s.
Proof.
  intros Hok Hc Hn Hnr HQ.
  eapply (wp_wcGraph_bind' _ (λ _, updNode n (Node.setLazyFetched true);; updNode n (Node.setTimestamp (time n));;
    n' ← readNode n; foreach (Node.parentRules_ n') Rule_markInputReady)).
  { intros [] s1 H1.
    eapply (wp_wcGraph_bind' _ (λ _, updNode n (Node.setTimestamp (time n));;
      n' ← readNode n; foreach (Node.parentRules_ n') Rule_markInputReady)); [|exact H1].
    intros [] s2 H2.
    eapply (wp_wcGraph_bind' _ (λ _, n' ← readNode n; foreach (Node.parentRules_ n') Rule_markInputReady)); [|exact H2].
    intros [] s3 H3. by apply wp_wcGraph_bind. }
  apply wp_zoom, wp_zoom. cbn [lget lset l_wcw l_graph].
  eapply wp_mono; [by apply (fetch_one time n nd)| |done]. intros [] g Hg. by apply HQ.
Qed.

Variable rank : N → nat.
Hypothesis Hrank : ∀ i o, feeds s0 i o → rank i < rank o.

Lemma traverseNode_spec fuel : ∀ n F w cc,
  rank n < fuel → is_Some (g_nodes s0 !! n) → fetching F w →
  returns (traverseNode time fuel n) (λ _ s, traversed (λ i, i = n) F w (wc_w s)) (mkWC w cc).
Proof.
  induction fuel as [|fuel IH]; intros n F w cc Hfuel [nd0 Hn0] Hf; [lia|]. simpl.
  pose proof (fb_consistent _ Hw0) as Hcons. pose proof (c_structure _ Hcons) as Hok0.
  pose proof (fg_graph _ _ _ _ Hf) as Hfe. pose proof (fetched_shape _ _ _ _ Hfe) as Hsh.
  assert (Hstop : handled w0 F w n → traversed (λ i, i = n) F w w).
  { intros Hh. exists F. split_and!; [done|apply advanced_refl|by intros i ->|auto]. }
  assert (∃ nd, g_nodes (w_g w) !! n = Some nd ∧ (n ∈ F ∨ nd = nd0)) as (nd & Hn & Hor).
  { rewrite (fe_nodes _ _ _ _ Hfe), Hn0. simpl. eexists. split; [done|]. case_decide; [by left|by right]. }
  apply wp_bind. eapply wp_wcRead; [exact Hn|].
  destruct (Node.isDirty nd) eqn:Hd; cbn [negb]; last first.
  { apply wp_ret, Hstop. destruct Hor as [?| ->]; [by apply handled_fetched|by eapply handled_clean]. }
  destruct (fetching_node F w n nd Hf Hn Hd) as [HnF _]. destruct Hor as [?| ->]; [done|].
  destruct (Node.childRule_ nd0) as [rule|] eqn:Hch; [|apply wp_ret, Hstop; by eapply handled_source].
  destruct (so_child _ Hok0 n nd0 rule Hn0 Hch) as (rd & Hrd & Hout).
  destruct (same_rules_lookup _ _ _ _ (fe_rules _ _ _ _ Hfe) Hrd) as [k Hrd'].
  apply wp_bind. eapply wp_wcReadRule; [exact Hrd'|].
  change (Rule.isPhony (Rule.assignReady k rd)) with (Rule.isPhony rd).
  assert (Hbelow : ∀ ph, built w0 ph n rule nd0 → descends w0 F w n rule →
    returns (traverseRule_with (traverseNode time fuel) rule) (λ _ s, traversed (λ i, i = n) F w (wc_w s)) (mkWC w cc)).
  { intros ph Hb Hds. apply wp_bind. eapply wp_wcReadRule; [exact Hrd'|].
    eapply wp_mono; [apply (foreach_traverse fuel (Rule.inputs_ rd) F)| |done].
    - intros i F1 w1 c1 Hi Hf1. apply IH; [|by destruct (so_input _ Hok0 rule rd i Hrd Hi) as (? & ? & _)|done].
      assert (rank i < rank n) by (apply Hrank; by exists rule, rd). lia.
    - done.
    - intros [] [w1 c1] Ht. by eapply traversed_below. }
  destruct (Rule.isPhony rd) eqn:Hph; [apply (Hbelow true); [|eapply descends_phony]; by repeat (eexists || split)|].
  assert (Hb : built w0 false n rule nd0) by (by repeat (eexists || split)).
  apply wp_bind, wp_zoom. cbn [lget l_wcw wc_w].
  pose proof (fg_manager _ _ _ _ Hf) as (Hp0 & Hd0 & Hcur0).
  assert (Hpos : n ∈ dom (g_nodes s0) ∖ F) by (apply elem_of_dom_2 in Hn0; set_solver).
  eapply wp_mono; [apply (restoreNode_spec (pred (size (dom (g_nodes s0) ∖ F))) n nd0); try done| |done].
  - by eapply fb_hash.
  - rewrite Hd0. by eapply fb_outside.
  - apply Hf; [by eapply fb_outside|]. eapply fb_open; [done|exact Hn0|congruence].
  - apply Hf.
  - assert (size (dom (g_nodes s0) ∖ F) ≠ 0) by (intros Hz%size_empty_inv; set_solver).
    eapply room_le; [|apply Hf]. lia.
  - intros [|] w1; [|intros [Hmiss ->]; by apply (Hbelow false); [|eapply descends_missing]].
    intros (Hent & Hr & Hok1 & Hroom1). pose proof (rs_manager _ _ _ _ Hr) as (Hwg & _).
    destruct (built_undone F w n false rule nd0 Hf Hb HnF) as [_ Hnr].
    apply wp_bind, wp_consume_wc. intros c'. cbn [wc_w lset l_wcw].
    eapply fetched_updates; cbn [wc_w]; rewrite Hwg; [by rewrite <- Hsh|apply Hfe|exact Hn|exact Hnr|].
    intros g Hg. cbn [wc_w wc_c].
    destruct (fetching_snoc F n rule nd0 w w1 g Hf Hb HnF Hent Hr Hok1 Hroom1) as [Hf' Hg']; [by rewrite Hwg|].
    exists ({[n]} ∪ F). split_and!; [done|done|intros i ->; apply handled_fetched; set_solver|].
    intros m [->%elem_of_singleton|Hm]%elem_of_union; [right; by apply reached_target|by left].
Qed.
End steps.

Lemma fetch_spec `{Allocator} {C} `{TotalConsumer C} time fuel targets w (c : C) :
  fetchable w → (∀ t, t ∈ targets → is_Some (g_nodes (w_g w) !! t)) → size (g_nodes (w_g w)) ≤ fuel →
  returns (fetch time fuel targets) (λ _ s, traversed time w (λ t, t ∈ targets) ∅ w (wc_w s)) (mkWC w c).
Proof.
  intros Hw Ht Hfuel.
  destruct (acyclic_bounded _ (c_structure _ (fb_consistent _ Hw)) (fb_acyclic _ Hw)) as (rank & Hrank & Hbound).
  eapply wp_mono; [apply (foreach_traverse time w Hw fuel (set_elems targets) ∅)| |done].
  - intros n F w' c' Hn Hf. rewrite elem_of_set_elems in Hn.
    apply (traverseNode_spec time w Hw rank Hrank); [|by apply Ht|done].
    pose proof (Hbound n (Ht n Hn)). lia.
  - by apply fetching_start.
  - intros [] s. apply traversed_weaken. intros i. apply elem_of_set_elems.
Qed.

(** C38: on a consistent graph, [fetch] terminates without failing an assertion. It
    fetches exactly the nodes it reaches whose file is in the cache, where it goes
    below a node that is dirty and either built by a phony rule or not in the cache;
    a fetched node is up to date with its parents' counters, its file holds what the
    cache held, other files are untouched, and the graph is consistent again. *)
Theorem fetch_exact `{Allocator} {C} `{TotalConsumer C} time fuel targets w (c : C) :
  fetchable w → (∀ t, t ∈ targets → is_Some (g_nodes (w_g w) !! t)) → size (g_nodes (w_g w)) ≤ fuel →
  returns (fetch time fuel targets) (λ _ s, ∃ F, fetching time w F (wc_w s) ∧ consistent (w_g (wc_w s)) ∧
    (∀ n, n ∈ F → reached w F (wc_w s) (λ t, t ∈ targets) n) ∧
    (∀ n r nd, reached w F (wc_w s) (λ t, t ∈ targets) n → built w false n r nd →
       n ∈ F ∨ entry_of (wc_w s) (Node.hash_ nd) = None)) (mkWC w c).
Proof.
  intros Hw Ht Hfuel. eapply wp_mono; [by apply fetch_spec| |done].
  intros [] [w' c'] (F & Hf & _ & Hh & Hr). cbn [wc_w] in *. exists F. split_and!; [done| | |].
  + eapply fetched_consistent; [by apply Hw|apply Hf].
  + intros n Hn. destruct (Hr n Hn) as [?|Hr']; [set_solver|]. eapply reached_mono; [apply advanced_refl| |exact Hr'].
    intros i Hi. by apply reached_target.
  + intros n r nd Hn Hb. pose proof Hb as (Hnd & Hd & Hc & _).
    assert (HF : ∀ k c, descends w F w' k c → k ∉ F).
    { intros k c0 [md Hp|md _ Hk _]; [|done]. intros Hk. destruct (fg_built _ _ _ _ Hf k Hk) as (c1 & md' & Hb' & _).
      by destruct (built_fun _ _ _ _ _ _ _ _ Hp Hb'). }
    destruct (handled_reached w F w' (λ t, t ∈ targets) n HF) with (2 := Hn) as [n nd' Hn' Hd'|n nd' Hn' Hc'|n Hin|n c0 rd Hds _ _].
    * exact Hh.
    * congruence.
    * congruence.
    * by left.
    * destruct Hds as [nd' Hb'|nd' Hb' HnF Hm].
      -- by destruct (built_fun _ _ _ _ _ _ _ _ Hb Hb').
      -- destruct (built_fun _ _ _ _ _ _ _ _ Hb Hb') as (_ & _ & <-). by right.
Qed.

(** C39: a build plan made after a lazy fetch succeeds, and consists of what is
    still needed. *)
Theorem fetch_then_plan `{Allocator} {C} `{TotalConsumer C} time fuel fuel' targets w (c : C) :
  fetchable w → (∀ t, t ∈ targets → is_Some (g_nodes (w_g w) !! t)) → size (g_nodes (w_g w)) ≤ fuel →
  size (g_rules (w_g w)) < fuel' →
  returns (fetch time fuel targets) (λ _ s,
    returns (makePlan fuel' targets) (λ _ ps, p_g ps = w_g (wc_w s) ∧
      ∀ r, r ∈ BuildPlan.rules_ (p_plan ps) ↔ needed (w_g (wc_w s)) targets r)
    (mkP BuildPlan.empty (w_g (wc_w s)))) (mkWC w c).
Proof.
  intros Hw Ht Hfuel Hfuel'. eapply wp_mono; [by apply fetch_spec| |done].
  intros [] [w' c'] (F & Hf & _ & _ & _). cbn [wc_w] in *. pose proof (fg_graph _ _ _ _ Hf) as Hfe.
  pose proof (fetched_shape _ _ _ _ Hfe) as Hsh.
  eapply wp_mono; [apply (makePlan_spec (w_g w') targets fuel')| |done].
  + eapply fetched_consistent; [by apply Hw|exact Hfe].
  + rewrite <- Hsh. apply Hw.
  + intros t Htt. rewrite (fe_nodes _ _ _ _ Hfe). destruct (Ht t Htt) as [nd ->]. by eexists.
  + replace (size (g_rules (w_g w'))) with (size (g_rules (w_g w))); [done|]. rewrite <- !size_dom. f_equal.
    apply set_eq. intros r. rewrite !elem_of_dom. pose proof (fe_rules _ _ _ _ Hfe r) as Hr.
    destruct (g_rules (w_g w) !! r), (g_rules (w_g w') !! r); by split; intros [? ?].
  + intros [] ps (Hg & Hinv & Hcov & _). split; [done|]. intros r. by apply plan_needed.
Qed.

(** ** A rule whose output was fetched already *)

Definition notified (pre : list N) (s : GState) (p : N) (k : nat) (s' : GState) : Prop :=
  same_shape s s' ∧ ∃ prd, g_rules s' !! p = Some prd ∧ Rule.numInputsReady_ prd = k + countb (λ x, bool_decide (x = p)) pre ∧
    Rule.numInputsReady_ prd ≤ length (Rule.inputs_ prd).

Lemma asserts_markInputReady p k s x pre s' :
  structure_ok s → (∃ xd, g_rules s !! x = Some xd) → notified pre s p k s' →
  asserts (Rule_markInputReady x) (λ _ s'', notified (pre ++ [x]) s p k s'') s'.
Proof.
  intros Hok [xd Hx] (Hs & prd & Hp & Hk & Hle). shape_rule Hs Hx.
  apply asserts_bind, asserts_returns. eapply wp_readRule; [done|].
  apply asserts_bind, asserts_returns. eapply wp_updRule; [done|].
  unfold asserts, massert. case_bool_decide as Hb; [|done]. split.
  - etrans; [exact Hs|]. split; [done| |done]. intros r. simpl. destruct (decide (x = r)) as [<-|Hne].
    + rewrite lookup_insert_eq, Hl. done.
    + by rewrite lookup_insert_ne.
  - rewrite countb_app, countb_cons, countb_nil. simpl. destruct (decide (x = p)) as [<-|Hne].
    + assert (x0 = prd) as -> by congruence. eexists. rewrite lookup_insert_eq, bool_decide_eq_true_2 by done.
      split_and!; [done|simpl; lia|done].
    + exists prd. rewrite lookup_insert_ne, bool_decide_eq_false_2 by done. split_and!; [done|lia|done].
Qed.

Lemma notified_start p k s s' prd :
  same_shape s s' → g_rules s' !! p = Some prd → Rule.numInputsReady_ prd = k →
  Rule.numInputsReady_ prd ≤ length (Rule.inputs_ prd) →
  notified [] s p k s'.
Proof. intros Hs Hp Hk Hle. split; [done|]. exists prd. split_and!; [done|rewrite countb_nil; lia|done]. Qed.

Lemma countb_occurs (p : N) l : NoDup l → countb (λ x, bool_decide (x = p)) l = if bool_decide (p ∈ l) then 1 else 0.
Proof.
  intros Hnd. pose proof (countb_one l p true Hnd) as Hc. rewrite andb_true_r in Hc. rewrite <- Hc.
  apply countb_ext. intros x _. by rewrite andb_true_r.
Qed.

(** Every output counts for the rule that reads it, up to date before or not. *)
Lemma markOutputs_counts s r rd p prd :
  structure_ok s → g_rules s !! r = Some rd → g_rules s !! p = Some prd →
  Rule.numInputsReady_ prd ≤ length (Rule.inputs_ prd) →
  asserts (markOutputsUpToDate r) (λ _ s', Rule.numInputsReady_ prd +
    countb (λ o, bool_decide (o ∈ Rule.inputs_ prd)) (Rule.outputs_ rd) ≤ length (Rule.inputs_ prd)) s.
Proof.
  intros Hok Hr Hp Hk. apply asserts_bind, asserts_returns. eapply wp_readRule; [done|].
  apply (asserts_foreach (λ pre s', notified [] s p
    (Rule.numInputsReady_ prd + countb (λ o, bool_decide (o ∈ Rule.inputs_ prd)) pre) s')).
  - apply (notified_start _ _ _ _ prd); [done|done|rewrite countb_nil; lia|done].
  - intros pre o post s1 Heq (Hs & prd1 & Hp1 & Hk1 & Hle1).
    assert (Ho : o ∈ Rule.outputs_ rd) by (rewrite Heq; set_solver).
    destruct (so_output s Hok r rd o Hr Ho) as (nd & Hn & _). shape_node Hs Hn.
    apply asserts_bind, asserts_returns. eapply wp_updNode; [done|].
    apply asserts_bind, asserts_returns. eapply wp_readNode; [apply lookup_insert_eq|].
    simpl. replace (Node.parentRules_ x) with (Node.parentRules_ nd) by congruence.
    apply (asserts_mono _ (λ _ s2, notified (Node.parentRules_ nd) s p (Rule.numInputsReady_ prd1) s2));
      [apply (asserts_foreach (λ pre' s', notified pre' s p (Rule.numInputsReady_ prd1) s'))|].
    + apply (notified_start _ _ _ _ prd1); [|done|done|done]. etrans; [exact Hs|]. split; [|done|done].
      intros m. simpl. destruct (decide (o = m)) as [<-|Hne]; [by rewrite lookup_insert_eq, Hl|by rewrite lookup_insert_ne].
    + intros pre' y post' s2 Heq2 Hn2. apply asserts_markInputReady; [done| |done].
      destruct (so_parent s Hok o nd y Hn) as (xd & ? & _); [rewrite Heq2; set_solver|by exists xd].
    + intros s2 Hn2. exact Hn2.
    + intros [] s2 (Hs2 & prd2 & Hp2 & Hk2 & Hle2). apply (notified_start _ _ _ _ prd2); [done|done| |done].
      rewrite Hk2, Hk1, countb_app, countb_cons, !countb_nil, countb_occurs by by eapply so_parents_nodup.
      rewrite (bool_decide_ext (p ∈ Node.parentRules_ nd) (o ∈ Rule.inputs_ prd)); [destruct (bool_decide _); lia|].
      split; intros Hin.
      * destruct (so_parent s Hok o nd p Hn Hin) as (? & ? & ?). congruence.
      * destruct (so_input s Hok p prd o Hp Hin) as (? & ? & ?). congruence.
  - intros s1 (Hs & prd1 & Hp1 & Hk1 & Hle1). shape_rule Hs Hp. rewrite countb_nil in Hk1.
    assert (x = prd1) as -> by congruence. replace (length (Rule.inputs_ prd)) with (length (Rule.inputs_ prd1)) by congruence. lia.
Qed.

(** Finishing a rule with a clean output counts it twice. *)
Lemma clean_output_aborts s r rd o p prd :
  structure_ok s → counters_ok s → g_rules s !! r = Some rd → o ∈ Rule.outputs_ rd → node_dirty s o = false →
  g_rules s !! p = Some prd → o ∈ Rule.inputs_ prd →
  (∀ i, i ∈ Rule.inputs_ prd → node_ready s i = true ∨ i ∈ Rule.outputs_ rd) →
  markOutputsUpToDate r s = Abort AssertFailed.
Proof.
  intros Hok Hc Hr Ho Hd Hp Hop Hall. apply asserts_fails.
  pose proof (Hc p prd Hp) as Hk.
  eapply asserts_mono; [apply (markOutputs_counts s r rd p prd); [done|done|done|]|].
  - rewrite Hk. apply countb_le_length.
  - intros [] s' Hle. rewrite Hk, countb_common in Hle
      by (by eapply so_outputs_nodup || by eapply so_inputs_nodup).
    assert (Hor : node_ready s o = true).
    { destruct (so_output s Hok r rd o Hr Ho) as (nd & Hn & _). unfold node_ready, node_dirty in *. rewrite Hn in *.
      rewrite Hd. by rewrite orb_true_r. }
    assert (countb (λ i, bool_decide (i = o) && true) (Rule.inputs_ prd) = 1) as Hone.
    { rewrite countb_one by by eapply so_inputs_nodup. by rewrite bool_decide_eq_true_2. }
    assert (length (Rule.inputs_ prd) + 1 ≤ countb (node_ready s) (Rule.inputs_ prd) +
      countb (λ x, bool_decide (x ∈ Rule.outputs_ rd)) (Rule.inputs_ prd)); [|lia].
    rewrite <- Hone. clear Hle Hk Hone Hp Hop. revert Hall. induction (Rule.inputs_ prd) as [|i l IH]; intros Hall; [done|].
    rewrite !countb_cons. specialize (IH ltac:(intros j Hj; apply Hall; set_solver)). rewrite andb_true_r. simpl.
    destruct (decide (i = o)) as [->|Hne].
    + rewrite Hor, (bool_decide_eq_true_2 (o = o)), (bool_decide_eq_true_2 (o ∈ _)) by done. lia.
    + rewrite (bool_decide_eq_false_2 (i = o)) by done. destruct (Hall i) as [->|Hi]; [set_solver|lia|].
      rewrite (bool_decide_eq_true_2 (i ∈ _)) by done. destruct (node_ready s i); lia.
Qed.

(** A lazy fetch can make a later build end the daemon. When a rule has to run
    although one of its outputs was fetched, and a rule that reads this output has
    every other input ready or among the outputs too, [markOutputsUpToDate] counts
    the fetched output twice and the assertion on the counter fails. *)
Theorem fetched_output_aborts s r rd o p prd :
  consistent s → g_rules s !! r = Some rd → o ∈ Rule.outputs_ rd → node_dirty s o = false →
  g_rules s !! p = Some prd → o ∈ Rule.inputs_ prd →
  (∀ i, i ∈ Rule.inputs_ prd → node_ready s i = true ∨ i ∈ Rule.outputs_ rd) →
  markOutputsUpToDate r s = Abort AssertFailed.
Proof. intros Hc. apply (clean_output_aborts s r rd o p prd); apply Hc. Qed.

(** ** A cache that has one output of two *)

Definition hashed_node (path : string) (child : option N) (parents : list N) : Node.t :=
  Node.setHash path (mk_node path child parents OUT_OF_DATE).
Definition lazy_nodes : list (N * Node.t) :=
  [(1%N, hashed_node "source" None [10%N]); (2%N, hashed_node "o1" (Some 10%N) [11%N]);
   (3%N, hashed_node "o2" (Some 10%N) [11%N]); (4%N, hashed_node "all" (Some 11%N) [])].
Definition lazy_world : World :=
  mkWorld (mkG (list_to_map lazy_nodes) (g_rules two_outputs_dirty) (g_graph two_outputs_dirty))
    (mkGF (CacheGitDirectory.new ".falcon/cache")
       (mkFS {[".falcon/cache" := Dir; ".falcon" := Dir; ".falcon/cache/o1" := File "one" 1]} (λ _, true) 5))
    CACHE_EVERYTHING ".falcon/cache" (mkWatchman "/" false [] 0).

Lemma lazy_node (P : N → Node.t → Prop) :
  Forall (λ x, P x.1 x.2) lazy_nodes → ∀ n nd, g_nodes (w_g lazy_world) !! n = Some nd → P n nd.
Proof.
  intros Hall n nd Hn. change ((list_to_map lazy_nodes : gmap N Node.t) !! n = Some nd) in Hn.
  apply elem_of_list_to_map_2 in Hn. rewrite Forall_forall in Hall. by apply (Hall (n, nd)).
Qed.

Lemma outside_cache a p : a ≠ "."%char → outside ".falcon/cache" (String a p).
Proof. intros Ha. split; [congruence|]. intros h [= Heq _]. congruence. Qed.

Lemma lazy_world_fetchable : fetchable lazy_world.
Proof.
  split.
  - apply check_consistent. vm_compute. reflexivity.
  - apply (check_rank_sound _ two_outputs_rank). vm_compute. reflexivity.
  - apply (lazy_node (λ _ nd, Node.hash_ nd ≠ "")). repeat constructor; done.
  - intros n n' nd nd' Hn Hn' Heq. revert n' nd' Hn' Heq. revert n nd Hn.
    apply (lazy_node (λ n nd, ∀ n' nd', g_nodes (w_g lazy_world) !! n' = Some nd' → Node.path_ nd = Node.path_ nd' → n = n')).
    repeat (apply Forall_cons_2 || apply Forall_nil_2); cbn [fst snd];
      apply (lazy_node (λ n' nd', _ = Node.path_ nd' → _ = n'));
      repeat (apply Forall_cons_2 || apply Forall_nil_2); vm_compute; done.
  - apply (lazy_node (λ _ nd, outside (w_dir lazy_world) (Node.path_ nd))).
    repeat constructor; by apply outside_cache.
  - apply (lazy_node (λ _ nd, Node.childRule_ nd ≠ None → can_open (w_fs lazy_world) (Node.path_ nd) = true)).
    repeat constructor; vm_compute; done.
  - done.
  - intros e. vm_compute. reflexivity.
Qed.

Lemma lazy_world_targets t : t ∈ ({[4%N]} : gset N) → is_Some (g_nodes (w_g lazy_world) !! t).
Proof. intros ->%elem_of_singleton. eexists. vm_compute. reflexivity. Qed.

Lemma fetch_exact_witness :
  returns (@fetch first_fit (list build_event) _ (λ _, 7%Z) 4 {[4%N]}) (λ _ s, ∃ F,
    fetching (λ _, 7%Z) lazy_world F (wc_w s) ∧ consistent (w_g (wc_w s)) ∧
    (∀ n, n ∈ F → reached lazy_world F (wc_w s) (λ t, t ∈ ({[4%N]} : gset N)) n) ∧
    (∀ n r nd, reached lazy_world F (wc_w s) (λ t, t ∈ ({[4%N]} : gset N)) n → built lazy_world false n r nd →
       n ∈ F ∨ entry_of (wc_w s) (Node.hash_ nd) = None)) (mkWC lazy_world []).
Proof. apply (@fetch_exact first_fit (list build_event) _ log_total); [exact lazy_world_fetchable|exact lazy_world_targets|vm_compute; lia]. Defined.

Lemma fetch_then_plan_witness :
  returns (@fetch first_fit (list build_event) _ (λ _, 7%Z) 4 {[4%N]}) (λ _ s,
    returns (makePlan 3 {[4%N]}) (λ _ ps, p_g ps = w_g (wc_w s) ∧
      ∀ r, r ∈ BuildPlan.rules_ (p_plan ps) ↔ needed (w_g (wc_w s)) {[4%N]} r)
    (mkP BuildPlan.empty (w_g (wc_w s)))) (mkWC lazy_world []).
Proof. apply (@fetch_then_plan first_fit (list build_event) _ log_total); [exact lazy_world_fetchable|exact lazy_world_targets|vm_compute; lia|vm_compute; lia]. Defined.

(** [o1] is fetched, [o2] is not in the cache. *)
Definition half_fetched : GState :=
  match @fetch first_fit (list build_event) _ (λ _, 7%Z) 4 {[4%N]} (mkWC lazy_world []) with
  | Ret _ s => w_g (wc_w s)
  | _ => w_g lazy_world
  end.
Example half_fetched_dirty : (node_dirty half_fetched 2, node_dirty half_fetched 3, node_lazy half_fetched 2) = (false, true, true).
Proof. vm_compute. reflexivity. Qed.

Lemma fetched_output_aborts_witness : markOutputsUpToDate 10 half_fetched = Abort AssertFailed.
Proof.
  apply (fetched_output_aborts half_fetched 10 (mk_rule [1%N] [2%N; 3%N] "gen" OUT_OF_DATE 1) 2 11
           (mk_rule [2%N; 3%N] [4%N] "" OUT_OF_DATE 1)).
  - apply check_consistent. vm_compute. reflexivity.
  - vm_compute. reflexivity.
  - set_solver.
  - vm_compute. reflexivity.
  - vm_compute. reflexivity.
  - set_solver.
  - intros i Hi. right. exact Hi.
Defined.
