(* ===== verification/Builder.v ===== *)
(** * The parallel builder (graph_parallel_builder.cpp)

    The whole build thread, composed of the plan, the cache manager, the depfiles,
    the hashes, the subprocesses and the consumer.  The theorem is a refinement:
    what the thread does is a run of the transition system of BuildSchedule.v, so
    that its theorems hold of the code. *)

From S2P Require Import Watchman StreamServer SubProcess Prelude GraphModel GraphChecks BuildPlan BuildCore BuildSchedule.
From S2P Require Import DepfileParser Fs Cache World Hash HashRecompute CacheRoundtrip LazyCache.

(** What the outside world answers: the kernel when a process is started, what the
    polls report and the exit statuses during the [k]-th wait, the time, and whether
    [interrupt] was called before the [k]-th look at [interrupted_]. *)
Class BuildEnv := {
  env_start : Manager → SubProcess.start_result;
  env_polls : nat → list poll_result;
  env_wait : nat → N → wait_status;
  env_time : nat → Z;
  env_interrupted : nat → bool;
}.

Record Builder (C : Type) := mkBuilder {
  bd_w : World;               (* [graph_], [cache_] and the world around *)
  bd_plan : BuildPlan.t;
  bd_manager : Manager;
  bd_consumer : C;
  bd_result : BuildResult;
  bd_interrupted : bool;
  bd_clock : nat;             (* events so far: the index into the environment *)
}.
Arguments mkBuilder {C}.
Arguments bd_w {C}.
Arguments bd_plan {C}.
Arguments bd_manager {C}.
Arguments bd_consumer {C}.
Arguments bd_result {C}.
Arguments bd_interrupted {C}.
Arguments bd_clock {C}.

Module GraphParallelBuilder.
Section builder.
Context `{Allocator} `{SHA256} `{WatchEnv} `{BuildEnv} {C : Type} `{Consumer C}.
(** Whether there is a cache and a watchman client, and the number of threads. *)
Variables (cache_ watchmanClient_ : bool) (numThreads_ : nat).
(** Bounds on the loops of the functions called: writes to watchman, hashes. *)
Variables (wm_fuel hash_fuel : nat).
Notation B := (Builder C).

Definition set_world (w : World) (b : B) : B :=
  mkBuilder w (bd_plan b) (bd_manager b) (bd_consumer b) (bd_result b) (bd_interrupted b) (bd_clock b).
Definition set_ps (x : PState) (b : B) : B :=
  mkBuilder (set_g (p_g x) (bd_w b)) (p_plan x) (bd_manager b) (bd_consumer b) (bd_result b) (bd_interrupted b) (bd_clock b).
Definition set_mc (x : MC C) (b : B) : B :=
  mkBuilder (bd_w b) (bd_plan b) (mc_m x) (mc_c x) (bd_result b) (bd_interrupted b) (bd_clock b).
Definition set_result (r : BuildResult) (b : B) : B :=
  mkBuilder (bd_w b) (bd_plan b) (bd_manager b) (bd_consumer b) r (bd_interrupted b) (bd_clock b).
Definition set_interrupted (i : bool) (b : B) : B :=
  mkBuilder (bd_w b) (bd_plan b) (bd_manager b) (bd_consumer b) (bd_result b) i (bd_clock b).
Definition set_clock (k : nat) (b : B) : B :=
  mkBuilder (bd_w b) (bd_plan b) (bd_manager b) (bd_consumer b) (bd_result b) (bd_interrupted b) k.

Definition b_world : lens B World := Lens bd_w set_world.
Definition b_pstate : lens B PState := Lens (λ b, mkP (bd_plan b) (w_g (bd_w b))) set_ps.
Definition b_mc : lens B (MC C) := Lens (λ b, mkMC (bd_manager b) (bd_consumer b)) set_mc.
Definition onWorld {A} (m : M World A) : M B A := zoom b_world m.
Definition onGraph {A} (m : M GState A) : M B A := zoom b_world (zoom l_graph m).
Definition tell (e : build_event) : M B unit := zoom b_mc (zoom l_c (consume e)).

(** The index of the next answer. *)
Definition tick : M B nat :=
  b ← mget; mput (set_clock (S (bd_clock b)) b);; mret (bd_clock b).

Definition onRuleFinished (rule : N) : M B unit := zoom b_pstate (BuildCore.onRuleFinished rule).

Definition createPath (path : string) : M B unit :=
  onWorld (zoom l_wfs (fs_ops.createPath (S (String.length path)) path));; mret tt.

Definition tryBuildRuleFromCache (rule : N) : M B bool :=
  if negb cache_ then mret false
  else
    ok ← onWorld (CacheManager.restoreRule rule);
    if negb ok then mret false
    else
      r ← onGraph (readRule rule);
      foreach (Rule.outputs_ r) (λ o,
        n ← onGraph (readNode o);
        tell (ECache (String.list_ascii_of_string (Node.path_ n))));;
      k ← tick;
      onGraph (updRule rule (Rule.setTimestamp (env_time k)));;
      mret true.

Definition buildRule (rule : N) : M B unit :=
  r ← onGraph (readRule rule);
  if Rule.isPhony r then onRuleFinished rule
  else
    foreach (Rule.outputs_ r) (λ o, n ← onGraph (readNode o); createPath (Node.path_ n));;
    mwhen (Rule.hasDepfile r) (createPath (Rule.depfile_ r));;
    cached ← tryBuildRuleFromCache rule;
    if (cached : bool) then onRuleFinished rule
    else
      b ← mget;
      id ← zoom b_mc (zoom l_m (addProcess rule (Rule.command_ r) (env_start (bd_manager b))));
      tell (ECommand id (String.list_ascii_of_string (Rule.command_ r))).

Definition waitForNext : M B BuildResult :=
  k ← tick;
  x ← zoom b_mc (SubProcess.waitForNext (env_polls k) (env_wait k));
  let res := x.1 in
  let rule := rule res in
  tell (EStatus (cmdId res) (status res));;
  onGraph (updRule rule (Rule.setTimestamp (env_time k)));;
  if negb (bool_decide (status res = SUCCEEDED)) then
    mret (if bool_decide (status res = INTERRUPTED) then INTERRUPTED else FAILED)
  else
    r ← onGraph (readRule rule);
    loaded ← (if Rule.hasDepfile r then
                res ← onWorld (loadFromfile wm_fuel (Rule.depfile_ r) rule watchmanClient_);
                if negb (bool_decide (res = SUCCESS)) then mret false
                else
                  onWorld (recomputeRuleHash wm_fuel hash_fuel rule watchmanClient_ cache_ true false);;
                  mret true
              else mret true);
    if negb loaded then mret FAILED
    else
      mwhen cache_ (onWorld (CacheManager.saveRule rule));;
      onRuleFinished rule;;
      mret SUCCEEDED.

(** [while (plan_.hasWork() && manager_.nbRunning() < numThreads_)]. *)
Fixpoint spawn (fuel : nat) : M B unit :=
  match fuel with
  | O => mabort OutOfFuel
  | S fuel =>
    b ← mget;
    if BuildPlan.hasWork (bd_plan b) && (nbRunning (bd_manager b) <? numThreads_) then
      rule ← zoom b_pstate findWork;
      match rule with
      | None => mabort AssertFailed
      | Some rule => buildRule rule;; spawn fuel
      end
    else mret tt
  end.

(** The main loop.  Another thread may call [interrupt] at any time. *)
Fixpoint main_loop (fuel : nat) : M B unit :=
  match fuel with
  | O => mabort OutOfFuel
  | S fuel =>
    k ← tick;
    modify (λ b, set_interrupted (bd_interrupted b || env_interrupted k) b);;
    b ← mget;
    if bool_decide (bd_result b = SUCCEEDED) && negb (BuildPlan.done (bd_plan b)) && negb (bd_interrupted b) then
      spawn (S (size (BuildPlan.rules_ (bd_plan b))));;
      b ← mget;
      mwhen (0 <? nbRunning (bd_manager b)) (res ← waitForNext; modify (set_result res));;
      main_loop fuel
    else mret tt
  end.

(** Flush the process manager. *)
Fixpoint flush (fuel : nat) : M B unit :=
  match fuel with
  | O => mabort OutOfFuel
  | S fuel =>
    b ← mget;
    if 0 <? nbRunning (bd_manager b) then
      tmp ← waitForNext;
      modify (λ b, if bool_decide (bd_result b = SUCCEEDED) then set_result tmp b else b);;
      flush fuel
    else mret tt
  end.

(** What the callback gets. *)
Definition buildThread (fuel : nat) : M B BuildResult :=
  main_loop fuel;;
  b ← mget;
  flush (S (nbRunning (bd_manager b)));;
  b ← mget; mret (bd_result b).
End builder.
End GraphParallelBuilder.

(** ** The interface to the cache *)

Definition node_hashes (nd : Node.t) := (Node.hash_ nd, Node.hashDepfile_ nd).
Definition rule_hashes (rd : Rule.t) := (Rule.hash_ rd, Rule.hashDepfile_ rd).
Record same_hashes (s s' : GState) : Prop := {
  sh_shape : same_shape s s';
  sh_nodes n : node_hashes <$> g_nodes s' !! n = node_hashes <$> g_nodes s !! n;
  sh_rules r : rule_hashes <$> g_rules s' !! r = rule_hashes <$> g_rules s !! r;
}.

(** What the builder needs of the cache, when there is one: restoring and saving a
    rule return and leave the graph alone, in the worlds of an invariant that the
    build does not disturb. *)
Class BuildCache `{Allocator} (cache : bool) (Inv : World → Prop) : Prop := {
  bc_graph w g : Inv w → same_hashes (w_g w) g → Inv (set_g g w);
  bc_files w f : Inv w → Inv (set_fs f w);
  bc_restore w r : cache = true → Inv w → is_Some (g_rules (w_g w) !! r) →
    returns (CacheManager.restoreRule r) (λ _ w', w_g w' = w_g w ∧ Inv w') w;
  bc_save w r : cache = true → Inv w → is_Some (g_rules (w_g w) !! r) →
    returns (CacheManager.saveRule r) (λ _ w', w_g w' = w_g w ∧ Inv w') w;
}.

(** Without a cache. *)
#[export] Instance no_cache `{Allocator} : BuildCache false (λ _, True).
Proof. by split. Qed.

(** With a cache that keeps everything: the graph has its hashes. *)
Definition cache_hashed (s : GState) : Prop :=
  structure_ok s ∧ (∀ n nd, g_nodes s !! n = Some nd → Node.hash_ nd ≠ "") ∧
  (∀ r rd, g_rules s !! r = Some rd → Rule.hashDepfile_ rd ≠ "").
Definition keeps_everything (w : World) : Prop := w_policy w ≠ CACHE_GIT_REFS ∧ cache_hashed (w_g w).

Lemma cache_hashed_same s s' : same_hashes s s' → cache_hashed s → cache_hashed s'.
Proof.
  intros [Hs Hn Hr] (Hok & H1 & H2). split_and!; [by rewrite <- Hs| |].
  - intros n nd Hnd. specialize (Hn n). rewrite Hnd in Hn. symmetry in Hn. apply fmap_Some in Hn as (nd' & Hnd' & [= -> _]). by eapply H1.
  - intros r rd Hrd. specialize (Hr r). rewrite Hrd in Hr. symmetry in Hr. apply fmap_Some in Hr as (rd' & Hrd' & [= _ ->]). by eapply H2.
Qed.

(** The operations on files return, whatever the files. *)
Lemma hasEntry_returns dir h f : h ≠ "" → returns (CacheFS.hasEntry dir h) (λ _ _, True) f.
Proof. intros Hh. apply wp_bind, wp_hash_nonempty; [done|]. by apply wp_bind, wp_gets, wp_ret. Qed.
Lemma readEntry_returns dir h p f : h ≠ "" → returns (CacheFS.readEntry dir h p) (λ _ _, True) f.
Proof.
  intros Hh. apply wp_bind, wp_hash_nonempty; [done|]. apply wp_bind, wp_gets.
  destruct (fs_entries f !! CacheFS.entry_path dir h); [|by apply wp_ret]. apply wp_bind. by apply wp_modify, wp_ret.
Qed.
Lemma writeEntry_returns dir h p f : h ≠ "" → returns (CacheFS.writeEntry dir h p) (λ _ _, True) f.
Proof. intros Hh. eapply wp_mono; [by apply writeEntry_mono|done|done]. Qed.

Lemma cacheFs_returns {A} (m : string → M FS A) Q w :
  (∀ f, returns (m (w_dir w)) (λ _ _, True) f) → (∀ a f, Q a (set_fs f w)) → returns (CacheManager.cacheFs m) Q w.
Proof.
  intros Hm HQ. apply wp_bind, wp_mget, wp_zoom. cbn [lget lset l_wfs].
  eapply wp_mono; [apply Hm|intros a f _; apply HQ|done].
Qed.

Section everything.
Context `{Allocator}.
Implicit Types w : World.

(** Only files change. *)
Definition files_changed w w' : Prop := w_g w' = w_g w ∧ w_policy w' = w_policy w.

Lemma when_git_off m Q w : w_policy w ≠ CACHE_GIT_REFS → Q tt w → returns (CacheManager.when_git m) Q w.
Proof. intros Hp HQ. apply wp_bind, wp_mget. unfold mwhen. rewrite bool_decide_eq_false_2 by done. by apply wp_ret. Qed.

Lemma wp_readNode_w n nd Q E w : g_nodes (w_g w) !! n = Some nd → Q nd w → wp (zoom l_graph (readNode n)) Q E w.
Proof. intros Hn HQ. apply wp_zoom. cbn [lget lset l_graph]. eapply wp_readNode; [done|]. by destruct w. Qed.
Lemma wp_readRule_w r rd Q E w : g_rules (w_g w) !! r = Some rd → Q rd w → wp (zoom l_graph (readRule r)) Q E w.
Proof. intros Hn HQ. apply wp_zoom. cbn [lget lset l_graph]. eapply wp_readRule; [done|]. by destruct w. Qed.

Lemma still_off w w1 w2 : w_policy w ≠ CACHE_GIT_REFS → files_changed w w1 → w_policy w2 = w_policy w1 → w_policy w2 ≠ CACHE_GIT_REFS.
Proof. intros Hp [_ Hw] ->. by rewrite Hw. Qed.

Lemma restoreRule_everything r w :
  keeps_everything w → is_Some (g_rules (w_g w) !! r) →
  returns (CacheManager.restoreRule r) (λ _ w', files_changed w w') w.
Proof.
  intros (Hp & Hok & Hn & Hd) [rd Hr]. apply wp_bind. eapply wp_readRule_w; [done|].
  destruct (Rule.isPhony rd); [by apply wp_ret|].
  assert (Hout : ∀ o w', files_changed w w' → o ∈ Rule.outputs_ rd → ∃ nd, g_nodes (w_g w') !! o = Some nd ∧ Node.hash_ nd ≠ "").
  { intros o w' [-> _] Ho. destruct (so_output _ Hok r rd o Hr Ho) as (nd & Hnd & _). exists nd. split; [done|by eapply Hn]. }
  apply wp_bind. apply (wp_mono _ (λ _ w', files_changed w w') _ (λ _ _, False)); [| |done].
  - apply (wp_allM_any (λ w', files_changed w w')); [done|]. intros o w1 Ho H1.
    destruct (Hout o w1 H1 Ho) as (nd & Hnd & Hh). apply wp_bind. eapply wp_readNode_w; [done|].
    apply wp_bind. apply cacheFs_returns; [by intros; apply hasEntry_returns|]. intros [] f; [|by apply wp_ret].
    apply wp_bind. apply when_git_off; [by eapply still_off|]. by apply wp_ret.
  - intros [] w1 H1; [|by apply wp_ret]. cbn [negb]. apply wp_bind. apply when_git_off; [by eapply still_off|].
    apply (wp_allM_any (λ w', files_changed w w')); [done|]. intros o w2 Ho H2.
    destruct (Hout o w2 H2 Ho) as (nd & Hnd & Hh). apply wp_bind. eapply wp_readNode_w; [done|].
    apply cacheFs_returns; [by intros; apply readEntry_returns|]. by intros.
Qed.

Lemma saveRule_everything r w :
  keeps_everything w → is_Some (g_rules (w_g w) !! r) →
  returns (CacheManager.saveRule r) (λ _ w', files_changed w w') w.
Proof.
  intros (Hp & Hok & Hn & Hd) [rd Hr]. apply wp_bind. eapply wp_readRule_w; [done|].
  destruct (Rule.isPhony rd); [by apply wp_ret|]. apply wp_bind, wp_mget.
  rewrite (bool_decide_eq_false_2 (w_policy w = _)) by done. cbn [andb]. apply wp_bind.
  apply (wp_foreach (λ _ w', files_changed w w')); [done| |].
  - intros pre o post w1 Heq H1. destruct (so_output _ Hok r rd o Hr) as (nd & Hnd & _); [rewrite Heq; set_solver|].
    apply wp_bind, wp_bind. eapply wp_readNode_w; [by rewrite (proj1 H1)|]. apply wp_bind.
    apply cacheFs_returns; [by intros; apply writeEntry_returns, (Hn o)|]. intros [] f; [|by apply wp_ret, wp_ret].
    cbn [negb]. apply wp_bind. apply when_git_off; [by eapply still_off|]. by apply wp_ret, wp_ret.
  - intros w1 H1. apply wp_bind. unfold mwhen at 1. apply (wp_mono _ (λ _ w', files_changed w w') _ (λ _ _, False)); [| |done].
    + destruct (Rule.hasDepfile rd); [|by apply wp_ret]. apply wp_bind.
      apply cacheFs_returns; [by intros; apply writeEntry_returns, (Hd r)|]. intros b f. by apply wp_ret.
    + intros [] w2 H2. apply when_git_off; [by eapply still_off|done].
Qed.

#[export] Instance everything_cache cache : BuildCache cache keeps_everything.
Proof.
  split.
  - intros w g [Hp Ha] Hs. split; [done|by eapply cache_hashed_same].
  - by intros w f [Hp Ha].
  - intros w r _ Hi Hr. eapply wp_mono; [by apply restoreRule_everything| |done].
    intros _ w' [Hg Hp]. split; [done|]. destruct Hi. split; [congruence|by rewrite Hg].
  - intros w r _ Hi Hr. eapply wp_mono; [by apply saveRule_everything| |done].
    intros _ w' [Hg Hp]. split; [done|]. destruct Hi. split; [congruence|by rewrite Hg].
Qed.
End everything.

(** The hashes of the graph are those of [g0]. *)
Definition remembers (g0 : GState) (Inv : World → Prop) (w : World) : Prop := Inv w ∧ same_hashes g0 (w_g w).
Lemma same_hashes_trans g1 g2 g3 : same_hashes g1 g2 → same_hashes g2 g3 → same_hashes g1 g3.
Proof.
  intros [H1 H2 H3] [H4 H5 H6]. split; [by etrans|intros n; by rewrite H5|intros r; by rewrite H6].
Qed.
Lemma remembers_cache `{Allocator} g0 cache Inv : BuildCache cache Inv → BuildCache cache (remembers g0 Inv).
Proof.
  intros HB. split.
  - intros w g [Hi Hg] Hs. split; [by eapply bc_graph|by eapply same_hashes_trans].
  - intros w f [Hi Hg]. split; [by apply (bc_files (cache := cache))|done].
  - intros w r Hc [Hi Hg] Hr. eapply wp_mono; [by apply bc_restore| |done]. intros _ w' [Hw Hi']. split; [done|split; [done|by rewrite Hw]].
  - intros w r Hc [Hi Hg] Hr. eapply wp_mono; [by apply bc_save| |done]. intros _ w' [Hw Hi']. split; [done|split; [done|by rewrite Hw]].
Qed.

(** ** What the builder shares with the transition system *)

Lemma finished_hashes s r rd s' : finished s r rd s' → same_hashes s s'.
Proof.
  intros Hf. split; [apply Hf| |].
  - intros n. rewrite (f_nodes _ _ _ _ Hf). destruct (g_nodes s !! n); [|done]. simpl. by case_decide.
  - intros x. pose proof (f_rules _ _ _ _ Hf x) as Hx.
    destruct (g_rules s !! x) as [xd|], (g_rules s' !! x) as [xd'|]; simpl in Hx; try done.
    apply (inj Some), (f_equal rule_hashes) in Hx. simpl. f_equal. by case_decide.
Qed.

Definition stamp (r : N) (t : Z) (s : GState) : GState := set_rules (alter (Rule.setTimestamp t) r (g_rules s)) s.

Lemma stamp_build r t s : same_build s (stamp r t s).
Proof.
  split; [done| |done]. intros x. simpl. destruct (decide (r = x)) as [<-|Hne]; [rewrite lookup_alter_eq|by rewrite lookup_alter_ne].
  by destruct (g_rules s !! r).
Qed.
Lemma stamp_hashes r t s : same_hashes s (stamp r t s).
Proof.
  split; [apply same_build_shape, stamp_build|done|]. intros x. simpl.
  destruct (decide (r = x)) as [<-|Hne]; [rewrite lookup_alter_eq|by rewrite lookup_alter_ne]. by destruct (g_rules s !! r).
Qed.

Section refinement.
Context {HA : Allocator} {HS : SHA256} {HW : WatchEnv} {HE : BuildEnv} {C : Type} {HC : Consumer C} {HT : TotalConsumer C}.
Variables (cache_ watchmanClient_ : bool) (numThreads_ : nat) (wm_fuel hash_fuel : nat).
Context (Inv : World → Prop) {HB : BuildCache cache_ Inv}.
Notation B := (Builder C).
Implicit Types (x y z : B) (b : BState).
Import GraphParallelBuilder.

(** The kernel answers: fresh descriptors, no errors, and every command closes its
    streams eventually. *)
Hypothesis env_start_ok : ∀ m, ∃ out err pid, env_start m = Started out err pid ∧ out ≠ err ∧
  out ≠ (-1)%Z ∧ err ≠ (-1)%Z ∧ map_ m !! out = None ∧ map_ m !! err = None.
Hypothesis env_polls_ok : ∀ k, Forall good_poll (env_polls k) ∧ Exists hangup (env_polls k).
Hypothesis env_wait_ok : ∀ k p errno, env_wait k p ≠ WaitFailed errno.

(** The rules in [X] count as running, but have no process (yet, or any more). *)
Record sim (X : gset N) x b : Prop := {
  sm_plan : b_plan b = bd_plan x;
  sm_graph : same_build (b_graph b) (w_g (bd_w x));
  sm_ok : manager_ok (bd_manager x);
  sm_run r : r ∈ b_running b ↔ r ∈ X ∨ ∃ p, mapToRule_ (bd_manager x) !! p = Some r;
  sm_disj r p : mapToRule_ (bd_manager x) !! p = Some r → r ∉ X;
  sm_inj p q r : mapToRule_ (bd_manager x) !! p = Some r → mapToRule_ (bd_manager x) !! q = Some r → p = q;
  sm_size : size (b_running b) = size X + nbRunning (bd_manager x);
  sm_inv : Inv (bd_w x);
  sm_depfile r rd : g_rules (w_g (bd_w x)) !! r = Some rd → Rule.hasDepfile rd = false;
}.

(** The two states of the loop. *)
Definition at_rest x b : Prop := sim ∅ x b ∧ b_ps b = mkP (bd_plan x) (w_g (bd_w x)).

(** [result_] and [interrupted_]. *)
Definition flags x := (bd_result x, bd_interrupted x).

Lemma flags_result x y : flags y = flags x → bd_result y = bd_result x.
Proof. by intros [= ? _]. Qed.
Lemma flags_interrupted x y : flags y = flags x → bd_interrupted y = bd_interrupted x.
Proof. by intros [= _ ?]. Qed.

(** The consumer and the clock do not matter. *)
Definition same_core x y : Prop :=
  bd_w y = bd_w x ∧ bd_plan y = bd_plan x ∧ bd_manager y = bd_manager x ∧ flags y = flags x.

Lemma sim_core X x y b : same_core x y → sim X x b → sim X y b.
Proof. intros (E1 & E2 & E3 & _) []. split; rewrite ?E1, ?E2, ?E3; done. Qed.
Lemma rest_core x y b : same_core x y → at_rest x b → at_rest y b.
Proof. intros Hc [Hs Heq]. split; [by eapply sim_core|]. destruct Hc as (-> & -> & _). done. Qed.

Lemma wp_tell e Q E x : (∀ y, same_core x y → Q tt y) → wp (tell e) Q E x.
Proof. intros HQ. apply wp_zoom, wp_zoom. apply wp_consume. intros c. by apply HQ. Qed.
Lemma wp_tick Q E x : (∀ k y, same_core x y → Q k y) → wp tick Q E x.
Proof. intros HQ. apply wp_bind, wp_mget, wp_bind, wp_mput, wp_ret. by apply HQ. Qed.
Lemma same_core_trans x y z : same_core x y → same_core y z → same_core x z.
Proof. intros (?&?&?&?) (?&?&?&?). split_and!; congruence. Qed.

Lemma wp_readRule_b r rd Q E x : g_rules (w_g (bd_w x)) !! r = Some rd → Q rd x → wp (onGraph (readRule r)) Q E x.
Proof. intros Hr HQ. apply wp_zoom. cbn [lget b_world]. eapply wp_readRule_w; [done|]. by destruct x. Qed.
Lemma wp_readNode_b n nd Q E x : g_nodes (w_g (bd_w x)) !! n = Some nd → Q nd x → wp (onGraph (readNode n)) Q E x.
Proof. intros Hr HQ. apply wp_zoom. cbn [lget b_world]. eapply wp_readNode_w; [done|]. by destruct x. Qed.

Lemma wp_stamp r rd t Q E x :
  g_rules (w_g (bd_w x)) !! r = Some rd → Q tt (set_world (set_g (stamp r t (w_g (bd_w x))) (bd_w x)) x) →
  wp (onGraph (updRule r (Rule.setTimestamp t))) Q E x.
Proof.
  intros Hr HQ. apply wp_zoom, wp_zoom. cbn [lget lset b_world l_graph]. eapply wp_updRule; [done|].
  replace (<[r := _]> (g_rules (w_g (bd_w x)))) with (alter (Rule.setTimestamp t) r (g_rules (w_g (bd_w x)))); [done|].
  apply map_eq. intros y. destruct (decide (r = y)) as [<-|Hne].
  - by rewrite lookup_alter_eq, lookup_insert_eq, Hr.
  - by rewrite lookup_alter_ne, lookup_insert_ne.
Qed.

(** *** Finishing and failing *)

Lemma hasDepfile_shape rd rd' : rule_shape rd = rule_shape rd' → Rule.hasDepfile rd = Rule.hasDepfile rd'.
Proof. intros [= _ _ _ _ Heq]. unfold Rule.hasDepfile. by rewrite Heq. Qed.

(** The rule handed to [onRuleFinished] leaves [X]. *)
Lemma sim_drop x b r b' y :
  sim {[r]} x b → bd_manager y = bd_manager x → b_plan b' = bd_plan y → same_build (b_graph b') (w_g (bd_w y)) →
  b_running b' = b_running b ∖ {[r]} → Inv (bd_w y) → same_shape (w_g (bd_w x)) (w_g (bd_w y)) → sim ∅ y b'.
Proof.
  intros Hs Hm Hp Hg Hr Hi Hsh. destruct Hs. split; rewrite ?Hm; try done.
  - intros q. rewrite Hr, elem_of_difference, sm_run0. split; [set_solver|].
    intros [?|[p Hq]]; [set_solver|]. split; [naive_solver|]. by eapply sm_disj0.
  - rewrite Hr, size_empty. rewrite size_singleton, (size_remove _ r) in sm_size0; [lia|]. apply sm_run0. set_solver.
  - intros q rd Hq. assert (Hsh' : same_shape (w_g (bd_w y)) (w_g (bd_w x))) by by symmetry.
    destruct (same_shape_rule _ _ _ _ Hsh' Hq) as (rd0 & Hrd0 & Heq).
    rewrite <- (hasDepfile_shape _ _ Heq). by eapply sm_depfile0.
Qed.

(** The graph of the builder in place of the one of the transition system. *)
Definition sync x b : BState := mkB (mkP (b_plan b) (w_g (bd_w x))) (b_running b) (b_failed b).

Lemma finish_sim targets r x b :
  sim {[r]} x b → schedule_ok targets b →
  returns (onRuleFinished r) (λ _ y, ∃ b', bstep numThreads_ b (Finish r) b' ∧ at_rest y b' ∧
    b_failed b' = b_failed b ∧ bd_manager y = bd_manager x ∧ flags y = flags x) x.
Proof.
  intros Hs Hb. pose proof (schedule_ok_build _ _ _ Hb (sm_graph _ _ _ Hs)) as Hb1.
  assert (Hr : r ∈ b_running b) by (apply (sm_run _ _ _ Hs); set_solver).
  pose proof (onRuleFinished_spec targets _ r Hb1 Hr) as Hspec. cbn [b_ps] in Hspec. rewrite (sm_plan _ _ _ Hs) in Hspec.
  apply returns_inv in Hspec as ([] & [p' g'] & Heq & Hsch & _ & _ & Hsh & _ & rd & Hf). cbn [p_g p_plan b_graph b_ps] in *.
  apply wp_zoom. cbn [lget lset b_pstate]. unfold wp. rewrite Heq.
  assert (Hh : same_hashes (w_g (bd_w x)) g') by by eapply finished_hashes.
  eexists. split.
  - eapply bstep_finish; [exact Hr|exact (sm_graph _ _ _ Hs)|]. by rewrite (sm_plan _ _ _ Hs).
  - split_and!; [|done|done|done]. split; [|done].
    eapply sim_drop; [exact Hs|done|done|done|done| |apply Hh]. cbn. apply bc_graph; [apply Hs|done].
Qed.

Lemma failed_sim r x b :
  sim {[r]} x b → bstep numThreads_ b (Failed r)
    (mkB (mkP (b_plan b) (w_g (bd_w x))) (b_running b ∖ {[r]}) ({[r]} ∪ b_failed b)) ∧
  at_rest x (mkB (mkP (b_plan b) (w_g (bd_w x))) (b_running b ∖ {[r]}) ({[r]} ∪ b_failed b)).
Proof.
  intros Hs. split.
  - apply bstep_failed; [apply (sm_run _ _ _ Hs); set_solver|apply Hs].
  - split; [|cbn; by rewrite (sm_plan _ _ _ Hs)]. eapply sim_drop; [exact Hs|done|apply Hs|done|done|apply Hs|done].
Qed.

(** *** Starting a rule *)

(** Files may change. *)
Definition same_but_files x y : Prop :=
  w_g (bd_w y) = w_g (bd_w x) ∧ bd_plan y = bd_plan x ∧ bd_manager y = bd_manager x ∧ flags y = flags x ∧
  (Inv (bd_w x) → Inv (bd_w y)).
Lemma same_but_files_trans x y z : same_but_files x y → same_but_files y z → same_but_files x z.
Proof. intros (?&?&?&?&?) (?&?&?&?&?). split_and!; try congruence; auto. Qed.
Lemma core_but_files x y : same_core x y → same_but_files x y.
Proof. intros (E1&?&?&?). split_and!; [by rewrite E1|done|done|done|by rewrite E1]. Qed.
Lemma sim_files X x y b : same_but_files x y → sim X x b → sim X y b.
Proof. intros (E1&E2&E3&_&E4) []. split; rewrite ?E1, ?E2, ?E3; auto. Qed.

Lemma createPath_any path x : returns (createPath path) (λ _ y, same_but_files x y) x.
Proof.
  apply wp_bind, wp_zoom, wp_zoom. cbn [lget lset b_world l_wfs].
  eapply wp_mono; [apply createPath_spec; lia| |done]. intros ok f _. apply wp_ret.
  split_and!; try done. intros Hi. cbn. by apply bc_files.
Qed.

Lemma tryCache_spec r rd x :
  g_rules (w_g (bd_w x)) !! r = Some rd → structure_ok (w_g (bd_w x)) → Inv (bd_w x) →
  returns (tryBuildRuleFromCache cache_ r) (λ ok y,
    if ok then (∃ t, w_g (bd_w y) = stamp r t (w_g (bd_w x))) ∧ bd_plan y = bd_plan x ∧
      bd_manager y = bd_manager x ∧ flags y = flags x ∧ Inv (bd_w y)
    else same_but_files x y) x.
Proof.
  intros Hr Hok Hi. unfold tryBuildRuleFromCache.
  destruct (Sumbool.sumbool_of_bool cache_) as [Hc|Hc]; rewrite Hc; [|by apply wp_ret].
  cbn [negb]. apply wp_bind, wp_zoom. cbn [lget b_world]. eapply wp_mono; [by apply (bc_restore (bd_w x) r)| |done].
  intros ok w' [Hg Hi']. set (y := lset b_world w' x). assert (Hy : same_but_files x y) by by split_and!.
  destruct ok; cbn [negb]; [|by apply wp_ret].
  assert (Hry : g_rules (w_g (bd_w y)) !! r = Some rd) by (cbn; by rewrite Hg).
  apply wp_bind. eapply wp_readRule_b; [exact Hry|]. apply wp_bind.
  apply (wp_foreach (λ _ z, same_core y z)); [by split_and!| |].
  - intros pre o post z Heq Hz. destruct (so_output _ Hok r rd o Hr) as (nd & Hnd & _); [rewrite Heq; set_solver|].
    apply wp_bind. eapply wp_readNode_b; [rewrite (proj1 Hz); cbn; by rewrite Hg|]. apply wp_tell. intros z' Hz'. by eapply same_core_trans.
  - intros z Hz. apply wp_bind, wp_tick. intros k z' Hz'. pose proof (same_core_trans _ _ _ Hz Hz') as (E1&E2&E3&E4).
    apply wp_bind. eapply wp_stamp; [by rewrite E1|]. apply wp_ret. unfold flags in E4 |- *. cbn. rewrite E1, E2, E3. cbn. rewrite Hg.
    split_and!; try done; [by eexists|]. apply (bc_graph _ _ Hi'). rewrite Hg. apply stamp_hashes.
Qed.

(** The new process carries the rule that was pending. *)
Lemma sim_process r p x y b :
  sim {[r]} x b → bd_w y = bd_w x → bd_plan y = bd_plan x → manager_ok (bd_manager y) →
  p ∉ running_ (bd_manager x) ++ finished_ (bd_manager x) →
  mapToRule_ (bd_manager y) = <[p := r]> (mapToRule_ (bd_manager x)) →
  nbRunning (bd_manager y) = S (nbRunning (bd_manager x)) → sim ∅ y b.
Proof.
  intros Hs Ew Ep Hok Hp Hm Hn. destruct Hs. split; rewrite ?Ew, ?Ep, ?Hm; try done.
  - intros q. rewrite sm_run0. split.
    + intros [->%elem_of_singleton|[p' Hq]]; right; [exists p; by rewrite lookup_insert_eq|].
      exists p'. rewrite lookup_insert_ne; [done|]. intros <-. apply Hp. apply (mk_rules _ sm_ok0). by eexists.
    + intros [?|[p' Hq]]; [set_solver|]. destruct (decide (p = p')) as [<-|Hne].
      * rewrite lookup_insert_eq in Hq. left. set_solver.
      * rewrite lookup_insert_ne in Hq by done. right. by exists p'.
  - intros p1 p2 q H1 H2. destruct (decide (p = p1)) as [<-|Hn1], (decide (p = p2)) as [<-|Hn2]; [done| | |].
    + rewrite lookup_insert_eq in H1. rewrite lookup_insert_ne in H2 by done. injection H1 as ->. apply sm_disj0 in H2. set_solver.
    + rewrite lookup_insert_eq in H2. rewrite lookup_insert_ne in H1 by done. injection H2 as ->. apply sm_disj0 in H1. set_solver.
    + rewrite lookup_insert_ne in H1, H2 by done. by eapply sm_inj0.
  - rewrite sm_size0, Hn, size_singleton, size_empty. lia.
Qed.

Lemma buildRule_spec targets r x b :
  sim {[r]} x b → b_ps b = mkP (bd_plan x) (w_g (bd_w x)) → schedule_ok targets b →
  returns (buildRule cache_ r) (λ _ y, flags y = flags x ∧ nbRunning (bd_manager x) ≤ nbRunning (bd_manager y) ∧
    ∃ tr b', runs numThreads_ b tr b' ∧ at_rest y b' ∧ b_failed b' = b_failed b) x.
Proof.
  intros Hs Heq Hb.
  assert (Hg : b_graph b = w_g (bd_w x)) by by unfold b_graph; rewrite Heq.
  assert (Hok : structure_ok (w_g (bd_w x))) by (rewrite <- Hg; apply (sc_settled _ _ Hb)).
  destruct (sc_busy _ _ Hb r) as (Hin & _); [apply elem_of_union_l, (sm_run _ _ _ Hs); set_solver|].
  destruct (sc_rules _ _ Hb r Hin) as [rd Hr]. rewrite Hg in Hr.
  assert (Hfin : ∀ y, sim {[r]} y b → flags y = flags x → bd_manager y = bd_manager x →
    returns (onRuleFinished r) (λ _ y, flags y = flags x ∧ nbRunning (bd_manager x) ≤ nbRunning (bd_manager y) ∧
      ∃ tr b', runs numThreads_ b tr b' ∧ at_rest y b' ∧ b_failed b' = b_failed b) y).
  { intros y Hy Hyr Hym. eapply wp_mono; [by eapply finish_sim| |done]. intros [] z (b' & Hstep & Hz & Hf & Hzm & Hzr).
    split_and!; [congruence|by rewrite Hzm, Hym|]. exists [Finish r], b'. split_and!; [|done|done].
    apply (runs_snoc _ _ [] b); [constructor|done]. }
  apply wp_bind. eapply wp_readRule_b; [exact Hr|]. destruct (Rule.isPhony rd) eqn:Hph; [by apply Hfin|].
  apply wp_bind. apply (wp_foreach (λ _ y, same_but_files x y)); [by split_and!| |].
  { intros pre o post y Hl Hy. destruct (so_output _ Hok r rd o Hr) as (nd & Hnd & _); [rewrite Hl; set_solver|].
    apply wp_bind. eapply wp_readNode_b; [by rewrite (proj1 Hy)|].
    eapply wp_mono; [apply createPath_any| |done]. intros [] z Hz. by eapply same_but_files_trans. }
  intros y Hy. rewrite (sm_depfile _ _ _ Hs r rd Hr). apply wp_bind, wp_ret.
  assert (Hry : g_rules (w_g (bd_w y)) !! r = Some rd) by (by rewrite (proj1 Hy)).
  pose proof (sim_files _ _ _ _ Hy Hs) as Hsy. destruct Hy as (Ewg & Epl & Em & Eres & _).
  apply wp_bind. eapply wp_mono; [apply (tryCache_spec r rd y Hry); [by rewrite Ewg|apply Hsy]| |done].
  intros [] z Hz.
  - destruct Hz as ([t Hzg] & Hzp & Hzm & Hzr & Hzi). apply Hfin; [|congruence|congruence].
    destruct Hsy. split; rewrite ?Hzg, ?Hzp, ?Hzm; try done.
    + rewrite Ewg in *. etrans; [exact sm_graph0|]. apply stamp_build.
    + intros q qd Hq. assert (Hsh : same_shape (stamp r t (w_g (bd_w y))) (w_g (bd_w y))) by (symmetry; apply stamp_hashes).
      destruct (same_shape_rule _ _ _ _ Hsh Hq) as (qd0 & Hqd0 & Hqs). rewrite <- (hasDepfile_shape _ _ Hqs). by eapply sm_depfile0.
  - pose proof (sim_files _ _ _ _ Hz Hsy) as Hsz. destruct Hz as (Ezg & Ezp & Ezm & Ezr & _).
    apply wp_bind, wp_mget, wp_bind, wp_zoom, wp_zoom. cbn [lget lset b_mc l_m mc_m].
    destruct (env_start_ok (bd_manager z)) as (out & err & pid & -> & H1 & H2 & H3 & H4 & H5).
    eapply wp_mono; [apply addProcess_spec; try done; [apply Hsz|]| |done].
    { unfold Rule.isPhony in Hph. by apply bool_decide_eq_false in Hph. }
    intros id m' (Hok' & _ & _ & Hfi & p & Hp & Hru & Hma & _). apply wp_tell. intros z' (F1&F2&F3&F4). cbn in *.
    assert (Hnb : nbRunning m' = S (nbRunning (bd_manager z))) by (unfold nbRunning; rewrite Hru, Hfi; simpl; lia).
    split_and!; [unfold flags in *; cbn in *; congruence|rewrite F3, Hnb, Ezm, Em; lia|]. exists [], b. split_and!; [constructor| |done]. split.
    + eapply (sim_process r p z); rewrite ?F1, ?F2, ?F3; done.
    + rewrite Heq, F1, F2. congruence.
Qed.

(** *** Waiting for a command *)

(** The process that ended hands its rule over. *)
Lemma sim_handed p r x y b :
  sim ∅ x b → bd_w y = bd_w x → bd_plan y = bd_plan x → manager_ok (bd_manager y) →
  handed_out p (bd_manager x) (bd_manager y) → mapToRule_ (bd_manager x) !! p = Some r →
  sim {[r]} y b ∧ nbRunning (bd_manager x) = S (nbRunning (bd_manager y)).
Proof.
  intros Hs Ew Ep Hok (Hm & Hperm & _) Hp. destruct Hs.
  assert (Hn : nbRunning (bd_manager x) = S (nbRunning (bd_manager y))).
  { apply Permutation_length in Hperm. simpl in Hperm. rewrite !length_app in Hperm. exact Hperm. }
  split; [|done]. split; rewrite ?Ew, ?Ep, ?Hm; try done.
  - intros q. rewrite sm_run0. split.
    + intros [?|[p' Hq]]; [set_solver|]. destruct (decide (p = p')) as [<-|Hne]; [left; set_solver|].
      right. exists p'. by rewrite lookup_delete_ne.
    + intros [->%elem_of_singleton|[p' [_ Hq]%lookup_delete_Some]]; right; by eexists.
  - intros q p' [Hne Hq]%lookup_delete_Some ->%elem_of_singleton. apply Hne. by eapply sm_inj0.
  - intros p1 p2 q [_ H1]%lookup_delete_Some [_ H2]%lookup_delete_Some. by eapply sm_inj0.
  - rewrite sm_size0, size_singleton, size_empty. lia.
Qed.

Definition result_ok (res : BuildResult) b b' : Prop :=
  (res = SUCCEEDED → b_failed b' = b_failed b) ∧ (res ≠ SUCCEEDED → b_failed b' ≠ ∅).

Lemma saveRule_any r x :
  is_Some (g_rules (w_g (bd_w x)) !! r) → Inv (bd_w x) →
  returns (mwhen cache_ (onWorld (CacheManager.saveRule r))) (λ _ y, same_but_files x y) x.
Proof.
  intros Hr Hi. unfold mwhen. destruct (Sumbool.sumbool_of_bool cache_) as [Hc|Hc]; rewrite Hc; [|by apply wp_ret].
  apply wp_zoom. cbn [lget b_world]. eapply wp_mono; [by apply (bc_save (bd_w x) r)| |done].
  intros [] w' [Hg Hi']. by split_and!.
Qed.

Lemma wait_sim targets x b :
  at_rest x b → schedule_ok targets b → 0 < nbRunning (bd_manager x) →
  returns (waitForNext cache_ watchmanClient_ wm_fuel hash_fuel) (λ res y, flags y = flags x ∧
    nbRunning (bd_manager x) = S (nbRunning (bd_manager y)) ∧
    ∃ e b', bstep numThreads_ b e b' ∧ at_rest y b' ∧ result_ok res b b') x.
Proof.
  intros [Hs Heq] Hb Hpos. apply wp_bind, wp_tick. intros k x1 (E1&E2&E3&E4).
  apply wp_bind, wp_zoom. cbn [lget b_mc]. destruct (env_polls_ok k) as [Hgood Hhang].
  eapply wp_mono; [apply waitForNext_spec; cbn [mc_m]; rewrite ?E3; try done| |done].
  - apply Hs.
  - intros Hnil. apply (f_equal length) in Hnil. rewrite length_app in Hnil. simpl in Hnil. unfold nbRunning in Hpos. lia.
  - intros [[r st id] rest] [m' c'] (Hok' & p & Hh & Hp & _). cbn [mc_m lset b_mc fst rule status cmdId] in *. rewrite E3 in Hh, Hp.
    set (x2 := set_mc (mkMC m' c') x1). destruct (sim_handed p r x x2 b) as [Hs2 Hn]; try done.
    apply wp_bind, wp_tell. intros x3 Hx3. pose proof (sim_core _ _ _ _ Hx3 Hs2) as Hs3. destruct Hx3 as (F1&F2&F3&F4).
    assert (Hr : r ∈ b_running b) by (apply (sm_run _ _ _ Hs2); set_solver).
    destruct (sc_busy _ _ Hb r) as (Hin & _); [set_solver|]. destruct (sc_rules _ _ Hb r Hin) as [rd0 Hrd0].
    destruct (build_rule _ _ _ _ (sm_graph _ _ _ Hs3) Hrd0) as (rd & Hrd & _).
    apply wp_bind. eapply wp_stamp; [exact Hrd|].
    set (x4 := set_world _ x3).
    assert (Hs4 : sim {[r]} x4 b).
    { destruct Hs3. split; try done.
      - etrans; [exact sm_graph0|]. apply stamp_build.
      - cbn. apply bc_graph; [done|apply stamp_hashes].
      - intros q qd Hq. assert (Hsh : same_shape (stamp r (env_time k) (w_g (bd_w x3))) (w_g (bd_w x3))) by (symmetry; apply stamp_hashes).
        destruct (same_shape_rule _ _ _ _ Hsh Hq) as (qd0 & Hqd0 & Hqs). rewrite <- (hasDepfile_shape _ _ Hqs). by eapply sm_depfile0. }
    assert (H4 : flags x4 = flags x ∧ nbRunning (bd_manager x) = S (nbRunning (bd_manager x4))).
    { unfold flags in *. cbn in *. rewrite F3. split; [congruence|done]. }
    destruct (decide (st = SUCCEEDED)) as [->|Hst].
    + rewrite bool_decide_eq_true_2 by done. cbn [negb].
      assert (Hr4 : ∃ rd', g_rules (w_g (bd_w x4)) !! r = Some rd') by (destruct (build_rule _ _ _ _ (sm_graph _ _ _ Hs4) Hrd0) as (? & ? & _); by eexists).
      destruct Hr4 as [rd' Hr4]. apply wp_bind. eapply wp_readRule_b; [exact Hr4|].
      rewrite (sm_depfile _ _ _ Hs4 r rd' Hr4). apply wp_bind, wp_ret. cbn [negb]. apply wp_bind.
      eapply wp_mono; [apply (saveRule_any r x4); [by eexists|apply Hs4]| |done]. intros [] x5 Hx5.
      pose proof (sim_files _ _ _ _ Hx5 Hs4) as Hs5. destruct Hx5 as (G1&G2&G3&G4&_).
      apply wp_bind. eapply wp_mono; [by eapply finish_sim| |done]. intros [] y (b' & Hstep & Hy & Hf & Hym & Hyr).
      apply wp_ret. split_and!; [rewrite Hyr, G4; apply H4|rewrite Hym, G3; apply H4|].
      exists (Finish r), b'. split_and!; [done|done|]. split; [done|done].
    + rewrite bool_decide_eq_false_2 by done. cbn [negb]. apply wp_ret. split_and!; [apply H4|apply H4|].
      destruct (failed_sim r x4 b Hs4) as [Hstep Hy]. eexists (Failed r), _. split_and!; [exact Hstep|exact Hy|]. split.
      * case_bool_decide; discriminate.
      * intros _. cbn. set_solver.
Qed.

(** *** The loops *)

Lemma at_rest_work targets x b :
  at_rest x b → schedule_ok targets b → BuildPlan.hasWork (bd_plan x) = true → BuildPlan.done (b_plan b) = false.
Proof.
  intros [Hs Heq] Hb Hw. rewrite <- (sm_plan _ _ _ Hs) in Hw.
  destruct (findWork_spec (b_ps b) Hw) as (r & Hr & _). apply not_true_iff_false. intros Hd%(done_iff targets); [|done].
  destruct (sc_ready _ _ Hb r Hr) as (Hin & Hdi & _ & Hnb). rewrite <- Hd in Hin. unfold started in Hin.
  apply elem_of_filter in Hin as [[?|?] _]; [congruence|done].
Qed.

(** Handing out a rule. *)
Lemma start_sim targets x b :
  at_rest x b → schedule_ok targets b → b_failed b = ∅ → BuildPlan.hasWork (bd_plan x) = true →
  nbRunning (bd_manager x) < numThreads_ →
  returns (zoom b_pstate findWork) (λ o y, ∃ r b', o = Some r ∧ bstep numThreads_ b (Start r) b' ∧
    sim {[r]} y b' ∧ b_ps b' = mkP (bd_plan y) (w_g (bd_w y)) ∧ b_failed b' = ∅ ∧
    bd_manager y = bd_manager x ∧ flags y = flags x) x.
Proof.
  intros Hrest Hb Hf Hw Hn. pose proof (at_rest_work targets x b Hrest Hb Hw) as Hnd. destruct Hrest as [Hs Heq].
  assert (Hwb : BuildPlan.hasWork (p_plan (b_ps b)) = true) by (rewrite Heq; exact Hw).
  destruct (findWork_spec _ Hwb) as (r & Hr & Hfw). pose proof (sm_size _ _ _ Hs) as Hsz. rewrite size_empty in Hsz. simpl in Hsz.
  destruct (sc_ready _ _ Hb r Hr) as (_ & _ & _ & Hnb). assert (Hnr : r ∉ b_running b) by set_solver.
  apply wp_zoom. cbn [lget lset b_pstate]. rewrite Heq in Hfw. unfold wp. rewrite Hfw. cbn [p_plan p_g].
  exists r, (mkB (mkP (BuildPlan.start r (bd_plan x)) (w_g (bd_w x))) ({[r]} ∪ b_running b) (b_failed b)).
  split_and!; [done| | |done|exact Hf|done|done].
  - eapply bstep_start; [done|done|by rewrite <- (sm_plan _ _ _ Hs) in Hw|by rewrite Hsz|by rewrite Heq].
  - assert (Hg0 : w_g (set_g (w_g (bd_w x)) (bd_w x)) = w_g (bd_w x)) by done.
    destruct Hs. split; cbn; try done.
    + intros q. rewrite elem_of_union, sm_run0. set_solver.
    + intros q p Hq ->%elem_of_singleton. apply Hnr, sm_run0. right. by exists p.
    + rewrite size_union by set_solver. rewrite Hsz. done.
    + by replace (set_g (w_g (bd_w x)) (bd_w x)) with (bd_w x) by by destruct (bd_w x).
Qed.

Definition unstarted b : nat := size (BuildPlan.rules_ (b_plan b)) - size (started b).

Lemma unstarted_runs targets b tr b' :
  schedule_ok targets b → runs numThreads_ b tr b' → unstarted b' ≤ unstarted b.
Proof.
  intros Hb Hr. destruct (runs_inv _ _ _ _ _ Hb Hr) as (_ & HR & _ & Hst & _). unfold unstarted. rewrite HR.
  assert (size (started b) ≤ size (started b')); [|lia]. apply subseteq_size. intros r Hin. apply Hst. by left.
Qed.

Lemma unstarted_start targets b r b' :
  schedule_ok targets b → bstep numThreads_ b (Start r) b' → unstarted b = S (unstarted b').
Proof.
  intros Hb Hs. destruct (bstep_inv _ _ _ _ _ Hb Hs) as (_ & HR & _ & _ & Hns & _ & Heq & _).
  pose proof (started_size b') as Hle. unfold unstarted. rewrite HR in *. rewrite Heq in *.
  rewrite (size_union {[r]} (started b)) in * by set_solver. rewrite size_singleton in *. lia.
Qed.

Lemma spawn_sim targets fuel : ∀ x b,
  at_rest x b → schedule_ok targets b → b_failed b = ∅ → unstarted b < fuel →
  returns (spawn cache_ numThreads_ fuel) (λ _ y, flags y = flags x ∧
    nbRunning (bd_manager x) ≤ nbRunning (bd_manager y) ∧
    ∃ tr b', runs numThreads_ b tr b' ∧ at_rest y b' ∧ b_failed b' = ∅ ∧
      (BuildPlan.hasWork (bd_plan x) = true → nbRunning (bd_manager x) < numThreads_ → tr ≠ [])) x.
Proof.
  induction fuel as [|fuel IH]; intros x b Hrest Hb Hf Hfuel; [lia|]. apply wp_bind, wp_mget.
  destruct (BuildPlan.hasWork (bd_plan x)) eqn:Hw; cbn [andb]; last first.
  { apply wp_ret. split_and!; [done|done|]. exists [], b. split_and!; [constructor|done|done|done]. }
  destruct (nbRunning (bd_manager x) <? numThreads_) eqn:Hn; last first.
  { apply wp_ret. split_and!; [done|done|]. exists [], b. split_and!; [constructor|done|done|].
    intros _ Hlt. apply Nat.ltb_ge in Hn. lia. }
  apply Nat.ltb_lt in Hn. apply wp_bind. eapply wp_mono; [by apply (start_sim targets x b)| |done].
  intros o y (r & b1 & -> & Hstep & Hs1 & Heq1 & Hf1 & Hym & Hyr).
  destruct (bstep_inv _ _ _ _ _ Hb Hstep) as (Hb1 & _). pose proof (unstarted_start _ _ _ _ Hb Hstep) as Hu.
  apply wp_bind. eapply wp_mono; [by eapply buildRule_spec| |done].
  intros [] z (Hzr & Hzn & tr & b2 & Hrun & Hrest2 & Hf2). destruct (runs_inv _ _ _ _ _ Hb1 Hrun) as (Hb2 & _).
  pose proof (unstarted_runs _ _ _ _ Hb1 Hrun) as Hu2.
  eapply wp_mono; [apply (IH z b2); [done|done|congruence|lia]| |done].
  intros [] v (Hvr & Hvn & tr' & b3 & Hrun' & Hrest3 & Hf3 & _).
  split_and!; [congruence|rewrite Hym in Hzn; lia|]. exists ([Start r] ++ (tr ++ tr')), b3. split_and!; [|done|done|done].
  eapply runs_app; [|by eapply runs_app]. apply (runs_snoc _ _ [] b); [constructor|done].
Qed.

(** [result_] tells whether a command failed. *)
Definition result_inv x b : Prop := bd_result x = SUCCEEDED ↔ b_failed b = ∅.

Lemma rest_result x r b : at_rest x b → at_rest (set_result r x) b.
Proof. intros [[] ?]. by split. Qed.

(** Nobody calls [interrupt]. *)
Definition never_interrupted x : Prop := bd_interrupted x = false ∧ ∀ k, env_interrupted k = false.

Lemma main_loop_sim targets fuel : 0 < numThreads_ → ∀ x b,
  at_rest x b → schedule_ok targets b → result_inv x b → work_left b < fuel →
  returns (main_loop cache_ watchmanClient_ numThreads_ wm_fuel hash_fuel fuel) (λ _ y, ∃ tr b',
    runs numThreads_ b tr b' ∧ at_rest y b' ∧ result_inv y b' ∧
    (never_interrupted x → bd_result y = SUCCEEDED → BuildPlan.done (b_plan b') = true)) x.
Proof.
  intros Hnt. induction fuel as [|fuel IH]; intros x b Hrest Hb Hres Hfuel; [lia|].
  apply wp_bind, wp_tick. intros k x1 Hx1. pose proof (rest_core _ _ _ Hx1 Hrest) as Hrest1.
  pose proof (flags_interrupted _ _ (proj2 (proj2 (proj2 Hx1)))) as Hi1.
  assert (Hres1 : result_inv x1 b) by (unfold result_inv; destruct Hx1 as (_&_&_&Hfl); injection Hfl as -> _; done).
  apply wp_bind, wp_modify, wp_bind, wp_mget. set (x2 := set_interrupted _ x1).
  assert (Hrest2 : at_rest x2 b) by (by destruct Hrest1 as [[] ?]).
  assert (Hi2 : never_interrupted x → bd_interrupted x2 = false) by (intros [H1 H2]; cbn; by rewrite Hi1, H1, H2).
  case_bool_decide as Hr; cbn [andb]; [|apply wp_ret; exists [], b; split_and!; [constructor|done|done|by intros _ ?]].
  destruct (BuildPlan.done (bd_plan x2)) eqn:Hd; cbn [negb andb].
  { apply wp_ret. exists [], b. split_and!; [constructor|done|done|]. intros _ _. destruct Hrest2 as [Hs2 _].
    by rewrite (sm_plan _ _ _ Hs2). }
  destruct (bd_interrupted x2) eqn:Hi; cbn [negb].
  { apply wp_ret. exists [], b. split_and!; [constructor|done|done|]. intros Hni. pose proof (Hi2 Hni). congruence. }
  assert (Hf : b_failed b = ∅) by by apply Hres1. pose proof Hrest2 as [Hs2 _].
  apply wp_bind. eapply wp_mono; [apply (spawn_sim targets _ x2 b Hrest2 Hb Hf)| |done].
  { unfold unstarted. rewrite (sm_plan _ _ _ Hs2). lia. }
  intros [] y (Hyr & Hyn & tr & b1 & Hrun & Hrest3 & Hf1 & Hwork).
  destruct (runs_inv _ _ _ _ _ Hb Hrun) as (Hb1 & _). pose proof (runs_work _ _ _ _ _ Hb Hrun) as Hwl.
  apply wp_bind, wp_mget, wp_bind. unfold mwhen. destruct (0 <? nbRunning (bd_manager y)) eqn:Hpos.
  - apply Nat.ltb_lt in Hpos. apply wp_bind. eapply wp_mono; [by eapply wait_sim| |done].
    intros res z (Hzf & _ & e & b2 & Hstep & Hrest4 & Hok). apply wp_modify.
    pose proof (bstep_work _ _ _ _ _ Hb1 Hstep) as Hwl2. destruct (bstep_inv _ _ _ _ _ Hb1 Hstep) as (Hb2 & _).
    eapply wp_mono; [apply (IH (set_result res z) b2); [by apply rest_result|done| |lia]| |done].
    + unfold result_inv. cbn. destruct Hok as [H1 H2]. split; [intros Heq; by rewrite H1|].
      intros He. destruct (decide (res = SUCCEEDED)) as [?|Hne]; [done|]. by destruct (H2 Hne).
    + intros [] v (tr' & b3 & Hrun' & Hrest5 & Hres5 & Hdone). exists ((tr ++ [e]) ++ tr'), b3.
      split_and!; [eapply runs_app; [by eapply runs_snoc|done]|done|done|].
      intros Hni. apply Hdone. split; [|apply Hni]. cbn.
      by rewrite (flags_interrupted _ _ Hzf), (flags_interrupted _ _ Hyr).
  - apply wp_ret. apply Nat.ltb_ge in Hpos.
    assert (Hne : tr ≠ []).
    { apply Hwork; [|lia]. rewrite <- (sm_plan _ _ _ Hs2). apply (idle_has_work targets b Hb); [|done|].
      - apply leibniz_equiv, size_empty_inv. pose proof (sm_size _ _ _ Hs2) as Hsz. rewrite size_empty in Hsz. lia.
      - by rewrite (sm_plan _ _ _ Hs2). }
    eapply wp_mono; [apply (IH y b1); [done|done| |]| |done].
    + unfold result_inv. rewrite (flags_result _ _ Hyr). split; [done|]. intros _. exact Hr.
    + destruct tr; [done|]. simpl in Hwl. lia.
    + intros [] v (tr' & b3 & Hrun' & Hrest5 & Hres5 & Hdone). exists (tr ++ tr'), b3.
      split_and!; [by eapply runs_app|done|done|].
      intros Hni. apply Hdone. split; [|apply Hni]. by rewrite (flags_interrupted _ _ Hyr).
Qed.

Lemma flush_sim targets fuel : ∀ x b,
  at_rest x b → schedule_ok targets b → result_inv x b → nbRunning (bd_manager x) < fuel →
  returns (flush cache_ watchmanClient_ wm_fuel hash_fuel fuel) (λ _ y, ∃ tr b',
    runs numThreads_ b tr b' ∧ at_rest y b' ∧ result_inv y b' ∧ nbRunning (bd_manager y) = 0) x.
Proof.
  induction fuel as [|fuel IH]; intros x b Hrest Hb Hres Hfuel; [lia|]. apply wp_bind, wp_mget.
  destruct (0 <? nbRunning (bd_manager x)) eqn:Hpos; last first.
  { apply wp_ret. exists [], b. apply Nat.ltb_ge in Hpos. split_and!; [constructor|done|done|lia]. }
  apply Nat.ltb_lt in Hpos. apply wp_bind. eapply wp_mono; [by eapply wait_sim| |done].
  intros res y (Hyr & Hyn & e & b1 & Hstep & Hrest1 & Hok). destruct (bstep_inv _ _ _ _ _ Hb Hstep) as (Hb1 & _).
  apply wp_bind, wp_modify. set (z := if bool_decide _ then _ else _).
  assert (at_rest z b1 ∧ result_inv z b1 ∧ bd_manager z = bd_manager y) as (Hrest2 & Hres2 & Hzm).
  { subst z. destruct Hok as [H1 H2]. unfold result_inv in *. rewrite <- (flags_result _ _ Hyr) in Hres. case_bool_decide as Hr.
    - split_and!; [by apply rest_result| |done]. cbn. split.
      + intros Heq. rewrite H1 by done. by apply Hres.
      + intros He. destruct (decide (res = SUCCEEDED)) as [?|Hne]; [done|]. by destruct (H2 Hne).
    - split_and!; [done| |done]. split; [done|]. intros He. exfalso. apply Hr, Hres.
      destruct (decide (res = SUCCEEDED)) as [Hs|Hne]; [by rewrite <- H1|by destruct (H2 Hne)]. }
  eapply wp_mono; [apply (IH z b1); [done|done|done|rewrite Hzm; lia]| |done].
  intros [] v (tr & b2 & Hrun & ?). exists ([e] ++ tr), b2. split; [|done]. eapply runs_app; [|done].
  apply (runs_snoc _ _ [] b); [constructor|done].
Qed.

Lemma runs_failed b tr b' : runs numThreads_ b tr b' → b_failed b ⊆ b_failed b'.
Proof. induction 1 as [|tr b1 e b2 _ IH Hstep]; [done|]. destruct Hstep; cbn; set_solver. Qed.

Lemma runs_done targets b tr b' :
  schedule_ok targets b → runs numThreads_ b tr b' → BuildPlan.done (b_plan b) = true → BuildPlan.done (b_plan b') = true.
Proof.
  intros Hb Hr Hd. destruct (runs_inv _ _ _ _ _ Hb Hr) as (Hb' & HR & _ & Hst & _).
  apply (done_iff targets) in Hd; [|done]. apply (done_iff targets); [done|]. rewrite HR, <- Hd.
  apply set_eq. intros r. rewrite Hst. split; [|auto]. intros [?|Hin]; [done|].
  assert (r ∈ started b') as Hr' by (apply Hst; by right). unfold started in Hr'. apply elem_of_filter in Hr' as [_ Hr'].
  rewrite HR in Hr'. by rewrite Hd.
Qed.

(** The builder as it is constructed for a plan. *)
Definition fresh_builder x b : Prop :=
  bd_manager x = newManager ∧ bd_result x = SUCCEEDED ∧ b = mkB (mkP (bd_plan x) (w_g (bd_w x))) ∅ ∅.

Lemma fresh_rest x b :
  fresh_builder x b → Inv (bd_w x) → (∀ r rd, g_rules (w_g (bd_w x)) !! r = Some rd → Rule.hasDepfile rd = false) →
  at_rest x b ∧ result_inv x b.
Proof.
  intros (Hm & Hr & ->) Hi Hd. split; [|done]. split; [|done]. split; rewrite ?Hm; try done.
  - apply newManager_ok.
  - intros r. cbn. split; [set_solver|]. intros [?|[p Hp]]; [set_solver|]. by rewrite lookup_empty in Hp.
Qed.

Lemma buildThread_runs targets fuel x b s :
  settled s → acyclic s → (∀ t, t ∈ targets → is_Some (g_nodes s !! t)) → 0 < numThreads_ →
  initial s targets b → fresh_builder x b → Inv (bd_w x) →
  (∀ r rd, g_rules s !! r = Some rd → Rule.hasDepfile rd = false) →
  2 * size (BuildPlan.rules_ (bd_plan x)) < fuel →
  returns (buildThread cache_ watchmanClient_ numThreads_ wm_fuel hash_fuel fuel) (λ res y, ∃ tr b',
    runs numThreads_ b tr b' ∧ b_ps b' = mkP (bd_plan y) (w_g (bd_w y)) ∧ b_running b' = ∅ ∧
    Inv (bd_w y) ∧ nbRunning (bd_manager y) = 0 ∧ (res = SUCCEEDED ↔ b_failed b' = ∅) ∧
    (res = SUCCEEDED → never_interrupted x →
       (∀ r, needed s targets r → Finish r ∈ tr ∧ rule_dirty (w_g (bd_w y)) r = false) ∧
       (∀ t r, t ∈ targets → ¬ needs (w_g (bd_w y)) t r))) x.
Proof.
  intros Hset Hac Hex Hnt Hinit Hfresh Hi Hdep Hfuel.
  destruct (initial_plan s targets b Hset Hac Hex Hinit) as (Hg & Hinv & Hcov).
  pose proof (initial_schedule s targets b Hset Hac Hex Hinit) as Hb.
  pose proof (initial_work s targets b Hset Hac Hex Hinit) as Hwl.
  destruct (fresh_rest x b Hfresh Hi) as [Hrest Hres].
  { destruct Hfresh as (_ & _ & ->). cbn in Hg. by rewrite Hg. }
  assert (Hp : b_plan b = bd_plan x) by by destruct Hfresh as (_ & _ & ->).
  apply wp_bind. eapply wp_mono; [apply (main_loop_sim targets fuel Hnt x b Hrest Hb Hres); by rewrite Hwl, Hp| |done].
  intros [] y (tr & b1 & Hrun & Hrest1 & Hres1 & Hdone). destruct (runs_inv _ _ _ _ _ Hb Hrun) as (Hb1 & _).
  apply wp_bind, wp_mget, wp_bind. eapply wp_mono; [apply (flush_sim targets _ y b1 Hrest1 Hb1 Hres1); lia| |done].
  intros [] z (tr' & b2 & Hrun' & [Hs2 Heq2] & Hres2 & Hn). apply wp_bind, wp_mget, wp_ret.
  assert (Hempty : b_running b2 = ∅).
  { apply leibniz_equiv, size_empty_inv. rewrite (sm_size _ _ _ Hs2), size_empty, Hn. done. }
  pose proof (runs_app _ _ _ _ _ _ Hrun Hrun') as Hrun2. exists (tr ++ tr'), b2.
  split_and!; [done|done|done|apply Hs2|done|done|]. intros Hsucc Hni.
  assert (Hf2 : b_failed b2 = ∅) by by apply Hres2.
  assert (Hf1 : b_failed b1 = ∅) by (pose proof (runs_failed _ _ _ Hrun'); set_solver).
  assert (Hd : BuildPlan.done (b_plan b2) = true).
  { eapply runs_done; [exact Hb1|exact Hrun'|]. apply Hdone; [done|]. by apply Hres1. }
  destruct (runs_from_initial s targets numThreads_ b Hset Hac Hex Hinit _ _ Hrun2) as (Hb2 & HR & _ & _ & Hdirty).
  assert (Hg2 : b_graph b2 = w_g (bd_w z)) by by unfold b_graph; rewrite Heq2.
  destruct (finished_all s targets b b2 (tr ++ tr') Hinv Hcov Hb2 HR Hdirty Hempty Hf2 Hd) as [H1 H2].
  rewrite Hg2 in H1, H2. done.
Qed.

(** C12: the build thread does what the transition system of the build allows. On a
    settled acyclic graph without depfiles, with at least one thread, the plan made for
    the targets, and system calls that start, poll and wait for processes without
    failing, it terminates without failing an assertion, whatever the processes print
    and in whatever order they end, without a cache or with one that meets [BuildCache]
    (the policies without git do, on a graph with its hashes); every process has been waited
    for; and what happened is a run of the transition system to the state the thread
    ends in. The result is SUCCEEDED exactly when no command failed; then, if nobody
    interrupted the build, every rule the targets need ran and the targets are up to
    date. *)
Theorem buildThread_refines targets fuel x b s :
  settled s → acyclic s → (∀ t, t ∈ targets → is_Some (g_nodes s !! t)) → 0 < numThreads_ →
  initial s targets b → fresh_builder x b → Inv (bd_w x) →
  (∀ r rd, g_rules s !! r = Some rd → Rule.hasDepfile rd = false) →
  2 * size (BuildPlan.rules_ (bd_plan x)) < fuel →
  returns (buildThread cache_ watchmanClient_ numThreads_ wm_fuel hash_fuel fuel) (λ res y, ∃ tr b',
    runs numThreads_ b tr b' ∧ b_ps b' = mkP (bd_plan y) (w_g (bd_w y)) ∧ b_running b' = ∅ ∧
    nbRunning (bd_manager y) = 0 ∧ (res = SUCCEEDED ↔ b_failed b' = ∅) ∧
    (res = SUCCEEDED → never_interrupted x →
       (∀ r, needed s targets r → Finish r ∈ tr ∧ rule_dirty (w_g (bd_w y)) r = false) ∧
       (∀ t r, t ∈ targets → ¬ needs (w_g (bd_w y)) t r))) x.
Proof using All.
  intros. eapply wp_mono; [by apply buildThread_runs| |done].
  intros res y (tr & b' & ? & ? & ? & _ & ? & ? & ?). by exists tr, b'.
Qed.
End refinement.

(** ** Interrupting, and no threads *)

Section loops.
Context `{Allocator} `{SHA256} `{WatchEnv} `{BuildEnv} {C : Type} `{Consumer C}.
Implicit Types x : Builder C.
Import GraphParallelBuilder.

(** An interruption that finds no command running is not reported: the loop
    ends before the plan is done, and the callback gets SUCCEEDED. *)
Theorem interrupted_succeeds cache watchman numThreads wm_fuel hash_fuel fuel x :
  bd_result x = SUCCEEDED → nbRunning (bd_manager x) = 0 → env_interrupted (bd_clock x) = true →
  returns (buildThread cache watchman numThreads wm_fuel hash_fuel (S fuel))
    (λ res y, res = SUCCEEDED ∧ bd_plan y = bd_plan x ∧ bd_w y = bd_w x) x.
Proof.
  intros Hr Hn Hi. apply wp_bind, wp_bind, wp_bind, wp_mget, wp_bind, wp_mput, wp_ret.
  apply wp_bind, wp_modify, wp_bind, wp_mget. cbn. rewrite Hi, orb_true_r, andb_false_r. apply wp_ret.
  apply wp_bind, wp_mget, wp_bind. cbn. rewrite Hn. apply wp_bind, wp_mget. cbn. rewrite Hn. apply wp_ret.
  by apply wp_bind, wp_mget, wp_ret.
Qed.

(** With no threads, which a client may ask for, the build loop never ends: it
    neither starts nor waits for anything, with the lock of the daemon held. *)
Theorem no_threads_spins cache watchman wm_fuel hash_fuel fuel : ∀ x,
  bd_result x = SUCCEEDED → nbRunning (bd_manager x) = 0 → BuildPlan.done (bd_plan x) = false →
  bd_interrupted x = false → (∀ k, env_interrupted k = false) →
  main_loop cache watchman 0 wm_fuel hash_fuel fuel x = Abort OutOfFuel.
Proof.
  induction fuel as [|fuel IH]; intros x Hr Hn Hd Hi Hk; [done|].
  set (x1 := set_interrupted (bd_interrupted x || env_interrupted (bd_clock x)) (set_clock (S (bd_clock x)) x)).
  transitivity (main_loop cache watchman 0 wm_fuel hash_fuel fuel x1); [|apply IH; cbn; rewrite ?Hi, ?Hk; done].
  cbn [main_loop spawn]. unfold tick, mwhen, mbind, M_bind, mget, modify, mput, mret, M_ret.
  cbn [bd_result bd_plan bd_interrupted set_interrupted set_clock bd_clock bd_manager].
  rewrite Hr, Hd, Hi, Hk, bool_decide_eq_true_2 by done. cbn [negb andb orb].
  replace (_ && (_ <? 0)) with false by (symmetry; apply andb_false_r). cbn. rewrite Hn. cbn. unfold x1. by rewrite Hi, Hk.
Qed.
End loops.

(** ** A build to evaluate *)

(** The kernel hands out the next descriptors; every command succeeds. *)
Definition fresh_fd (X : gset Z) : Z := fresh (X ∪ {[(-1)%Z]}).
Definition good_env : BuildEnv := {|
  env_start := λ m, let X := dom (map_ m) in Started (fresh_fd X) (fresh_fd ({[fresh_fd X]} ∪ X)) 100;
  env_polls := λ _, [all_eof];
  env_wait := λ _ _, Exited 0;
  env_time := λ _, 7%Z;
  env_interrupted := λ _, false |}.

Lemma fresh_fd_spec X : fresh_fd X ∉ X ∧ fresh_fd X ≠ (-1)%Z.
Proof. unfold fresh_fd. pose proof (is_fresh (X ∪ {[(-1)%Z]})). set_solver. Qed.

Lemma good_env_start m : ∃ out err pid, @env_start good_env m = Started out err pid ∧ out ≠ err ∧
  out ≠ (-1)%Z ∧ err ≠ (-1)%Z ∧ map_ m !! out = None ∧ map_ m !! err = None.
Proof.
  cbn. set (X := dom (map_ m)). destruct (fresh_fd_spec X) as [H1 H2], (fresh_fd_spec ({[fresh_fd X]} ∪ X)) as [H3 H4].
  do 3 eexists. split_and!; [reflexivity|set_solver|done|done|apply not_elem_of_dom; set_solver|apply not_elem_of_dom; set_solver].
Qed.

Definition small_builder : Builder (list build_event) :=
  mkBuilder (world_of two_outputs_dirty (mkFS ∅ (λ _, true) 0)) (b_plan two_outputs_start) newManager [] SUCCEEDED false 0.

Lemma buildThread_refines_witness :
  returns (@GraphParallelBuilder.buildThread first_fit sum_sha silent_env good_env (list build_event) _ false false 2 9 9 9)
    (λ res y, ∃ tr b', runs 2 two_outputs_start tr b' ∧ b_ps b' = mkP (bd_plan y) (w_g (bd_w y)) ∧ b_running b' = ∅ ∧
       nbRunning (bd_manager y) = 0 ∧ (res = SUCCEEDED ↔ b_failed b' = ∅) ∧
       (res = SUCCEEDED → @never_interrupted good_env (list build_event) small_builder →
         (∀ r, needed two_outputs_dirty {[4%N]} r → Finish r ∈ tr ∧ rule_dirty (w_g (bd_w y)) r = false) ∧
         (∀ t r, t ∈ ({[4%N]} : gset N) → ¬ needs (w_g (bd_w y)) t r))) small_builder.
Proof.
  apply (@buildThread_refines first_fit sum_sha silent_env good_env (list build_event) _ log_total
    false false 2 9 9 (λ _, True) no_cache good_env_start).
  - intros k. split; [repeat constructor|].
    + eexists. split; [reflexivity|]. intros fd ev [= <-] errno. done.
    + apply Exists_cons_hd. by exists (λ _, Some Eof).
  - done.
  - exact two_outputs_settled.
  - exact two_outputs_dirty_acyclic.
  - exact two_outputs_targets.
  - lia.
  - exact two_outputs_initial.
  - split_and!; [done|done|]. vm_compute. reflexivity.
  - done.
  - intros r rd Hr. cut (all_rules two_outputs_dirty (λ _ rd, negb (Rule.hasDepfile rd)) = true); [|vm_compute; reflexivity].
    intros Ha. apply negb_true_iff. exact (all_rules_spec _ _ _ _ Ha Hr).
  - vm_compute. lia.
Defined.

Definition interrupting_env : BuildEnv := {|
  env_start := @env_start good_env; env_polls := @env_polls good_env; env_wait := @env_wait good_env;
  env_time := @env_time good_env; env_interrupted := λ _, true |}.
Lemma interrupted_succeeds_witness :
  returns (@GraphParallelBuilder.buildThread first_fit sum_sha silent_env interrupting_env (list build_event) _ false false 2 9 9 3)
    (λ res y, res = SUCCEEDED ∧ bd_plan y = bd_plan small_builder ∧ bd_w y = bd_w small_builder) small_builder.
Proof. apply (@interrupted_succeeds first_fit sum_sha silent_env interrupting_env); reflexivity. Defined.

Lemma no_threads_spins_witness :
  @GraphParallelBuilder.main_loop first_fit sum_sha silent_env good_env (list build_event) _ false false 0 9 9 100 small_builder
    = Abort OutOfFuel.
Proof. apply (@no_threads_spins first_fit sum_sha silent_env good_env); [reflexivity|reflexivity|vm_compute; reflexivity|reflexivity|done]. Defined.

(** The events the consumer of this build sees. *)
Example small_build :
  match @GraphParallelBuilder.buildThread first_fit sum_sha silent_env good_env (list build_event) _ false false 2 9 9 9 small_builder with
  | Ret res y => (res, bd_consumer y, node_dirty (w_g (bd_w y)) 4)
  | _ => (UNKNOWN, [], true)
  end = (SUCCEEDED, [ECommand 0 (String.list_ascii_of_string "gen"); EStatus 0 SUCCEEDED], false).
Proof. vm_compute. reflexivity. Qed.
