(* ===== verification/EventLog.v ===== *)
(** * What a build reports

    The build thread (Builder.v) never looks at its consumer: it does with any
    consumer what it does with one that only keeps a log, if that consumer takes the
    events of the log ([replays], one lemma per operation).  The log starts with a
    command or with a file of the cache, never with output, which is what the
    stream server relies on ([reports_ok]). *)

From Stdlib Require Import Ascii.
From S2P Require Import Watchman StreamServer StreamBuild SubProcess Prelude GraphModel BuildPlan BuildCore.
From S2P Require Import DepfileParser Fs Cache World Hash LazyCache Builder.

Notation Log := (list build_event).

(** ** States with a consumer in them *)

Class Holder (S : Type → Type) := {
  held {C} : S C → C;
  hold {C D} : D → S C → S D;
  held_hold {C D} (d : D) (s : S C) : held (hold d s) = d;
  hold_hold {C D E} (e : E) (d : D) (s : S C) : hold e (hold d s) = hold e s;
}.
#[export] Instance holder_MC : Holder MC.
Proof.
  refine {| held := @mc_c; hold := λ C D c (s : MC C), mkMC (mc_m s) c |}; done.
Defined.
#[export] Instance holder_Builder : Holder Builder.
Proof.
  refine {| held := @bd_consumer; hold := λ C D c (s : Builder C),
    mkBuilder (bd_w s) (bd_plan s) (bd_manager s) c (bd_result s) (bd_interrupted s) (bd_clock s) |}; done.
Defined.

Definition replay {C} `{Consumer C} (es : Log) : M C unit := foreach es consume.

Lemma replay_app {C} `{Consumer C} es es' (c c' : C) :
  replay (es ++ es') c = Ret tt c' ↔ ∃ c1, replay es c = Ret tt c1 ∧ replay es' c1 = Ret tt c'.
Proof.
  revert c. induction es as [|e es IH]; intros c; cbn [app replay foreach].
  - split; [intros Hc; by exists c|by intros (c1 & [= ->] & Hc)].
  - unfold mbind, M_bind. destruct (consume e c) as [[] c2| |]; [apply IH|naive_solver|naive_solver].
Qed.

(** ** Two runs of the same program *)

Section replays.
Context {S : Type → Type} `{Holder S} {C : Type} `{Consumer C}.

(** When [m] returns with a log, [m'] returns with any consumer that takes what was
    added to the log, and in the same state but for the consumer. *)
Definition replays {A} (m : M (S Log) A) (m' : M (S C) A) : Prop := ∀ s c a s', m s = Ret a s' →
  ∃ es, held s' = held s ++ es ∧ ∀ c', replay es c = Ret tt c' → m' (hold c s) = Ret a (hold c' s').

Lemma replays_ret {A} (a : A) : replays (mret a) (mret a).
Proof. intros s c b s' [= <- <-]. exists []. rewrite app_nil_r. split; [done|]. by intros c' [= ->]. Qed.
Lemma replays_bind {A B} (m : M (S Log) A) m' (f : A → M (S Log) B) f' :
  replays m m' → (∀ a, replays (f a) (f' a)) → replays (m ≫= f) (m' ≫= f').
Proof.
  intros Hm Hf s c b s' Hs. unfold mbind, M_bind in Hs. destruct (m s) as [a s1| |] eqn:E; [|done|done].
  destruct (Hm s c a s1 E) as (es1 & Hes1 & H1), (Hf a s1 c b s' Hs) as (es2 & Hes2 & _).
  exists (es1 ++ es2). split; [by rewrite Hes2, Hes1, (assoc_L (++))|]. intros c' (c1 & Hc1 & Hc')%replay_app.
  destruct (Hf a s1 c1 b s' Hs) as (es2' & Hes2' & H2). assert (es2' = es2) as -> by (apply (app_inv_head (held s1)); congruence).
  unfold mbind, M_bind. rewrite (H1 c1 Hc1). by apply H2.
Qed.
Lemma replays_get {A} (f : S Log → M (S Log) A) f' : (∀ s c, replays (f s) (f' (hold c s))) → replays (mget ≫= f) (mget ≫= f').
Proof. intros Hf s c a s' Hs. by apply (Hf s c s c). Qed.
Lemma replays_modify (f : S Log → S Log) (f' : S C → S C) :
  (∀ s, held (f s) = held s) → (∀ s c, f' (hold c s) = hold c (f s)) → replays (modify f) (modify f').
Proof.
  intros Hh Hf s c a s' [= <- <-]. exists []. rewrite app_nil_r. split; [done|]. intros c' [= <-]. unfold modify. by rewrite Hf.
Qed.
Lemma replays_abort {A} r : replays (mabort r : M (S Log) A) (mabort r).
Proof. by intros s c a s'. Qed.
Lemma replays_throw {A} e : replays (mthrow e : M (S Log) A) (mthrow e).
Proof. by intros s c a s'. Qed.
Lemma replays_assert b : replays (massert b) (massert b).
Proof. intros s c a s' Hs. unfold massert in *. destruct b; [|done]. by apply (replays_ret tt s c a). Qed.
Lemma replays_deref {A} (o : option A) : replays (deref o) (deref o).
Proof. intros s c a s' Hs. unfold deref in *. destruct o as [x|]; [|done]. by apply (replays_ret x s c a). Qed.
Lemma replays_gets {A} (f : S Log → A) f' : (∀ s c, f' (hold c s) = f s) → replays (gets f) (gets f').
Proof.
  intros Hf s c a s' [= <- <-]. exists []. rewrite app_nil_r. split; [done|]. intros c' [= <-]. unfold gets. by rewrite Hf.
Qed.
Lemma replays_foreach {A} (l : list A) body body' : (∀ x, replays (body x) (body' x)) → replays (foreach l body) (foreach l body').
Proof. intros Hb. induction l as [|x l IH]; simpl; [apply replays_ret|]. by apply replays_bind. Qed.
Lemma replays_when b m m' : replays m m' → replays (mwhen b m) (mwhen b m').
Proof. destruct b; [done|]. intros _. apply replays_ret. Qed.

(** A part of the state without the consumer. *)
Lemma replays_zoom {T A} (l : lens (S Log) T) (l' : lens (S C) T) (m : M T A) :
  (∀ s c, lget l' (hold c s) = lget l s) → (∀ s c t, lset l' t (hold c s) = hold c (lset l t s)) →
  (∀ s t, held (lset l t s) = held s) → replays (zoom l m) (zoom l' m).
Proof.
  intros Hg Hs Hh s c a s' E. unfold zoom in *. destruct (m (lget l s)) as [b t| |] eqn:Em; [|done|done].
  injection E as <- <-. exists []. rewrite app_nil_r. split; [done|]. intros c' [= <-]. by rewrite Hg, Em, Hs.
Qed.
End replays.

Create HintDb replays.
(** The operations of a computation, one after the other. *)
Ltac replaying := repeat (lazymatch goal with
  | |- replays (mget ≫= _) _ => apply replays_get; intros ? ?; cbn [hold holder_Builder bd_w bd_plan bd_manager bd_result bd_interrupted bd_clock]
  | |- replays (_ ≫= _) _ => apply replays_bind; [|intros ?]
  | |- replays (mret _) _ => apply replays_ret
  | |- replays (mabort _) _ => apply replays_abort
  | |- replays (mthrow _) _ => apply replays_throw
  | |- replays (massert _) _ => apply replays_assert
  | |- replays (deref _) _ => apply replays_deref
  | |- replays (gets _) _ => apply replays_gets; done
  | |- replays (mwhen _ _) _ => apply replays_when
  | |- replays (foreach _ _) _ => apply replays_foreach; intros ?
  | |- replays (modify _) _ => apply replays_modify; intros; cbn; by repeat case_match
  | |- replays (match ?x with _ => _ end) _ => destruct x
  | |- replays _ _ => solve [auto with replays]
  end).

(** *** The subprocesses *)

Section subprocesses.
Context `{Allocator} {C : Type} `{Consumer C}.

Lemma replays_l_m {A} (m : M Manager A) : replays (zoom (@l_m Log) m) (zoom (@l_m C) m).
Proof. by apply replays_zoom. Qed.
Lemma replays_consume e : replays (zoom (@l_c Log) (consume e)) (zoom (@l_c C) (consume e)).
Proof.
  intros s c a s' [= <- <-]. exists [e]. split; [done|]. intros c' Hc. cbn in Hc. unfold mbind, M_bind in Hc.
  unfold zoom. cbn. destruct (consume e c) as [[] c1| |]; [|done|done]. by injection Hc as ->.
Qed.
Hint Resolve replays_l_m replays_consume : replays.

Lemma replays_readFd fd ev : replays (S := MC) (C := C) (readFd fd ev) (readFd fd ev).
Proof. unfold readFd, onFdReady. replaying. Qed.
Hint Resolve replays_readFd : replays.
Lemma replays_run res : replays (S := MC) (C := C) (run res) (run res).
Proof. unfold run. replaying. Qed.
Hint Resolve replays_run : replays.
Lemma replays_run_until polls : replays (S := MC) (C := C) (run_until polls) (run_until polls).
Proof. induction polls as [|res polls IH]; cbn [run_until]; replaying. Qed.
Lemma replays_waitForNext polls wait : replays (S := MC) (C := C) (SubProcess.waitForNext polls wait) (SubProcess.waitForNext polls wait).
Proof. pose proof replays_run_until. unfold SubProcess.waitForNext. replaying. Qed.
End subprocesses.

(** *** The build thread *)

Section thread.
Context `{Allocator} `{SHA256} `{WatchEnv} `{BuildEnv} {C : Type} `{Consumer C}.
Context (cache_ watchmanClient_ : bool) (numThreads_ wm_fuel hash_fuel : nat).
Import GraphParallelBuilder.
Notation sim m m' := (replays (S := Builder) (C := C) m m').

Lemma replays_world {A} (m : M World A) : sim (onWorld m) (onWorld m).
Proof. by apply replays_zoom. Qed.
Lemma replays_graph {A} (m : M GState A) : sim (onGraph m) (onGraph m).
Proof. by apply replays_zoom. Qed.
Lemma replays_pstate {A} (m : M PState A) : sim (zoom b_pstate m) (zoom b_pstate m).
Proof. by apply replays_zoom. Qed.
Lemma replays_b_mc {A} (m : M (MC Log) A) (m' : M (MC C) A) : replays m m' → sim (zoom b_mc m) (zoom b_mc m').
Proof.
  intros Hm s c a s' E. unfold zoom in *. destruct (m (lget b_mc s)) as [b t| |] eqn:Em; [|done|done]. injection E as <- <-.
  destruct (Hm _ c _ _ Em) as (es & Hes & Hr). exists es. split; [exact Hes|]. intros c' Hc.
  change (lget b_mc (hold c s)) with (hold c (lget b_mc s)). by rewrite (Hr c' Hc).
Qed.
Lemma replays_manager {A} (m : M Manager A) : sim (zoom b_mc (zoom l_m m)) (zoom b_mc (zoom l_m m)).
Proof. apply replays_b_mc, replays_l_m. Qed.
Lemma replays_tell e : sim (tell e) (tell e).
Proof. apply replays_b_mc, replays_consume. Qed.
Lemma replays_tick : sim tick tick.
Proof. intros s c a s' [= <- <-]. exists []. rewrite app_nil_r. split; [done|]. by intros c' [= <-]. Qed.

Hint Resolve replays_world replays_graph replays_pstate replays_manager replays_tell replays_tick : replays.

Lemma replays_createPath path : sim (createPath path) (createPath path).
Proof. unfold createPath. replaying. Qed.
Lemma replays_finished rule : sim (onRuleFinished rule) (onRuleFinished rule).
Proof. apply replays_pstate. Qed.
Lemma replays_tryCache rule : sim (tryBuildRuleFromCache cache_ rule) (tryBuildRuleFromCache cache_ rule).
Proof. unfold tryBuildRuleFromCache. replaying. Qed.
Hint Resolve replays_createPath replays_finished replays_tryCache : replays.
Hint Resolve replays_b_mc replays_waitForNext : replays.
Lemma replays_buildRule rule : sim (buildRule cache_ rule) (buildRule cache_ rule).
Proof. unfold buildRule. replaying. Qed.
Hint Resolve replays_buildRule : replays.
Lemma replays_wait : sim (waitForNext cache_ watchmanClient_ wm_fuel hash_fuel) (waitForNext cache_ watchmanClient_ wm_fuel hash_fuel).
Proof. unfold waitForNext. replaying. Qed.
Hint Resolve replays_wait : replays.
Lemma replays_spawn fuel : sim (spawn cache_ numThreads_ fuel) (spawn cache_ numThreads_ fuel).
Proof. induction fuel as [|fuel IH]; cbn [spawn]; replaying. Qed.
Hint Resolve replays_spawn : replays.
Lemma replays_main_loop fuel : sim (main_loop cache_ watchmanClient_ numThreads_ wm_fuel hash_fuel fuel) (main_loop cache_ watchmanClient_ numThreads_ wm_fuel hash_fuel fuel).
Proof. induction fuel as [|fuel IH]; cbn [main_loop]; replaying. Qed.
Hint Resolve replays_main_loop : replays.
Lemma replays_flush fuel : sim (flush cache_ watchmanClient_ wm_fuel hash_fuel fuel) (flush cache_ watchmanClient_ wm_fuel hash_fuel fuel).
Proof. induction fuel as [|fuel IH]; cbn [flush]; replaying. Qed.
Hint Resolve replays_flush : replays.
Lemma replays_buildThread fuel : sim (buildThread cache_ watchmanClient_ numThreads_ wm_fuel hash_fuel fuel) (buildThread cache_ watchmanClient_ numThreads_ wm_fuel hash_fuel fuel).
Proof. unfold buildThread. replaying. Qed.
End thread.

(** ** The first event *)

(** The events that open the array of the stream server. *)
Definition opening (e : build_event) : bool := match e with ECommand _ _ | ECache _ => true | _ => false end.

Lemma reports_later es : reports_ok false es.
Proof. induction es as [|e es IH]; [done|]. split; [by destruct e|by destruct e]. Qed.
Lemma reports_opened e es : opening e = true → reports_ok true (e :: es).
Proof. destruct e; try done; intros _; (split; [done|apply reports_later]). Qed.

(** As long as nothing was reported nothing runs. *)
Definition quiet (m : Manager) : Prop := running_ m = [] ∧ finished_ m = [].
Definition opened (s : Builder Log) : Prop :=
  match bd_consumer s with [] => quiet (bd_manager s) | e :: _ => opening e = true end.

Section opens.
Context `{Allocator} `{SHA256} `{WatchEnv} `{BuildEnv}.
Context (cache_ watchmanClient_ : bool) (numThreads_ wm_fuel hash_fuel : nat).
Import GraphParallelBuilder.

Definition opens {A} (m : M (Builder Log) A) : Prop := ∀ s a s', opened s → m s = Ret a s' → opened s'.

Lemma opens_ret {A} (a : A) : opens (mret a).
Proof. by intros s b s' Hs [= _ <-]. Qed.
Lemma opens_bind {A B} (m : M (Builder Log) A) (f : A → M (Builder Log) B) : opens m → (∀ a, opens (f a)) → opens (m ≫= f).
Proof.
  intros Hm Hf s b s' Hs E. unfold mbind, M_bind in E. destruct (m s) as [a s1| |] eqn:E1; [|done|done].
  eapply Hf; [by eapply Hm|exact E].
Qed.
Lemma opens_get : opens mget.
Proof. by intros s b s' Hs [= _ <-]. Qed.
Lemma opens_abort {A} r : opens (mabort r : M (Builder Log) A).
Proof. by intros s a s'. Qed.
Lemma opens_foreach {A} (l : list A) body : (∀ x, opens (body x)) → opens (foreach l body).
Proof. intros Hb. induction l as [|x l IH]; simpl; [apply opens_ret|]. apply opens_bind; [done|by intros _]. Qed.
Lemma opens_when b m : opens m → opens (mwhen b m).
Proof. destruct b; [done|]. intros _. apply opens_ret. Qed.
Lemma opens_modify f : (∀ s, bd_consumer (f s) = bd_consumer s ∧ bd_manager (f s) = bd_manager s) → opens (modify f).
Proof. intros Hf s a s' Hs [= _ <-]. unfold opened. destruct (Hf s) as [-> ->]. exact Hs. Qed.
Lemma opens_zoom {T A} (l : lens (Builder Log) T) (m : M T A) :
  (∀ s t, bd_consumer (lset l t s) = bd_consumer s ∧ bd_manager (lset l t s) = bd_manager s) → opens (zoom l m).
Proof.
  intros Hl s a s' Hs E. unfold zoom in E. destruct (m (lget l s)) as [b t| |]; [|done|done]. injection E as _ <-.
  unfold opened. destruct (Hl s t) as [-> ->]. exact Hs.
Qed.
Lemma opens_tick : opens tick.
Proof. by intros s a s' Hs [= _ <-]. Qed.
Lemma opens_tell e : opening e = true → opens (tell e).
Proof. intros He s a s' Hs [= _ <-]. unfold opened in *. cbn. by destruct (bd_consumer s). Qed.

(** What was reported stays. *)
Lemma opened_further {A} (m : M (Builder Log) A) s a s' :
  replays m m → bd_consumer s ≠ [] → opened s → m s = Ret a s' → opened s'.
Proof.
  intros Hm Hne Hs E. destruct (Hm s [] a s' E) as (es & Hes & _). cbn in Hes. unfold opened in *. rewrite Hes.
  by destruct (bd_consumer s).
Qed.
(** A wait with nothing running fails its assertion. *)
Lemma opens_waitForNext : opens (waitForNext cache_ watchmanClient_ wm_fuel hash_fuel).
Proof.
  intros s a s' Hs E. destruct (bd_consumer s) as [|e es] eqn:Hc; [|eapply opened_further; [apply replays_wait| |exact Hs|exact E]; congruence].
  exfalso. unfold opened in Hs. rewrite Hc in Hs. destruct Hs as [Hr Hf]. revert E.
  unfold waitForNext, tick, mbind, M_bind, mget, mput, mret, M_ret. cbn.
  unfold zoom, SubProcess.waitForNext, mbind, M_bind, gets. cbn. rewrite Hr, Hf. done.
Qed.
Lemma opens_started {A} (m : M Manager A) e :
  (∀ a, opening (e a) = true) → opens (a ← zoom b_mc (zoom l_m m); tell (e a)).
Proof.
  intros He s [] s' Hs E. unfold mbind, M_bind, zoom at 1 in E. unfold zoom in E at 1. cbn in E.
  destruct (m (bd_manager s)) as [a t| |]; [|done|done]. injection E as <-. unfold opened in *. cbn.
  destruct (bd_consumer s); [apply He|exact Hs].
Qed.

Ltac opening_up := repeat (lazymatch goal with
  | |- opens (mget ≫= _) => apply opens_bind; [apply opens_get|intros ?]
  | |- opens (_ ← zoom b_mc _; tell _) => apply opens_started; done
  | |- opens (_ ≫= _) => apply opens_bind; [|intros ?]
  | |- opens (mret _) => apply opens_ret
  | |- opens (mabort _) => apply opens_abort
  | |- opens (mwhen _ _) => apply opens_when
  | |- opens (foreach _ _) => apply opens_foreach; intros ?
  | |- opens (modify _) => apply opens_modify; intros; by repeat case_match
  | |- opens (zoom _ _) => by apply opens_zoom
  | |- opens (tell _) => by apply opens_tell
  | |- opens (match ?x with _ => _ end) => destruct x
  | |- opens _ => first [done|apply opens_tick|apply opens_waitForNext]
  end).

Lemma opens_buildRule rule : opens (buildRule cache_ rule).
Proof. unfold buildRule, tryBuildRuleFromCache, createPath, onWorld, onGraph, onRuleFinished. opening_up. Qed.
Lemma opens_spawn fuel : opens (spawn cache_ numThreads_ fuel).
Proof. pose proof opens_buildRule. induction fuel as [|fuel IH]; cbn [spawn]; opening_up. Qed.
Lemma opens_main_loop fuel : opens (main_loop cache_ watchmanClient_ numThreads_ wm_fuel hash_fuel fuel).
Proof. pose proof opens_spawn. induction fuel as [|fuel IH]; cbn [main_loop]; opening_up. Qed.
Lemma opens_flush fuel : opens (flush cache_ watchmanClient_ wm_fuel hash_fuel fuel).
Proof. induction fuel as [|fuel IH]; cbn [flush]; opening_up. Qed.
Lemma opens_buildThread fuel : opens (buildThread cache_ watchmanClient_ numThreads_ wm_fuel hash_fuel fuel).
Proof. pose proof opens_main_loop. pose proof opens_flush. unfold buildThread. opening_up. Qed.

(** What a new build thread reports. *)
Lemma buildThread_reports fuel s a s' :
  bd_consumer s = [] → bd_manager s = newManager →
  buildThread cache_ watchmanClient_ numThreads_ wm_fuel hash_fuel fuel s = Ret a s' → reports_ok true (bd_consumer s').
Proof.
  intros Hc Hm E. assert (Hs : opened s) by (unfold opened; by rewrite Hc, Hm).
  pose proof (opens_buildThread fuel s a s' Hs E) as Ho. unfold opened in Ho. destruct (bd_consumer s') as [|e es]; [done|].
  by apply reports_opened.
Qed.
End opens.
