(* ===== verification/StreamConsumer.v ===== *)
(** * The consumer that keeps the output (stream_consumer.cpp)

    IStreamConsumer is the part of the interface [Consumer] (SubProcess.v) that gets
    output.  BufferStreamConsumer keeps it, standard output and errors apart; the
    theorem composes it with the loop of the subprocess manager. *)

From Stdlib Require Import Ascii.
From S2P Require Import StreamServer SubProcess StreamBuild EventLog.
From S2P Require Import Prelude GraphModel.

Module BufferStreamConsumer.
Record t := mk { sscout_ : list ascii; sscerr_ : list ascii }.
Definition new : t := mk [] [].
Definition getStdout (c : t) : list ascii := sscout_ c.
Definition getStderr (c : t) : list ascii := sscerr_ c.
Definition writeStdout (cmdId : N) (buf : list ascii) : M t unit := modify (λ c, mk (sscout_ c ++ buf) (sscerr_ c)).
Definition writeStderr (cmdId : N) (buf : list ascii) : M t unit := modify (λ c, mk (sscout_ c) (sscerr_ c ++ buf)).

(** It is only an IStreamConsumer: nothing tells it about commands and files. *)
#[export] Instance consumer : Consumer t := {| consume := λ e,
  match e with
  | EOutput n l true => writeStdout n l
  | EOutput n l false => writeStderr n l
  | _ => mret tt
  end |}.
#[export] Instance consumer_total : TotalConsumer t.
Proof. intros [| ? ? []| |] c; by eexists. Qed.

(** The output on one of the streams, in the order it was read. *)
Definition output (isStdout : bool) (es : Log) : list ascii :=
  es ≫= λ e, match e with EOutput _ l o => if Bool.eqb o isStdout then l else [] | _ => [] end.

Lemma replay_collects es c : replay es c = Ret tt (mk (sscout_ c ++ output true es) (sscerr_ c ++ output false es)).
Proof.
  revert c. induction es as [|e es IH]; intros [o r]; cbn [replay foreach].
  - cbn. by rewrite !app_nil_r.
  - destruct e as [| ? l []| |]; (etransitivity; [exact (IH _)|]); cbn; by rewrite ?(assoc_L (++)).
Qed.

(** waitForNext reads for the buffer what it reads for a log: what the commands wrote
    on each stream is kept, in order, and nothing else. *)
Theorem collected polls wait (m : Manager) x m' es :
  waitForNext polls wait (mkMC m []) = Ret x (mkMC m' es) →
  ∃ c, waitForNext polls wait (mkMC m new) = Ret x (mkMC m' c) ∧
    getStdout c = output true es ∧ getStderr c = output false es.
Proof.
  intros E. destruct (replays_waitForNext (C := t) polls wait _ new x _ E) as (es' & Hes & Hrun). cbn in Hes. subst es'.
  eexists. split; [exact (Hrun _ (replay_collects es new))|done].
Qed.

(** A character on standard output, then the end of both streams. *)
Example collected_output :
  match waitForNext [some_output; all_eof] (λ _, Exited 0) (mkMC one_running new) with
  | Ret _ s => getStdout (mc_c s) = ["x"%char] ∧ getStderr (mc_c s) = []
  | _ => False
  end.
Proof. vm_compute. done. Qed.
End BufferStreamConsumer.
