(* ===== verification/GraphParser.v ===== *)
(** * The graph file (json/parser.cpp, graphparser.cpp)

    The tree of a JSON document as the callbacks of the tokenizer build it, and the
    graph [processJson] makes of it.  The theorems: whatever the document says, as
    long as every rule has both its fields, the result is an exception or a graph
    with all the invariants, and it is the graph the document describes. *)

From S2P Require Import Prelude GraphModel GraphChecks.

(** ** JsonVal *)

(** [json_type] of json.h. *)
Inductive json_type :=
  | JSON_NONE | JSON_ARRAY_BEGIN | JSON_OBJECT_BEGIN | JSON_ARRAY_END | JSON_OBJECT_END | JSON_INT
  | JSON_FLOAT | JSON_STRING | JSON_KEY | JSON_TRUE | JSON_FALSE | JSON_NULL | JSON_BSTRING.
#[export] Instance json_type_eq_dec : EqDecision json_type.
Proof. solve_decision. Defined.

(** [_object] is a [std::map]: its entries in the order of the keys. *)
Inductive JsonVal := mkJson {
  _type : json_type;
  _array : list JsonVal;
  _object : list (string * JsonVal);
  _data : string;
}.

Definition tree_create_structure (is_object : bool) : JsonVal :=
  mkJson (if is_object then JSON_OBJECT_BEGIN else JSON_ARRAY_BEGIN) [] [] "".
Definition tree_create_data (type : json_type) (data : string) : JsonVal := mkJson type [] [] data.

(** [std::map::insert]: an entry that is there stays. *)
Fixpoint map_insert (key : string) (v : JsonVal) (l : list (string * JsonVal)) : list (string * JsonVal) :=
  match l with
  | [] => [(key, v)]
  | (k, x) :: l' =>
    if decide (k = key) then l
    else if String.ltb key k then (key, v) :: l else (k, x) :: map_insert key v l'
  end.

Definition tree_append (structure : JsonVal) (key : option string) (obj : JsonVal) : JsonVal :=
  match key with
  | Some k => mkJson (_type structure) (_array structure) (map_insert k obj (_object structure)) (_data structure)
  | None => mkJson (_type structure) (_array structure ++ [obj]) (_object structure) (_data structure)
  end.

(** The entry of a map, or in an array the first element that has one. *)
Fixpoint assoc (key : string) (l : list (string * JsonVal)) : option JsonVal :=
  match l with
  | [] => None
  | (k, x) :: l' => if decide (k = key) then Some x else assoc key l'
  end.
Fixpoint getObject (key : string) (v : JsonVal) : option JsonVal :=
  match v with
  | mkJson JSON_OBJECT_BEGIN _ obj _ => assoc key obj
  | mkJson JSON_ARRAY_BEGIN arr _ _ =>
    (fix first (l : list JsonVal) : option JsonVal :=
       match l with
       | [] => None
       | x :: l' => match getObject key x with Some r => Some r | None => first l' end
       end) arr
  | _ => None
  end.

(** ** GraphParser *)

Module GraphParser.
Section parser.
Context `{Allocator}.

(** The node of a name, made if there is none. *)
Definition nodeOf (name : string) : M GState N :=
  g ← gets g_graph;
  match Graph.nodes_ g !! name with
  | Some node => mret node
  | None =>
    node ← newNode (Node.new name true);
    updGraph (λ g, Graph.setNodes (<[name := node]> (Graph.nodes_ g)) g);;
    updGraph (λ g, Graph.setRoots ({[node]} ∪ Graph.roots_ g) g);;
    updGraph (λ g, Graph.setSources ({[node]} ∪ Graph.sources_ g) g);;
    mret node
  end.

(** The array that is assigned to [nodeArray].  A null [json] is dereferenced. *)
Definition checkNode (json : option JsonVal) : M GState (list N) :=
  json ← deref json;
  nodeSet ← foldM (_array json) ∅ (λ nodeSet json_string,
    if negb (bool_decide (_type json_string = JSON_STRING))
    then mthrow (Exception EINVAL "invalid JSON entry: expect a STRING")
    else node ← nodeOf (_data json_string); mret ({[node]} ∪ nodeSet));
  mret (set_elems nodeSet).

(** A field that must be a string if it is there. *)
Definition stringField (field : option JsonVal) (error : string) (set : string → M GState unit) : M GState unit :=
  match field with
  | None => mret tt
  | Some v => if negb (bool_decide (_type v = JSON_STRING)) then mthrow (Exception EINVAL error) else set (_data v)
  end.

(** [inputs[i]->addParentRule(rule)] and so on: the edges of a new rule. *)
Definition linkInputs (rule : N) (inputs : list N) : M GState unit :=
  foreach inputs (λ i,
    updNode i (Node.addParentRule rule);;
    Rule_markInputReady rule;;
    updGraph (λ g, Graph.setRoots (Graph.roots_ g ∖ {[i]}) g)).
Definition linkOutputs (rule : N) (outputs : list N) : M GState unit :=
  foreach outputs (λ o,
    Node_setChild o rule;;
    updGraph (λ g, Graph.setSources (Graph.sources_ g ∖ {[o]}) g)).

Definition processRule (jsonRule : JsonVal) : M GState unit :=
  if negb (bool_decide (_type jsonRule = JSON_OBJECT_BEGIN)) then mret tt
  else
    let ruleInputs := getObject "inputs" jsonRule in
    let ruleOutputs := getObject "outputs" jsonRule in
    let ruleCmd := getObject "cmd" jsonRule in
    let ruleDepfile := getObject "depfile" jsonRule in
    if bool_decide (ruleInputs = None) && bool_decide (ruleOutputs = None) then mret tt
    else
      inputs ← checkNode ruleInputs;
      outputs ← checkNode ruleOutputs;
      rule ← newRule (Rule.new inputs outputs);
      stringField ruleCmd "Expecting STRING value for cmd field" (λ c, updRule rule (Rule.setCommand c));;
      stringField ruleDepfile "Expecting STRING value for depfile field" (λ d, updRule rule (Rule.setDepfile d));;
      updGraph (λ g, Graph.setRules (Graph.rules_ g ++ [rule]) g);;
      linkInputs rule inputs;;
      linkOutputs rule outputs.

(** The node of the graph file replaces one of the same name. *)
Definition generateMandatoryNodes (graphFilePath : string) : M GState unit :=
  nodeGraphFile ← newNode (Node.new graphFilePath true);
  updGraph (λ g, Graph.setNodes (<[graphFilePath := nodeGraphFile]> (Graph.nodes_ g)) g);;
  updGraph (λ g, Graph.setRoots ({[nodeGraphFile]} ∪ Graph.roots_ g) g);;
  updGraph (λ g, Graph.setSources ({[nodeGraphFile]} ∪ Graph.sources_ g) g).

Definition processJson (graphFilePath : string) (rules : JsonVal) : M GState unit :=
  foreach (_array rules) processRule;;
  generateMandatoryNodes graphFilePath.

(** The end of [processFile], from the tree of the file. *)
Definition processDom (graphFilePath : string) (dom : option JsonVal) : M GState unit :=
  match dom with
  | None => mthrow (Exception EINVAL "No dom for this json file")
  | Some dom =>
    match getObject "rules" dom with
    | Some rules =>
      if bool_decide (_type rules = JSON_ARRAY_BEGIN) then processJson graphFilePath rules
      else mthrow (Exception EINVAL "No rules in the given JSon File")
    | None => mthrow (Exception EINVAL "No rules in the given JSon File")
    end
  end.
End parser.
End GraphParser.

(** ** The invariant of the construction *)

Record parsed (s : GState) : Prop := {
  pa_structure : structure_ok s;
  pa_graph : graph_ok s;
  pa_nodes n nd : g_nodes s !! n = Some nd → Node.state_ nd = UP_TO_DATE ∧ Node.hash_ nd = "";
  pa_rules r rd : g_rules s !! r = Some rd →
    Rule.state_ rd = UP_TO_DATE ∧ Rule.numInputsReady_ rd = length (Rule.inputs_ rd) ∧ Rule.numImplicitDeps_ rd = 0;
}.

Lemma parsed_clean s n : parsed s → node_dirty s n = false.
Proof.
  intros Hp. unfold node_dirty. destruct (g_nodes s !! n) as [nd|] eqn:Hn; [|done].
  unfold Node.isDirty. by rewrite (proj1 (pa_nodes s Hp n nd Hn)).
Qed.
Lemma parsed_rule_clean s r : parsed s → rule_dirty s r = false.
Proof.
  intros Hp. unfold rule_dirty. destruct (g_rules s !! r) as [rd|] eqn:Hr; [|done].
  unfold Rule.isDirty. by rewrite (proj1 (pa_rules s Hp r rd Hr)).
Qed.

Lemma parsed_consistent s : parsed s → consistent s.
Proof.
  intros Hp. pose proof (parsed_clean s) as Hc. pose proof (parsed_rule_clean s) as Hrc.
  split; [apply Hp| | | |].
  - intros r rd Hr. rewrite (proj1 (proj2 (pa_rules s Hp r rd Hr))). symmetry. apply countb_all. intros i Hi.
    destruct (so_input s (pa_structure s Hp) r rd i Hr Hi) as (nd & Hn & _). specialize (Hc i Hp).
    unfold node_ready, node_dirty in *. rewrite Hn in *. by rewrite Hc, orb_true_r.
  - intros r rd i _ _ Hd. by rewrite Hc in Hd.
  - intros r rd o _ Hd. by rewrite Hrc in Hd.
  - intros n nd r _ _ Hd. by rewrite Hc in Hd.
Qed.

Definition no_graph : GState := mkG ∅ ∅ Graph.new.
Lemma no_graph_parsed : parsed no_graph.
Proof.
  split; [| |by intros ? ? ?|by intros ? ? ?].
  - split; by intros.
  - split; simpl; try (intros; split; [set_solver|naive_solver]); [|apply NoDup_nil_2].
    intros r. split; [set_solver|by intros [? ?]].
Qed.

(** What is on the heap stays, but for the edges of nodes. *)
Record enlarged (s s' : GState) : Prop := {
  en_nodes n nd : g_nodes s !! n = Some nd → ∃ nd', g_nodes s' !! n = Some nd' ∧ Node.path_ nd' = Node.path_ nd;
  en_rules r rd : g_rules s !! r = Some rd → g_rules s' !! r = Some rd;
}.
Lemma enlarged_refl s : enlarged s s.
Proof. split; eauto. Qed.
Lemma enlarged_trans s1 s2 s3 : enlarged s1 s2 → enlarged s2 s3 → enlarged s1 s3.
Proof.
  intros [H1 H2] [K1 K2]. split; [|auto]. intros n nd Hn. destruct (H1 n nd Hn) as (nd' & Hn' & Hp).
  destruct (K1 n nd' Hn') as (nd'' & Hn'' & Hp'). exists nd''. split; [done|congruence].
Qed.

Lemma parsed_path s n n' nd nd' :
  parsed s → g_nodes s !! n = Some nd → g_nodes s !! n' = Some nd' → Node.path_ nd = Node.path_ nd' → n = n'.
Proof.
  intros Hp Hn Hn' Heq. pose proof (go_nodes s (pa_graph s Hp) (Node.path_ nd)) as Hg.
  assert (Graph.nodes_ (g_graph s) !! Node.path_ nd = Some n) by (apply Hg; eauto).
  assert (Graph.nodes_ (g_graph s) !! Node.path_ nd = Some n') by (apply Hg; eauto). congruence.
Qed.

(** *** A node without edges *)

Definition addNode (p : N) (nd : Node.t) (s : GState) : GState :=
  mkG (<[p := nd]> (g_nodes s)) (g_rules s)
    (Graph.mk ({[p]} ∪ Graph.roots_ (g_graph s)) ({[p]} ∪ Graph.sources_ (g_graph s))
       (<[Node.path_ nd := p]> (Graph.nodes_ (g_graph s))) (Graph.rules_ (g_graph s))).

Lemma addNode_parsed p nd s :
  parsed s → g_nodes s !! p = None → Node.childRule_ nd = None → Node.parentRules_ nd = [] →
  Node.state_ nd = UP_TO_DATE ∧ Node.hash_ nd = "" → Graph.nodes_ (g_graph s) !! Node.path_ nd = None → parsed (addNode p nd s).
Proof.
  intros Hp Hnew Hch Hpar Hst Hpath. pose proof (pa_structure s Hp) as Hok. pose proof (pa_graph s Hp) as Hg.
  assert (Hl : ∀ n x, g_nodes (addNode p nd s) !! n = Some x ↔ n = p ∧ x = nd ∨ n ≠ p ∧ g_nodes s !! n = Some x).
  { intros n x. simpl. rewrite lookup_insert_Some. naive_solver. }
  assert (Hold : ∀ n x, g_nodes s !! n = Some x → n ≠ p) by (intros n x Hx ->; congruence).
  split.
  - split; simpl.
    + intros n x r [[-> ->]|[Hne Hn]]%Hl Hr; [rewrite Hpar in Hr; set_solver|]. by eapply so_parent.
    + intros r rd n Hr Hn. destruct (so_input s Hok r rd n Hr Hn) as (x & Hx & ?). exists x. split; [|done]. apply Hl. eauto.
    + intros n x r [[-> ->]|[Hne Hn]]%Hl Hc; [congruence|]. by eapply so_child.
    + intros r rd n Hr Hn. destruct (so_output s Hok r rd n Hr Hn) as (x & Hx & ?). exists x. split; [|done]. apply Hl. eauto.
    + intros n x [[-> ->]|[Hne Hn]]%Hl; [rewrite Hpar; apply NoDup_nil_2|]. by eapply so_parents_nodup.
    + apply so_inputs_nodup, Hok.
    + apply so_outputs_nodup, Hok.
    + apply so_implicit, Hok.
  - split; simpl.
    + intros path n. rewrite lookup_insert_Some, (go_nodes s Hg). split.
      * intros [[<- <-]|[Hne (x & Hx & Hxp)]]; [exists nd; rewrite lookup_insert_eq; done|].
        exists x. split; [apply Hl; eauto|done].
      * intros (x & [[-> ->]|[Hne Hx]]%Hl & Hxp); [by left|]. right. split; [|eauto]. intros <-.
        assert (Graph.nodes_ (g_graph s) !! Node.path_ nd = Some n) by (apply Hg; eauto). congruence.
    + intros n. rewrite elem_of_union, elem_of_singleton, (go_roots s Hg). split.
      * intros [->|(x & Hx & Hxp)]; [exists nd; rewrite lookup_insert_eq; done|]. exists x. split; [apply Hl; eauto|done].
      * intros (x & [[-> ->]|[Hne Hx]]%Hl & Hxp); [by left|right; eauto].
    + intros n. rewrite elem_of_union, elem_of_singleton, (go_sources s Hg). split.
      * intros [->|(x & Hx & Hxp)]; [exists nd; rewrite lookup_insert_eq; done|]. exists x. split; [apply Hl; eauto|done].
      * intros (x & [[-> ->]|[Hne Hx]]%Hl & Hxp); [by left|right; eauto].
    + apply (go_rules s Hg).
    + apply (go_rules_nodup s Hg).
  - intros n x [[-> ->]|[Hne Hn]]%Hl; [done|]. by eapply pa_nodes.
  - apply Hp.
Qed.

Lemma addNode_enlarged p nd s : g_nodes s !! p = None → enlarged s (addNode p nd s).
Proof.
  intros Hp. split; [|done]. intros n x Hx. exists x. split; [|done]. simpl. rewrite lookup_insert_ne; [done|congruence].
Qed.

Section specs.
Context `{Allocator}.
Import GraphParser.

Definition einval (e : exn) : Prop := ∃ msg, e = Exception EINVAL msg.

(** The names the document may introduce. *)
Definition known (s : GState) (path : string) : Prop := is_Some (Graph.nodes_ (g_graph s) !! path).

Lemma new_node_fresh s : g_nodes s !! new_addr (dom (g_nodes s) ∪ dom (g_rules s)) = None.
Proof. apply not_elem_of_dom. pose proof (new_addr_fresh (dom (g_nodes s) ∪ dom (g_rules s))). set_solver. Qed.
Lemma new_rule_fresh s : g_rules s !! new_addr (dom (g_nodes s) ∪ dom (g_rules s)) = None.
Proof. apply not_elem_of_dom. pose proof (new_addr_fresh (dom (g_nodes s) ∪ dom (g_rules s))). set_solver. Qed.

Lemma nodeOf_spec name s :
  parsed s → returns (nodeOf name) (λ n s', parsed s' ∧ enlarged s s' ∧ g_rules s' = g_rules s ∧
    Graph.rules_ (g_graph s') = Graph.rules_ (g_graph s) ∧ (∃ nd, g_nodes s' !! n = Some nd ∧ Node.path_ nd = name) ∧
    ∀ p, known s' p ↔ known s p ∨ p = name) s.
Proof.
  intros Hp. apply wp_bind, wp_gets. destruct (Graph.nodes_ (g_graph s) !! name) as [n|] eqn:Hn.
  - apply wp_ret. split_and!; [done|apply enlarged_refl|done|done|by apply (go_nodes s (pa_graph s Hp))|].
    intros p. split; [auto|]. intros [?| ->]; [done|by eexists].
  - apply wp_bind. unfold wp, newNode. set (p := new_addr _). repeat (apply wp_bind, wp_updGraph).
    match goal with |- wp _ _ _ ?x => change x with (addNode p (Node.new name true) s) end. apply wp_ret.
    pose proof (new_node_fresh s) as Hfr. fold p in Hfr.
    split_and!; [by apply addNode_parsed|by apply addNode_enlarged|done|done|exists (Node.new name true); simpl; by rewrite lookup_insert_eq|].
    intros q. unfold known. simpl. destruct (decide (name = q)) as [<-|Hne].
    + rewrite lookup_insert_eq. split; [auto|by eexists].
    + rewrite lookup_insert_ne by done. naive_solver.
Qed.

(** What two states of the construction have in common while only nodes are added. *)
Record grew (s s' : GState) : Prop := {
  gw_parsed : parsed s';
  gw_enlarged : enlarged s s';
  gw_rules : g_rules s' = g_rules s;
  gw_graph : Graph.rules_ (g_graph s') = Graph.rules_ (g_graph s);
}.
Lemma grew_refl s : parsed s → grew s s.
Proof. intros Hp. split; [done|apply enlarged_refl|done|done]. Qed.
Lemma grew_trans s1 s2 s3 : grew s1 s2 → grew s2 s3 → grew s1 s3.
Proof. intros [] []. split; [done|by eapply enlarged_trans|congruence|congruence]. Qed.

(** [l] are the nodes of the names in the document. *)
Definition names (s : GState) (l : list N) (json : JsonVal) : Prop :=
  ∀ n, n ∈ l ↔ ∃ nd v, g_nodes s !! n = Some nd ∧ v ∈ _array json ∧ Node.path_ nd = _data v.

Lemma names_enlarged s s' l json :
  parsed s' → enlarged s s' → (∀ v, v ∈ _array json → known s (_data v)) → parsed s → names s l json → names s' l json.
Proof.
  intros Hp' He Hk Hp Hn n. rewrite (Hn n). split.
  - intros (nd & v & Hnd & Hv & Heq). destruct (en_nodes _ _ He n nd Hnd) as (nd' & Hnd' & Hpa). exists nd', v. split_and!; [done|done|congruence].
  - intros (nd' & v & Hnd' & Hv & Heq). destruct (Hk v Hv) as [m Hm]. apply (go_nodes s (pa_graph s Hp)) in Hm as (nd & Hnd & Hpa).
    destruct (en_nodes _ _ He m nd Hnd) as (nd'' & Hnd'' & Hpa').
    assert (m = n) as -> by (eapply (parsed_path s'); [done|exact Hnd''|exact Hnd'|congruence]). exists nd, v. done.
Qed.

(** Every element of an array is a string. *)
Definition strings (json : JsonVal) : Prop := ∀ v, v ∈ _array json → _type v = JSON_STRING.

Lemma parsedNodes_spec json s :
  parsed s → wp (checkNode (Some json)) (λ l s', grew s s' ∧ NoDup l ∧ names s' l json ∧
    (∀ v, v ∈ _array json → known s' (_data v)) ∧
    ∀ p, known s' p ↔ known s p ∨ ∃ v, v ∈ _array json ∧ _data v = p)
    (λ e _, einval e ∧ ¬ strings json) s.
Proof.
  intros Hp. apply wp_bind. eapply wp_deref; [done|]. apply wp_bind.
  apply (wp_foldM (λ pre X s', grew s s' ∧ (∀ n, n ∈ X ↔ ∃ nd v, g_nodes s' !! n = Some nd ∧ v ∈ pre ∧ Node.path_ nd = _data v) ∧
    ∀ p, known s' p ↔ known s p ∨ ∃ v, v ∈ pre ∧ _data v = p)).
  - split_and!; [by apply grew_refl|set_solver|]. intros p. split; [auto|]. intros [?|(v & Hv & _)]; [done|set_solver].
  - intros pre v post X s1 Hpre (Hg & HX & Hk). case_bool_decide as Ht; cbn [negb].
    2: { apply wp_mthrow. split; [by eexists|]. intros Hst. apply Ht, Hst. rewrite Hpre. set_solver. }
    apply wp_bind. eapply (wp_mono _ _ _ (λ _ _, False)); [apply nodeOf_spec, Hg| |done].
    intros n s2 (Hp2 & He & Hr & Hgr & (nd & Hnd & Hpath) & Hk2). apply wp_ret.
    assert (Hg2 : grew s1 s2) by by split. split_and!; [by eapply grew_trans| |].
    + intros m. rewrite elem_of_union, elem_of_singleton, HX. split.
      * intros [->|(md & u & Hmd & Hu & Heq)]; [exists nd, v; set_solver|].
        destruct (en_nodes _ _ He m md Hmd) as (md' & Hmd' & Hpa). exists md', u. split_and!; [done|set_solver|congruence].
      * intros (md & u & Hmd & [Hu|Hu%list_elem_of_singleton]%elem_of_app & Heq).
        -- right. assert (Hku : known s1 (_data u)) by (apply Hk; eauto). destruct Hku as [m1 Hm1].
           apply (go_nodes s1 (pa_graph s1 (gw_parsed _ _ Hg))) in Hm1 as (md1 & Hmd1 & Hpa1).
           destruct (en_nodes _ _ He m1 md1 Hmd1) as (md2 & Hmd2 & Hpa2).
           assert (m1 = m) as -> by (eapply (parsed_path s2); [done|exact Hmd2|exact Hmd|congruence]). exists md1, u. done.
        -- left. subst u. eapply (parsed_path s2); [done|exact Hmd|exact Hnd|congruence].
    + intros p. rewrite Hk2, Hk. setoid_rewrite elem_of_app. setoid_rewrite list_elem_of_singleton. naive_solver.
  - intros X s1 (Hg & HX & Hk). apply wp_ret. split_and!; [done|apply NoDup_set_elems| | |done].
    + intros n. by rewrite elem_of_set_elems, HX.
    + intros v Hv. apply Hk. eauto.
Qed.

(** *** A new rule with its edges *)

Definition link_node (r : N) (ins outs : list N) (n : N) (nd : Node.t) : Node.t :=
  let nd := if decide (n ∈ ins) then Node.addParentRule r nd else nd in
  if decide (n ∈ outs) then Node.assignChild (Some r) nd else nd.

Record linked (r : N) (rd : Rule.t) (ins outs : list N) (s s' : GState) : Prop := {
  lk_nodes n : g_nodes s' !! n = link_node r ins outs n <$> g_nodes s !! n;
  lk_rules : g_rules s' = <[r := Rule.assignReady (length ins) rd]> (g_rules s);
  lk_roots n : n ∈ Graph.roots_ (g_graph s') ↔ n ∈ Graph.roots_ (g_graph s) ∧ n ∉ ins;
  lk_sources n : n ∈ Graph.sources_ (g_graph s') ↔ n ∈ Graph.sources_ (g_graph s) ∧ n ∉ outs;
  lk_names : Graph.nodes_ (g_graph s') = Graph.nodes_ (g_graph s);
  lk_order : Graph.rules_ (g_graph s') = Graph.rules_ (g_graph s) ++ [r];
}.

Lemma link_node_path r ins outs n nd : Node.path_ (link_node r ins outs n nd) = Node.path_ nd.
Proof. unfold link_node. by repeat case_decide. Qed.
Lemma link_node_hash r ins outs n nd : Node.hash_ (link_node r ins outs n nd) = Node.hash_ nd.
Proof. unfold link_node. by repeat case_decide. Qed.
Lemma link_node_state r ins outs n nd : Node.state_ (link_node r ins outs n nd) = Node.state_ nd.
Proof. unfold link_node. by repeat case_decide. Qed.
Lemma link_node_parents r ins outs n nd :
  Node.parentRules_ (link_node r ins outs n nd) = Node.parentRules_ nd ++ (if decide (n ∈ ins) then [r] else []).
Proof. unfold link_node. repeat case_decide; simpl; by rewrite ?app_nil_r. Qed.
Lemma link_node_child r ins outs n nd :
  Node.childRule_ (link_node r ins outs n nd) = if decide (n ∈ outs) then Some r else Node.childRule_ nd.
Proof. unfold link_node. by repeat case_decide. Qed.

Section linked.
Context (r : N) (rd : Rule.t) (ins outs : list N) (s s' : GState).
Hypotheses (Hp : parsed s) (Hr : g_rules s !! r = None) (Hl : linked r rd ins outs s s').

Lemma linked_node n nd' : g_nodes s' !! n = Some nd' → ∃ nd, g_nodes s !! n = Some nd ∧ nd' = link_node r ins outs n nd.
Proof. rewrite (lk_nodes _ _ _ _ _ _ Hl), fmap_Some. naive_solver. Qed.
Lemma linked_node_in n nd : g_nodes s !! n = Some nd → g_nodes s' !! n = Some (link_node r ins outs n nd).
Proof. intros Hn. by rewrite (lk_nodes _ _ _ _ _ _ Hl), Hn. Qed.
Lemma linked_rule q qd :
  g_rules s' !! q = Some qd ↔ q = r ∧ qd = Rule.assignReady (length ins) rd ∨ q ≠ r ∧ g_rules s !! q = Some qd.
Proof. rewrite (lk_rules _ _ _ _ _ _ Hl), lookup_insert_Some. naive_solver. Qed.

Lemma linked_structure :
  NoDup ins → NoDup outs → (∀ n, n ∈ ins ∨ n ∈ outs → is_Some (g_nodes s !! n)) →
  (∀ n nd, n ∈ outs → g_nodes s !! n = Some nd → Node.childRule_ nd = None) →
  Rule.inputs_ rd = ins → Rule.outputs_ rd = outs → Rule.numImplicitDeps_ rd = 0 → structure_ok s'.
Proof.
  intros Hni Hno Hex Hch Hin Hout Him. pose proof (pa_structure s Hp) as Hok.
  assert (Hold : ∀ q qd, g_rules s !! q = Some qd → q ≠ r) by (intros q qd Hq ->; congruence).
  assert (Hpr : ∀ n nd, g_nodes s !! n = Some nd → r ∉ Node.parentRules_ nd).
  { intros n nd Hn Hin'. destruct (so_parent s Hok n nd r Hn Hin') as (? & ? & _). congruence. }
  split.
  - intros n nd' q (nd & Hn & ->)%linked_node. rewrite link_node_parents, elem_of_app. intros [Hq|Hq].
    + destruct (so_parent s Hok n nd q Hn Hq) as (qd & Hqd & ?). exists qd. split; [apply linked_rule; eauto|done].
    + case_decide; [|set_solver]. assert (q = r) as -> by set_solver. eexists. split; [apply linked_rule; by left|]. simpl. by rewrite Hin.
  - intros q qd n [[-> ->]|[Hne Hq]]%linked_rule Hn.
    + simpl in Hn. rewrite Hin in Hn. destruct (Hex n (or_introl Hn)) as [nd Hnd]. eexists. split; [by apply linked_node_in|].
      rewrite link_node_parents, decide_True by done. set_solver.
    + destruct (so_input s Hok q qd n Hq Hn) as (nd & Hnd & ?). eexists. split; [by apply linked_node_in|]. rewrite link_node_parents. set_solver.
  - intros n nd' q (nd & Hn & ->)%linked_node. rewrite link_node_child. case_decide.
    + intros [= <-]. eexists. split; [apply linked_rule; by left|]. simpl. by rewrite Hout.
    + intros Hc. destruct (so_child s Hok n nd q Hn Hc) as (qd & Hqd & ?). exists qd. split; [apply linked_rule; eauto|done].
  - intros q qd n [[-> ->]|[Hne Hq]]%linked_rule Hn.
    + simpl in Hn. rewrite Hout in Hn. destruct (Hex n (or_intror Hn)) as [nd Hnd]. eexists. split; [by apply linked_node_in|].
      by rewrite link_node_child, decide_True.
    + destruct (so_output s Hok q qd n Hq Hn) as (nd & Hnd & Hc). eexists. split; [by apply linked_node_in|]. rewrite link_node_child.
      case_decide as Ho; [|done]. specialize (Hch n nd Ho Hnd). congruence.
  - intros n nd' (nd & Hn & ->)%linked_node. rewrite link_node_parents. case_decide; [|rewrite app_nil_r; by eapply so_parents_nodup].
    apply NoDup_app. split_and!; [by eapply so_parents_nodup| |apply NoDup_singleton].
    intros q Hq ->%list_elem_of_singleton. by eapply Hpr.
  - intros q qd [[-> ->]|[Hne Hq]]%linked_rule; [simpl; by rewrite Hin|by eapply so_inputs_nodup].
  - intros q qd [[-> ->]|[Hne Hq]]%linked_rule; [simpl; by rewrite Hout|by eapply so_outputs_nodup].
  - intros q qd [[-> ->]|[Hne Hq]]%linked_rule; [simpl; rewrite Him; lia|by eapply so_implicit].
Qed.

Lemma linked_graph : graph_ok s'.
Proof.
  pose proof (pa_graph s Hp) as Hg.
  split.
  - intros path n. rewrite (lk_names _ _ _ _ _ _ Hl), (go_nodes s Hg). split.
    + intros (nd & Hn & Hpa). eexists. split; [by apply linked_node_in|]. by rewrite link_node_path.
    + intros (nd' & (nd & Hn & ->)%linked_node & Hpa). rewrite link_node_path in Hpa. eauto.
  - intros n. rewrite (lk_roots _ _ _ _ _ _ Hl), (go_roots s Hg). split.
    + intros [(nd & Hn & Hpa) Hni']. eexists. split; [by apply linked_node_in|]. by rewrite link_node_parents, Hpa, decide_False.
    + intros (nd' & (nd & Hn & ->)%linked_node & Hpa). rewrite link_node_parents in Hpa. case_decide; [by destruct (Node.parentRules_ nd)|].
      rewrite app_nil_r in Hpa. eauto.
  - intros n. rewrite (lk_sources _ _ _ _ _ _ Hl), (go_sources s Hg). split.
    + intros [(nd & Hn & Hpa) Hni']. eexists. split; [by apply linked_node_in|]. by rewrite link_node_child, decide_False.
    + intros (nd' & (nd & Hn & ->)%linked_node & Hpa). rewrite link_node_child in Hpa. case_decide; [done|]. eauto.
  - intros q. rewrite (lk_order _ _ _ _ _ _ Hl), elem_of_app, (go_rules s Hg), list_elem_of_singleton, (lk_rules _ _ _ _ _ _ Hl).
    destruct (decide (q = r)) as [->|Hne].
    + rewrite lookup_insert_eq. split; [by eexists|auto].
    + rewrite lookup_insert_ne by done. naive_solver.
  - rewrite (lk_order _ _ _ _ _ _ Hl). apply NoDup_app. split_and!; [apply Hg| |apply NoDup_singleton].
    intros q Hq ->%list_elem_of_singleton. apply (go_rules s Hg) in Hq as [? ?]. congruence.
Qed.

Lemma linked_parsed :
  NoDup ins → NoDup outs → (∀ n, n ∈ ins ∨ n ∈ outs → is_Some (g_nodes s !! n)) →
  (∀ n nd, n ∈ outs → g_nodes s !! n = Some nd → Node.childRule_ nd = None) →
  Rule.inputs_ rd = ins → Rule.outputs_ rd = outs → Rule.state_ rd = UP_TO_DATE → Rule.numImplicitDeps_ rd = 0 → parsed s'.
Proof.
  intros Hni Hno Hex Hch Hin Hout Hst Him. split; [by apply linked_structure|by apply linked_graph| |].
  - intros n nd' (nd & Hn & ->)%linked_node. rewrite link_node_state, link_node_hash. by eapply pa_nodes.
  - intros q qd [[-> ->]|[Hne Hq]]%linked_rule; [simpl; by rewrite Hin|by eapply pa_rules].
Qed.
End linked.

(** The two loops, from the state in which the rule was made. *)
Lemma linkInputs_spec r rd ins s :
  NoDup ins → (∀ n, n ∈ ins → is_Some (g_nodes s !! n)) → g_rules s !! r = Some rd → Rule.inputs_ rd = ins →
  Rule.numInputsReady_ rd = 0 →
  returns (linkInputs r ins) (λ _ s',
    (∀ n, g_nodes s' !! n = link_node r ins [] n <$> g_nodes s !! n) ∧
    g_rules s' = <[r := Rule.assignReady (length ins) rd]> (g_rules s) ∧
    (∀ n, n ∈ Graph.roots_ (g_graph s') ↔ n ∈ Graph.roots_ (g_graph s) ∧ n ∉ ins) ∧
    Graph.sources_ (g_graph s') = Graph.sources_ (g_graph s) ∧ Graph.nodes_ (g_graph s') = Graph.nodes_ (g_graph s) ∧
    Graph.rules_ (g_graph s') = Graph.rules_ (g_graph s)) s.
Proof.
  intros Hnd Hex Hr Hin H0.
  apply (wp_foreach (λ pre s', (∀ n, g_nodes s' !! n = link_node r pre [] n <$> g_nodes s !! n) ∧
    g_rules s' = <[r := Rule.assignReady (length pre) rd]> (g_rules s) ∧
    (∀ n, n ∈ Graph.roots_ (g_graph s') ↔ n ∈ Graph.roots_ (g_graph s) ∧ n ∉ pre) ∧
    Graph.sources_ (g_graph s') = Graph.sources_ (g_graph s) ∧ Graph.nodes_ (g_graph s') = Graph.nodes_ (g_graph s) ∧
    Graph.rules_ (g_graph s') = Graph.rules_ (g_graph s))).
  - split_and!; try done.
    + intros n. destruct (g_nodes s !! n); [|done]. simpl. unfold link_node. by rewrite !decide_False by set_solver.
    + simpl. rewrite insert_id; [done|]. rewrite Hr. f_equal. destruct rd. simpl in *. by subst.
    + set_solver.
  - intros pre i post s1 Heq (Hn & Hrs & Hro & Hso & Hna & Hru).
    assert (Hi : i ∉ pre) by (rewrite Heq in Hnd; apply NoDup_app in Hnd as (_ & Hnd & _); set_solver).
    destruct (Hex i) as [nd Hnd']; [rewrite Heq; set_solver|].
    apply wp_bind. eapply wp_updNode; [by rewrite Hn, Hnd'|]. apply wp_bind.
    eapply wp_markInputReady; [simpl; rewrite Hrs; apply lookup_insert_eq| |].
    { simpl. rewrite Hin, Heq, length_app. simpl. lia. }
    apply wp_updGraph. simpl. split_and!; [| | |done|done|done].
    + intros n. destruct (decide (i = n)) as [<-|Hne].
      * rewrite lookup_insert_eq, Hnd'. simpl. f_equal. unfold link_node.
        rewrite (decide_False (P := i ∈ pre)), (decide_True (P := i ∈ pre ++ [i])), !decide_False by set_solver. done.
      * rewrite lookup_insert_ne, Hn by done. destruct (g_nodes s !! n); [|done]. simpl. f_equal. unfold link_node.
        by rewrite (decide_ext (n ∈ pre ++ [i]) (n ∈ pre)) by set_solver.
    + rewrite Hrs, insert_insert_eq, length_app. simpl. by rewrite Nat.add_1_r.
    + intros n. rewrite elem_of_difference, Hro. set_solver.
  - done.
Qed.

Lemma linkOutputs_spec r outs s :
  NoDup outs → (∀ n, n ∈ outs → is_Some (g_nodes s !! n)) →
  wp (linkOutputs r outs) (λ _ s',
    (∀ n, g_nodes s' !! n = link_node r [] outs n <$> g_nodes s !! n) ∧
    (∀ n nd, n ∈ outs → g_nodes s !! n = Some nd → Node.childRule_ nd = None) ∧
    g_rules s' = g_rules s ∧ Graph.roots_ (g_graph s') = Graph.roots_ (g_graph s) ∧
    (∀ n, n ∈ Graph.sources_ (g_graph s') ↔ n ∈ Graph.sources_ (g_graph s) ∧ n ∉ outs) ∧
    Graph.nodes_ (g_graph s') = Graph.nodes_ (g_graph s) ∧
    Graph.rules_ (g_graph s') = Graph.rules_ (g_graph s))
    (λ e _, einval e ∧ ∃ n nd, n ∈ outs ∧ g_nodes s !! n = Some nd ∧ is_Some (Node.childRule_ nd)) s.
Proof.
  intros Hnd Hex.
  apply (wp_foreach (λ pre s', (∀ n, g_nodes s' !! n = link_node r [] pre n <$> g_nodes s !! n) ∧
    (∀ n nd, n ∈ pre → g_nodes s !! n = Some nd → Node.childRule_ nd = None) ∧
    g_rules s' = g_rules s ∧ Graph.roots_ (g_graph s') = Graph.roots_ (g_graph s) ∧
    (∀ n, n ∈ Graph.sources_ (g_graph s') ↔ n ∈ Graph.sources_ (g_graph s) ∧ n ∉ pre) ∧
    Graph.nodes_ (g_graph s') = Graph.nodes_ (g_graph s) ∧ Graph.rules_ (g_graph s') = Graph.rules_ (g_graph s))).
  - split_and!; try done; [|set_solver|set_solver].
    intros n. destruct (g_nodes s !! n); [|done]. simpl. unfold link_node. by rewrite !decide_False by set_solver.
  - intros pre o post s1 Heq (Hn & Hch & Hrs & Hro & Hso & Hna & Hru).
    assert (Ho : o ∉ pre) by (rewrite Heq in Hnd; apply NoDup_app in Hnd as (_ & Hnd & _); set_solver).
    destruct (Hex o) as [nd Hnd']; [rewrite Heq; set_solver|].
    assert (Hn1 : g_nodes s1 !! o = Some nd).
    { rewrite Hn, Hnd'. simpl. unfold link_node. by rewrite !decide_False by set_solver. }
    apply wp_bind, wp_bind. eapply wp_readNode; [exact Hn1|].
    destruct (Node.childRule_ nd) eqn:Hc.
    { apply wp_mthrow. split; [by eexists|]. exists o, nd. rewrite Hc, Heq. split_and!; [set_solver|done|by eexists]. }
    eapply wp_updNode; [exact Hn1|].
    apply wp_updGraph. simpl. split_and!; [| |done|done| |done|done].
    + intros n. destruct (decide (o = n)) as [<-|Hne].
      * rewrite lookup_insert_eq, Hnd'. simpl. f_equal. unfold link_node.
        by rewrite (decide_True (P := o ∈ pre ++ [o])), decide_False by set_solver.
      * rewrite lookup_insert_ne, Hn by done. destruct (g_nodes s !! n); [|done]. simpl. f_equal. unfold link_node.
        by rewrite (decide_ext (n ∈ pre ++ [o]) (n ∈ pre)) by set_solver.
    + intros n nd' [Hin|Hin%list_elem_of_singleton]%elem_of_app Hn'; [by eapply Hch|]. subst. congruence.
    + intros n. rewrite elem_of_difference, Hso. set_solver.
  - done.
Qed.

(** *** One rule of the document *)

Definition is_rule (v : JsonVal) : bool :=
  bool_decide (_type v = JSON_OBJECT_BEGIN) &&
  negb (bool_decide (getObject "inputs" v = None) && bool_decide (getObject "outputs" v = None)).
(** A rule that has one of the fields has both. *)
Definition complete_rule (v : JsonVal) : Prop :=
  is_rule v = true → is_Some (getObject "inputs" v) ∧ is_Some (getObject "outputs" v).
Definition field (key : string) (v : JsonVal) : string :=
  match getObject key v with Some x => _data x | None => "" end.

(** The rule [r] of the graph is the one of the document. *)
Definition describes (s : GState) (r : N) (v : JsonVal) : Prop :=
  ∃ rd ins outs, g_rules s !! r = Some rd ∧ getObject "inputs" v = Some ins ∧ getObject "outputs" v = Some outs ∧
    names s (Rule.inputs_ rd) ins ∧ names s (Rule.outputs_ rd) outs ∧
    (∀ u, u ∈ _array ins ∨ u ∈ _array outs → known s (_data u)) ∧
    Rule.command_ rd = field "cmd" v ∧ Rule.depfile_ rd = field "depfile" v.

Lemma known_enlarged s s' p : parsed s → parsed s' → enlarged s s' → known s p → known s' p.
Proof.
  intros Hp Hp' He [n Hn]. apply (go_nodes s (pa_graph s Hp)) in Hn as (nd & Hnd & Hpa).
  destruct (en_nodes _ _ He n nd Hnd) as (nd' & Hnd' & Hpa'). exists n. apply (go_nodes s' (pa_graph s' Hp')).
  exists nd'. split; [done|congruence].
Qed.

Lemma describes_enlarged s s' r v : parsed s → parsed s' → enlarged s s' → describes s r v → describes s' r v.
Proof.
  intros Hp Hp' He (rd & ins & outs & Hr & Hi & Ho & Hni & Hno & Hk & Hc & Hd). exists rd, ins, outs.
  split_and!; [by apply He|done|done| | | |done|done].
  - eapply names_enlarged; [done|done| |done|done]. auto.
  - eapply names_enlarged; [done|done| |done|done]. auto.
  - intros u Hu. eapply known_enlarged; [exact Hp|done|done|auto].
Qed.

Lemma stringField_spec v error set (f : string → Rule.t → Rule.t) r rd s :
  (∀ c, set c = updRule r (f c)) → g_rules s !! r = Some rd → f "" rd = rd →
  wp (stringField v error set) (λ _ s', s' = set_rules (<[r := f (match v with Some x => _data x | None => "" end) rd]> (g_rules s)) s)
    (λ e _, einval e ∧ ∃ x, v = Some x ∧ _type x ≠ JSON_STRING) s.
Proof.
  intros Hset Hr Hf. unfold stringField. destruct v as [x|].
  - case_bool_decide; cbn [negb]; [|apply wp_mthrow; split; [by eexists|eauto]]. rewrite Hset. by eapply wp_updRule.
  - apply wp_ret. rewrite Hf, insert_id by done. by destruct s.
Qed.

Lemma link_node_both r ins outs n nd : link_node r [] outs n (link_node r ins [] n nd) = link_node r ins outs n nd.
Proof. unfold link_node. rewrite !(decide_False (P := n ∈ [])) by set_solver. done. Qed.

Definition rule_done (v : JsonVal) (s s' : GState) : Prop :=
  parsed s' ∧ enlarged s s' ∧
  (if is_rule v then ∃ r, Graph.rules_ (g_graph s') = Graph.rules_ (g_graph s) ++ [r] ∧ describes s' r v
   else s' = s).

(** [path] is one of the names in the rule. *)
Definition mentions (v : JsonVal) (path : string) : Prop :=
  is_rule v = true ∧ ∃ key l u, (key = "inputs" ∨ key = "outputs") ∧ getObject key v = Some l ∧ u ∈ _array l ∧ _data u = path.

(** A field of the rule has the wrong type. *)
Definition malformed (v : JsonVal) : Prop :=
  is_rule v = true ∧
  ((∃ key l, (key = "inputs" ∨ key = "outputs") ∧ getObject key v = Some l ∧ ¬ strings l) ∨
   ∃ key x, (key = "cmd" ∨ key = "depfile") ∧ getObject key v = Some x ∧ _type x ≠ JSON_STRING).
(** [path] is one of the outputs of the rule. *)
Definition makes (v : JsonVal) (path : string) : Prop :=
  is_rule v = true ∧ ∃ l u, getObject "outputs" v = Some l ∧ u ∈ _array l ∧ _data u = path.
Definition produced (s : GState) (path : string) : Prop :=
  ∃ r rd n nd, g_rules s !! r = Some rd ∧ n ∈ Rule.outputs_ rd ∧ g_nodes s !! n = Some nd ∧ Node.path_ nd = path.

(** The rest of [processRule], once the nodes are there. *)
Lemma newRule_spec v ji jo ins outs s :
  parsed s → getObject "inputs" v = Some ji → getObject "outputs" v = Some jo →
  NoDup ins → NoDup outs → names s ins ji → names s outs jo →
  (∀ u, u ∈ _array ji ∨ u ∈ _array jo → known s (_data u)) →
  wp (rule ← newRule (Rule.new ins outs);
      stringField (getObject "cmd" v) "Expecting STRING value for cmd field" (λ c, updRule rule (Rule.setCommand c));;
      stringField (getObject "depfile" v) "Expecting STRING value for depfile field" (λ d, updRule rule (Rule.setDepfile d));;
      updGraph (λ g, Graph.setRules (Graph.rules_ g ++ [rule]) g);;
      linkInputs rule ins;;
      linkOutputs rule outs)
    (λ _ s', parsed s' ∧ enlarged s s' ∧ (∀ p, known s' p ↔ known s p) ∧
       ∃ r, Graph.rules_ (g_graph s') = Graph.rules_ (g_graph s) ++ [r] ∧ describes s' r v)
    (λ e _, einval e ∧ ((∃ key x, (key = "cmd" ∨ key = "depfile") ∧ getObject key v = Some x ∧ _type x ≠ JSON_STRING) ∨
       ∃ n nd, n ∈ outs ∧ g_nodes s !! n = Some nd ∧ is_Some (Node.childRule_ nd))) s.
Proof.
  intros Hp Hji Hjo Hni Hno Hins Houts Hk. apply wp_bind. unfold wp at 1, newRule. set (r := new_addr _).
  assert (Hr : g_rules s !! r = None) by apply new_rule_fresh.
  apply wp_bind. eapply wp_mono; [eapply (stringField_spec _ _ _ Rule.setCommand); [done|apply lookup_insert_eq|done]| |].
  2: { intros e s1 (He & x & Hx & Ht). split; [done|]. left. exists "cmd", x. auto. }
  intros [] s1 ->. apply wp_bind. eapply wp_mono; [eapply (stringField_spec _ _ _ Rule.setDepfile); [done|apply lookup_insert_eq|done]| |].
  2: { intros e s1 (He & x & Hx & Ht). split; [done|]. left. exists "depfile", x. auto. }
  intros [] s2 ->. apply wp_bind, wp_updGraph. simpl. rewrite !insert_insert_eq. unfold set_rules. simpl.
  fold (field "cmd" v) (field "depfile" v).
  set (rd := Rule.setDepfile _ _). apply wp_bind.
  assert (Hex : ∀ l j, names s l j → ∀ n, n ∈ l → is_Some (g_nodes s !! n)) by (intros l j Hl n Hn; apply Hl in Hn as (? & ? & ? & _); by eexists).
  eapply (wp_mono _ _ _ (λ _ _, False)); [apply (linkInputs_spec r rd ins); [done|by eapply Hex|apply lookup_insert_eq|done|done]| |done].
  simpl. intros [] s3 (Hn3 & Hr3 & Hro3 & Hso3 & Hna3 & Hru3). simpl in *. rewrite insert_insert_eq in Hr3.
  eapply wp_mono; [apply (linkOutputs_spec r outs s3 Hno)| |].
  { intros n Hn. rewrite Hn3. destruct (Hex outs jo Houts n Hn) as [nd ->]. by eexists. }
  2: { intros e s4 (He & n & nd & Hn & Hnd & Hc). split; [done|]. right. rewrite Hn3 in Hnd.
       apply fmap_Some in Hnd as (nd0 & Hnd0 & ->). exists n, nd0. split_and!; [done|done|].
       by rewrite link_node_child, decide_False in Hc by set_solver. }
  intros [] s4 (Hn4 & Hch4 & Hr4 & Hro4 & Hso4 & Hna4 & Hru4).
  assert (Hl : linked r rd ins outs s s4).
  { split; [|congruence| |by rewrite <- Hso3|congruence|congruence].
    - intros n. rewrite Hn4, Hn3. destruct (g_nodes s !! n); [|done]. simpl. by rewrite link_node_both.
    - intros n. by rewrite Hro4. }
  assert (Hp4 : parsed s4).
  { eapply (linked_parsed r rd ins outs s); try done.
    - intros n [Hn|Hn]; [by eapply (Hex ins)|by eapply (Hex outs)].
    - intros n nd Hn Hnd. specialize (Hch4 n (link_node r ins [] n nd) Hn). rewrite Hn3, Hnd in Hch4.
      specialize (Hch4 eq_refl). by rewrite link_node_child, decide_False in Hch4 by set_solver. }
  assert (He : enlarged s s4).
  { split.
    - intros n nd Hnd. eexists. split; [by rewrite (lk_nodes _ _ _ _ _ _ Hl), Hnd|]. apply link_node_path.
    - intros q qd Hq. rewrite (lk_rules _ _ _ _ _ _ Hl), lookup_insert_ne; [done|congruence]. }
  assert (Hkn : ∀ p, known s4 p ↔ known s p) by (intros p; unfold known; by rewrite (lk_names _ _ _ _ _ _ Hl)).
  split_and!; [done|done|done|]. exists r. split; [apply Hl|]. exists (Rule.assignReady (length ins) rd), ji, jo.
  split_and!; [by rewrite (lk_rules _ _ _ _ _ _ Hl), lookup_insert_eq|done|done| | | |done|done].
  - eapply names_enlarged; [done|done| |done|exact Hins]. auto.
  - eapply names_enlarged; [done|done| |done|exact Houts]. auto.
  - intros u Hu. apply Hkn. auto.
Qed.

Lemma processRule_cases v :
  processRule v =
    if is_rule v then
      inputs ← checkNode (getObject "inputs" v);
      outputs ← checkNode (getObject "outputs" v);
      rule ← newRule (Rule.new inputs outputs);
      stringField (getObject "cmd" v) "Expecting STRING value for cmd field" (λ c, updRule rule (Rule.setCommand c));;
      stringField (getObject "depfile" v) "Expecting STRING value for depfile field" (λ d, updRule rule (Rule.setDepfile d));;
      updGraph (λ g, Graph.setRules (Graph.rules_ g ++ [rule]) g);;
      linkInputs rule inputs;;
      linkOutputs rule outputs
    else mret tt.
Proof. unfold processRule, is_rule. by repeat case_bool_decide. Qed.

(** An output that has a rule already had it before the nodes were looked up. *)
Lemma produced_before s s' l json n nd :
  parsed s → grew s s' → names s' l json → n ∈ l → g_nodes s' !! n = Some nd → is_Some (Node.childRule_ nd) →
  ∃ u, u ∈ _array json ∧ produced s (_data u).
Proof.
  intros Hp Hg Hl Hn Hnd [q Hq]. apply Hl in Hn as (nd' & u & Hnd' & Hu & Hpa).
  assert (nd' = nd) as -> by congruence. exists u. split; [done|].
  destruct (so_child s' (pa_structure s' (gw_parsed _ _ Hg)) n nd q Hnd Hq) as (qd & Hqd & Ho).
  rewrite (gw_rules _ _ Hg) in Hqd. destruct (so_output s (pa_structure s Hp) q qd n Hqd Ho) as (nd0 & Hnd0 & _).
  destruct (en_nodes _ _ (gw_enlarged _ _ Hg) n nd0 Hnd0) as (nd1 & Hnd1 & Hpa1). assert (nd1 = nd) as -> by congruence.
  exists q, qd, n, nd0. split_and!; [done|done|done|congruence].
Qed.

Lemma processRule_spec v s :
  parsed s → complete_rule v →
  wp (processRule v) (λ _ s', rule_done v s s' ∧ ∀ p, known s' p ↔ known s p ∨ mentions v p)
    (λ e _, einval e ∧ (malformed v ∨ ∃ p, makes v p ∧ produced s p)) s.
Proof.
  intros Hp Hc. rewrite processRule_cases. destruct (is_rule v) eqn:Hv.
  2: { apply wp_ret. unfold rule_done, mentions. rewrite Hv. split_and!; [done|apply enlarged_refl|done|].
       intros p. split; [auto|]. by intros [?|[? _]]. }
  destruct (Hc Hv) as [[ji Hji] [jo Hjo]]. unfold rule_done, mentions, malformed, makes. rewrite Hv, Hji, Hjo.
  apply wp_bind. eapply wp_mono; [by apply (parsedNodes_spec ji)| |].
  2: { intros e s1 [He Hs]. split; [done|]. left. split; [done|]. left. exists "inputs", ji. auto. }
  intros ins s1 (Hg1 & Hnd1 & Hnames1 & Hk1 & Hkn1).
  apply wp_bind. eapply wp_mono; [apply (parsedNodes_spec jo), Hg1| |].
  2: { intros e s2 [He Hs]. split; [done|]. left. split; [done|]. left. exists "outputs", jo. auto. }
  intros outs s2 (Hg2 & Hnd2 & Hnames2 & Hk2 & Hkn2).
  eapply wp_mono; [apply (newRule_spec v ji jo ins outs s2); [apply Hg2|done|done|done|done| |done|]| |].
  - eapply names_enlarged; [apply Hg2|apply Hg2|exact Hk1|apply Hg1|done].
  - intros u [Hu|Hu]; [|by apply Hk2]. apply Hkn2. left. by apply Hk1.
  - intros [] s3 (Hp3 & He3 & Hkn3 & r & Hr & Hd). split_and!; [done| | |].
    + eapply enlarged_trans; [apply Hg1|]. eapply enlarged_trans; [apply Hg2|done].
    + exists r. split; [|done]. rewrite Hr. f_equal. rewrite (gw_graph _ _ Hg2). apply Hg1.
    + intros p. rewrite Hkn3, Hkn2, Hkn1. split.
      * intros [[?|(u & Hu & <-)]|(u & Hu & <-)]; [by left| |].
        -- right. split; [done|]. exists "inputs", ji, u. eauto.
        -- right. split; [done|]. exists "outputs", jo, u. eauto.
      * intros [?|(_ & key & l & u & [-> | ->] & Hl & Hu & <-)]; [auto| |].
        -- left. right. exists u. split; [congruence|done].
        -- right. exists u. split; [congruence|done].
  - intros e s3 (He & [Hf|(n & nd & Hn & Hnd & Hch)]); split; [done|by left; auto|done|]. right.
    destruct (produced_before s s2 outs jo n nd) as (u & Hu & Hpr); [done|by eapply grew_trans|done..|].
    exists (_data u). split; [|done]. split; [done|]. exists jo, u. done.
Qed.

(** *** The whole document *)

(** The two reasons to refuse a document: a field of the wrong type, or two rules
    that make the same file. *)
Definition malformed_doc (rules : list JsonVal) : Prop := ∃ v, v ∈ rules ∧ malformed v.
Definition made_twice (rules : list JsonVal) : Prop :=
  ∃ pre v post p u, rules = pre ++ v :: post ∧ u ∈ pre ∧ makes u p ∧ makes v p.

Record represents (s : GState) (rules : list JsonVal) : Prop := {
  rp_parsed : parsed s;
  rp_rules : Forall2 (describes s) (Graph.rules_ (g_graph s)) (filter is_rule rules);
  rp_known p : known s p ↔ ∃ v, v ∈ rules ∧ mentions v p;
}.

Lemma represents_produced s rules p : represents s rules → produced s p → ∃ u, u ∈ rules ∧ makes u p.
Proof.
  intros [Hp Hf _] (r & rd & n & nd & Hr & Hn & Hnd & <-).
  assert (Hin : r ∈ Graph.rules_ (g_graph s)) by (apply (go_rules s (pa_graph s Hp)); by eexists).
  apply list_elem_of_lookup in Hin as [i Hi]. destruct (Forall2_lookup_l _ _ _ _ _ Hf Hi) as (u & Hu & Hd).
  apply list_elem_of_lookup_2, list_elem_of_filter in Hu as [Hu Hin]. exists u. split; [done|].
  destruct Hd as (rd' & ins & outs & Hr' & _ & Ho & _ & Hno & _). simplify_eq. apply Hno in Hn as (nd' & x & Hnd' & Hx & Hpa). simplify_eq.
  split; [by destruct (is_rule u)|]. exists outs, x. done.
Qed.

Lemma represents_step s s' pre v :
  represents s pre → rule_done v s s' → (∀ p, known s' p ↔ known s p ∨ mentions v p) → represents s' (pre ++ [v]).
Proof.
  intros [Hp Hf Hk] (Hp' & He & Hv) Hk'.
  assert (Hf' : Forall2 (describes s') (Graph.rules_ (g_graph s)) (filter is_rule pre)).
  { eapply Forall2_impl; [exact Hf|]. intros r u. by apply describes_enlarged. }
  split; [done| |].
  - rewrite filter_app. destruct (is_rule v) eqn:Hr.
    + destruct Hv as (r & -> & Hd). apply Forall2_app; [done|]. rewrite filter_cons_True by (by rewrite Hr). by constructor.
    + subst s'. rewrite filter_cons_False, filter_nil, app_nil_r; [done|]. rewrite Hr. by intros [].
  - intros p. rewrite Hk', Hk. setoid_rewrite elem_of_app. setoid_rewrite list_elem_of_singleton. naive_solver.
Qed.

Lemma represents_nothing : represents no_graph [].
Proof.
  split; [apply no_graph_parsed|constructor|]. intros p. unfold known, no_graph. simpl. rewrite lookup_empty.
  split; [by intros [? ?]|by intros (? & ?%elem_of_nil & _)].
Qed.

Lemma processRules_spec rules :
  (∀ v, v ∈ rules → complete_rule v) →
  wp (foreach rules processRule) (λ _ s, represents s rules)
    (λ e _, einval e ∧ (malformed_doc rules ∨ made_twice rules)) no_graph.
Proof.
  intros Hc. apply (wp_foreach (λ pre s, represents s pre)); [apply represents_nothing| |done].
  intros pre v post s Heq Hs. eapply wp_mono; [apply processRule_spec; [apply Hs|apply Hc; rewrite Heq; set_solver]| |].
  - intros [] s' [Hd Hk]. by eapply represents_step.
  - intros e s' (He & [Hm|(p & Hm & Hpr)]); (split; [done|]).
    + left. exists v. split; [rewrite Heq; set_solver|done].
    + right. destruct (represents_produced s pre p Hs Hpr) as (u & Hu & Hmu). exists pre, v, post, p, u. done.
Qed.

(** The node of the graph file is new. *)
Lemma mandatory_spec path s :
  parsed s → ¬ known s path →
  returns (generateMandatoryNodes path) (λ _ s', ∃ n, s' = addNode n (Node.new path true) s ∧ parsed s' ∧ enlarged s s') s.
Proof.
  intros Hp Hk. apply wp_bind. unfold wp at 1, newNode. set (n := new_addr _). apply wp_bind, wp_updGraph, wp_bind, wp_updGraph, wp_updGraph.
  pose proof (new_node_fresh s) as Hfr. fold n in Hfr. exists n.
  split; [done|]. match goal with |- parsed ?x ∧ _ => change x with (addNode n (Node.new path true) s) end.
  split; [|by apply addNode_enlarged]. apply addNode_parsed; try done. by apply eq_None_not_Some.
Qed.

(** [processJson] on the rules of a document in which every rule has both its
    fields and none names the graph file: either it throws [EINVAL], and then a
    field has the wrong type or two rules make the same file, or it returns the
    graph of the document.  In that graph nothing is marked or hashed ([parsed]), its
    rules are those of the document in their order, each with
    exactly the nodes of its names and its command and depfile, and its nodes are
    the names that occur and the graph file. *)
Theorem processJson_exact path rules :
  (∀ v, v ∈ _array rules → complete_rule v) → (∀ v, v ∈ _array rules → ¬ mentions v path) →
  wp (processJson path rules)
    (λ _ s, parsed s ∧ Forall2 (describes s) (Graph.rules_ (g_graph s)) (filter is_rule (_array rules)) ∧
       ∀ p, known s p ↔ p = path ∨ ∃ v, v ∈ _array rules ∧ mentions v p)
    (λ e _, einval e ∧ (malformed_doc (_array rules) ∨ made_twice (_array rules))) no_graph.
Proof.
  intros Hc Hm. apply wp_bind. eapply wp_mono; [by apply processRules_spec| |done].
  intros [] s [Hp Hf Hk]. eapply (wp_mono _ _ _ (λ _ _, False)); [apply mandatory_spec; [done|]| |done].
  - rewrite Hk. intros (v & Hv & Hmv). by apply (Hm v).
  - intros [] s' (n & -> & Hp' & He). split_and!; [done| |].
    + eapply Forall2_impl; [exact Hf|]. intros r u. by apply describes_enlarged.
    + intros p. rewrite <- Hk. unfold known. simpl. destruct (decide (path = p)) as [<-|Hne].
      * rewrite lookup_insert_eq. split; [auto|by eexists].
      * rewrite lookup_insert_ne by done. naive_solver.
Qed.


(** A rule of the document with [outputs] and without [inputs], or the reverse,
    does not give an error: [checkNode] dereferences the missing field (the guard
    is a conjunction). *)
Theorem missing_field_aborts v s :
  parsed s → is_rule v = true →
  getObject "inputs" v = None ∨
  (∃ ins, getObject "inputs" v = Some ins ∧ strings ins ∧ getObject "outputs" v = None) →
  processRule v s = Abort BadAccess.
Proof.
  intros Hp Hv Hf. rewrite processRule_cases, Hv. destruct Hf as [-> | (ins & -> & Hs & ->)]; [done|].
  pose proof (parsedNodes_spec ins s Hp) as Hspec. unfold wp in Hspec. unfold mbind, M_bind.
  destruct (checkNode (Some ins) s) as [l s'|e s'|a]; [done|by destruct Hspec|done].
Qed.

(** When a rule names the graph file, [generateMandatoryNodes] puts a second
    node in its place: the node the rules use stays on the heap, but no name leads
    to it any more, the graph is no longer one that [graph_ok] describes, and
    marking the node that is found under the name dirty leaves every rule as it
    was. *)
Theorem graph_file_replaced path n nd s fuel :
  parsed s → Graph.nodes_ (g_graph s) !! path = Some n → g_nodes s !! n = Some nd →
  returns (generateMandatoryNodes path) (λ _ s',
    g_nodes s' !! n = Some nd ∧ (∀ p, Graph.nodes_ (g_graph s') !! p ≠ Some n) ∧ ¬ graph_ok s' ∧
    ∃ m, Graph.nodes_ (g_graph s') !! path = Some m ∧
      returns (Node_markDirty (S fuel) m) (λ _ s'', g_rules s'' = g_rules s) s') s.
Proof.
  intros Hp Hn Hnd. pose proof (pa_graph s Hp) as Hg.
  apply wp_bind. unfold wp at 1, newNode. set (m := new_addr _). apply wp_bind, wp_updGraph, wp_bind, wp_updGraph, wp_updGraph.
  assert (Hm : g_nodes s !! m = None) by apply new_node_fresh. assert (m ≠ n) by congruence.
  simpl. assert (Hl : g_nodes s !! n = Some nd → (<[m:=Node.new path true]> (g_nodes s)) !! n = Some nd).
  { intros. by rewrite lookup_insert_ne. }
  assert (Hgone : ∀ p, (<[path:=m]> (Graph.nodes_ (g_graph s))) !! p ≠ Some n).
  { intros p. rewrite lookup_insert_Some. intros [[_ ?]|[Hne Hq]]; [done|].
    apply Hne. apply (go_nodes s Hg) in Hn as (x & Hx & <-). apply (go_nodes s Hg) in Hq as (y & Hy & <-). congruence. }
  split_and!; [by apply Hl|done| |].
  - intros Hg'. apply (Hgone (Node.path_ nd)). apply (go_nodes _ Hg'). exists nd. split; [|done]. by apply Hl.
  - exists m. split; [by rewrite lookup_insert_eq|]. simpl. apply wp_bind.
    eapply wp_readNode; [apply lookup_insert_eq|]. apply wp_bind, wp_ret. eapply wp_updNode; [apply lookup_insert_eq|]. done.
Qed.
End specs.

(** ** A document *)

Definition json_string (x : string) : JsonVal := tree_create_data JSON_STRING x.
Definition json_array (l : list JsonVal) : JsonVal :=
  foldl (λ a x, tree_append a None x) (tree_create_structure false) l.
Definition json_object (l : list (string * JsonVal)) : JsonVal :=
  foldl (λ o x, tree_append o (Some x.1) x.2) (tree_create_structure true) l.
Definition json_rule (ins outs : list string) (cmd : string) : JsonVal :=
  json_object [("outputs", json_array (map json_string outs)); ("inputs", json_array (map json_string ins));
               ("cmd", json_string cmd)].
Definition two_rules : JsonVal :=
  json_array [json_rule ["source"] ["o1"; "o2"] "gen"; json_string "no rule"; json_rule ["o2"; "o1"; "o2"] ["all"] ""].

Definition doc_graph (rules : JsonVal) : GState :=
  match @GraphParser.processJson first_fit "falcon.json" rules no_graph with Ret _ s => s | _ => no_graph end.
Example two_rules_graph :
  let s := doc_graph two_rules in
  (Graph.rules_ (g_graph s), Graph.nodes_ (g_graph s) !! "all", Graph.nodes_ (g_graph s) !! "falcon.json",
   (λ r, (Rule.inputs_ r, Rule.outputs_ r, Rule.command_ r)) <$> g_rules s !! 5%N) =
  ([3%N; 5%N], Some 4%N, Some 6%N, Some ([1%N; 2%N], [4%N], "")).
Proof. vm_compute. reflexivity. Qed.

Definition field_names (key : string) (v : JsonVal) : list string :=
  match getObject key v with Some l => map _data (_array l) | None => [] end.
Lemma mentions_names v path : mentions v path → path ∈ field_names "inputs" v ++ field_names "outputs" v.
Proof.
  intros (_ & key & l & u & Hkey & Hl & Hu & <-). apply elem_of_app.
  assert (Hin : _data u ∈ field_names key v) by (unfold field_names; rewrite Hl; by apply list_elem_of_fmap_2).
  destruct Hkey as [-> | ->]; auto.
Qed.
Definition check_complete (v : JsonVal) : bool :=
  negb (is_rule v) || bool_decide (is_Some (getObject "inputs" v) ∧ is_Some (getObject "outputs" v)).
Lemma check_complete_sound v : check_complete v = true → complete_rule v.
Proof. unfold check_complete, complete_rule. destruct (is_rule v); [|done]. simpl. by rewrite bool_decide_eq_true. Qed.

Lemma processJson_exact_witness :
  wp (@GraphParser.processJson first_fit "falcon.json" two_rules)
    (λ _ s, parsed s ∧ Forall2 (describes s) (Graph.rules_ (g_graph s)) (filter is_rule (_array two_rules)) ∧
       ∀ p, known s p ↔ p = "falcon.json" ∨ ∃ v, v ∈ _array two_rules ∧ mentions v p)
    (λ e _, einval e ∧ (malformed_doc (_array two_rules) ∨ made_twice (_array two_rules))) no_graph.
Proof.
  apply (@processJson_exact first_fit); intros v Hv.
  - apply check_complete_sound. revert v Hv. apply Forall_forall. repeat constructor.
  - intros Hm%mentions_names. revert Hm. apply (bool_decide_unpack ("falcon.json" ∉ field_names "inputs" v ++ field_names "outputs" v)).
    revert v Hv. apply Forall_forall. repeat constructor.
Defined.

Lemma missing_field_aborts_witness :
  @GraphParser.processRule first_fit (json_object [("outputs", json_array [json_string "all"])]) no_graph = Abort BadAccess.
Proof. apply (@missing_field_aborts first_fit); [apply no_graph_parsed|reflexivity|left; reflexivity]. Defined.

(** The graph of a document whose rule reads the graph file. *)
Definition reads_graph_file : GState :=
  match foreach (_array (json_array [json_rule ["falcon.json"] ["all"] "gen"])) (@GraphParser.processRule first_fit) no_graph with
  | Ret _ s => s
  | _ => no_graph
  end.
Lemma reads_graph_file_parsed : parsed reads_graph_file.
Proof.
  pose proof (@processRules_spec first_fit (_array (json_array [json_rule ["falcon.json"] ["all"] "gen"]))) as Hspec.
  unfold wp, reads_graph_file in *. destruct (foreach _ _ no_graph); [|apply no_graph_parsed|apply no_graph_parsed].
  apply Hspec. intros v Hv. apply check_complete_sound. revert v Hv. apply Forall_forall. repeat constructor.
Qed.

Lemma graph_file_replaced_witness :
  returns (@GraphParser.generateMandatoryNodes first_fit "falcon.json") (λ _ s', ¬ graph_ok s') reads_graph_file.
Proof.
  eapply wp_mono; [apply (@graph_file_replaced first_fit "falcon.json" 0 (Node.addParentRule 2 (@Node.new first_fit "falcon.json" true)) reads_graph_file 1)| |done].
  - apply reads_graph_file_parsed.
  - vm_compute. reflexivity.
  - vm_compute. reflexivity.
  - intros [] s' (_ & _ & Hg & _). exact Hg.
Defined.
