(* ===== verification/Json.v ===== *)
(** * The JSON tokenizer and its tree (json.c, json/parser.cpp)

    The parser of json.c is a table-driven automaton over the classes of characters,
    with a stack of modes, a buffer for the datum being read, and callbacks.  The
    callbacks are those of json_parser_dom, which build a tree with the functions of
    json/parser.cpp.  Storage grows by doubling in 32-bit sizes, written out; an
    allocation does not fail.  [JsonParser] is the class of json/parser.cpp, and
    [read_graph_file] the loop of GraphParser::processFile that feeds it a file in
    chunks.  The printer of json.c is in JsonPrinter.v. *)

From stdpp Require Import pretty.
From Stdlib Require Import Ascii.
From S2P Require Import Prelude GraphModel GraphChecks GraphParser.

(** ** Tables *)

(** [enum classes] *)
Inductive classes :=
  | C_SPACE | C_NL | C_WHITE | C_LCURB | C_RCURB | C_LSQRB | C_RSQRB | C_COLON | C_COMMA | C_QUOTE | C_BACKS
  | C_SLASH | C_PLUS | C_MINUS | C_DOT | C_ZERO | C_DIGIT | C_a | C_b | C_c | C_d | C_e | C_f | C_l | C_n
  | C_r | C_s | C_t | C_u | C_ABCDF | C_E | C_OTHER | C_STAR | C_HASH | C_ERROR.

(** Of the characters below 128. *)
Definition character_class : list classes :=
  [C_ERROR; C_ERROR; C_ERROR; C_ERROR; C_ERROR; C_ERROR; C_ERROR; C_ERROR;
   C_ERROR; C_WHITE; C_NL; C_ERROR; C_ERROR; C_WHITE; C_ERROR; C_ERROR;
   C_ERROR; C_ERROR; C_ERROR; C_ERROR; C_ERROR; C_ERROR; C_ERROR; C_ERROR;
   C_ERROR; C_ERROR; C_ERROR; C_ERROR; C_ERROR; C_ERROR; C_ERROR; C_ERROR;
   C_SPACE; C_OTHER; C_QUOTE; C_HASH; C_OTHER; C_OTHER; C_OTHER; C_OTHER;
   C_OTHER; C_OTHER; C_STAR; C_PLUS; C_COMMA; C_MINUS; C_DOT; C_SLASH;
   C_ZERO; C_DIGIT; C_DIGIT; C_DIGIT; C_DIGIT; C_DIGIT; C_DIGIT; C_DIGIT;
   C_DIGIT; C_DIGIT; C_COLON; C_OTHER; C_OTHER; C_OTHER; C_OTHER; C_OTHER;
   C_OTHER; C_ABCDF; C_ABCDF; C_ABCDF; C_ABCDF; C_E; C_ABCDF; C_OTHER;
   C_OTHER; C_OTHER; C_OTHER; C_OTHER; C_OTHER; C_OTHER; C_OTHER; C_OTHER;
   C_OTHER; C_OTHER; C_OTHER; C_OTHER; C_OTHER; C_OTHER; C_OTHER; C_OTHER;
   C_OTHER; C_OTHER; C_OTHER; C_LSQRB; C_BACKS; C_RSQRB; C_OTHER; C_OTHER;
   C_OTHER; C_a; C_b; C_c; C_d; C_e; C_f; C_OTHER;
   C_OTHER; C_OTHER; C_OTHER; C_OTHER; C_l; C_OTHER; C_n; C_OTHER;
   C_OTHER; C_OTHER; C_r; C_s; C_t; C_u; C_OTHER; C_OTHER;
   C_OTHER; C_OTHER; C_OTHER; C_LCURB; C_OTHER; C_RCURB; C_OTHER; C_OTHER].

(** [enum states] *)
Inductive states :=
  | STATE_GO | STATE_OK | STATE__O | STATE__K | STATE_CO | STATE__V | STATE__A | STATE__S | STATE_E0 | STATE_U1
  | STATE_U2 | STATE_U3 | STATE_U4 | STATE_M0 | STATE_Z0 | STATE_I0 | STATE_R1 | STATE_R2 | STATE_X1
  | STATE_X2 | STATE_X3 | STATE_T1 | STATE_T2 | STATE_T3 | STATE_F1 | STATE_F2 | STATE_F3 | STATE_F4
  | STATE_N1 | STATE_N2 | STATE_N3 | STATE_C1 | STATE_C2 | STATE_C3 | STATE_Y1 | STATE_D1 | STATE_D2.

(** [enum actions] *)
Inductive actions :=
  | STATE_KS | STATE_SP | STATE_AB | STATE_AE | STATE_OB | STATE_OE | STATE_CB | STATE_YB | STATE_CE | STATE_FA
  | STATE_TR | STATE_NU | STATE_DE | STATE_DF | STATE_SE | STATE_MX | STATE_ZX | STATE_IX | STATE_UC.

(** An entry of the table: a state, an action, or the error. *)
Inductive transition := To (s : states) | Do (a : actions) | STATE___.
Local Notation GO := (To STATE_GO).
Local Notation OK := (To STATE_OK).
Local Notation _O := (To STATE__O).
Local Notation _K := (To STATE__K).
Local Notation CO := (To STATE_CO).
Local Notation _V := (To STATE__V).
Local Notation _A := (To STATE__A).
Local Notation _S := (To STATE__S).
Local Notation E0 := (To STATE_E0).
Local Notation U1 := (To STATE_U1).
Local Notation U2 := (To STATE_U2).
Local Notation U3 := (To STATE_U3).
Local Notation U4 := (To STATE_U4).
Local Notation M0 := (To STATE_M0).
Local Notation Z0 := (To STATE_Z0).
Local Notation I0 := (To STATE_I0).
Local Notation R1 := (To STATE_R1).
Local Notation R2 := (To STATE_R2).
Local Notation X1 := (To STATE_X1).
Local Notation X2 := (To STATE_X2).
Local Notation X3 := (To STATE_X3).
Local Notation T1 := (To STATE_T1).
Local Notation T2 := (To STATE_T2).
Local Notation T3 := (To STATE_T3).
Local Notation F1 := (To STATE_F1).
Local Notation F2 := (To STATE_F2).
Local Notation F3 := (To STATE_F3).
Local Notation F4 := (To STATE_F4).
Local Notation N1 := (To STATE_N1).
Local Notation N2 := (To STATE_N2).
Local Notation N3 := (To STATE_N3).
Local Notation C1 := (To STATE_C1).
Local Notation C2 := (To STATE_C2).
Local Notation C3 := (To STATE_C3).
Local Notation Y1 := (To STATE_Y1).
Local Notation D1 := (To STATE_D1).
Local Notation D2 := (To STATE_D2).
Local Notation KS := (Do STATE_KS).
Local Notation SP := (Do STATE_SP).
Local Notation AB := (Do STATE_AB).
Local Notation AE := (Do STATE_AE).
Local Notation OB := (Do STATE_OB).
Local Notation OE := (Do STATE_OE).
Local Notation CB := (Do STATE_CB).
Local Notation YB := (Do STATE_YB).
Local Notation CE := (Do STATE_CE).
Local Notation FA := (Do STATE_FA).
Local Notation TR := (Do STATE_TR).
Local Notation NU := (Do STATE_NU).
Local Notation DE := (Do STATE_DE).
Local Notation DF := (Do STATE_DF).
Local Notation SE := (Do STATE_SE).
Local Notation MX := (Do STATE_MX).
Local Notation ZX := (Do STATE_ZX).
Local Notation IX := (Do STATE_IX).
Local Notation UC := (Do STATE_UC).
Local Notation __ := STATE___.

(** The classes: sp nl white { } [ ] : , quote backslash / + - . 0 19 a b c d e f l n r s t u ABCDF E other * # *)

Definition transitions (s : states) : list transition :=
  match s with
  | STATE_GO => [GO;GO;GO;OB;__;AB;__;__;__;__;__;CB;__;__;__;__;__;__;__;__;__;__;__;__;__;__;__;__;__;__;__;__;__;YB]
  | STATE_OK => [OK;OK;OK;__;OE;__;AE;__;SP;__;__;CB;__;__;__;__;__;__;__;__;__;__;__;__;__;__;__;__;__;__;__;__;__;YB]
  | STATE__O => [_O;_O;_O;__;OE;__;__;__;__;_S;__;CB;__;__;__;__;__;__;__;__;__;__;__;__;__;__;__;__;__;__;__;__;__;YB]
  | STATE__K => [_K;_K;_K;__;__;__;__;__;__;_S;__;CB;__;__;__;__;__;__;__;__;__;__;__;__;__;__;__;__;__;__;__;__;__;YB]
  | STATE_CO => [CO;CO;CO;__;__;__;__;KS;__;__;__;CB;__;__;__;__;__;__;__;__;__;__;__;__;__;__;__;__;__;__;__;__;__;YB]
  | STATE__V => [_V;_V;_V;OB;__;AB;__;__;__;_S;__;CB;__;MX;__;ZX;IX;__;__;__;__;__;F1;__;N1;__;__;T1;__;__;__;__;__;YB]
  | STATE__A => [_A;_A;_A;OB;__;AB;AE;__;__;_S;__;CB;__;MX;__;ZX;IX;__;__;__;__;__;F1;__;N1;__;__;T1;__;__;__;__;__;YB]
  | STATE__S => [_S;__;__;_S;_S;_S;_S;_S;_S;SE;E0;_S;_S;_S;_S;_S;_S;_S;_S;_S;_S;_S;_S;_S;_S;_S;_S;_S;_S;_S;_S;_S;_S;_S]
  | STATE_E0 => [__;__;__;__;__;__;__;__;__;_S;_S;_S;__;__;__;__;__;__;_S;__;__;__;_S;__;_S;_S;__;_S;U1;__;__;__;__;__]
  | STATE_U1 => [__;__;__;__;__;__;__;__;__;__;__;__;__;__;__;U2;U2;U2;U2;U2;U2;U2;U2;__;__;__;__;__;__;U2;U2;__;__;__]
  | STATE_U2 => [__;__;__;__;__;__;__;__;__;__;__;__;__;__;__;U3;U3;U3;U3;U3;U3;U3;U3;__;__;__;__;__;__;U3;U3;__;__;__]
  | STATE_U3 => [__;__;__;__;__;__;__;__;__;__;__;__;__;__;__;U4;U4;U4;U4;U4;U4;U4;U4;__;__;__;__;__;__;U4;U4;__;__;__]
  | STATE_U4 => [__;__;__;__;__;__;__;__;__;__;__;__;__;__;__;UC;UC;UC;UC;UC;UC;UC;UC;__;__;__;__;__;__;UC;UC;__;__;__]
  | STATE_M0 => [__;__;__;__;__;__;__;__;__;__;__;__;__;__;__;Z0;I0;__;__;__;__;__;__;__;__;__;__;__;__;__;__;__;__;__]
  | STATE_Z0 => [OK;OK;OK;__;OE;__;AE;__;SP;__;__;CB;__;__;DF;__;__;__;__;__;__;__;__;__;__;__;__;__;__;__;__;__;__;YB]
  | STATE_I0 => [OK;OK;OK;__;OE;__;AE;__;SP;__;__;CB;__;__;DF;I0;I0;__;__;__;__;DE;__;__;__;__;__;__;__;__;DE;__;__;YB]
  | STATE_R1 => [__;__;__;__;__;__;__;__;__;__;__;__;__;__;__;R2;R2;__;__;__;__;__;__;__;__;__;__;__;__;__;__;__;__;__]
  | STATE_R2 => [OK;OK;OK;__;OE;__;AE;__;SP;__;__;CB;__;__;__;R2;R2;__;__;__;__;X1;__;__;__;__;__;__;__;__;X1;__;__;YB]
  | STATE_X1 => [__;__;__;__;__;__;__;__;__;__;__;__;X2;X2;__;X3;X3;__;__;__;__;__;__;__;__;__;__;__;__;__;__;__;__;__]
  | STATE_X2 => [__;__;__;__;__;__;__;__;__;__;__;__;__;__;__;X3;X3;__;__;__;__;__;__;__;__;__;__;__;__;__;__;__;__;__]
  | STATE_X3 => [OK;OK;OK;__;OE;__;AE;__;SP;__;__;__;__;__;__;X3;X3;__;__;__;__;__;__;__;__;__;__;__;__;__;__;__;__;__]
  | STATE_T1 => [__;__;__;__;__;__;__;__;__;__;__;__;__;__;__;__;__;__;__;__;__;__;__;__;__;T2;__;__;__;__;__;__;__;__]
  | STATE_T2 => [__;__;__;__;__;__;__;__;__;__;__;__;__;__;__;__;__;__;__;__;__;__;__;__;__;__;__;__;T3;__;__;__;__;__]
  | STATE_T3 => [__;__;__;__;__;__;__;__;__;__;__;__;__;__;__;__;__;__;__;__;__;TR;__;__;__;__;__;__;__;__;__;__;__;__]
  | STATE_F1 => [__;__;__;__;__;__;__;__;__;__;__;__;__;__;__;__;__;F2;__;__;__;__;__;__;__;__;__;__;__;__;__;__;__;__]
  | STATE_F2 => [__;__;__;__;__;__;__;__;__;__;__;__;__;__;__;__;__;__;__;__;__;__;__;F3;__;__;__;__;__;__;__;__;__;__]
  | STATE_F3 => [__;__;__;__;__;__;__;__;__;__;__;__;__;__;__;__;__;__;__;__;__;__;__;__;__;__;F4;__;__;__;__;__;__;__]
  | STATE_F4 => [__;__;__;__;__;__;__;__;__;__;__;__;__;__;__;__;__;__;__;__;__;FA;__;__;__;__;__;__;__;__;__;__;__;__]
  | STATE_N1 => [__;__;__;__;__;__;__;__;__;__;__;__;__;__;__;__;__;__;__;__;__;__;__;__;__;__;__;__;N2;__;__;__;__;__]
  | STATE_N2 => [__;__;__;__;__;__;__;__;__;__;__;__;__;__;__;__;__;__;__;__;__;__;__;N3;__;__;__;__;__;__;__;__;__;__]
  | STATE_N3 => [__;__;__;__;__;__;__;__;__;__;__;__;__;__;__;__;__;__;__;__;__;__;__;NU;__;__;__;__;__;__;__;__;__;__]
  | STATE_C1 => [__;__;__;__;__;__;__;__;__;__;__;__;__;__;__;__;__;__;__;__;__;__;__;__;__;__;__;__;__;__;__;__;C2;__]
  | STATE_C2 => [C2;C2;C2;C2;C2;C2;C2;C2;C2;C2;C2;C2;C2;C2;C2;C2;C2;C2;C2;C2;C2;C2;C2;C2;C2;C2;C2;C2;C2;C2;C2;C2;C3;C2]
  | STATE_C3 => [C2;C2;C2;C2;C2;C2;C2;C2;C2;C2;C2;CE;C2;C2;C2;C2;C2;C2;C2;C2;C2;C2;C2;C2;C2;C2;C2;C2;C2;C2;C2;C2;C3;C2]
  | STATE_Y1 => [Y1;CE;Y1;Y1;Y1;Y1;Y1;Y1;Y1;Y1;Y1;Y1;Y1;Y1;Y1;Y1;Y1;Y1;Y1;Y1;Y1;Y1;Y1;Y1;Y1;Y1;Y1;Y1;Y1;Y1;Y1;Y1;Y1;Y1]
  | STATE_D1 => [__;__;__;__;__;__;__;__;__;__;D2;__;__;__;__;__;__;__;__;__;__;__;__;__;__;__;__;__;__;__;__;__;__;__]
  | STATE_D2 => [__;__;__;__;__;__;__;__;__;__;__;__;__;__;__;__;__;__;__;__;__;__;__;__;__;__;__;__;U1;__;__;__;__;__]
  end.

(** Ignore 0, append 1, escape 2. *)
Definition policies (s : states) : list nat :=
  match s with
  | STATE__V => [0;0;0;0;0;0;0;0;0;0;0;0;0;1;0;1;1;0;0;0;0;0;0;0;0;0;0;0;0;0;0;0;0;0]
  | STATE__A => [0;0;0;0;0;0;0;0;0;0;0;0;0;1;0;1;1;0;0;0;0;0;0;0;0;0;0;0;0;0;0;0;0;0]
  | STATE__S => [1;0;0;1;1;1;1;1;1;0;0;1;1;1;1;1;1;1;1;1;1;1;1;1;1;1;1;1;1;1;1;1;1;1]
  | STATE_E0 => [0;0;0;0;0;0;0;0;0;2;2;2;0;0;0;0;0;0;2;0;0;0;2;0;2;2;0;2;0;0;0;0;0;0]
  | STATE_U1 => [0;0;0;0;0;0;0;0;0;0;0;0;0;0;0;1;1;1;1;1;1;1;1;0;0;0;0;0;0;1;1;0;0;0]
  | STATE_U2 => [0;0;0;0;0;0;0;0;0;0;0;0;0;0;0;1;1;1;1;1;1;1;1;0;0;0;0;0;0;1;1;0;0;0]
  | STATE_U3 => [0;0;0;0;0;0;0;0;0;0;0;0;0;0;0;1;1;1;1;1;1;1;1;0;0;0;0;0;0;1;1;0;0;0]
  | STATE_U4 => [0;0;0;0;0;0;0;0;0;0;0;0;0;0;0;1;1;1;1;1;1;1;1;0;0;0;0;0;0;1;1;0;0;0]
  | STATE_M0 => [0;0;0;0;0;0;0;0;0;0;0;0;0;0;0;1;1;0;0;0;0;0;0;0;0;0;0;0;0;0;0;0;0;0]
  | STATE_Z0 => [0;0;0;0;0;0;0;0;0;0;0;0;0;0;1;0;0;0;0;0;0;0;0;0;0;0;0;0;0;0;0;0;0;0]
  | STATE_I0 => [0;0;0;0;0;0;0;0;0;0;0;0;0;0;1;1;1;0;0;0;0;1;0;0;0;0;0;0;0;0;1;0;0;0]
  | STATE_R1 => [0;0;0;0;0;0;0;0;0;0;0;0;0;0;0;1;1;0;0;0;0;0;0;0;0;0;0;0;0;0;0;0;0;0]
  | STATE_R2 => [0;0;0;0;0;0;0;0;0;0;0;0;0;0;0;1;1;0;0;0;0;1;0;0;0;0;0;0;0;0;1;0;0;0]
  | STATE_X1 => [0;0;0;0;0;0;0;0;0;0;0;0;1;1;0;1;1;0;0;0;0;0;0;0;0;0;0;0;0;0;0;0;0;0]
  | STATE_X2 => [0;0;0;0;0;0;0;0;0;0;0;0;0;0;0;1;1;0;0;0;0;0;0;0;0;0;0;0;0;0;0;0;0;0]
  | STATE_X3 => [0;0;0;0;0;0;0;0;0;0;0;0;0;0;0;1;1;0;0;0;0;0;0;0;0;0;0;0;0;0;0;0;0;0]
  | _ => replicate 34 0
  end.

Definition utf8_header_table : list N :=
  replicate 128 0%N ++ replicate 64 255%N ++ replicate 32 1%N ++ replicate 16 2%N ++ replicate 8 3%N ++ replicate 4 4%N ++ replicate 2 5%N ++ replicate 2 255%N.

Definition utf8_continuation_table : list N :=
  replicate 128 255%N ++ replicate 64 0%N ++ replicate 64 255%N.

Definition class_index (c : classes) : nat :=
  match c with
  | C_SPACE => 0 | C_NL => 1 | C_WHITE => 2 | C_LCURB => 3 | C_RCURB => 4 | C_LSQRB => 5 | C_RSQRB => 6 | C_COLON => 7
  | C_COMMA => 8 | C_QUOTE => 9 | C_BACKS => 10 | C_SLASH => 11 | C_PLUS => 12 | C_MINUS => 13 | C_DOT => 14
  | C_ZERO => 15 | C_DIGIT => 16 | C_a => 17 | C_b => 18 | C_c => 19 | C_d => 20 | C_e => 21 | C_f => 22 | C_l => 23
  | C_n => 24 | C_r => 25 | C_s => 26 | C_t => 27 | C_u => 28 | C_ABCDF => 29 | C_E => 30 | C_OTHER => 31
  | C_STAR => 32 | C_HASH => 33 | C_ERROR => 254
  end.
Definition state_transition_table (s : states) (c : classes) : transition := nth (class_index c) (transitions s) STATE___.
Definition buffer_policy_table (s : states) (c : classes) : nat := nth (class_index c) (policies s) 0.
Definition lookup_byte (table : list N) (ch : ascii) : N := nth (N.to_nat (N_of_ascii ch)) table 0%N.

(** ** The parser *)

(** [json_error], with [SUCCESS] for 0. *)
Inductive json_error :=
  | SUCCESS | JSON_ERROR_NO_MEMORY | JSON_ERROR_BAD_CHAR | JSON_ERROR_POP_EMPTY | JSON_ERROR_POP_UNEXPECTED_MODE
  | JSON_ERROR_NESTING_LIMIT | JSON_ERROR_DATA_LIMIT | JSON_ERROR_COMMENT_NOT_ALLOWED | JSON_ERROR_UNEXPECTED_CHAR
  | JSON_ERROR_UNICODE_MISSING_LOW_SURROGATE | JSON_ERROR_UNICODE_UNEXPECTED_LOW_SURROGATE
  | JSON_ERROR_COMMA_OUT_OF_STRUCTURE | JSON_ERROR_CALLBACK | JSON_ERROR_UTF8.

Inductive mode := MODE_ARRAY | MODE_OBJECT.
#[export] Instance states_eq_dec : EqDecision states.
Proof. solve_decision. Defined.
#[export] Instance mode_eq_dec : EqDecision mode.
Proof. solve_decision. Defined.

Record json_config := mkConfig {
  buffer_initial_size : N;
  max_nesting : N;
  max_data : N;
  allow_c_comments : bool;
  allow_yaml_comments : bool;
}.

(** [stack] has its top first; [buffer] holds the [buffer_offset] characters. *)
Record json_parser := mkParser {
  config : json_config;
  state : states;
  save_state : states;
  expecting_key : bool;
  utf8_multibyte_left : N;
  unicode_multi : N;
  type : json_type;
  stack : list mode;
  stack_size : N;
  buffer : list ascii;
  buffer_size : N;
}.

(** ** The tree under construction *)

(** [stack_elem::key]: null, a string, or a string that was freed. *)
Inductive key_pointer := KNull | KString (s : string) | KFreed.
Record stack_elem := mkElem { val : JsonVal; key : key_pointer }.

(** [dom_stack] has its top first; [dom_stack_bytes] is the size of its block. *)
Record json_parser_dom := mkDom {
  dom_stack : list stack_elem;
  dom_stack_size : N;
  dom_stack_bytes : N;
  root_structure : option JsonVal;
}.
Definition sizeof_stack_elem : N := 24.

Record Json := mkJsonState { js_parser : json_parser; js_dom : json_parser_dom }.
Definition l_parser : lens Json json_parser := Lens js_parser (λ p s, mkJsonState p (js_dom s)).
Definition l_dom : lens Json json_parser_dom := Lens js_dom (λ d s, mkJsonState (js_parser s) d).

Module Parser.
Definition set_state (x : states) (p : json_parser) : json_parser :=
  mkParser (config p) x (save_state p) (expecting_key p) (utf8_multibyte_left p) (unicode_multi p) (type p) (stack p) (stack_size p) (buffer p) (buffer_size p).
Definition set_save (x : states) (p : json_parser) : json_parser :=
  mkParser (config p) (state p) x (expecting_key p) (utf8_multibyte_left p) (unicode_multi p) (type p) (stack p) (stack_size p) (buffer p) (buffer_size p).
Definition set_key (x : bool) (p : json_parser) : json_parser :=
  mkParser (config p) (state p) (save_state p) x (utf8_multibyte_left p) (unicode_multi p) (type p) (stack p) (stack_size p) (buffer p) (buffer_size p).
Definition set_left (x : N) (p : json_parser) : json_parser :=
  mkParser (config p) (state p) (save_state p) (expecting_key p) x (unicode_multi p) (type p) (stack p) (stack_size p) (buffer p) (buffer_size p).
Definition set_multi (x : N) (p : json_parser) : json_parser :=
  mkParser (config p) (state p) (save_state p) (expecting_key p) (utf8_multibyte_left p) x (type p) (stack p) (stack_size p) (buffer p) (buffer_size p).
Definition set_type (x : json_type) (p : json_parser) : json_parser :=
  mkParser (config p) (state p) (save_state p) (expecting_key p) (utf8_multibyte_left p) (unicode_multi p) x (stack p) (stack_size p) (buffer p) (buffer_size p).
Definition set_stack (x : list mode) (size : N) (p : json_parser) : json_parser :=
  mkParser (config p) (state p) (save_state p) (expecting_key p) (utf8_multibyte_left p) (unicode_multi p) (type p) x size (buffer p) (buffer_size p).
Definition set_buffer (x : list ascii) (size : N) (p : json_parser) : json_parser :=
  mkParser (config p) (state p) (save_state p) (expecting_key p) (utf8_multibyte_left p) (unicode_multi p) (type p) (stack p) (stack_size p) x size.
End Parser.

(** [CHK]: return the error code of [m], if it is one. *)
Definition CHK {S} (m : M S json_error) (k : M S json_error) : M S json_error :=
  ret ← m; match ret with SUCCESS => k | _ => mret ret end.

(** A write at an index of a block. *)
Definition massert_index {S} (i size : N) : M S unit := if bool_decide (i < size)%N then mret tt else mabort BadAccess.

Definition uint32 (x : N) : N := (x mod 2 ^ 32)%N.

(** ** json_parser_dom *)

(** [realloc] is asked for [newsize] bytes, not elements.  A write outside of the block
    is not defined. *)
Definition dom_push (v : JsonVal) : M json_parser_dom json_error :=
  ctx ← mget;
  let offset := N.of_nat (length (dom_stack ctx)) in
  mwhen (bool_decide (offset = dom_stack_size ctx)) (
    let newsize := uint32 (dom_stack_size ctx * 2) in
    mput (mkDom (dom_stack ctx) newsize newsize (root_structure ctx)));;
  ctx ← mget;
  (if bool_decide (sizeof_stack_elem * (offset + 1) ≤ dom_stack_bytes ctx)%N
   then mput (mkDom (mkElem v KNull :: dom_stack ctx) (dom_stack_size ctx) (dom_stack_bytes ctx) (root_structure ctx))
   else mabort BadAccess);;
  mret SUCCESS.

Definition dom_pop : M json_parser_dom JsonVal :=
  ctx ← mget;
  match dom_stack ctx with
  | [] => mabort BadAccess
  | e :: l => mput (mkDom l (dom_stack_size ctx) (dom_stack_bytes ctx) (root_structure ctx));; mret (val e)
  end.

(** [ctx->append(stack->val, stack->key, stack->key_length, v)] and [free(stack->key)] on
    the top of the stack. *)
Definition append_top (v : JsonVal) : M json_parser_dom unit :=
  ctx ← mget;
  match dom_stack ctx with
  | mkElem parent KNull :: l =>
    mput (mkDom (mkElem (tree_append parent None v) KNull :: l) (dom_stack_size ctx) (dom_stack_bytes ctx) (root_structure ctx))
  | mkElem parent (KString k) :: l =>
    mput (mkDom (mkElem (tree_append parent (Some k) v) KFreed :: l) (dom_stack_size ctx) (dom_stack_bytes ctx) (root_structure ctx))
  | mkElem _ KFreed :: _ | [] => mabort BadAccess
  end.

Definition set_top_key (k : string) : M json_parser_dom unit :=
  ctx ← mget;
  match dom_stack ctx with
  | mkElem v _ :: l => mput (mkDom (mkElem v (KString k) :: l) (dom_stack_size ctx) (dom_stack_bytes ctx) (root_structure ctx))
  | [] => mabort BadAccess
  end.

Definition json_parser_dom_callback (type : json_type) (data : string) : M json_parser_dom json_error :=
  match type with
  | JSON_ARRAY_BEGIN | JSON_OBJECT_BEGIN =>
    dom_push (tree_create_structure (bool_decide (type = JSON_OBJECT_BEGIN)));; mret SUCCESS
  | JSON_OBJECT_END | JSON_ARRAY_END =>
    v ← dom_pop;
    ctx ← mget;
    match dom_stack ctx with
    | _ :: _ => append_top v
    | [] => mput (mkDom [] (dom_stack_size ctx) (dom_stack_bytes ctx) (Some v))
    end;;
    mret SUCCESS
  | JSON_KEY => set_top_key data;; mret SUCCESS
  | JSON_STRING | JSON_INT | JSON_FLOAT | JSON_NULL | JSON_TRUE | JSON_FALSE =>
    append_top (tree_create_data type data);; mret SUCCESS
  | JSON_NONE | JSON_BSTRING => mret SUCCESS
  end.

(** [json_parser_dom_init] *)
Definition dom_init : json_parser_dom := mkDom [] 1024 (1024 * sizeof_stack_elem) None.

(** ** The automaton *)

Definition onParser {A} (m : M json_parser A) : M Json A := zoom l_parser m.
Definition setp (f : json_parser → json_parser) : M Json unit := onParser (modify f).
Definition thep : M Json json_parser := onParser mget.

Definition state_grow : M json_parser json_error :=
  p ← mget;
  let newsize := uint32 (stack_size p * 2) in
  if negb (bool_decide (max_nesting (config p) = 0%N)) then mret JSON_ERROR_NESTING_LIMIT
  else mput (Parser.set_stack (stack p) newsize p);; mret SUCCESS.

Definition state_push (m : mode) : M json_parser json_error :=
  p ← mget;
  CHK (if bool_decide (stack_size p ≤ N.of_nat (length (stack p)))%N then state_grow else mret SUCCESS) (
    p ← mget;
    massert_index (N.of_nat (length (stack p))) (stack_size p);;
    mput (Parser.set_stack (m :: stack p) (stack_size p) p);;
    mret SUCCESS).

Definition state_pop (m : mode) : M json_parser json_error :=
  p ← mget;
  match stack p with
  | [] => mret JSON_ERROR_POP_EMPTY
  | top :: l =>
    mput (Parser.set_stack l (stack_size p) p);;
    if bool_decide (top = m) then mret SUCCESS else mret JSON_ERROR_POP_UNEXPECTED_MODE
  end.

Definition buffer_grow : M json_parser json_error :=
  p ← mget;
  let max := max_data (config p) in
  if bool_decide (0 < max)%N && bool_decide (buffer_size p = max) then mret JSON_ERROR_DATA_LIMIT
  else
    let newsize := uint32 (buffer_size p * 2) in
    let newsize := if bool_decide (0 < max)%N && bool_decide (max < newsize)%N then max else newsize in
    mput (Parser.set_buffer (buffer p) newsize p);; mret SUCCESS.

Definition buffer_push (c : ascii) : M json_parser json_error :=
  p ← mget;
  CHK (if bool_decide (buffer_size p ≤ N.of_nat (length (buffer p)) + 1)%N then buffer_grow else mret SUCCESS) (
    p ← mget;
    massert_index (N.of_nat (length (buffer p))) (buffer_size p);;
    mput (Parser.set_buffer (buffer p ++ [c]) (buffer_size p) p);;
    mret SUCCESS).

(** The terminating zero is written behind the characters. *)
Definition do_callback_withbuf (t : json_type) : M Json json_error :=
  p ← thep;
  onParser (massert_index (N.of_nat (length (buffer p))) (buffer_size p));;
  zoom l_dom (json_parser_dom_callback t (String.string_of_list_ascii (buffer p))).
Definition do_callback (t : json_type) : M Json json_error := zoom l_dom (json_parser_dom_callback t "").

Definition reset_buffer : M Json unit := setp (λ p, Parser.set_buffer [] (buffer_size p) p).

Definition do_buffer : M Json json_error :=
  p ← thep;
  CHK (match type p with
       | JSON_KEY | JSON_STRING | JSON_FLOAT | JSON_INT | JSON_NULL | JSON_TRUE | JSON_FALSE => do_callback_withbuf (type p)
       | _ => mret SUCCESS
       end) (
    reset_buffer;; mret SUCCESS).

Definition hextable : list N :=
  [255; 255; 255; 255; 255; 255; 255; 255; 255; 255; 255; 255; 255; 255; 255; 255;
   255; 255; 255; 255; 255; 255; 255; 255; 255; 255; 255; 255; 255; 255; 255; 255;
   255; 255; 255; 255; 255; 255; 255; 255; 255; 255; 255; 255; 255; 255; 255; 255;
   0; 1; 2; 3; 4; 5; 6; 7; 8; 9; 255; 255; 255; 255; 255; 255;
   255; 10; 11; 12; 13; 14; 15; 255; 255; 255; 255; 255; 255; 255; 255; 255;
   255; 255; 255; 255; 255; 255; 255; 255; 255; 255; 255; 255; 255; 255; 255; 255;
   255; 10; 11; 12; 13; 14; 15; 255; 255; 255; 255; 255; 255; 255; 255; 255;
   255; 255; 255; 255; 255; 255; 255; 255; 255; 255; 255; 255; 255; 255; 255; 255]%N.
Definition hex (c : ascii) : M json_parser N := deref (hextable !! N.to_nat (N_of_ascii c)).
Definition is_high_surrogate (uc : N) : bool := bool_decide (N.land uc 0xfc00 = 0xd800)%N.
Definition is_low_surrogate (uc : N) : bool := bool_decide (N.land uc 0xfc00 = 0xdc00)%N.

(** Characters stored over the digits, which are no longer needed. *)
Definition store (l : list N) : M json_parser unit :=
  modify (λ p, Parser.set_buffer (buffer p ++ map ascii_of_N l) (buffer_size p) p).

Definition decode_unicode_char : M json_parser json_error :=
  p ← mget;
  let offset := length (buffer p) in
  match drop (offset - 4) (buffer p) with
  | [c1; c2; c3; c4] =>
    h1 ← hex c1; h2 ← hex c2; h3 ← hex c3; h4 ← hex c4;
    let uval := N.lor (N.lor (N.shiftl h1 12) (N.shiftl h2 8)) (N.lor (N.shiftl h3 4) h4) in
    modify (λ p, Parser.set_buffer (take (offset - 4) (buffer p)) (buffer_size p) p);;
    let multi := unicode_multi p in
    if bool_decide (multi = 0%N) && bool_decide (uval < 0x80)%N then store [uval];; mret SUCCESS
    else if negb (bool_decide (multi = 0%N)) then
      if negb (is_low_surrogate uval) then mret JSON_ERROR_UNICODE_MISSING_LOW_SURROGATE
      else
        let uval := (0x10000 + N.shiftl (N.land multi 0x3ff) 10 + N.land uval 0x3ff)%N in
        store [N.lor (N.shiftr uval 18) 0xf0; N.lor (N.land (N.shiftr uval 12) 0x3f) 0x80;
               N.lor (N.land (N.shiftr uval 6) 0x3f) 0x80; N.lor (N.land uval 0x3f) 0x80];;
        modify (Parser.set_multi 0);;
        mret SUCCESS
    else if is_low_surrogate uval then mret JSON_ERROR_UNICODE_UNEXPECTED_LOW_SURROGATE
    else if is_high_surrogate uval then modify (Parser.set_multi (uval mod 2 ^ 16)%N);; mret SUCCESS
    else if bool_decide (uval < 0x800)%N then
      store [N.lor (N.shiftr uval 6) 0xc0; N.lor (N.land uval 0x3f) 0x80];; mret SUCCESS
    else
      store [N.lor (N.shiftr uval 12) 0xe0; N.lor (N.land (N.shiftr uval 6) 0x3f) 0x80; N.lor (N.land (N.shiftr uval 0) 0x3f) 0x80];;
      mret SUCCESS
  | _ => mabort BadAccess
  end.

(** The character an escape stands for. *)
Definition escaped (next : ascii) : ascii :=
  match N_of_ascii next with
  | 98%N => ascii_of_N 8 | 102%N => ascii_of_N 12 | 110%N => ascii_of_N 10 | 114%N => ascii_of_N 13 | 116%N => ascii_of_N 9
  | 34%N => next | 47%N => next | 92%N => next
  | _ => ascii_of_N 0
  end.
Definition buffer_push_escape (next : ascii) : M json_parser json_error := buffer_push (escaped next).

Definition act_uc : M Json json_error :=
  CHK (onParser decode_unicode_char) (
    setp (λ p, Parser.set_state (if bool_decide (unicode_multi p = 0%N) then STATE__S else STATE_D1) p);; mret SUCCESS).

Definition act_yb : M Json json_error :=
  p ← thep;
  if negb (allow_yaml_comments (config p)) then mret JSON_ERROR_COMMENT_NOT_ALLOWED
  else setp (Parser.set_save (state p));; mret SUCCESS.
Definition act_cb : M Json json_error :=
  p ← thep;
  if negb (allow_c_comments (config p)) then mret JSON_ERROR_COMMENT_NOT_ALLOWED
  else setp (Parser.set_save (state p));; mret SUCCESS.

(** [s > STATE__A] *)
Definition after_A (s : states) : bool :=
  match s with STATE_GO | STATE_OK | STATE__O | STATE__K | STATE_CO | STATE__V | STATE__A => false | _ => true end.
Definition act_ce : M Json json_error :=
  setp (λ p, Parser.set_state (if after_A (save_state p) then STATE_OK else save_state p) p);; mret SUCCESS.

Definition act_ob : M Json json_error :=
  CHK (do_callback JSON_OBJECT_BEGIN) (
  CHK (onParser (state_push MODE_OBJECT)) (
    setp (Parser.set_key true);; mret SUCCESS)).
Definition act_oe : M Json json_error :=
  CHK (onParser (state_pop MODE_OBJECT)) (
  CHK (do_callback JSON_OBJECT_END) (
    setp (Parser.set_key false);; mret SUCCESS)).
Definition act_ab : M Json json_error :=
  CHK (do_callback JSON_ARRAY_BEGIN) (
  CHK (onParser (state_push MODE_ARRAY)) (mret SUCCESS)).
Definition act_ae : M Json json_error :=
  CHK (onParser (state_pop MODE_ARRAY)) (
  CHK (do_callback JSON_ARRAY_END) (mret SUCCESS)).

Definition act_se : M Json json_error :=
  p ← thep;
  CHK (do_callback_withbuf (if expecting_key p then JSON_KEY else JSON_STRING)) (
    reset_buffer;;
    setp (Parser.set_state (if expecting_key p then STATE_CO else STATE_OK));;
    setp (Parser.set_key false);;
    mret SUCCESS).

Definition act_sp : M Json json_error :=
  p ← thep;
  match stack p with
  | [] => mret JSON_ERROR_COMMA_OUT_OF_STRUCTURE
  | MODE_OBJECT :: _ => setp (Parser.set_key true);; setp (Parser.set_state STATE__K);; mret SUCCESS
  | MODE_ARRAY :: _ => setp (Parser.set_state STATE__V);; mret SUCCESS
  end.

(** [call], [type], [state] unless the callback sets it, [dobuffer]. *)
Record action_descr := mkDescr { call : option (M Json json_error); descr_type : json_type; descr_state : option states; dobuffer : bool }.
Definition actions_map (a : actions) : action_descr :=
  match a with
  | STATE_KS => mkDescr None          JSON_NONE  (Some STATE__V) false
  | STATE_SP => mkDescr (Some act_sp) JSON_NONE  None            true
  | STATE_AB => mkDescr (Some act_ab) JSON_NONE  (Some STATE__A) false
  | STATE_AE => mkDescr (Some act_ae) JSON_NONE  (Some STATE_OK) true
  | STATE_OB => mkDescr (Some act_ob) JSON_NONE  (Some STATE__O) false
  | STATE_OE => mkDescr (Some act_oe) JSON_NONE  (Some STATE_OK) true
  | STATE_CB => mkDescr (Some act_cb) JSON_NONE  (Some STATE_C1) true
  | STATE_YB => mkDescr (Some act_yb) JSON_NONE  (Some STATE_Y1) true
  | STATE_CE => mkDescr (Some act_ce) JSON_NONE  None            false
  | STATE_FA => mkDescr None          JSON_FALSE (Some STATE_OK) false
  | STATE_TR => mkDescr None          JSON_TRUE  (Some STATE_OK) false
  | STATE_NU => mkDescr None          JSON_NULL  (Some STATE_OK) false
  | STATE_DE => mkDescr None          JSON_FLOAT (Some STATE_X1) false
  | STATE_DF => mkDescr None          JSON_FLOAT (Some STATE_R1) false
  | STATE_SE => mkDescr (Some act_se) JSON_NONE  None            false
  | STATE_MX => mkDescr None          JSON_INT   (Some STATE_M0) false
  | STATE_ZX => mkDescr None          JSON_INT   (Some STATE_Z0) false
  | STATE_IX => mkDescr None          JSON_INT   (Some STATE_I0) false
  | STATE_UC => mkDescr (Some act_uc) JSON_NONE  None            false
  end.

Definition do_action (a : actions) : M Json json_error :=
  let descr := actions_map a in
  CHK (match call descr with
       | Some f => CHK (if dobuffer descr then do_buffer else mret SUCCESS) f
       | None => mret SUCCESS
       end) (
    match descr_state descr with Some s => setp (Parser.set_state s) | None => mret tt end;;
    setp (Parser.set_type (descr_type descr));;
    mret SUCCESS).

(** The class of a character, or the error that breaks the loop. *)
Definition next_class (ch : ascii) : M json_parser (json_error + classes) :=
  p ← mget;
  if bool_decide (0 < utf8_multibyte_left p)%N then
    if negb (bool_decide (lookup_byte utf8_continuation_table ch = 0%N)) then mret (inl JSON_ERROR_UTF8)
    else mput (Parser.set_left (utf8_multibyte_left p - 1) p);; mret (inr C_OTHER)
  else
    let left := lookup_byte utf8_header_table ch in
    mput (Parser.set_left left p);;
    if bool_decide (left = 255%N) then mret (inl JSON_ERROR_UTF8)
    else if bool_decide (0 < left)%N then mret (inr C_OTHER)
    else
      c ← deref (character_class !! N.to_nat (N_of_ascii ch));
      match c with C_ERROR => mret (inl JSON_ERROR_BAD_CHAR) | _ => mret (inr c) end.

(** One turn of the loop of [json_parser_string]. *)
Definition parse_char (ch : ascii) : M Json json_error :=
  class ← onParser (next_class ch);
  match class with
  | inl e => mret e
  | inr c =>
    p ← thep;
    let policy := buffer_policy_table (state p) c in
    let push := match policy with
                | 0 => mret SUCCESS
                | 2 => buffer_push_escape ch
                | _ => buffer_push ch
                end in
    match state_transition_table (state p) c with
    | STATE___ => mret JSON_ERROR_UNEXPECTED_CHAR
    | Do a => CHK (onParser push) (do_action a)
    | To s => CHK (onParser push) (setp (Parser.set_state s);; mret SUCCESS)
    end
  end.

(** The error code and the number of characters processed. *)
Fixpoint parse_chars (i : N) (s : list ascii) : M Json (json_error * N) :=
  match s with
  | [] => mret (SUCCESS, i)
  | ch :: s' =>
    ret ← parse_char ch;
    match ret with SUCCESS => parse_chars (uint32 (i + 1)) s' | _ => mret (ret, i) end
  end.
Definition json_parser_string (s : list ascii) : M Json (json_error * N) := parse_chars 0 s.
Definition json_parser_char (ch : ascii) : M Json json_error := r ← json_parser_string [ch]; mret r.1.

(** [memset(parser, 0, ...)] and the sizes. *)
Definition json_parser_init (cfg : json_config) : json_parser :=
  let size := if bool_decide (0 < buffer_initial_size cfg)%N then buffer_initial_size cfg else 4096%N in
  mkParser cfg STATE_GO STATE_GO false 0 0 JSON_NONE []
    (if bool_decide (0 < max_nesting cfg)%N then max_nesting cfg else 256%N) []
    (if bool_decide (0 < max_data cfg)%N && bool_decide (max_data cfg < size)%N then max_data cfg else size).

Definition json_parser_is_done (p : json_parser) : bool := bool_decide (stack p = []) && negb (bool_decide (state p = STATE_GO)).

(** ** JsonParser *)

Module JsonParser.
Definition new : Json := mkJsonState (json_parser_init (mkConfig 0 0 0 true false)) dom_init.

(** A C string ends at the first zero. *)
Fixpoint c_string (s : list ascii) : list ascii :=
  match s with [] => [] | c :: s' => if bool_decide (c = ascii_of_N 0) then [] else c :: c_string s' end.
Definition error_message (line col : N) (s : list ascii) : string :=
  String.string_of_list_ascii (take 255 (String.list_ascii_of_string
    ("Error line (" +:+ pretty line +:+ ") caracter (" +:+ pretty col +:+ ") line (" +:+
     String.string_of_list_ascii (c_string s) +:+ ")")%string)).

Definition parse (line : N) (s : list ascii) : M Json unit :=
  ret ← json_parser_string s;
  match ret.1 with
  | SUCCESS | JSON_ERROR_POP_EMPTY => mret tt
  | JSON_ERROR_COMMENT_NOT_ALLOWED => mthrow (Exception EINVAL "yaml-style comment in json not allowed")
  | _ => mthrow (Exception EINVAL (error_message line ret.2 s))
  end.

Definition getDom : M Json (option JsonVal) := s ← mget; mret (root_structure (js_dom s)).
End JsonParser.

(** The loop of GraphParser::processFile: 4095 characters at a time until a read comes
    short. *)
Definition chunk_size : nat := N.to_nat 4095.
Fixpoint parse_file (fuel : nat) (lineCounter : N) (content : list ascii) : M Json unit :=
  match fuel with
  | O => mabort OutOfFuel
  | S fuel =>
    JsonParser.parse lineCounter (take chunk_size content);;
    if bool_decide (length content < chunk_size) then mret tt
    else parse_file fuel (uint32 (lineCounter + 1)) (drop chunk_size content)
  end.

(** The tree of a file, null if the file has none. *)
Definition read_graph_file (content : string) : outcome unit (option JsonVal) :=
  let s := String.list_ascii_of_string content in
  match parse_file (S (length s)) 0 s JsonParser.new with
  | Ret _ st => Ret (root_structure (js_dom st)) tt
  | Throw e _ => Throw e tt
  | Abort r => Abort r
  end.
