(* ===== verification/JsonText.v ===== *)
(** * What the JSON tokenizer accepts, and the tree it makes of it

    A grammar of JSON documents ([value_text], [string_text], ...) in the usual style,
    with blanks, escapes, surrogate pairs and UTF-8, and the theorem that json.c with
    the callbacks of json/parser.cpp reads a document of the grammar into its tree, in
    chunks of any size.  The grammar is the one of RFC 8259 for a document that is an
    object or an array, without the two things json.c refuses: an exponent directly
    behind a leading zero (0e5), and an escape for half of a surrogate pair alone
    (JsonErrors.v).  A datum is only handed to the callbacks when the character
    behind it is read; [after] is the state between the two. *)

From Stdlib Require Import Ascii.
From S2P Require Import Prelude GraphModel GraphChecks GraphParser Json.

(** ** Running the automaton over a text *)

Inductive eats : list ascii → Json → Json → Prop :=
  | eats_nil a : eats [] a a
  | eats_cons c s a b d : parse_char c a = Ret SUCCESS b → eats s b d → eats (c :: s) a d.

Lemma eats_app s1 s2 a b d : eats s1 a b → eats s2 b d → eats (s1 ++ s2) a d.
Proof. induction 1; [done|]. intros. simpl. econstructor; eauto. Qed.
Lemma eats_split s1 s2 a d : eats (s1 ++ s2) a d → ∃ b, eats s1 a b ∧ eats s2 b d.
Proof.
  revert a. induction s1 as [|c s1 IH]; intros a He; [exists a; split; [constructor|done]|].
  inversion He as [|? ? ? b ? Hc Hs]; subst. destruct (IH b Hs) as (m & H1 & H2). exists m. split; [by econstructor|done].
Qed.
Lemma parse_chars_eats s a b i : eats s a b → ∃ j, parse_chars i s a = Ret (SUCCESS, j) b.
Proof.
  intros He. revert i. induction He as [a|c s a b d Hc _ IH]; intros i; [by eexists|].
  simpl. unfold mbind, M_bind. rewrite Hc. apply IH.
Qed.

Lemma parse_file_eats s a b fuel line : eats s a b → length s < fuel → parse_file fuel line s a = Ret tt b.
Proof.
  revert s a line. induction fuel as [|fuel IH]; intros s a line He Hf; [lia|].
  rewrite <- (take_drop chunk_size s) in He. destruct (eats_split _ _ _ _ He) as (m & H1 & H2).
  cbn [parse_file]. unfold JsonParser.parse, json_parser_string, mbind, M_bind.
  destruct (parse_chars_eats _ _ _ 0 H1) as [j ->]. cbn [fst mret M_ret].
  case_bool_decide as Hs.
  - rewrite drop_ge in H2 by lia. by inversion H2.
  - apply IH; [done|]. rewrite length_drop. assert (0 < chunk_size) by (unfold chunk_size; lia). lia.
Qed.

(** A text takes every state of [P] to one of [Q]. *)
Definition eats_to (s : list ascii) (P Q : Json → Prop) : Prop := ∀ a, P a → ∃ b, eats s a b ∧ Q b.
Lemma eats_to_nil (P Q : Json → Prop) : (∀ a, P a → Q a) → eats_to [] P Q.
Proof. intros H a Ha. exists a. split; [constructor|auto]. Qed.
Lemma eats_to_app s1 s2 P Q R : eats_to s1 P Q → eats_to s2 Q R → eats_to (s1 ++ s2) P R.
Proof.
  intros H1 H2 a Ha. destruct (H1 a Ha) as (b & He1 & Hb). destruct (H2 b Hb) as (d & He2 & Hd).
  exists d. split; [by eapply eats_app|done].
Qed.
Lemma eats_to_weaken s (P P' Q Q' : Json → Prop) : (∀ a, P' a → P a) → (∀ a, Q a → Q' a) → eats_to s P Q → eats_to s P' Q'.
Proof. intros HP HQ H a Ha. destruct (H a (HP a Ha)) as (b & ? & ?). exists b. auto. Qed.
Lemma eats_to_char c (P Q : Json → Prop) :
  (∀ a, P a → returns (parse_char c) (λ r b, r = SUCCESS ∧ Q b) a) → eats_to [c] P Q.
Proof.
  intros H a Ha. specialize (H a Ha). unfold returns, wp in H. destruct (parse_char c a) as [r b| |] eqn:E; [|done|done].
  destruct H as [-> Hb]. exists b. split; [|done]. econstructor; [exact E|constructor].
Qed.
Lemma eats_to_cons c s P Q R : eats_to [c] P Q → eats_to s Q R → eats_to (c :: s) P R.
Proof. apply (eats_to_app [c]). Qed.

(** ** States of the automaton *)

Definition program_config : json_config := mkConfig 0 0 0 true false.
(** Sizes below which nothing overflows. *)
Definition depth_limit : nat := N.to_nat 1024.
Definition text_limit : N := 2 ^ 30.

Record conf (left multi : N) (st : states) (ty : json_type) (ek : bool) (modes : list mode) (buf : list ascii)
    (elems : list stack_elem) (root : option JsonVal) (s : Json) : Prop := {
  cf_config : config (js_parser s) = program_config;
  cf_left : utf8_multibyte_left (js_parser s) = left;
  cf_multi : unicode_multi (js_parser s) = multi;
  cf_state : state (js_parser s) = st;
  cf_type : type (js_parser s) = ty;
  cf_key : expecting_key (js_parser s) = ek;
  cf_stack : stack (js_parser s) = modes;
  cf_stack_size : (N.of_nat (length modes) ≤ stack_size (js_parser s) ∧ 0 < stack_size (js_parser s) ≤ 2048)%N;
  cf_buffer : buffer (js_parser s) = buf;
  cf_buffer_size : (N.of_nat (length buf) < buffer_size (js_parser s) ≤ 2 ^ 31)%N;
  cf_elems : dom_stack (js_dom s) = elems;
  cf_elems_size : dom_stack_size (js_dom s) = 1024%N ∧ dom_stack_bytes (js_dom s) = (1024 * sizeof_stack_elem)%N;
  cf_root : root_structure (js_dom s) = root;
}.

Lemma new_conf : conf 0 0 STATE_GO JSON_NONE false [] [] [] None JsonParser.new.
Proof. split; try done; cbn; lia. Qed.

(** [m] succeeds and leads to [Q]. *)
Definition ok {S} (m : M S json_error) (Q : S → Prop) : S → Prop := returns m (λ r s', r = SUCCESS ∧ Q s').
Lemma ok_ret {S} (Q : S → Prop) s : Q s → ok (mret SUCCESS) Q s.
Proof. done. Qed.
Lemma ok_CHK {S} (m k : M S json_error) (Q : S → Prop) s : ok m (ok k Q) s → ok (CHK m k) Q s.
Proof. intros H. apply wp_bind. eapply wp_mono; [exact H| |done]. intros r s' [-> Hs]. exact Hs. Qed.
Lemma ok_mono {S} (m : M S json_error) (Q Q' : S → Prop) s : ok m Q s → (∀ s', Q s' → Q' s') → ok m Q' s.
Proof. intros H HQ. eapply wp_mono; [exact H| |done]. intros r s' [-> Hs]. auto. Qed.
Lemma ok_then {S} (m : M S unit) (Q : S → Prop) s : returns m (λ _, Q) s → ok (m;; mret SUCCESS) Q s.
Proof. intros H. apply wp_bind. eapply wp_mono; [exact H| |done]. by intros [] s' Hs. Qed.

(** ** One character *)

(** The class of an ASCII character. *)
Definition class_of (c : ascii) : option classes :=
  match character_class !! N.to_nat (N_of_ascii c) with Some C_ERROR => None | x => x end.

Lemma ascii_below c cl : class_of c = Some cl → (N_of_ascii c < 128)%N.
Proof.
  unfold class_of. destruct (character_class !! _) as [x|] eqn:E; [|done]. intros _.
  apply lookup_lt_Some in E. change (length character_class) with 128 in E. lia.
Qed.
Lemma header_ascii c : (N_of_ascii c < 128)%N → lookup_byte utf8_header_table c = 0%N.
Proof.
  intros Hc. unfold lookup_byte. set (n := N.to_nat (N_of_ascii c)). assert (Hn : n < 128) by lia. clearbody n.
  do 128 (destruct n as [|n]; [reflexivity|]). lia.
Qed.

(** [c] is read as [cl]: alone, as the first or as a further byte of a sequence. *)
Inductive classified : N → ascii → classes → N → Prop :=
  | classified_ascii c cl : class_of c = Some cl → classified 0 c cl 0
  | classified_lead c left : lookup_byte utf8_header_table c = left → (0 < left)%N → left ≠ 255%N → classified 0 c C_OTHER left
  | classified_more c left : lookup_byte utf8_continuation_table c = 0%N → (0 < left)%N → classified left c C_OTHER (left - 1).

Section char.
Context (left multi : N) (st : states) (ty : json_type) (ek : bool) (modes : list mode) (buf : list ascii)
  (elems : list stack_elem) (root : option JsonVal).

Lemma wp_next_class c cl left' Q s :
  conf left multi st ty ek modes buf elems root s → classified left c cl left' →
  (∀ s', conf left' multi st ty ek modes buf elems root s' → Q (inr cl) s') → returns (onParser (next_class c)) Q s.
Proof.
  intros Hs Hc HQ. apply wp_zoom. unfold next_class. apply wp_bind, wp_mget. cbn [lget l_parser].
  rewrite (cf_left _ _ _ _ _ _ _ _ _ _ Hs).
  assert (Hset : ∀ x, conf x multi st ty ek modes buf elems root (lset l_parser (Parser.set_left x (js_parser s)) s)).
  { intros x. destruct Hs as [? ? ? ? ? ? ? [? ?] ? [? ?] ? [? ?] ?]. by split. }
  destruct Hc as [c cl Hc|c left Hh Hpos Hne|c left Hcont Hpos].
  - rewrite bool_decide_eq_false_2 by lia. rewrite (header_ascii c) by by eapply ascii_below.
    apply wp_bind, wp_mput. rewrite bool_decide_eq_false_2 by done. rewrite bool_decide_eq_false_2 by lia.
    unfold class_of in Hc. apply wp_bind. destruct (character_class !! _) as [x|] eqn:E; [|done].
    eapply wp_deref; [done|]. destruct x; simplify_eq; apply wp_ret, HQ, Hset.
  - rewrite bool_decide_eq_false_2 by lia. rewrite Hh. apply wp_bind, wp_mput.
    rewrite bool_decide_eq_false_2 by done. rewrite bool_decide_eq_true_2 by done. apply wp_ret, HQ, Hset.
  - rewrite bool_decide_eq_true_2 by done. rewrite Hcont. rewrite bool_decide_eq_true_2 by done. cbn [negb].
    apply wp_bind, wp_mput, wp_ret, HQ, Hset.
Qed.
End char.

(** The fields that [set_...] leaves alone are read off a [conf]. *)
Ltac conf_split H :=
  destruct H as [? ? ? ? ? ? ? [? ?] ? [? ?] ? [? ?] ?]; split; simpl in *; try done; try (split; done).

Lemma wp_thep (Q : json_parser → Json → Prop) E s : Q (js_parser s) s → wp thep Q E s.
Proof. intros HQ. apply wp_zoom, wp_mget. by destruct s. Qed.
Lemma ok_setp left multi st ty ek modes buf elems root f (Q : Json → Prop) s :
  conf left multi st ty ek modes buf elems root s → Q (mkJsonState (f (js_parser s)) (js_dom s)) → ok (setp f;; mret SUCCESS) Q s.
Proof. intros _ HQ. apply ok_then. by apply wp_zoom, wp_modify. Qed.

Lemma buffer_push_ok c left multi st ty ek modes buf elems root s :
  conf left multi st ty ek modes buf elems root s → (N.of_nat (length buf) + 1 < text_limit)%N →
  ok (onParser (buffer_push c)) (conf left multi st ty ek modes (buf ++ [c]) elems root) s.
Proof.
  intros Hs Hlen. unfold text_limit in Hlen. apply wp_zoom. apply wp_bind, wp_mget. cbn [lget l_parser].
  pose proof (cf_buffer_size _ _ _ _ _ _ _ _ _ _ Hs) as [Hb1 Hb2]. pose proof (cf_buffer _ _ _ _ _ _ _ _ _ _ Hs) as Hb.
  pose proof (cf_config _ _ _ _ _ _ _ _ _ _ Hs) as Hcfg.
  apply ok_CHK. rewrite Hb. set (p := js_parser s) in *.
  assert (Hpush : ∀ size, (N.of_nat (length buf) + 1 < size ≤ 2 ^ 31)%N →
    ok (p ← mget; massert_index (N.of_nat (length (buffer p))) (buffer_size p);;
        mput (Parser.set_buffer (buffer p ++ [c]) (buffer_size p) p);; mret SUCCESS)
      (λ t, conf left multi st ty ek modes (buf ++ [c]) elems root (lset l_parser t s)) (Parser.set_buffer buf size p)).
  { intros size Hsize. apply wp_bind, wp_mget. cbn. apply wp_bind. unfold massert_index.
    rewrite bool_decide_eq_true_2 by lia. apply wp_ret. apply ok_then, wp_mput.
    destruct Hs as [? ? ? ? ? ? ? [? ?] ? [? ?] ? [? ?] ?]. split; cbn; try done.
    rewrite length_app. simpl. lia. }
  case_bool_decide as Hgrow.
  - apply wp_bind, wp_mget. cbn. rewrite Hcfg. cbn.
    apply ok_then, wp_mput. rewrite Hb.
    assert (uint32 (buffer_size p * 2) = (buffer_size p * 2)%N) as -> by (unfold uint32; apply N.mod_small; lia).
    rewrite (bool_decide_eq_false_2 (0 < 0)%N) by lia. cbn [andb]. apply Hpush. lia.
  - assert (Heq : Parser.set_buffer buf (buffer_size p) p = p) by (rewrite <- Hb; by destruct p).
    apply ok_ret. specialize (Hpush (buffer_size p)). rewrite Heq in Hpush. apply Hpush. lia.
Qed.

Section step.
Context (left left' multi : N) (st : states) (ty : json_type) (ek : bool) (modes : list mode) (buf : list ascii)
  (elems : list stack_elem) (root : option JsonVal).
Notation C st' buf' := (conf left' multi st' ty ek modes buf' elems root).

Definition pushed (policy : nat) (c : ascii) : list ascii :=
  match policy with 0 => buf | 2 => buf ++ [escaped c] | _ => buf ++ [c] end.

Lemma parse_char_ok c cl (Q : Json → Prop) s :
  conf left multi st ty ek modes buf elems root s → classified left c cl left' → (N.of_nat (length buf) + 1 < text_limit)%N →
  match state_transition_table st cl with
  | STATE___ => False
  | Do a => ∀ s', C st (pushed (buffer_policy_table st cl) c) s' → ok (do_action a) Q s'
  | To st' => ∀ s', C st' (pushed (buffer_policy_table st cl) c) s' → Q s'
  end → ok (parse_char c) Q s.
Proof.
  intros Hs0 Hc Hlen Ht. apply wp_bind. eapply wp_next_class; [done|done|]. clear s Hs0. intros s Hs.
  apply wp_bind, wp_thep. rewrite (cf_state _ _ _ _ _ _ _ _ _ _ Hs).
  assert (Hp : ∀ Q', (∀ s', C st (pushed (buffer_policy_table st cl) c) s' → Q' s') →
    ok (onParser match buffer_policy_table st cl with 0 => mret SUCCESS | 2 => buffer_push_escape c | _ => buffer_push c end) Q' s).
  { intros Q' HQ. destruct (buffer_policy_table st cl) as [|[|[|k]]]; cbn [pushed] in HQ.
    - apply wp_zoom. apply ok_ret, HQ. by destruct s.
    - eapply ok_mono; [by apply buffer_push_ok|done].
    - eapply ok_mono; [by apply buffer_push_ok|done].
    - eapply ok_mono; [by apply buffer_push_ok|done]. }
  destruct (state_transition_table st cl) as [st'|a|]; [| |done]; apply ok_CHK, Hp; [|done].
  intros s' Hs'. eapply ok_setp; [done|]. apply Ht. conf_split Hs'.
Qed.
End step.

(** A move of the automaton without an action. *)
Lemma eats_to_move left left' c cl st st' multi ty ek modes buf elems root :
  classified left c cl left' → state_transition_table st cl = To st' → (N.of_nat (length buf) + 1 < text_limit)%N →
  eats_to [c] (conf left multi st ty ek modes buf elems root)
    (conf left' multi st' ty ek modes (pushed buf (buffer_policy_table st cl) c) elems root).
Proof.
  intros Hc Ht Hlen. apply eats_to_char. intros a Ha. eapply parse_char_ok; [done|done|done|]. rewrite Ht. by intros s'.
Qed.
(** A character that starts an action. *)
Lemma eats_to_action c cl a st multi ty ek modes buf elems root Q :
  class_of c = Some cl → state_transition_table st cl = Do a → (N.of_nat (length buf) + 1 < text_limit)%N →
  (∀ s, conf 0 multi st ty ek modes (pushed buf (buffer_policy_table st cl) c) elems root s → ok (do_action a) Q s) →
  eats_to [c] (conf 0 multi st ty ek modes buf elems root) Q.
Proof.
  intros Hc Ht Hlen HQ. apply eats_to_char. intros s Hs. eapply parse_char_ok; [done|by apply classified_ascii|done|]. by rewrite Ht.
Qed.

(** ** Callbacks and actions *)

(** The frame [e] after the value [v] was handed to it. *)
Definition add (e : stack_elem) (v : JsonVal) : stack_elem :=
  match key e with
  | KNull => mkElem (tree_append (val e) None v) KNull
  | KString k => mkElem (tree_append (val e) (Some k) v) KFreed
  | KFreed => e
  end.
Definition is_datum (t : json_type) : bool :=
  match t with JSON_STRING | JSON_FLOAT | JSON_INT | JSON_NULL | JSON_TRUE | JSON_FALSE => true | _ => false end.
Notation text := String.string_of_list_ascii.

Lemma append_top_ok left multi st ty ek modes buf e elems root v s :
  conf left multi st ty ek modes buf (e :: elems) root s → key e ≠ KFreed →
  returns (zoom l_dom (append_top v)) (λ _, conf left multi st ty ek modes buf (add e v :: elems) root) s.
Proof.
  intros Hs He. apply wp_zoom. apply wp_bind, wp_mget. cbn [lget l_dom]. rewrite (cf_elems _ _ _ _ _ _ _ _ _ _ Hs).
  destruct e as [p k]. destruct k; simpl in He; try done; apply wp_mput; unfold add; conf_split Hs.
Qed.

Lemma withbuf_ok left multi st ty ek modes buf elems elems' root t s :
  conf left multi st ty ek modes buf elems root s →
  (is_datum t = true ∧ (∃ e l, elems = e :: l ∧ key e ≠ KFreed ∧ elems' = add e (tree_create_data t (text buf)) :: l) ∨
   t = JSON_KEY ∧ ∃ e l, elems = e :: l ∧ elems' = mkElem (val e) (KString (text buf)) :: l) →
  ok (do_callback_withbuf t) (conf left multi st ty ek modes buf elems' root) s.
Proof.
  intros Hs Ht. apply wp_bind, wp_thep. apply wp_bind, wp_zoom. rewrite (cf_buffer _ _ _ _ _ _ _ _ _ _ Hs).
  unfold massert_index. rewrite bool_decide_eq_true_2 by apply Hs. apply wp_ret.
  replace (lset l_parser _ _) with s by (by destruct s).
  destruct Ht as [[Ht (e & l & -> & He & ->)]|[-> (e & l & -> & ->)]].
  - cut (returns (zoom l_dom (append_top (tree_create_data t (text buf)))) (λ _, conf left multi st ty ek modes buf (add e (tree_create_data t (text buf)) :: l) root) s).
    { intros Hx. apply wp_zoom. unfold returns, wp, zoom in Hx.
      destruct t; try done; apply ok_then; unfold returns, wp; destruct (append_top _ _); done. }
    by apply append_top_ok.
  - apply wp_zoom, ok_then. apply wp_bind, wp_mget. cbn [lget l_dom]. rewrite (cf_elems _ _ _ _ _ _ _ _ _ _ Hs).
    destruct e. apply wp_mput. conf_split Hs.
Qed.

Lemma reset_ok left multi st ty ek modes buf elems root s :
  conf left multi st ty ek modes buf elems root s → returns reset_buffer (λ _, conf left multi st ty ek modes [] elems root) s.
Proof.
  intros Hs. apply wp_zoom, wp_modify. destruct Hs as [? ? ? ? ? ? ? [? ?] ? [? ?] ? [? ?] ?]. split; cbn; try done. lia.
Qed.

(** The value that waits in the buffer, if there is one. *)
Definition flushed (ty : json_type) (buf : list ascii) (elems : list stack_elem) : list stack_elem :=
  match elems with
  | e :: l => if is_datum ty then add e (tree_create_data ty (text buf)) :: l else elems
  | [] => []
  end.
Lemma do_buffer_ok left multi st ty ek modes buf elems root s :
  conf left multi st ty ek modes buf elems root s → ty ≠ JSON_KEY →
  (is_datum ty = true → ∃ e l, elems = e :: l ∧ key e ≠ KFreed) →
  ok do_buffer (conf left multi st ty ek modes [] (flushed ty buf elems) root) s.
Proof.
  intros Hs Hk Ht. apply wp_bind, wp_thep. apply ok_CHK. rewrite (cf_type _ _ _ _ _ _ _ _ _ _ Hs).
  cut (ok (match ty with
       | JSON_KEY | JSON_STRING | JSON_FLOAT | JSON_INT | JSON_NULL | JSON_TRUE | JSON_FALSE => do_callback_withbuf ty
       | _ => mret SUCCESS end) (conf left multi st ty ek modes buf (flushed ty buf elems) root) s).
  { intros Hx. eapply ok_mono; [exact Hx|]. intros s' Hs'. apply ok_then. by eapply reset_ok. }
  destruct (is_datum ty) eqn:E.
  - destruct (Ht eq_refl) as (e & l & -> & He). unfold flushed. rewrite E.
    cut (ok (do_callback_withbuf ty) (conf left multi st ty ek modes buf (add e (tree_create_data ty (text buf)) :: l) root) s).
    { by destruct ty. }
    eapply withbuf_ok; [done|]. left. eauto 10.
  - assert (flushed ty buf elems = elems) as -> by (unfold flushed; rewrite E; by destruct elems). by destruct ty.
Qed.

(** *** Structures *)

Definition fresh (m : mode) : stack_elem := mkElem (tree_create_structure (bool_decide (m = MODE_OBJECT))) KNull.
Definition begin_type (m : mode) : json_type := match m with MODE_ARRAY => JSON_ARRAY_BEGIN | MODE_OBJECT => JSON_OBJECT_BEGIN end.
Definition end_type (m : mode) : json_type := match m with MODE_ARRAY => JSON_ARRAY_END | MODE_OBJECT => JSON_OBJECT_END end.

Lemma dom_push_ok m left multi st ty ek modes buf elems root s :
  conf left multi st ty ek modes buf elems root s → length elems < depth_limit →
  ok (do_callback (begin_type m)) (conf left multi st ty ek modes buf (fresh m :: elems) root) s.
Proof.
  intros Hs Hlen. unfold depth_limit in Hlen. apply wp_zoom.
  cut (returns (dom_push (tree_create_structure (bool_decide (m = MODE_OBJECT))))
         (λ _ d, conf left multi st ty ek modes buf (fresh m :: elems) root (lset l_dom d s)) (lget l_dom s)).
  { intros Hx. destruct m; apply wp_bind; (eapply wp_mono; [exact Hx| |done]); intros r d Hd; by split. }
  destruct (cf_elems_size _ _ _ _ _ _ _ _ _ _ Hs) as [Hn Hb]. apply wp_bind, wp_mget. cbn [lget l_dom].
  rewrite (cf_elems _ _ _ _ _ _ _ _ _ _ Hs), Hn. rewrite (bool_decide_eq_false_2 (N.of_nat _ = _)) by lia. cbn [mwhen].
  apply wp_bind, wp_ret. apply wp_bind, wp_mget. rewrite Hb. unfold sizeof_stack_elem. rewrite (bool_decide_eq_true_2 (_ ≤ _)%N) by lia.
  apply wp_bind, wp_mput, wp_ret. conf_split Hs. unfold fresh. by f_equal.
Qed.

Lemma state_push_ok m left multi st ty ek modes buf elems root s :
  conf left multi st ty ek modes buf elems root s → length modes < depth_limit →
  ok (onParser (state_push m)) (conf left multi st ty ek (m :: modes) buf elems root) s.
Proof.
  intros Hs Hlen. unfold depth_limit in Hlen. apply wp_zoom. apply wp_bind, wp_mget. cbn [lget l_parser].
  pose proof (cf_config _ _ _ _ _ _ _ _ _ _ Hs) as Hcfg. pose proof (cf_stack _ _ _ _ _ _ _ _ _ _ Hs) as Hst.
  pose proof (cf_stack_size _ _ _ _ _ _ _ _ _ _ Hs) as [H1 H2]. apply ok_CHK. rewrite Hst. set (p := js_parser s) in *.
  assert (Hpush : ∀ size, (N.of_nat (length modes) < size ≤ 2048)%N →
    ok (p ← mget; massert_index (N.of_nat (length (stack p))) (stack_size p);;
        mput (Parser.set_stack (m :: stack p) (stack_size p) p);; mret SUCCESS)
      (λ t, conf left multi st ty ek (m :: modes) buf elems root (lset l_parser t s)) (Parser.set_stack modes size p)).
  { intros size Hsize. apply wp_bind, wp_mget. cbn. apply wp_bind. unfold massert_index.
    rewrite bool_decide_eq_true_2 by lia. apply wp_ret. apply ok_then, wp_mput.
    destruct Hs as [? ? ? ? ? ? ? [? ?] ? [? ?] ? [? ?] ?]. split; cbn; try done. lia. }
  case_bool_decide as Hgrow.
  - apply wp_bind, wp_mget. cbn. rewrite Hcfg. cbn. apply ok_then, wp_mput. rewrite Hst.
    assert (uint32 (stack_size p * 2) = (stack_size p * 2)%N) as -> by (unfold uint32; apply N.mod_small; lia).
    apply Hpush. lia.
  - assert (Heq : Parser.set_stack modes (stack_size p) p = p) by (rewrite <- Hst; by destruct p).
    apply ok_ret. specialize (Hpush (stack_size p)). rewrite Heq in Hpush. apply Hpush. lia.
Qed.

(** [elems] after a structure was finished: it is handed to the frame below. *)
Definition finished (e : stack_elem) (elems : list stack_elem) : list stack_elem :=
  match elems with [] => [] | p :: l => add p (val e) :: l end.
Definition new_root (e : stack_elem) (elems : list stack_elem) (root : option JsonVal) : option JsonVal :=
  match elems with [] => Some (val e) | _ => root end.

Lemma dom_end_ok m left multi st ty ek modes buf e elems root s :
  conf left multi st ty ek modes buf (e :: elems) root s → (∀ p l, elems = p :: l → key p ≠ KFreed) →
  ok (do_callback (end_type m)) (conf left multi st ty ek modes buf (finished e elems) (new_root e elems root)) s.
Proof.
  intros Hs Hk. apply wp_zoom.
  cut (ok (v ← dom_pop; ctx ← mget;
      match dom_stack ctx with
      | _ :: _ => append_top v
      | [] => mput (mkDom [] (dom_stack_size ctx) (dom_stack_bytes ctx) (Some v))
      end;; mret SUCCESS)
    (λ d, conf left multi st ty ek modes buf (finished e elems) (new_root e elems root) (lset l_dom d s)) (lget l_dom s)).
  { intros Hx. by destruct m. }
  apply wp_bind, wp_bind, wp_mget. cbn [lget l_dom]. rewrite (cf_elems _ _ _ _ _ _ _ _ _ _ Hs).
  apply wp_bind, wp_mput, wp_ret, wp_bind, wp_mget. cbn [dom_stack]. destruct elems as [|p l].
  - apply ok_then, wp_mput. conf_split Hs.
  - apply ok_then, wp_bind, wp_mget. cbn [dom_stack]. specialize (Hk p l eq_refl). destruct p as [pv pk].
    destruct pk; simpl in Hk; try done; apply wp_mput; unfold finished, add; conf_split Hs.
Qed.

Lemma ok_setp_conf left multi st ty ek modes buf elems root f (Q : Json → Prop) s :
  conf left multi st ty ek modes buf elems root s →
  (conf left multi st ty ek modes buf elems root s → Q (mkJsonState (f (js_parser s)) (js_dom s))) →
  returns (setp f) (λ _, Q) s.
Proof. intros Hs HQ. apply wp_zoom, wp_modify. by apply HQ. Qed.

(** The end of [do_action]. *)
Lemma ok_action_end left multi st ty ek modes buf elems root st' ty' (o : option states) s :
  conf left multi st ty ek modes buf elems root s → (match o with Some x => st' = x | None => st' = st end) →
  ok (match o with Some x => setp (Parser.set_state x) | None => mret tt end;; setp (Parser.set_type ty');; mret SUCCESS)
    (conf left multi st' ty' ek modes buf elems root) s.
Proof.
  intros Hs Ho. apply wp_bind. destruct o as [x|]; subst.
  - apply wp_zoom, wp_modify. apply wp_bind, wp_zoom, wp_modify, wp_ret. split; [done|]. conf_split Hs.
  - apply wp_ret. apply wp_bind, wp_zoom, wp_modify, wp_ret. split; [done|]. conf_split Hs.
Qed.

(** An action without a callback. *)
Lemma ok_do_plain a left multi st ty ek modes buf elems root st' s :
  conf left multi st ty ek modes buf elems root s → call (actions_map a) = None → descr_state (actions_map a) = Some st' →
  ok (do_action a) (conf left multi st' (descr_type (actions_map a)) ek modes buf elems root) s.
Proof.
  intros Hs Hc Hst. unfold do_action. rewrite Hc. apply ok_CHK, ok_ret. eapply ok_action_end; [done|]. by rewrite Hst.
Qed.

Definition key_mode (m : mode) (ek : bool) : bool := match m with MODE_OBJECT => true | MODE_ARRAY => ek end.
Definition begin_action (m : mode) : actions := match m with MODE_ARRAY => STATE_AB | MODE_OBJECT => STATE_OB end.
Definition begin_state (m : mode) : states := match m with MODE_ARRAY => STATE__A | MODE_OBJECT => STATE__O end.
Definition end_action (m : mode) : actions := match m with MODE_ARRAY => STATE_AE | MODE_OBJECT => STATE_OE end.

Lemma ok_do_begin m left multi st ty ek modes buf elems root s :
  conf left multi st ty ek modes buf elems root s → length elems < depth_limit → length modes < depth_limit →
  ok (do_action (begin_action m)) (conf left multi (begin_state m) JSON_NONE (key_mode m ek) (m :: modes) buf (fresh m :: elems) root) s.
Proof.
  intros Hs He Hm. cut (ok (CHK (do_callback (begin_type m)) (CHK (onParser (state_push m))
    (match m with MODE_OBJECT => setp (Parser.set_key true) | _ => mret tt end;; mret SUCCESS)))
    (conf left multi st ty (key_mode m ek) (m :: modes) buf (fresh m :: elems) root) s).
  { intros Hx. apply ok_CHK. destruct m; (apply ok_CHK, ok_ret; eapply ok_mono; [exact Hx|]; intros s' Hs'; by eapply ok_action_end). }
  apply ok_CHK. eapply ok_mono; [by apply dom_push_ok|]. intros s1 Hs1. apply ok_CHK.
  eapply ok_mono; [by apply state_push_ok|]. intros s2 Hs2. apply ok_then. destruct m; [by apply wp_ret|].
  eapply ok_setp_conf; [done|]. intros _. conf_split Hs2.
Qed.

Lemma state_pop_ok m left multi st ty ek modes buf elems root s :
  conf left multi st ty ek (m :: modes) buf elems root s →
  ok (onParser (state_pop m)) (conf left multi st ty ek modes buf elems root) s.
Proof.
  intros Hs. apply wp_zoom, wp_bind, wp_mget. cbn [lget l_parser]. rewrite (cf_stack _ _ _ _ _ _ _ _ _ _ Hs).
  apply wp_bind, wp_mput. rewrite bool_decide_eq_true_2 by done. apply ok_ret.
  destruct Hs as [? ? ? ? ? ? ? [? ?] ? [? ?] ? [? ?] ?]. split; cbn in *; try done. lia.
Qed.

(** [flush] on a stack with the frame [e] on top. *)
Definition filled (ty : json_type) (buf : list ascii) (e : stack_elem) : stack_elem :=
  if is_datum ty then add e (tree_create_data ty (text buf)) else e.
Lemma do_buffer_top left multi st ty ek modes buf e elems root s :
  conf left multi st ty ek modes buf (e :: elems) root s → ty ≠ JSON_KEY → (is_datum ty = true → key e ≠ KFreed) →
  ok do_buffer (conf left multi st ty ek modes [] (filled ty buf e :: elems) root) s.
Proof.
  intros Hs Hk He. eapply ok_mono; [apply (do_buffer_ok _ _ _ _ _ _ _ _ _ _ Hs Hk); eauto|]. intros s'. unfold flushed, filled.
  by destruct (is_datum ty).
Qed.

Lemma ok_do_end m left multi st ty ek modes buf e elems root s :
  conf left multi st ty ek (m :: modes) buf (e :: elems) root s → ty ≠ JSON_KEY → (is_datum ty = true → key e ≠ KFreed) →
  (∀ p l, elems = p :: l → key p ≠ KFreed) → (m = MODE_ARRAY → ek = false) →
  ok (do_action (end_action m)) (conf left multi STATE_OK JSON_NONE false modes [] (finished (filled ty buf e) elems) (new_root (filled ty buf e) elems root)) s.
Proof.
  intros Hs Hty He Hp Hek. cut (ok (CHK do_buffer (CHK (onParser (state_pop m)) (CHK (do_callback (end_type m))
    (match m with MODE_OBJECT => setp (Parser.set_key false) | _ => mret tt end;; mret SUCCESS))))
    (conf left multi st ty false modes [] (finished (filled ty buf e) elems) (new_root (filled ty buf e) elems root)) s).
  { intros Hx. apply ok_CHK. destruct m; (eapply ok_mono; [exact Hx|]; intros s' Hs'; by eapply ok_action_end). }
  apply ok_CHK. eapply ok_mono; [by apply (do_buffer_top _ _ _ _ _ _ _ _ _ _ _ Hs)|]. intros s1 Hs1. apply ok_CHK.
  eapply ok_mono; [by eapply state_pop_ok|]. intros s2 Hs2. apply ok_CHK.
  eapply ok_mono; [by eapply (dom_end_ok m)|]. intros s3 Hs3. apply ok_then. destruct m.
  - apply wp_ret. by rewrite <- Hek.
  - eapply ok_setp_conf; [done|]. intros _. conf_split Hs3.
Qed.

Definition next_state (m : mode) : states := match m with MODE_ARRAY => STATE__V | MODE_OBJECT => STATE__K end.
Lemma ok_do_comma m left multi st ty ek modes buf e elems root s :
  conf left multi st ty ek (m :: modes) buf (e :: elems) root s → ty ≠ JSON_KEY → (is_datum ty = true → key e ≠ KFreed) →
  ok (do_action STATE_SP) (conf left multi (next_state m) JSON_NONE (key_mode m ek) (m :: modes) [] (filled ty buf e :: elems) root) s.
Proof.
  intros Hs Hty He. apply ok_CHK, ok_CHK. eapply ok_mono; [by apply (do_buffer_top _ _ _ _ _ _ _ _ _ _ _ Hs)|]. intros s1 Hs1.
  apply wp_bind, wp_thep. rewrite (cf_stack _ _ _ _ _ _ _ _ _ _ Hs1). destruct m.
  - apply ok_then. eapply ok_setp_conf; [done|]. intros _.
    eapply (ok_action_end left multi STATE__V ty ek (MODE_ARRAY :: modes) [] (filled ty buf e :: elems) root STATE__V JSON_NONE None); [|done].
    conf_split Hs1.
  - apply wp_bind, wp_zoom, wp_modify. apply ok_then, wp_zoom, wp_modify.
    eapply (ok_action_end left multi STATE__K ty true (MODE_OBJECT :: modes) [] (filled ty buf e :: elems) root STATE__K JSON_NONE None); [|done].
    conf_split Hs1.
Qed.

Lemma ok_do_string (ek : bool) left multi st ty modes buf e elems root s :
  conf left multi st ty ek modes buf (e :: elems) root s → (ek = false → key e ≠ KFreed) →
  ok (do_action STATE_SE) (conf left multi (if ek then STATE_CO else STATE_OK) JSON_NONE false modes []
    ((if ek then mkElem (val e) (KString (text buf)) else add e (tree_create_data JSON_STRING (text buf))) :: elems) root) s.
Proof.
  intros Hs He. apply ok_CHK, ok_CHK, ok_ret. apply wp_bind, wp_thep. rewrite (cf_key _ _ _ _ _ _ _ _ _ _ Hs). apply ok_CHK.
  eapply ok_mono.
  { apply (withbuf_ok _ _ _ _ _ _ _ _ ((if ek then mkElem (val e) (KString (text buf)) else add e (tree_create_data JSON_STRING (text buf))) :: elems) _ _ _ Hs).
    destruct ek; [right|left]; eauto 10. }
  intros s1 Hs1. apply wp_bind. eapply wp_mono; [by eapply reset_ok| |done]. intros [] s2 Hs2.
  apply wp_bind, wp_zoom, wp_modify. apply ok_then, wp_zoom, wp_modify.
  eapply (ok_action_end left multi (if ek then STATE_CO else STATE_OK) ty false modes []); [|done]. conf_split Hs2.
Qed.

(** ** The grammar: strings *)

Notation code := N_of_ascii.

Definition plain (c : ascii) : bool :=
  bool_decide (32 ≤ code c < 128)%N && negb (bool_decide (code c = 34)%N) && negb (bool_decide (code c = 92)%N).

(** How many bytes follow a first byte. *)
Definition utf8_follow (n : N) : option nat :=
  if bool_decide (n < 0xc0)%N then None else if bool_decide (n < 0xe0)%N then Some 1 else if bool_decide (n < 0xf0)%N then Some 2
  else if bool_decide (n < 0xf8)%N then Some 3 else if bool_decide (n < 0xfc)%N then Some 4
  else if bool_decide (n < 0xfe)%N then Some 5 else None.
Definition utf8_further (c : ascii) : bool := bool_decide (0x80 ≤ code c < 0xc0)%N.

(** The UTF-8 encoding of a code point. *)
Definition utf8 (n : N) : list ascii :=
  map ascii_of_N
    (if bool_decide (n < 0x80)%N then [n]
     else if bool_decide (n < 0x800)%N then [0xc0 + n / 64; 0x80 + n mod 64]
     else if bool_decide (n < 0x10000)%N then [0xe0 + n / 4096; 0x80 + (n / 64) mod 64; 0x80 + n mod 64]
     else [0xf0 + n / 2 ^ 18; 0x80 + (n / 4096) mod 64; 0x80 + (n / 64) mod 64; 0x80 + n mod 64])%N.

Definition hex_value (c : ascii) : option N :=
  let n := code c in
  if bool_decide (48 ≤ n < 58)%N then Some (n - 48)%N
  else if bool_decide (65 ≤ n < 71)%N then Some (n - 55)%N
  else if bool_decide (97 ≤ n < 103)%N then Some (n - 87)%N else None.
(** Four digits. *)
Definition hex4 (ds : list ascii) : option N :=
  match ds with
  | [c1; c2; c3; c4] =>
    h1 ← hex_value c1; h2 ← hex_value c2; h3 ← hex_value c3; h4 ← hex_value c4;
    Some (((h1 * 16 + h2) * 16 + h3) * 16 + h4)%N
  | _ => None
  end.
Definition high_surrogate (u : N) : Prop := (0xd800 ≤ u < 0xdc00)%N.
Definition low_surrogate (u : N) : Prop := (0xdc00 ≤ u < 0xe000)%N.

(** An escaped character and what it stands for. *)
Definition escapes : list (ascii * N) :=
  [(ascii_of_N 34, 34); (ascii_of_N 92, 92); (ascii_of_N 47, 47); ("b", 8); ("f", 12); ("n", 10); ("r", 13); ("t", 9)]%char%N.

Definition backslash : ascii := ascii_of_N 92.
Definition quote : ascii := ascii_of_N 34.

(** The characters that a piece of the text of a string stands for. *)
Inductive string_piece : list ascii → list ascii → Prop :=
  | piece_plain c : plain c = true → string_piece [c] [c]
  | piece_utf8 c k l : utf8_follow (code c) = Some k → length l = k → Forall (λ x, utf8_further x = true) l → string_piece (c :: l) (c :: l)
  | piece_escape c n : (c, n) ∈ escapes → string_piece [ascii_of_N n] [backslash; c]
  | piece_unicode ds u : hex4 ds = Some u → ¬ high_surrogate u → ¬ low_surrogate u → string_piece (utf8 u) (backslash :: "u"%char :: ds)
  | piece_surrogates ds1 ds2 u1 u2 : hex4 ds1 = Some u1 → hex4 ds2 = Some u2 → high_surrogate u1 → low_surrogate u2 →
      string_piece (utf8 (0x10000 + (u1 - 0xd800) * 0x400 + (u2 - 0xdc00)))
        (backslash :: "u"%char :: ds1 ++ backslash :: "u"%char :: ds2).
Inductive string_text : list ascii → list ascii → Prop :=
  | string_nil : string_text [] []
  | string_cons v t vs ts : string_piece v t → string_text vs ts → string_text (v ++ vs) (t ++ ts).

(** ** Reading a string *)

(** Facts about all numbers below a power of two, by computation. *)
Fixpoint all_bits (k : nat) (acc : N) (f : N → bool) : bool :=
  match k with O => f acc | S k => all_bits k (2 * acc) f && all_bits k (2 * acc + 1) f end%N.
Lemma all_bits_spec k f n : all_bits k 0 f = true → (n < 2 ^ N.of_nat k)%N → f n = true.
Proof.
  cut (∀ acc n, all_bits k acc f = true → (acc * 2 ^ N.of_nat k ≤ n < (acc + 1) * 2 ^ N.of_nat k)%N → f n = true).
  { intros H H1 H2. apply (H 0%N n H1). lia. }
  clear n. induction k as [|k IH]; intros acc n H Hn.
  - simpl in *. by assert (n = acc) as -> by lia.
  - cbn [all_bits] in H. apply andb_true_iff in H as [H0 H1]. rewrite Nat2N.inj_succ, N.pow_succ_r in Hn by lia.
    destruct (N.lt_ge_cases n ((2 * acc + 1) * 2 ^ N.of_nat k)).
    + apply (IH (2 * acc)%N); [done|]. split; [|done]. nia.
    + apply (IH (2 * acc + 1)%N); [done|]. nia.
Qed.
Lemma all_ascii (f : ascii → bool) : all_bits 8 0 (λ n, f (ascii_of_N n)) = true → ∀ c, f c = true.
Proof.
  intros H c. rewrite <- (ascii_N_embedding c). apply (all_bits_spec 8 (λ n, f (ascii_of_N n))); [done|]. apply N_ascii_bounded.
Qed.

#[export] Instance classes_eq_dec : EqDecision classes.
Proof. solve_decision. Defined.
#[export] Instance actions_eq_dec : EqDecision actions.
Proof. solve_decision. Defined.
#[export] Instance transition_eq_dec : EqDecision transition.
Proof. solve_decision. Defined.

(** In [st], [c] is kept or dropped according to [policy] and leads to [t]. *)
Definition moves (st : states) (policy : nat) (t : transition) (c : ascii) : bool :=
  match class_of c with
  | Some cl => bool_decide (state_transition_table st cl = t) && bool_decide (buffer_policy_table st cl = policy)
  | None => false
  end.
Lemma moves_spec st policy t c : moves st policy t c = true →
  ∃ cl, class_of c = Some cl ∧ state_transition_table st cl = t ∧ buffer_policy_table st cl = policy.
Proof.
  unfold moves. destruct (class_of c) as [cl|]; [|done]. intros [H1%bool_decide_eq_true H2%bool_decide_eq_true]%andb_true_iff. eauto.
Qed.

Lemma eats_to_moves c policy st st' multi ty ek modes buf elems root :
  moves st policy (To st') c = true → (N.of_nat (length buf) + 1 < text_limit)%N →
  eats_to [c] (conf 0 multi st ty ek modes buf elems root) (conf 0 multi st' ty ek modes (pushed buf policy c) elems root).
Proof.
  intros (cl & Hc & Ht & <-)%moves_spec Hlen. eapply eats_to_move; [by apply classified_ascii|done|done].
Qed.
Lemma eats_to_acts c policy a st multi ty ek modes buf elems root Q :
  moves st policy (Do a) c = true → (N.of_nat (length buf) + 1 < text_limit)%N →
  (∀ s, conf 0 multi st ty ek modes (pushed buf policy c) elems root s → ok (do_action a) Q s) →
  eats_to [c] (conf 0 multi st ty ek modes buf elems root) Q.
Proof. intros (cl & Hc & Ht & <-)%moves_spec Hlen HQ. by eapply eats_to_action. Qed.

Ltac ascii_fact H c f :=
  assert (H : f c = true) by (apply (all_ascii f); vm_compute; reflexivity); cbn beta in H.

Lemma plain_moves c : plain c = true → moves STATE__S 1 (To STATE__S) c = true.
Proof. ascii_fact H c (λ c, negb (plain c) || moves STATE__S 1 (To STATE__S) c). intros Hp. by rewrite Hp in H. Qed.
Lemma follow_header c k : utf8_follow (code c) = Some k → lookup_byte utf8_header_table c = N.of_nat k ∧ 0 < k ≤ 5.
Proof.
  ascii_fact H c (λ c, match utf8_follow (code c) with
    | Some k => bool_decide (lookup_byte utf8_header_table c = N.of_nat k) && bool_decide (0 < k ≤ 5)
    | None => true end). intros Hk. rewrite Hk in H.
  by apply andb_true_iff in H as [?%bool_decide_eq_true ?%bool_decide_eq_true].
Qed.
Lemma further_continuation c : utf8_further c = true → lookup_byte utf8_continuation_table c = 0%N.
Proof.
  ascii_fact H c (λ c, negb (utf8_further c) || bool_decide (lookup_byte utf8_continuation_table c = 0%N)).
  intros Hp. rewrite Hp in H. by apply bool_decide_eq_true in H.
Qed.

(** *** Bits *)

Lemma lor_add a b n : (b < 2 ^ n)%N → N.lor (a * 2 ^ n) b = (a * 2 ^ n + b)%N.
Proof.
  intros Hb. assert (N.land (a * 2 ^ n) b = 0%N) as H0.
  { apply N.bits_inj_0. intros i. rewrite N.land_spec. destruct (N.lt_ge_cases i n).
    - by rewrite N.mul_pow2_bits_low.
    - rewrite <- (N.mod_small b (2 ^ n)) by done. by rewrite N.mod_pow2_bits_high, andb_false_r. }
  by rewrite N.add_nocarry_lxor, N.lxor_lor.
Qed.
Lemma land_mod a n : N.land a (N.ones n) = (a mod 2 ^ n)%N.
Proof. apply N.land_ones. Qed.
Lemma shiftr_div a n : N.shiftr a n = (a / 2 ^ n)%N.
Proof. apply N.shiftr_div_pow2. Qed.

Lemma hex_value_table c h : hex_value c = Some h → hextable !! N.to_nat (code c) = Some h ∧ (h < 16)%N.
Proof.
  ascii_fact H c (λ c, match hex_value c with
    | Some h => bool_decide (hextable !! N.to_nat (code c) = Some h) && bool_decide (h < 16)%N
    | None => true end). intros Hh. rewrite Hh in H. by apply andb_true_iff in H as [?%bool_decide_eq_true ?%bool_decide_eq_true].
Qed.
Lemma hex_value_moves c h : hex_value c = Some h →
  moves STATE_U1 1 (To STATE_U2) c = true ∧ moves STATE_U2 1 (To STATE_U3) c = true ∧ moves STATE_U3 1 (To STATE_U4) c = true ∧
  moves STATE_U4 1 (Do STATE_UC) c = true.
Proof.
  ascii_fact H c (λ c, match hex_value c with
    | Some h => moves STATE_U1 1 (To STATE_U2) c && moves STATE_U2 1 (To STATE_U3) c && moves STATE_U3 1 (To STATE_U4) c &&
                moves STATE_U4 1 (Do STATE_UC) c
    | None => true end). intros Hh. rewrite Hh in H. by apply andb_true_iff in H as [[[? ?]%andb_true_iff ?]%andb_true_iff ?].
Qed.

Lemma digits_value h1 h2 h3 h4 : (h1 < 16)%N → (h2 < 16)%N → (h3 < 16)%N → (h4 < 16)%N →
  N.lor (N.lor (N.shiftl h1 12) (N.shiftl h2 8)) (N.lor (N.shiftl h3 4) h4) = (((h1 * 16 + h2) * 16 + h3) * 16 + h4)%N.
Proof.
  intros H1 H2 H3 H4. rewrite !N.shiftl_mul_pow2.
  rewrite (lor_add h3 h4 4) by done.
  replace (h1 * 2 ^ 12)%N with (h1 * 16 * 2 ^ 8)%N by lia.
  replace (N.lor (h1 * 16 * 2 ^ 8) (h2 * 2 ^ 8)) with ((h1 * 16 + h2) * 2 ^ 8)%N.
  2: { rewrite <- !N.shiftl_mul_pow2, <- N.shiftl_lor. f_equal. symmetry. apply (lor_add h1 h2 4). done. }
  rewrite (lor_add (h1 * 16 + h2) _ 8) by lia. lia.
Qed.
Lemma surrogate_bits u : (u < 2 ^ 16)%N →
  is_high_surrogate u = bool_decide (high_surrogate u) ∧ is_low_surrogate u = bool_decide (low_surrogate u).
Proof.
  intros Hu.
  assert (H : all_bits 16 0 (λ u, eqb (is_high_surrogate u) ((0xd800 <=? u) && (u <? 0xdc00)) && eqb (is_low_surrogate u) ((0xdc00 <=? u) && (u <? 0xe000)))%N = true)
    by (vm_compute; reflexivity).
  pose proof (all_bits_spec 16 _ u H Hu) as Hb. cbn beta in Hb. apply andb_true_iff in Hb as [H1%eqb_prop H2%eqb_prop].
  rewrite H1, H2. unfold high_surrogate, low_surrogate.
  split; apply eq_true_iff_eq; rewrite bool_decide_eq_true, andb_true_iff, N.leb_le, N.ltb_lt; done.
Qed.

(** The bytes that [decode_unicode_char] stores are the encoding. *)
Lemma lor_tail a : N.lor (N.land a 0x3f) 0x80 = (0x80 + a mod 64)%N.
Proof.
  change 0x3f%N with (N.ones 6). rewrite land_mod. change 0x80%N with (2 * 2 ^ 6)%N at 1. rewrite N.lor_comm, lor_add by (apply N.mod_lt; done). done.
Qed.
Lemma lor_lead a k n : (a < 2 ^ n)%N → N.lor a (k * 2 ^ n) = (k * 2 ^ n + a)%N.
Proof. intros Ha. rewrite N.lor_comm. by apply lor_add. Qed.

Lemma utf8_2 u : (0x80 ≤ u < 0x800)%N →
  map ascii_of_N [N.lor (N.shiftr u 6) 0xc0; N.lor (N.land u 0x3f) 0x80]%N = utf8 u.
Proof.
  intros Hu. unfold utf8. rewrite bool_decide_eq_false_2, bool_decide_eq_true_2 by lia. rewrite lor_tail, shiftr_div.
  change 0xc0%N with (3 * 2 ^ 6)%N at 1. rewrite lor_lead; [done|]. apply N.Div0.div_lt_upper_bound. lia.
Qed.
Lemma utf8_3 u : (0x800 ≤ u < 0x10000)%N →
  map ascii_of_N [N.lor (N.shiftr u 12) 0xe0; N.lor (N.land (N.shiftr u 6) 0x3f) 0x80; N.lor (N.land (N.shiftr u 0) 0x3f) 0x80]%N = utf8 u.
Proof.
  intros Hu. unfold utf8. rewrite bool_decide_eq_false_2, bool_decide_eq_false_2, bool_decide_eq_true_2 by lia.
  rewrite !lor_tail, !shiftr_div, N.pow_0_r, N.div_1_r.
  change 0xe0%N with (14 * 2 ^ 4)%N at 1. rewrite lor_lead; [done|]. apply N.Div0.div_lt_upper_bound. lia.
Qed.
Lemma utf8_4 u : (0x10000 ≤ u < 0x110000)%N →
  map ascii_of_N [N.lor (N.shiftr u 18) 0xf0; N.lor (N.land (N.shiftr u 12) 0x3f) 0x80; N.lor (N.land (N.shiftr u 6) 0x3f) 0x80;
    N.lor (N.land u 0x3f) 0x80]%N = utf8 u.
Proof.
  intros Hu. unfold utf8. rewrite bool_decide_eq_false_2, bool_decide_eq_false_2, bool_decide_eq_false_2 by lia.
  rewrite !lor_tail, !shiftr_div. change 0xf0%N with (30 * 2 ^ 3)%N at 1. rewrite lor_lead; [done|].
  apply N.Div0.div_lt_upper_bound. lia.
Qed.
Lemma surrogate_value u1 u2 : high_surrogate u1 → low_surrogate u2 →
  (0x10000 + N.shiftl (N.land u1 0x3ff) 10 + N.land u2 0x3ff = 0x10000 + (u1 - 0xd800) * 0x400 + (u2 - 0xdc00))%N.
Proof.
  unfold high_surrogate, low_surrogate. intros H1 H2. change 0x3ff%N with (N.ones 10). rewrite !land_mod, N.shiftl_mul_pow2.
  rewrite <- (N.mod_unique u1 (2 ^ 10) 54 (u1 - 0xd800)%N) by lia. rewrite <- (N.mod_unique u2 (2 ^ 10) 55 (u2 - 0xdc00)%N) by lia. done.
Qed.

(** *** Unicode escapes *)

Lemma hex4_inv ds u : hex4 ds = Some u → ∃ c1 c2 c3 c4 h1 h2 h3 h4, ds = [c1; c2; c3; c4] ∧
  hex_value c1 = Some h1 ∧ hex_value c2 = Some h2 ∧ hex_value c3 = Some h3 ∧ hex_value c4 = Some h4 ∧
  u = (((h1 * 16 + h2) * 16 + h3) * 16 + h4)%N ∧ (u < 2 ^ 16)%N.
Proof.
  unfold hex4. destruct ds as [|c1 [|c2 [|c3 [|c4 [|]]]]]; try done.
  intros (h1 & H1 & (h2 & H2 & (h3 & H3 & (h4 & H4 & [= <-])%bind_Some)%bind_Some)%bind_Some)%bind_Some.
  destruct (hex_value_table _ _ H1) as [_ ?], (hex_value_table _ _ H2) as [_ ?], (hex_value_table _ _ H3) as [_ ?], (hex_value_table _ _ H4) as [_ ?].
  exists c1, c2, c3, c4, h1, h2, h3, h4. split_and!; try done. lia.
Qed.

Section decode.
Context (multi : N) (st : states) (ty : json_type) (ek : bool) (modes : list mode) (buf ds : list ascii)
  (elems : list stack_elem) (root : option JsonVal) (s : Json) (u : N).
Hypothesis Hs : conf 0 multi st ty ek modes (buf ++ ds) elems root s.
Hypothesis Hds : hex4 ds = Some u.

(** What it does once the digits are decoded. *)
Definition decoded : M json_parser json_error :=
  if bool_decide (multi = 0%N) && bool_decide (u < 0x80)%N then store [u];; mret SUCCESS
  else if negb (bool_decide (multi = 0%N)) then
    if negb (is_low_surrogate u) then mret JSON_ERROR_UNICODE_MISSING_LOW_SURROGATE
    else
      let uval := (0x10000 + N.shiftl (N.land multi 0x3ff) 10 + N.land u 0x3ff)%N in
      store [N.lor (N.shiftr uval 18) 0xf0; N.lor (N.land (N.shiftr uval 12) 0x3f) 0x80;
             N.lor (N.land (N.shiftr uval 6) 0x3f) 0x80; N.lor (N.land uval 0x3f) 0x80];;
      modify (Parser.set_multi 0);;
      mret SUCCESS
  else if is_low_surrogate u then mret JSON_ERROR_UNICODE_UNEXPECTED_LOW_SURROGATE
  else if is_high_surrogate u then modify (Parser.set_multi (u mod 2 ^ 16)%N);; mret SUCCESS
  else if bool_decide (u < 0x800)%N then
    store [N.lor (N.shiftr u 6) 0xc0; N.lor (N.land u 0x3f) 0x80];; mret SUCCESS
  else
    store [N.lor (N.shiftr u 12) 0xe0; N.lor (N.land (N.shiftr u 6) 0x3f) 0x80; N.lor (N.land (N.shiftr u 0) 0x3f) 0x80];;
    mret SUCCESS.

Lemma decode_digits (Q : Json → Prop) :
  (∀ s', conf 0 multi st ty ek modes buf elems root s' → (N.of_nat (length buf) + 4 < buffer_size (js_parser s'))%N → ok (onParser decoded) Q s') →
  ok (onParser decode_unicode_char) Q s.
Proof using Hs Hds.
  intros HQ. destruct (hex4_inv _ _ Hds) as (c1 & c2 & c3 & c4 & h1 & h2 & h3 & h4 & -> & H1 & H2 & H3 & H4 & Hu & _).
  apply wp_zoom. apply wp_bind, wp_mget. cbn [lget l_parser]. rewrite (cf_buffer _ _ _ _ _ _ _ _ _ _ Hs), (cf_multi _ _ _ _ _ _ _ _ _ _ Hs).
  rewrite length_app. cbn [length]. rewrite Nat.add_sub, drop_app_length.
  destruct (hex_value_table _ _ H1) as [T1 ?], (hex_value_table _ _ H2) as [T2 ?], (hex_value_table _ _ H3) as [T3 ?], (hex_value_table _ _ H4) as [T4 ?].
  do 4 (apply wp_bind; eapply wp_deref; [eassumption|]). rewrite digits_value by done. rewrite <- Hu.
  apply wp_bind, wp_modify.
  set (s' := lset l_parser (Parser.set_buffer (take (length buf) (buffer (js_parser s))) (buffer_size (js_parser s)) (js_parser s)) s).
  assert (Hs' : conf 0 multi st ty ek modes buf elems root s' ∧ (N.of_nat (length buf) + 4 < buffer_size (js_parser s'))%N).
  { destruct Hs as [? ? ? ? ? ? ? [? ?] Hb [Hsz ?] ? [? ?] ?]. rewrite length_app in Hsz. cbn [length] in Hsz. split; [|cbn; lia].
    split; cbn; try done; [by rewrite Hb, take_app_length|lia]. }
  destruct Hs' as [Hs' Hsz]. specialize (HQ s' Hs' Hsz). unfold ok, returns, wp, onParser, zoom in HQ.
  change (wp decoded (λ r t, r = SUCCESS ∧ Q (lset l_parser t s)) (λ _ _, False) (lget l_parser s')). unfold wp.
  destruct (decoded (lget l_parser s')); exact HQ.
Qed.

Lemma store_ok (l : list N) s' :
  conf 0 multi st ty ek modes buf elems root s' → (N.of_nat (length buf) + 4 < buffer_size (js_parser s'))%N → length l ≤ 4 →
  conf 0 multi st ty ek modes (buf ++ map ascii_of_N l) elems root
    (lset l_parser (Parser.set_buffer (buffer (js_parser s') ++ map ascii_of_N l) (buffer_size (js_parser s')) (js_parser s')) s').
Proof.
  intros Hs' Hsz Hl. destruct Hs' as [? ? ? ? ? ? ? [? ?] Hb [? ?] ? [? ?] ?].
  split; cbn; try done; [by rewrite Hb|]. rewrite length_app, length_map. lia.
Qed.
End decode.

Lemma act_uc_ok (Q : Json → Prop) s : ok (onParser decode_unicode_char)
    (λ s', ∃ multi st ek modes buf elems root, conf 0 multi st JSON_NONE ek modes buf elems root s' ∧
       ∀ s'', conf 0 multi (if bool_decide (multi = 0%N) then STATE__S else STATE_D1) JSON_NONE ek modes buf elems root s'' → Q s'') s →
  ok (do_action STATE_UC) Q s.
Proof.
  intros Hs. apply ok_CHK, ok_CHK, ok_ret, ok_CHK. eapply ok_mono; [exact Hs|].
  intros s' (multi & st & ek & modes & buf & elems & root & Hc & HQ). apply ok_then, wp_zoom, wp_modify.
  eapply ok_mono; [|exact HQ].
  eapply (ok_action_end 0 multi (if bool_decide (multi = 0%N) then STATE__S else STATE_D1) JSON_NONE ek modes buf elems root); [|done].
  destruct Hc as [? ? Hm ? ? ? ? [? ?] ? [? ?] ? [? ?] ?]. split; cbn; try done. by rewrite Hm.
Qed.

Lemma unicode_ok st ek modes buf ds elems root u s :
  conf 0 0 st JSON_NONE ek modes (buf ++ ds) elems root s → hex4 ds = Some u → ¬ high_surrogate u → ¬ low_surrogate u →
  ok (do_action STATE_UC) (conf 0 0 STATE__S JSON_NONE ek modes (buf ++ utf8 u) elems root) s.
Proof.
  intros Hs Hds Hh Hl. destruct (hex4_inv _ _ Hds) as (_ & _ & _ & _ & _ & _ & _ & _ & _ & _ & _ & _ & _ & _ & Hu).
  destruct (surrogate_bits u Hu) as [Hhb Hlb]. apply act_uc_ok. eapply decode_digits; [done|done|]. intros s' Hs' Hsz. apply wp_zoom.
  cut (∃ l, length l ≤ 4 ∧ map ascii_of_N l = utf8 u ∧ decoded 0 u = (store l;; mret SUCCESS)).
  { intros (l & Hlen & <- & ->). apply ok_then, wp_modify.
    exists 0%N, st, ek, modes, (buf ++ map ascii_of_N l), elems, root. split; [|done]. by apply store_ok. }
  unfold decoded. rewrite Hhb, Hlb, (bool_decide_eq_false_2 (high_surrogate u)), (bool_decide_eq_false_2 (low_surrogate u)) by done.
  rewrite (bool_decide_eq_true_2 (0 = 0)%N) by done. cbn [andb negb].
  destruct (decide (u < 0x80)%N) as [H1|H1]; [|destruct (decide (u < 0x800)%N) as [H2|H2]].
  - rewrite bool_decide_eq_true_2 by done. exists [u]. split_and!; [simpl; lia| |done]. unfold utf8. by rewrite bool_decide_eq_true_2.
  - rewrite bool_decide_eq_false_2, bool_decide_eq_true_2 by done. eexists. split_and!; [|apply utf8_2; lia|done]. simpl. lia.
  - rewrite !bool_decide_eq_false_2 by done. eexists. split_and!; [|apply utf8_3; lia|done]. simpl. lia.
Qed.

Lemma unicode_high st ek modes buf ds elems root u s :
  conf 0 0 st JSON_NONE ek modes (buf ++ ds) elems root s → hex4 ds = Some u → high_surrogate u →
  ok (do_action STATE_UC) (conf 0 u STATE_D1 JSON_NONE ek modes buf elems root) s.
Proof.
  intros Hs Hds Hh. destruct (hex4_inv _ _ Hds) as (_ & _ & _ & _ & _ & _ & _ & _ & _ & _ & _ & _ & _ & _ & Hu).
  destruct (surrogate_bits u Hu) as [Hhb Hlb]. unfold high_surrogate in Hh.
  apply act_uc_ok. eapply decode_digits; [done|done|]. intros s' Hs' Hsz. apply wp_zoom. unfold decoded.
  rewrite Hhb, Hlb, (bool_decide_eq_true_2 (high_surrogate u)), (bool_decide_eq_false_2 (low_surrogate u)) by (unfold low_surrogate, high_surrogate; lia).
  rewrite (bool_decide_eq_true_2 (0 = 0)%N), (bool_decide_eq_false_2 (u < 0x80)%N) by lia. cbn [andb negb].
  rewrite N.mod_small by done. apply ok_then, wp_modify. exists u, st, ek, modes, buf, elems, root. split; [conf_split Hs'|].
  intros s''. rewrite bool_decide_eq_false_2 by lia. done.
Qed.

Lemma unicode_low st ek modes buf ds elems root u1 u2 s :
  conf 0 u1 st JSON_NONE ek modes (buf ++ ds) elems root s → hex4 ds = Some u2 → high_surrogate u1 → low_surrogate u2 →
  ok (do_action STATE_UC)
    (conf 0 0 STATE__S JSON_NONE ek modes (buf ++ utf8 (0x10000 + (u1 - 0xd800) * 0x400 + (u2 - 0xdc00))) elems root) s.
Proof.
  intros Hs Hds Hh Hl. destruct (hex4_inv _ _ Hds) as (_ & _ & _ & _ & _ & _ & _ & _ & _ & _ & _ & _ & _ & _ & Hu).
  destruct (surrogate_bits u2 Hu) as [Hhb Hlb]. apply act_uc_ok. eapply decode_digits; [done|done|]. intros s' Hs' Hsz. apply wp_zoom.
  unfold decoded. rewrite Hlb, (bool_decide_eq_true_2 (low_surrogate u2)) by done.
  assert (u1 ≠ 0%N) by (unfold high_surrogate in Hh; lia). rewrite (bool_decide_eq_false_2 (u1 = 0)%N) by done. cbn [andb negb].
  rewrite surrogate_value by done. apply wp_bind, wp_modify. apply ok_then, wp_modify.
  exists 0%N, st, ek, modes. eexists _, elems, root. split; [|intros s''; rewrite bool_decide_eq_true_2 by done; exact (λ H, H)].
  rewrite <- utf8_4 by (unfold high_surrogate, low_surrogate in *; lia).
  destruct Hs' as [? ? ? ? ? ? ? [? ?] Hb [? ?] ? [? ?] ?].
  split; cbn; try done; [by rewrite Hb|]. rewrite length_app. cbn. lia.
Qed.

Lemma piece_length v t : string_piece v t → length v ≤ length t.
Proof.
  destruct 1 as [| | |ds u Hds|ds1 ds2 u1 u2 H1 H2]; simpl; try lia.
  - destruct (hex4_inv _ _ Hds) as (? & ? & ? & ? & _ & _ & _ & _ & -> & _). unfold utf8. repeat case_bool_decide; simpl; lia.
  - rewrite length_app. destruct (hex4_inv _ _ H1) as (? & ? & ? & ? & _ & _ & _ & _ & -> & _). unfold utf8. repeat case_bool_decide; simpl; lia.
Qed.
Lemma string_text_length v t : string_text v t → length v ≤ length t.
Proof. induction 1 as [|v t vs ts Hp%piece_length _ IH]; [done|]. rewrite !length_app. lia. Qed.

Section strings.
Context (ek : bool) (modes : list mode) (elems : list stack_elem) (root : option JsonVal).
Notation S_ multi buf := (conf 0 multi STATE__S JSON_NONE ek modes buf elems root).

Lemma further_ok l buf : Forall (λ x, utf8_further x = true) l → (N.of_nat (length buf) + N.of_nat (length l) + 1 < text_limit)%N →
  eats_to l (conf (N.of_nat (length l)) 0 STATE__S JSON_NONE ek modes buf elems root) (S_ 0 (buf ++ l)).
Proof.
  intros Hl. revert buf. induction Hl as [|c l Hc Hl IH]; intros buf Hlen.
  - apply eats_to_nil. intros a. by rewrite app_nil_r.
  - apply (eats_to_cons c l _ (conf (N.of_nat (length l)) 0 STATE__S JSON_NONE ek modes (buf ++ [c]) elems root)).
    + replace (N.of_nat (length l)) with (N.of_nat (length (c :: l)) - 1)%N by (simpl; lia).
      eapply (eats_to_move _ _ _ C_OTHER STATE__S STATE__S); [|done|lia]. apply classified_more; [by apply further_continuation|simpl; lia].
    + replace (buf ++ c :: l) with ((buf ++ [c]) ++ l) by by rewrite <- app_assoc. apply IH.
      rewrite length_app. simpl in *. lia.
Qed.

(** The digits of an escape, up to the action on the last one. *)
Lemma digits_ok multi buf ds u Q : hex4 ds = Some u → (N.of_nat (length buf) + 5 < text_limit)%N →
  (∀ s, conf 0 multi STATE_U4 JSON_NONE ek modes (buf ++ ds) elems root s → ok (do_action STATE_UC) Q s) →
  eats_to ds (conf 0 multi STATE_U1 JSON_NONE ek modes buf elems root) Q.
Proof.
  intros Hds Hlen HQ. destruct (hex4_inv _ _ Hds) as (c1 & c2 & c3 & c4 & h1 & h2 & h3 & h4 & -> & H1 & H2 & H3 & H4 & _).
  destruct (hex_value_moves _ _ H1) as (M1 & _), (hex_value_moves _ _ H2) as (_ & M2 & _), (hex_value_moves _ _ H3) as (_ & _ & M3 & _),
    (hex_value_moves _ _ H4) as (_ & _ & _ & M4).
  eapply eats_to_cons; [by apply (eats_to_moves c1 1 STATE_U1 STATE_U2); [done|lia]|].
  eapply eats_to_cons; [by apply (eats_to_moves c2 1 STATE_U2 STATE_U3); [done|cbn; rewrite ?length_app; cbn; lia]|].
  eapply eats_to_cons; [by apply (eats_to_moves c3 1 STATE_U3 STATE_U4); [done|cbn; rewrite ?length_app; cbn; lia]|].
  eapply (eats_to_acts c4 1 STATE_UC); [done|cbn; rewrite ?length_app; cbn; lia|].
  intros s. cbn. rewrite <- !app_assoc. apply HQ.
Qed.

(** A backslash and a u. *)
Lemma start_unicode buf : (N.of_nat (length buf) + 1 < text_limit)%N →
  eats_to [backslash; "u"%char] (S_ 0 buf) (conf 0 0 STATE_U1 JSON_NONE ek modes buf elems root).
Proof.
  intros Hlen. eapply eats_to_cons; [by apply (eats_to_moves _ 0 STATE__S STATE_E0)|]. by apply (eats_to_moves _ 0 STATE_E0 STATE_U1).
Qed.

Lemma piece_ok v t buf : string_piece v t → (N.of_nat (length buf) + N.of_nat (length t) + 1 < text_limit)%N →
  eats_to t (S_ 0 buf) (S_ 0 (buf ++ v)).
Proof.
  intros Hp Hlen. destruct Hp as [c Hc|c k l Hc Hk Hl|c n Hin|ds u Hds Hh Hl|ds1 ds2 u1 u2 H1 H2 Hh Hl]; simpl in Hlen.
  - apply (eats_to_moves c 1); [by apply plain_moves|lia].
  - destruct (follow_header _ _ Hc) as [Hf Hrange]. apply (eats_to_cons c l _ (conf (N.of_nat (length l)) 0 STATE__S JSON_NONE ek modes (buf ++ [c]) elems root)).
    + eapply (eats_to_move _ _ _ C_OTHER STATE__S STATE__S); [|done|lia]. rewrite Hk. apply classified_lead; [done|lia|lia].
    + replace (buf ++ c :: l) with ((buf ++ [c]) ++ l) by by rewrite <- app_assoc. apply further_ok; [done|]. rewrite length_app. simpl in *. lia.
  - assert (He : moves STATE_E0 2 (To STATE__S) c = true ∧ escaped c = ascii_of_N n).
    { revert Hin. unfold escapes. rewrite !elem_of_cons, elem_of_nil. naive_solver. }
    destruct He as [Hm <-]. eapply eats_to_cons; [apply (eats_to_moves _ 0 STATE__S STATE_E0); [done|lia]|].
    apply (eats_to_moves _ 2 STATE_E0 STATE__S); [done|]. cbn. lia.
  - apply (eats_to_app [_; _] ds _ (conf 0 0 STATE_U1 JSON_NONE ek modes buf elems root)); [apply start_unicode; lia|].
    destruct (hex4_inv _ _ Hds) as (? & ? & ? & ? & _ & _ & _ & _ & Heq & _). rewrite Heq in Hlen. cbn in Hlen.
    eapply digits_ok; [done|lia|]. intros s Hs. by eapply unicode_ok.
  - destruct (hex4_inv _ _ H1) as (? & ? & ? & ? & _ & _ & _ & _ & Heq & _). rewrite length_app, Heq in Hlen. cbn in Hlen.
    apply (eats_to_app [_; _] (ds1 ++ _) _ (conf 0 0 STATE_U1 JSON_NONE ek modes buf elems root)); [apply start_unicode; lia|].
    apply (eats_to_app ds1 _ _ (conf 0 u1 STATE_D1 JSON_NONE ek modes buf elems root)).
    { eapply digits_ok; [done|lia|]. intros s Hs. by eapply unicode_high. }
    eapply eats_to_cons; [by apply (eats_to_moves _ 0 STATE_D1 STATE_D2); [done|lia]|].
    eapply eats_to_cons; [by apply (eats_to_moves _ 0 STATE_D2 STATE_U1); [done|cbn; lia]|].
    eapply digits_ok; [done|cbn; lia|]. intros s Hs. by eapply unicode_low.
Qed.

Lemma string_text_ok v t buf : string_text v t → (N.of_nat (length buf) + N.of_nat (length t) + 1 < text_limit)%N →
  eats_to t (S_ 0 buf) (S_ 0 (buf ++ v)).
Proof.
  intros Ht. revert buf. induction Ht as [|v t vs ts Hp Hs IH]; intros buf Hlen.
  - apply eats_to_nil. intros a. by rewrite app_nil_r.
  - rewrite length_app in Hlen. pose proof (piece_length _ _ Hp).
    eapply eats_to_app; [by apply piece_ok; [|lia]|]. rewrite app_assoc. apply IH. rewrite length_app. lia.
Qed.

(** A string between quotes, from a state that expects one. *)
Lemma quoted_ok st v t e l : elems = e :: l → string_text v t → moves st 0 (To STATE__S) quote = true → (ek = false → key e ≠ KFreed) →
  (N.of_nat (length t) + 2 < text_limit)%N →
  eats_to (quote :: t ++ [quote]) (conf 0 0 st JSON_NONE ek modes [] elems root)
    (conf 0 0 (if ek then STATE_CO else STATE_OK) JSON_NONE false modes []
      ((if ek then mkElem (val e) (KString (text v)) else add e (tree_create_data JSON_STRING (text v))) :: l) root).
Proof.
  intros Hel Ht Hst He Hlen. eapply eats_to_cons; [apply (eats_to_moves _ 0 st STATE__S); [done|cbn; lia]|].
  eapply eats_to_app; [by apply (string_text_ok v t []); [|cbn; lia]|].
  pose proof (string_text_length _ _ Ht). eapply (eats_to_acts quote 0 STATE_SE); [done|cbn; lia|].
  intros s. cbn. rewrite Hel. intros Hs. by eapply ok_do_string.
Qed.
End strings.

(** ** The grammar: numbers, blanks and values *)

Definition digit (c : ascii) : bool := bool_decide (48 ≤ code c < 58)%N.
Definition digit19 (c : ascii) : bool := bool_decide (49 ≤ code c < 58)%N.
Definition blank (c : ascii) : bool := bool_decide (code c ∈ [32; 10; 9; 13]%N).
Notation all p l := (Forall (λ c, p c = true) l).

(** 0, or digits of which the first is not 0. *)
Inductive natural : list ascii → Prop :=
  | natural_zero : natural ["0"%char]
  | natural_digits d ds : digit19 d = true → all digit ds → natural (d :: ds).
Inductive sign : list ascii → Prop := sign_none : sign [] | sign_minus : sign ["-"%char].
Inductive int_text : list ascii → Prop :=
  | int_intro s n : sign s → natural n → int_text (s ++ n).

Definition exp_char (c : ascii) : bool := bool_decide (code c ∈ [69; 101]%N).
(** The exponent: e, an optional sign, digits. *)
Inductive exponent : list ascii → Prop :=
  | exponent_intro e s d ds : exp_char e = true → (s = [] ∨ s = ["+"%char] ∨ s = ["-"%char]) → digit d = true → all digit ds →
      exponent (e :: s ++ d :: ds).
(** A number with a fraction, an exponent or both; json.c reads no exponent right behind
    a 0. *)
Inductive float_text : list ascii → Prop :=
  | float_fraction i d ds : int_text i → digit d = true → all digit ds → float_text (i ++ "."%char :: d :: ds)
  | float_exponent s d ds e : sign s → digit19 d = true → all digit ds → exponent e → float_text (s ++ (d :: ds) ++ e)
  | float_both i d ds e : int_text i → digit d = true → all digit ds → exponent e → float_text (i ++ ("."%char :: d :: ds) ++ e).

Definition constants : list (json_type * string) := [(JSON_TRUE, "true"); (JSON_FALSE, "false"); (JSON_NULL, "null")].

Definition array_of (vs : list JsonVal) : JsonVal := mkJson JSON_ARRAY_BEGIN vs [] "".
(** The first of two members of the same name counts. *)
Definition object_of (ms : list (string * JsonVal)) : JsonVal :=
  mkJson JSON_OBJECT_BEGIN [] (fold_left (λ o kv, map_insert kv.1 kv.2 o) ms []) "".

(** [value_text d v t]: [t] is a text of [v], with at most [d] structures inside each
    other. *)
Inductive value_text : nat → JsonVal → list ascii → Prop :=
  | value_constant d t s : (t, s) ∈ constants → value_text d (tree_create_data t "") (String.list_ascii_of_string s)
  | value_int d s : int_text s → value_text d (tree_create_data JSON_INT (text s)) s
  | value_float d s : float_text s → value_text d (tree_create_data JSON_FLOAT (text s)) s
  | value_string d v t : string_text v t → value_text d (tree_create_data JSON_STRING (text v)) (quote :: t ++ [quote])
  | value_structure d v t : structure_text d v t → value_text (S d) v t
with structure_text : nat → JsonVal → list ascii → Prop :=
  | array_empty d b : all blank b → structure_text d (array_of []) ("["%char :: b ++ ["]"%char])
  | array_elements d vs t : elements_text d vs t → structure_text d (array_of vs) ("["%char :: t ++ ["]"%char])
  | object_empty d b : all blank b → structure_text d (object_of []) ("{"%char :: b ++ ["}"%char])
  | object_members d ms t : members_text d ms t → structure_text d (object_of ms) ("{"%char :: t ++ ["}"%char])
with elements_text : nat → list JsonVal → list ascii → Prop :=
  | elements_last d b1 v t b2 : all blank b1 → value_text d v t → all blank b2 → elements_text d [v] (b1 ++ t ++ b2)
  | elements_more d b1 v t b2 vs ts : all blank b1 → value_text d v t → all blank b2 → elements_text d vs ts →
      elements_text d (v :: vs) (b1 ++ t ++ b2 ++ ","%char :: ts)
with members_text : nat → list (string * JsonVal) → list ascii → Prop :=
  | members_last d k v t : member_text d k v t → members_text d [(k, v)] t
  | members_more d k v t ms ts : member_text d k v t → members_text d ms ts → members_text d ((k, v) :: ms) (t ++ ","%char :: ts)
with member_text : nat → string → JsonVal → list ascii → Prop :=
  | member_intro d b1 k kt b2 b3 v t b4 : all blank b1 → string_text k kt → all blank b2 → all blank b3 → value_text d v t → all blank b4 →
      member_text d (text k) v (b1 ++ (quote :: kt ++ [quote]) ++ b2 ++ ":"%char :: b3 ++ t ++ b4).

Scheme value_text_min := Minimality for value_text Sort Prop
  with structure_text_min := Minimality for structure_text Sort Prop
  with elements_text_min := Minimality for elements_text Sort Prop
  with members_text_min := Minimality for members_text Sort Prop
  with member_text_min := Minimality for member_text Sort Prop.
Combined Scheme json_text_min from value_text_min, structure_text_min, elements_text_min, members_text_min, member_text_min.

(** A document: a structure with blanks around it. *)
Inductive document_text : JsonVal → list ascii → Prop :=
  | document_intro d b1 v t b2 : all blank b1 → structure_text d v t → d < depth_limit → all blank b2 → document_text v (b1 ++ t ++ b2).

(** ** Reading blanks and numbers *)

Lemma blank_moves c : blank c = true →
  moves STATE_GO 0 (To STATE_GO) c ∧ moves STATE_OK 0 (To STATE_OK) c ∧ moves STATE__O 0 (To STATE__O) c ∧ moves STATE__K 0 (To STATE__K) c ∧
  moves STATE_CO 0 (To STATE_CO) c ∧ moves STATE__V 0 (To STATE__V) c ∧ moves STATE__A 0 (To STATE__A) c ∧ moves STATE_Z0 0 (To STATE_OK) c ∧
  moves STATE_I0 0 (To STATE_OK) c ∧ moves STATE_R2 0 (To STATE_OK) c ∧ moves STATE_X3 0 (To STATE_OK) c.
Proof.
  ascii_fact H c (λ c, negb (blank c) ||
    forallb (λ x : states * states, moves x.1 0 (To x.2) c) [(STATE_GO, STATE_GO); (STATE_OK, STATE_OK); (STATE__O, STATE__O); (STATE__K, STATE__K);
      (STATE_CO, STATE_CO); (STATE__V, STATE__V); (STATE__A, STATE__A); (STATE_Z0, STATE_OK); (STATE_I0, STATE_OK); (STATE_R2, STATE_OK); (STATE_X3, STATE_OK)]).
  intros Hb. rewrite Hb in H. cbn [negb orb forallb fst snd] in H. rewrite !andb_true_iff in H. destruct_and! H. split_and!; by apply Is_true_true.
Qed.
Lemma digit_moves c : digit c = true →
  moves STATE_I0 1 (To STATE_I0) c ∧ moves STATE_R1 1 (To STATE_R2) c ∧ moves STATE_R2 1 (To STATE_R2) c ∧ moves STATE_X1 1 (To STATE_X3) c ∧
  moves STATE_X2 1 (To STATE_X3) c ∧ moves STATE_X3 1 (To STATE_X3) c.
Proof.
  ascii_fact H c (λ c, negb (digit c) ||
    forallb (λ x : states * states, moves x.1 1 (To x.2) c) [(STATE_I0, STATE_I0); (STATE_R1, STATE_R2); (STATE_R2, STATE_R2); (STATE_X1, STATE_X3);
      (STATE_X2, STATE_X3); (STATE_X3, STATE_X3)]).
  intros Hb. rewrite Hb in H. cbn [negb orb forallb fst snd] in H. rewrite !andb_true_iff in H. destruct_and! H. split_and!; by apply Is_true_true.
Qed.
Lemma digit19_moves c : digit19 c = true →
  moves STATE__V 1 (Do STATE_IX) c ∧ moves STATE__A 1 (Do STATE_IX) c ∧ moves STATE_M0 1 (To STATE_I0) c.
Proof.
  ascii_fact H c (λ c, negb (digit19 c) || (moves STATE__V 1 (Do STATE_IX) c && moves STATE__A 1 (Do STATE_IX) c && moves STATE_M0 1 (To STATE_I0) c)).
  intros Hb. rewrite Hb in H. cbn [negb orb] in H. rewrite !andb_true_iff in H. destruct_and! H. split_and!; by apply Is_true_true.
Qed.
Lemma exp_moves c : exp_char c = true → moves STATE_I0 1 (Do STATE_DE) c ∧ moves STATE_R2 1 (To STATE_X1) c.
Proof.
  ascii_fact H c (λ c, negb (exp_char c) || (moves STATE_I0 1 (Do STATE_DE) c && moves STATE_R2 1 (To STATE_X1) c)).
  intros Hb. rewrite Hb in H. cbn [negb orb] in H. rewrite !andb_true_iff in H. destruct_and! H. split_and!; by apply Is_true_true.
Qed.

Section pieces.
Context (ek : bool) (modes : list mode) (elems : list stack_elem) (root : option JsonVal).
Notation C st ty buf := (conf 0 0 st ty ek modes buf elems root).

Lemma blanks_ok b st ty buf : all blank b → st ∈ [STATE_GO; STATE_OK; STATE__O; STATE__K; STATE_CO; STATE__V; STATE__A] →
  (N.of_nat (length buf) + 1 < text_limit)%N → eats_to b (C st ty buf) (C st ty buf).
Proof.
  intros Hb Hst Hlen. induction Hb as [|c b Hc Hb IH]; [by apply eats_to_nil|]. eapply eats_to_cons; [|exact IH].
  apply (eats_to_moves c 0); [|done]. destruct (blank_moves c Hc) as (? & ? & ? & ? & ? & ? & ? & _).
  repeat (apply elem_of_cons in Hst as [->|Hst]; [by apply Is_true_true|]). by apply elem_of_nil in Hst.
Qed.

Lemma digits_run st ty ds buf : all digit ds → st ∈ [STATE_I0; STATE_R2; STATE_X3] → (N.of_nat (length buf) + N.of_nat (length ds) + 1 < text_limit)%N →
  eats_to ds (C st ty buf) (C st ty (buf ++ ds)).
Proof.
  intros Hds Hst. revert buf. induction Hds as [|c ds Hc Hds IH]; intros buf Hlen.
  - apply eats_to_nil. intros a. by rewrite app_nil_r.
  - simpl in Hlen. replace (buf ++ c :: ds) with ((buf ++ [c]) ++ ds) by by rewrite <- app_assoc.
    eapply eats_to_cons; [|apply IH; rewrite length_app; simpl; lia]. apply (eats_to_moves c 1); [|lia].
    destruct (digit_moves c Hc) as (? & ? & ? & ? & ? & ?).
    repeat (apply elem_of_cons in Hst as [->|Hst]; [by apply Is_true_true|]). by apply elem_of_nil in Hst.
Qed.

(** A plain action that keeps its character. *)
Lemma plain_action c a st st' ty buf : moves st 1 (Do a) c → call (actions_map a) = None → descr_state (actions_map a) = Some st' →
  (N.of_nat (length buf) + 1 < text_limit)%N → eats_to [c] (C st ty buf) (C st' (descr_type (actions_map a)) (buf ++ [c])).
Proof.
  intros Hm%Is_true_true Hc Hst Hlen. eapply (eats_to_acts c 1 a); [done|done|]. intros s Hs. by eapply ok_do_plain.
Qed.

(** Where the digits of a number start, after its sign [s]. *)
Definition number_start (s : list ascii) (a : Json) : Prop :=
  ∃ st ty, (st, ty) ∈ [(STATE__V, JSON_NONE); (STATE__A, JSON_NONE); (STATE_M0, JSON_INT)] ∧ C st ty s a.
Lemma sign_ok s st : sign s → st ∈ [STATE__V; STATE__A] → eats_to s (C st JSON_NONE []) (number_start s).
Proof.
  intros Hs Hst. destruct Hs.
  - apply eats_to_nil. intros a Ha. exists st, JSON_NONE. split; [|done].
    repeat (apply elem_of_cons in Hst as [->|Hst]; [set_solver|]). by apply elem_of_nil in Hst.
  - eapply eats_to_weaken; [done| |apply (plain_action _ STATE_MX st STATE_M0)]; try done.
    + intros a Ha. exists STATE_M0, JSON_INT. split; [set_solver|done].
    + repeat (apply elem_of_cons in Hst as [->|Hst]; [done|]). by apply elem_of_nil in Hst.
Qed.
Lemma first_zero s : length s ≤ 1 → eats_to ["0"%char] (number_start s) (C STATE_Z0 JSON_INT (s ++ ["0"%char])).
Proof.
  intros Hs a (st & ty & Hst & Ha). revert a Ha. change (eats_to ["0"%char] (C st ty s) (C STATE_Z0 JSON_INT (s ++ ["0"%char]))).
  rewrite !elem_of_cons in Hst. destruct Hst as [[= -> ->]|[[= -> ->]|[[= -> ->]|Hst]]]; [| | |by apply elem_of_nil in Hst].
  - apply (plain_action _ STATE_ZX); try done. unfold text_limit. lia.
  - apply (plain_action _ STATE_ZX); try done. unfold text_limit. lia.
  - apply (eats_to_moves _ 1); [done|]. unfold text_limit. lia.
Qed.
Lemma first_digit d s : length s ≤ 1 → digit19 d = true → eats_to [d] (number_start s) (C STATE_I0 JSON_INT (s ++ [d])).
Proof.
  intros Hs Hd a (st & ty & Hst & Ha). revert a Ha. change (eats_to [d] (C st ty s) (C STATE_I0 JSON_INT (s ++ [d]))).
  destruct (digit19_moves d Hd) as (M1 & M2 & M3%Is_true_true).
  rewrite !elem_of_cons in Hst. destruct Hst as [[= -> ->]|[[= -> ->]|[[= -> ->]|Hst]]]; [| | |by apply elem_of_nil in Hst].
  - apply (plain_action _ STATE_IX); try done. unfold text_limit. lia.
  - apply (plain_action _ STATE_IX); try done. unfold text_limit. lia.
  - apply (eats_to_moves _ 1); [done|]. unfold text_limit. lia.
Qed.
Lemma sign_length s : sign s → length s ≤ 1.
Proof. destruct 1; simpl; lia. Qed.

Lemma int_ok s st : int_text s → st ∈ [STATE__V; STATE__A] → (N.of_nat (length s) + 1 < text_limit)%N →
  eats_to s (C st JSON_NONE []) (λ a, ∃ st', st' ∈ [STATE_Z0; STATE_I0] ∧ C st' JSON_INT s a).
Proof.
  intros [sg n Hsg Hn] Hst Hlen. rewrite length_app in Hlen. pose proof (sign_length _ Hsg).
  eapply eats_to_app; [by apply sign_ok|]. destruct Hn as [|d ds Hd Hds].
  - eapply eats_to_weaken; [done| |by apply first_zero]. intros a Ha. exists STATE_Z0. split; [set_solver|done].
  - eapply eats_to_cons; [by apply first_digit|]. simpl in Hlen.
    eapply eats_to_weaken; [done| |apply (digits_run STATE_I0); [done|set_solver|rewrite length_app; simpl; lia]].
    intros a Ha. exists STATE_I0. split; [set_solver|]. by rewrite <- app_assoc in Ha.
Qed.

(** The fraction, and the exponent. *)
Lemma fraction_ok d ds st buf : digit d = true → all digit ds → st ∈ [STATE_Z0; STATE_I0] →
  (N.of_nat (length buf) + N.of_nat (length ds) + 3 < text_limit)%N →
  eats_to ("."%char :: d :: ds) (C st JSON_INT buf) (C STATE_R2 JSON_FLOAT (buf ++ "."%char :: d :: ds)).
Proof.
  intros Hd Hds Hst Hlen. destruct (digit_moves d Hd) as (_ & Hm%Is_true_true & _).
  eapply eats_to_cons.
  { apply (plain_action _ STATE_DF st STATE_R1); [|done|done|lia].
    repeat (apply elem_of_cons in Hst as [->|Hst]; [done|]). by apply elem_of_nil in Hst. }
  eapply eats_to_cons; [apply (eats_to_moves d 1 STATE_R1 STATE_R2); [done|rewrite length_app; simpl; lia]|].
  eapply eats_to_weaken; [done| |apply (digits_run STATE_R2); [done|set_solver|cbn; rewrite !length_app; simpl; lia]].
  intros a. cbn. by rewrite <- !app_assoc.
Qed.
Lemma exponent_ok e st ty buf : exponent e → (st, ty) ∈ [(STATE_I0, JSON_INT); (STATE_R2, JSON_FLOAT)] →
  (N.of_nat (length buf) + N.of_nat (length e) + 1 < text_limit)%N →
  eats_to e (C st ty buf) (C STATE_X3 JSON_FLOAT (buf ++ e)).
Proof.
  intros [c s d ds Hc Hs Hd Hds] Hst Hlen. simpl in Hlen. rewrite length_app in Hlen. simpl in Hlen.
  destruct (exp_moves c Hc) as [Me1 Me2%Is_true_true]. destruct (digit_moves d Hd) as (_ & _ & _ & Mx1%Is_true_true & Mx2%Is_true_true & _).
  apply (eats_to_cons _ _ _ (C STATE_X1 JSON_FLOAT (buf ++ [c]))).
  { rewrite !elem_of_cons in Hst. destruct Hst as [[= -> ->]|[[= -> ->]|Hst]]; [| |by apply elem_of_nil in Hst].
    - apply (plain_action _ STATE_DE); [done|done|done|lia].
    - apply (eats_to_moves _ 1); [done|lia]. }
  assert (Hrun : ∀ st', moves st' 1 (To STATE_X3) d = true → eats_to (d :: ds) (C st' JSON_FLOAT (buf ++ [c] ++ s)) (C STATE_X3 JSON_FLOAT (buf ++ c :: s ++ d :: ds))).
  { intros st' Hm. eapply eats_to_cons; [apply (eats_to_moves d 1); [done|rewrite length_app; simpl; lia]|].
    eapply eats_to_weaken; [done| |apply (digits_run STATE_X3); [done|set_solver|cbn; rewrite !length_app; simpl; lia]].
    intros a. cbn. by rewrite <- !app_assoc. }
  destruct Hs as [->|[->| ->]]; [by apply Hrun| |]; simpl; (eapply eats_to_cons; [|by apply (Hrun STATE_X2)]);
    rewrite (app_assoc buf [c] [_]); (apply (eats_to_moves _ 1 STATE_X1 STATE_X2); [done|rewrite length_app; simpl; lia]).
Qed.

Lemma float_ok s st : float_text s → st ∈ [STATE__V; STATE__A] → (N.of_nat (length s) + 1 < text_limit)%N →
  eats_to s (C st JSON_NONE []) (λ a, ∃ st', st' ∈ [STATE_R2; STATE_X3] ∧ C st' JSON_FLOAT s a).
Proof.
  intros Hf Hst Hlen. destruct Hf as [i d ds Hi Hd Hds|sg d ds e Hsg Hd Hds He|i d ds e Hi Hd Hds He];
    rewrite ?length_app in Hlen; simpl in Hlen; rewrite ?length_app in Hlen.
  - eapply eats_to_app; [by apply int_ok; [| |lia]|]. intros a (st' & Hst' & Ha).
    destruct (fraction_ok d ds st' i Hd Hds Hst' ltac:(lia) a Ha) as (b & Hb & Hc). exists b. split; [done|]. exists STATE_R2. split; [set_solver|done].
  - pose proof (sign_length _ Hsg). eapply eats_to_app; [by apply sign_ok|]. eapply eats_to_app; [eapply eats_to_cons; [by apply first_digit|]|].
    { apply (digits_run STATE_I0); [done|set_solver|rewrite length_app; simpl; lia]. }
    eapply eats_to_weaken; [done| |apply (exponent_ok e STATE_I0 JSON_INT); [done|set_solver|rewrite !length_app; simpl; lia]].
    intros a Ha. exists STATE_X3. split; [set_solver|]. by rewrite <- !app_assoc in Ha.
  - eapply eats_to_app; [by apply int_ok; [| |lia]|].
    apply (eats_to_app _ _ _ (C STATE_R2 JSON_FLOAT (i ++ "."%char :: d :: ds))).
    { intros a (st' & Hst' & Ha). by apply (fraction_ok d ds st' i Hd Hds Hst' ltac:(lia) a Ha). }
    eapply eats_to_weaken; [done| |apply (exponent_ok e STATE_R2 JSON_FLOAT); [done|set_solver|rewrite !length_app; simpl; lia]].
    intros a Ha. exists STATE_X3. split; [set_solver|]. by rewrite <- !app_assoc in Ha.
Qed.
End pieces.

(** ** Reading values *)

(** A value was read: it is in the frame [e] once the next character is read. *)
Definition waiting (modes : list mode) (e : stack_elem) (elems : list stack_elem) (root : option JsonVal) (s : Json) : Prop :=
  ∃ st ty buf e0, conf 0 0 st ty false modes buf (e0 :: elems) root s ∧ filled ty buf e0 = e ∧ (is_datum ty = true → key e0 ≠ KFreed) ∧
    ty ≠ JSON_KEY ∧ st ∈ [STATE_OK; STATE_Z0; STATE_I0; STATE_R2; STATE_X3] ∧ (N.of_nat (length buf) + 1 < text_limit)%N.

Lemma waiting_done modes e elems root s : conf 0 0 STATE_OK JSON_NONE false modes [] (e :: elems) root s → waiting modes e elems root s.
Proof. intros Hs. exists STATE_OK, JSON_NONE, [], e. split_and!; try done. set_solver. Qed.
Lemma waiting_datum st ty buf modes e elems root s :
  conf 0 0 st ty false modes buf (e :: elems) root s → is_datum ty = true → key e ≠ KFreed →
  st ∈ [STATE_OK; STATE_Z0; STATE_I0; STATE_R2; STATE_X3] → (N.of_nat (length buf) + 1 < text_limit)%N →
  waiting modes (add e (tree_create_data ty (text buf))) elems root s.
Proof.
  intros Hs Hd He Hst Hlen. exists st, ty, buf, e. split_and!; try done; [unfold filled; by rewrite Hd|by intros ->].
Qed.

Ltac each_state Hst := repeat (apply elem_of_cons in Hst as [->|Hst]; [try done|]); [..|by apply elem_of_nil in Hst].

Lemma waiting_blanks b modes e elems root : all blank b → eats_to b (waiting modes e elems root) (waiting modes e elems root).
Proof.
  induction 1 as [|c b Hc Hb IH]; [by apply eats_to_nil|]. eapply eats_to_cons; [|exact IH].
  intros a (st & ty & buf & e0 & Ha & Hf & He & Hty & Hst & Hlen). destruct (blank_moves c Hc) as (_ & M0 & _ & _ & _ & _ & _ & M1 & M2 & M3 & M4).
  assert (Hm : moves st 0 (To STATE_OK) c = true) by (each_state Hst; by apply Is_true_true).
  destruct (eats_to_moves c 0 st STATE_OK 0 ty false modes buf (e0 :: elems) root Hm Hlen a Ha) as (a' & Hea & Ha').
  exists a'. split; [done|]. exists STATE_OK, ty, buf, e0. split_and!; try done. set_solver.
Qed.
Lemma waiting_comma m modes e elems root :
  eats_to [","%char] (waiting (m :: modes) e elems root) (conf 0 0 (next_state m) JSON_NONE (key_mode m false) (m :: modes) [] (e :: elems) root).
Proof.
  intros a (st & ty & buf & e0 & Ha & <- & He & Hty & Hst & Hlen). revert a Ha.
  change (eats_to [","%char] (conf 0 0 st ty false (m :: modes) buf (e0 :: elems) root)
    (conf 0 0 (next_state m) JSON_NONE (key_mode m false) (m :: modes) [] (filled ty buf e0 :: elems) root)).
  apply (eats_to_acts _ 0 STATE_SP); [each_state Hst|done|]. intros s. cbn [pushed]. intros Hs. by eapply ok_do_comma.
Qed.

Definition end_char (m : mode) : ascii := match m with MODE_ARRAY => "]"%char | MODE_OBJECT => "}"%char end.
Definition begin_char (m : mode) : ascii := match m with MODE_ARRAY => "["%char | MODE_OBJECT => "{"%char end.
(** The state behind a structure [e]. *)
Definition closed (modes : list mode) (e : stack_elem) (elems : list stack_elem) (root : option JsonVal) : Json → Prop :=
  conf 0 0 STATE_OK JSON_NONE false modes [] (finished e elems) (new_root e elems root).

Section closing.
Context (m : mode) (modes : list mode) (e : stack_elem) (elems : list stack_elem) (root : option JsonVal).
Hypothesis Helems : ∀ p l, elems = p :: l → key p ≠ KFreed.

Lemma waiting_end : eats_to [end_char m] (waiting (m :: modes) e elems root) (closed modes e elems root).
Proof using Helems.
  intros a (st & ty & buf & e0 & Ha & <- & He & Hty & Hst & Hlen). revert a Ha.
  change (eats_to [end_char m] (conf 0 0 st ty false (m :: modes) buf (e0 :: elems) root) (closed modes (filled ty buf e0) elems root)).
  apply (eats_to_acts _ 0 (end_action m)); [destruct m; each_state Hst|done|]. intros s. cbn [pushed]. intros Hs. by eapply ok_do_end.
Qed.
Lemma empty_end b : all blank b →
  eats_to (b ++ [end_char m]) (conf 0 0 (begin_state m) JSON_NONE (key_mode m false) (m :: modes) [] (e :: elems) root) (closed modes e elems root).
Proof using Helems.
  intros Hb. eapply eats_to_app; [apply (blanks_ok _ _ _ _ b); [done|destruct m; set_solver|done]|].
  apply (eats_to_acts _ 0 (end_action m)); [by destruct m|done|]. intros s. cbn [pushed]. intros Hs.
  eapply ok_mono; [eapply (ok_do_end m); [exact Hs|done|done|done|by destruct m]|]. done.
Qed.
Lemma begin_ok st : st ∈ [STATE_GO; STATE__V; STATE__A] → length elems < depth_limit → length modes < depth_limit →
  eats_to [begin_char m] (conf 0 0 st JSON_NONE false modes [] elems root)
    (conf 0 0 (begin_state m) JSON_NONE (key_mode m false) (m :: modes) [] (fresh m :: elems) root).
Proof.
  intros Hst H1 H2. apply (eats_to_acts _ 0 (begin_action m)); [destruct m; each_state Hst|done|]. intros s. cbn [pushed]. intros Hs.
  by eapply ok_do_begin.
Qed.
End closing.

(** A nested structure was handed to its parent. *)
Lemma closed_waiting modes e p elems root s : closed modes e (p :: elems) root s → waiting modes (add p (val e)) elems root s.
Proof. apply waiting_done. Qed.

Lemma constant_ok t s st ek modes elems root :
  (t, s) ∈ constants → st ∈ [STATE__V; STATE__A] →
  eats_to (String.list_ascii_of_string s) (conf 0 0 st JSON_NONE ek modes [] elems root) (conf 0 0 STATE_OK t ek modes [] elems root).
Proof.
  intros Hin Hst. unfold constants in Hin. rewrite !elem_of_cons in Hin.
  destruct Hin as [[= -> ->]|[[= -> ->]|[[= -> ->]|Hin]]]; [| | |by apply elem_of_nil in Hin]; simpl.
  - eapply eats_to_cons; [apply (eats_to_moves _ 0 st STATE_T1); [each_state Hst|done]|].
    eapply eats_to_cons; [by apply (eats_to_moves _ 0 _ STATE_T2)|]. eapply eats_to_cons; [by apply (eats_to_moves _ 0 _ STATE_T3)|].
    apply (eats_to_acts _ 0 STATE_TR); [done|done|]. intros a Ha. eapply (ok_do_plain STATE_TR); [exact Ha|done|done].
  - eapply eats_to_cons; [apply (eats_to_moves _ 0 st STATE_F1); [each_state Hst|done]|].
    eapply eats_to_cons; [by apply (eats_to_moves _ 0 _ STATE_F2)|]. eapply eats_to_cons; [by apply (eats_to_moves _ 0 _ STATE_F3)|].
    eapply eats_to_cons; [by apply (eats_to_moves _ 0 _ STATE_F4)|].
    apply (eats_to_acts _ 0 STATE_FA); [done|done|]. intros a Ha. eapply (ok_do_plain STATE_FA); [exact Ha|done|done].
  - eapply eats_to_cons; [apply (eats_to_moves _ 0 st STATE_N1); [each_state Hst|done]|].
    eapply eats_to_cons; [by apply (eats_to_moves _ 0 _ STATE_N2)|]. eapply eats_to_cons; [by apply (eats_to_moves _ 0 _ STATE_N3)|].
    apply (eats_to_acts _ 0 STATE_NU); [done|done|]. intros a Ha. eapply (ok_do_plain STATE_NU); [exact Ha|done|done].
Qed.

Definition short (t : list ascii) : Prop := (N.of_nat (length t) + 4 < text_limit)%N.
Lemma short_app s t : short (s ++ t) → short s ∧ short t.
Proof. unfold short. rewrite length_app. lia. Qed.
Lemma short_cons c t : short (c :: t) → short t.
Proof. unfold short. simpl. lia. Qed.

Definition object_with (o : list (string * JsonVal)) : JsonVal := mkJson JSON_OBJECT_BEGIN [] o "".
Definition reads_value (d : nat) (v : JsonVal) (t : list ascii) : Prop := ∀ st modes e elems root,
  st ∈ [STATE__V; STATE__A] → key e ≠ KFreed → length elems + d < depth_limit → length modes = S (length elems) → short t →
  eats_to t (conf 0 0 st JSON_NONE false modes [] (e :: elems) root) (waiting modes (add e v) elems root).
Definition reads_structure (d : nat) (v : JsonVal) (t : list ascii) : Prop := ∀ st modes elems root,
  st ∈ [STATE_GO; STATE__V; STATE__A] → (∀ p l, elems = p :: l → key p ≠ KFreed) → length elems + d < depth_limit → length modes = length elems → short t →
  eats_to t (conf 0 0 st JSON_NONE false modes [] elems root) (λ a, ∃ e, val e = v ∧ closed modes e elems root a).
Definition reads_elements (d : nat) (vs : list JsonVal) (t : list ascii) : Prop := ∀ st modes a elems root,
  st ∈ [STATE__V; STATE__A] → length elems + d < depth_limit → length modes = length elems → short t →
  eats_to t (conf 0 0 st JSON_NONE false (MODE_ARRAY :: modes) [] (mkElem (array_of a) KNull :: elems) root)
    (waiting (MODE_ARRAY :: modes) (mkElem (array_of (a ++ vs)) KNull) elems root).
Definition reads_members (d : nat) (ms : list (string * JsonVal)) (t : list ascii) : Prop := ∀ st modes o k elems root,
  st ∈ [STATE__O; STATE__K] → length elems + d < depth_limit → length modes = length elems → short t →
  eats_to t (conf 0 0 st JSON_NONE true (MODE_OBJECT :: modes) [] (mkElem (object_with o) k :: elems) root)
    (waiting (MODE_OBJECT :: modes) (mkElem (object_with (fold_left (λ o kv, map_insert kv.1 kv.2 o) ms o)) KFreed) elems root).

Lemma leaf_ok t st st' ty modes e elems root (s : list ascii) :
  eats_to t (conf 0 0 st JSON_NONE false modes [] (e :: elems) root) (λ a, ∃ x, x ∈ st' ∧ conf 0 0 x ty false modes s (e :: elems) root a) →
  is_datum ty = true → key e ≠ KFreed → st' ⊆ [STATE_OK; STATE_Z0; STATE_I0; STATE_R2; STATE_X3] → short s →
  eats_to t (conf 0 0 st JSON_NONE false modes [] (e :: elems) root) (waiting modes (add e (tree_create_data ty (text s))) elems root).
Proof.
  intros Ht Hd He Hsub Hs. eapply eats_to_weaken; [done| |exact Ht]. intros a (x & Hx & Ha). eapply waiting_datum; [exact Ha|done|done|by apply Hsub|].
  unfold short in Hs. lia.
Qed.

Lemma padded_value d v t b1 b2 st modes e elems root :
  reads_value d v t → all blank b1 → all blank b2 → st ∈ [STATE__V; STATE__A] → key e ≠ KFreed → length elems + d < depth_limit →
  length modes = S (length elems) → short (b1 ++ t ++ b2) →
  eats_to (b1 ++ t ++ b2) (conf 0 0 st JSON_NONE false modes [] (e :: elems) root) (waiting modes (add e v) elems root).
Proof.
  intros Hv H1 H2 Hst He Hd Hm [_ [Hs _]%short_app]%short_app.
  eapply eats_to_app; [apply (blanks_ok _ _ _ _ b1); [done|set_solver|done]|].
  eapply eats_to_app; [by apply Hv|by apply waiting_blanks].
Qed.

Lemma reads_all :
  (∀ d v t, value_text d v t → reads_value d v t) ∧ (∀ d v t, structure_text d v t → reads_structure d v t) ∧
  (∀ d vs t, elements_text d vs t → reads_elements d vs t) ∧ (∀ d ms t, members_text d ms t → reads_members d ms t) ∧
  (∀ d k v t, member_text d k v t → reads_members d [(k, v)] t).
Proof.
  apply json_text_min.
  - intros d ty s Hin st modes e elems root Hst He Hd Hm Hs. apply (leaf_ok _ st [STATE_OK] ty modes e elems root []); try done.
    + eapply eats_to_weaken; [done| |by apply constant_ok]. intros a Ha. exists STATE_OK. split; [set_solver|done].
    + unfold constants in Hin. rewrite !elem_of_cons, elem_of_nil in Hin. naive_solver.
    + set_solver.
  - intros d s Hi st modes e elems root Hst He Hd Hm Hs. eapply leaf_ok; [apply int_ok; [done|done|unfold short in Hs; lia]|done|done|set_solver|done].
  - intros d s Hi st modes e elems root Hst He Hd Hm Hs. eapply leaf_ok; [apply float_ok; [done|done|unfold short in Hs; lia]|done|done|set_solver|done].
  - intros d v t Ht st modes e elems root Hst He Hd Hm Hs. eapply eats_to_weaken; [done|apply waiting_done|].
    unfold short in Hs. simpl in Hs. rewrite length_app in Hs. simpl in Hs.
    apply (quoted_ok false modes (e :: elems) root st v t e elems); [done|done|each_state Hst|done|lia].
  - intros d v t _ IH st modes e elems root Hst He Hd Hm Hs. eapply eats_to_weaken; [done| |apply (IH st modes (e :: elems) root)].
    + intros a (x & <- & Ha). by apply closed_waiting.
    + set_solver.
    + intros p l [= <- <-]. done.
    + simpl. lia.
    + done.
    + done.
  - intros d b Hb st modes elems root Hst Hk Hd Hm Hs. eapply eats_to_cons; [apply (begin_ok MODE_ARRAY); [done|lia|lia]|].
    eapply eats_to_weaken; [done| |by apply (empty_end MODE_ARRAY)]. intros a Ha. by exists (fresh MODE_ARRAY).
  - intros d vs t _ IH st modes elems root Hst Hk Hd Hm Hs. apply short_cons in Hs as Hs'. apply short_app in Hs' as [Ht _].
    eapply eats_to_cons; [apply (begin_ok MODE_ARRAY); [done|lia|lia]|].
    eapply eats_to_app; [apply (IH STATE__A modes [] elems root); [set_solver|lia|done|done]|].
    eapply eats_to_weaken; [done| |by apply (waiting_end MODE_ARRAY)]. intros a Ha. eexists. by split; [|exact Ha].
  - intros d b Hb st modes elems root Hst Hk Hd Hm Hs. eapply eats_to_cons; [apply (begin_ok MODE_OBJECT); [done|lia|lia]|].
    eapply eats_to_weaken; [done| |by apply (empty_end MODE_OBJECT)]. intros a Ha. by exists (fresh MODE_OBJECT).
  - intros d ms t _ IH st modes elems root Hst Hk Hd Hm Hs. apply short_cons in Hs as Hs'. apply short_app in Hs' as [Ht _].
    eapply eats_to_cons; [apply (begin_ok MODE_OBJECT); [done|lia|lia]|].
    eapply eats_to_app; [apply (IH STATE__O modes [] KNull elems root); [set_solver|lia|done|done]|].
    eapply eats_to_weaken; [done| |by apply (waiting_end MODE_OBJECT)]. intros a Ha. eexists. by split; [|exact Ha].
  - intros d b1 v t b2 H1 _ IH H2 st modes a elems root Hst Hd Hm Hs.
    by apply (padded_value d v t b1 b2 st (MODE_ARRAY :: modes) (mkElem (array_of a) KNull)); [| | | | | |simpl; lia|].
  - intros d b1 v t b2 vs ts H1 _ IH H2 _ IHs st modes a elems root Hst Hd Hm Hs.
    replace (b1 ++ t ++ b2 ++ ","%char :: ts) with ((b1 ++ t ++ b2) ++ ","%char :: ts) in * by by rewrite <- !app_assoc.
    apply short_app in Hs as [Hs1 Hs2%short_cons]. replace (a ++ v :: vs) with ((a ++ [v]) ++ vs) by by rewrite <- app_assoc.
    eapply eats_to_app; [by apply (padded_value d v t b1 b2 st (MODE_ARRAY :: modes) (mkElem (array_of a) KNull)); [| | | | | |simpl; lia|]|].
    eapply eats_to_cons; [apply (waiting_comma MODE_ARRAY)|]. apply (IHs STATE__V modes (a ++ [v])); [set_solver|done|done|done].
  - done.
  - intros d k v t ms ts _ IH _ IHs st modes o x elems root Hst Hd Hm Hs. apply short_app in Hs as [Hs1 Hs2%short_cons].
    eapply eats_to_app; [by apply (IH st modes o x elems root)|]. eapply eats_to_cons; [apply (waiting_comma MODE_OBJECT)|].
    apply (IHs STATE__K modes _ KFreed); [set_solver|done|done|done].
  - intros d b1 k kt b2 b3 v t b4 H1 Hk H2 H3 _ IH H4 st modes o x elems root Hst Hd Hm Hs.
    apply short_app in Hs as [_ Hs]. apply short_app in Hs as [Hq Hs]. apply short_app in Hs as [_ Hs%short_cons].
    eapply eats_to_app; [apply (blanks_ok _ _ _ _ b1); [done|set_solver|done]|]. unfold short in Hq. simpl in Hq. rewrite length_app in Hq. simpl in Hq.
    eapply eats_to_app; [by apply (quoted_ok true _ _ _ st k kt (mkElem (object_with o) x) elems); [| |each_state Hst| |lia]|]. cbn [val].
    eapply eats_to_app; [apply (blanks_ok _ _ _ _ b2); [done|set_solver|done]|].
    eapply eats_to_cons.
    { apply (eats_to_acts _ 0 STATE_KS STATE_CO); [done|done|]. intros a Ha. eapply (ok_do_plain STATE_KS); [exact Ha|done|done]. }
    by apply (padded_value d v t b3 b4 STATE__V (MODE_OBJECT :: modes) (mkElem (object_with o) (KString (text k)))); [| | |set_solver| | |simpl; lia|].
Qed.

Lemma document_eats v t : document_text v t → short t →
  ∃ b, eats t JsonParser.new b ∧ conf 0 0 STATE_OK JSON_NONE false [] [] [] (Some v) b.
Proof.
  intros [d b1 v' t' b2 Hb1 Ht Hd Hb2] [_ [Hs _]%short_app]%short_app.
  destruct (blanks_ok false [] [] None b1 STATE_GO JSON_NONE [] Hb1 ltac:(set_solver) ltac:(done) JsonParser.new new_conf) as (s1 & E1 & Hs1).
  destruct reads_all as (_ & Hread & _).
  destruct (Hread d v' t' Ht STATE_GO [] [] None ltac:(set_solver) ltac:(done) ltac:(simpl; lia) eq_refl Hs s1 Hs1) as (s2 & E2 & e & <- & Hs2).
  destruct (blanks_ok false [] [] (Some (val e)) b2 STATE_OK JSON_NONE [] Hb2 ltac:(set_solver) ltac:(done) s2 Hs2) as (s3 & E3 & Hs3).
  exists s3. split; [|done]. eapply eats_app; [exact E1|]. by eapply eats_app.
Qed.

Lemma eats_read t b v : eats t JsonParser.new b → root_structure (js_dom b) = v → read_graph_file (text t) = Ret v tt.
Proof.
  intros Hb <-. unfold read_graph_file. by rewrite String.list_ascii_of_string_of_list_ascii, (parse_file_eats _ _ b) by (done || lia).
Qed.

(** C5: an object or array of the grammar above (RFC 8259 without an exponent directly
    behind a leading zero and without an escape for half of a surrogate pair, which
    json.c refuses), nested no deeper than 1024 structures and shorter than 2^30
    characters, is read into its tree, whatever the boundaries of the chunks of 4095
    characters it is read in fall on: no error is reported, and no access is outside
    of the buffer, the stacks or a key that was freed. *)
Theorem read_document v t :
  document_text v t → short t → read_graph_file (text t) = Ret (Some v) tt.
Proof.
  intros Hd Hs. destruct (document_eats v t Hd Hs) as (b & Hb & Hc). apply (eats_read _ _ _ Hb), (cf_root _ _ _ _ _ _ _ _ _ _ Hc).
Qed.

(** *** A document *)

Definition small_text : list ascii := [" "; "{"; quote; "k"; quote; ":"; "["; "-"; "1"; ","; " "; "t"; "r"; "u"; "e"; "]"; "}"]%char.
Definition small_value : JsonVal :=
  object_of [("k", array_of [tree_create_data JSON_INT "-1"; tree_create_data JSON_TRUE ""])].

Lemma small_document : document_text small_value small_text.
Proof.
  apply (document_intro 1 [" "%char] small_value (tail small_text) []); [by repeat constructor| |vm_compute; lia|constructor].
  apply (object_members 1 [("k", _)] [quote; "k"; quote; ":"; "["; "-"; "1"; ","; " "; "t"; "r"; "u"; "e"; "]"]%char).
  apply members_last. apply (member_intro 1 [] ["k"%char] ["k"%char] [] [] _ ["["; "-"; "1"; ","; " "; "t"; "r"; "u"; "e"; "]"]%char []); try constructor.
  - apply (string_cons ["k"%char] ["k"%char] [] []); [by constructor|constructor].
  - apply (array_elements 0 [_; _] ["-"; "1"; ","; " "; "t"; "r"; "u"; "e"]%char).
    apply (elements_more 0 [] (tree_create_data JSON_INT "-1") ["-"; "1"]%char [] _ [" "; "t"; "r"; "u"; "e"]%char); try constructor.
    + apply (value_int 0 ["-"; "1"]%char). apply (int_intro ["-"] ["1"])%char; constructor; [done|constructor].
    + apply (elements_last 0 [" "%char] _ (String.list_ascii_of_string "true") []); [by repeat constructor| |constructor]. apply value_constant. set_solver.
Qed.

Lemma read_document_witness : read_graph_file (text small_text) = Ret (Some small_value) tt.
Proof. apply read_document; [exact small_document|vm_compute; reflexivity]. Defined.
