(* ===== verification/JsonErrors.v ===== *)
(** * Where the JSON tokenizer goes wrong

    Texts that json.c and json/parser.cpp do not read as they should: one nested
    deeper than 1024 structures makes the growing stack of the tree smaller, and what
    follows a bracket too many is dropped without an error.  Two that RFC 8259 allows
    and the automaton refuses: an exponent directly behind a zero, and an escape
    for half of a surrogate pair. *)

From Stdlib Require Import Ascii.
From S2P Require Import Prelude GraphModel GraphChecks GraphParser Json JsonText.

(** ** Nesting *)

(** [k] arrays are open. *)
Definition opened (k : nat) (a : Json) : Prop := ∃ st modes elems,
  st ∈ [STATE_GO; STATE__V; STATE__A] ∧ conf 0 0 st JSON_NONE false modes [] elems None a ∧ length modes = k ∧ length elems = k.

Lemma open_one k : k < depth_limit → eats_to ["["%char] (opened k) (opened (S k)).
Proof.
  intros Hk a (st & modes & elems & Hst & Ha & <- & Hl).
  destruct (begin_ok MODE_ARRAY modes elems None st Hst ltac:(lia) Hk a Ha) as (b & Hb & Hc). exists b. split; [done|].
  exists STATE__A, (MODE_ARRAY :: modes), (fresh MODE_ARRAY :: elems). split_and!; [set_solver|done|done|simpl; lia].
Qed.
Lemma open_many n k : k + n ≤ depth_limit → eats_to (replicate n "["%char) (opened k) (opened (k + n)).
Proof.
  revert k. induction n as [|n IH]; intros k Hn; simpl.
  - rewrite Nat.add_0_r. by apply eats_to_nil.
  - eapply eats_to_cons; [apply open_one; lia|]. rewrite <- Nat.add_succ_comm. apply IH. lia.
Qed.

Lemma aborts_bind {S A B} (m : M S A) (f : A → M S B) r s : returns m (λ a s', f a s' = Abort r) s → (m ≫= f) s = Abort r.
Proof. unfold returns, wp, mbind, M_bind. by destruct (m s). Qed.
Lemma aborts_CHK {S} (m k : M S json_error) r s : m s = Abort r → CHK m k s = Abort r.
Proof. unfold CHK, mbind, M_bind. by intros ->. Qed.

Lemma open_too_many a : opened depth_limit a → parse_char "["%char a = Abort BadAccess.
Proof.
  intros (st & modes & elems & Hst & Ha & _ & Hl). apply aborts_bind. eapply wp_next_class; [exact Ha|by apply (classified_ascii _ C_LSQRB)|].
  intros s Hs. apply aborts_bind, wp_thep. rewrite (cf_state _ _ _ _ _ _ _ _ _ _ Hs).
  assert (state_transition_table st C_LSQRB = Do STATE_AB ∧ buffer_policy_table st C_LSQRB = 0) as [-> ->].
  { rewrite !elem_of_cons, elem_of_nil in Hst. destruct Hst as [->|[->|[->|[]]]]; done. }
  apply aborts_bind. apply wp_zoom, wp_ret. cbn [lget lset l_parser].
  apply aborts_CHK, aborts_bind, wp_ret. apply aborts_CHK. unfold do_callback, zoom.
  replace {| js_parser := js_parser s; js_dom := js_dom s |} with s by by destruct s. cbn [lget l_dom].
  destruct (cf_elems_size _ _ _ _ _ _ _ _ _ _ Hs) as [Hn Hb].
  cut (dom_push (tree_create_structure (bool_decide (JSON_ARRAY_BEGIN = JSON_OBJECT_BEGIN))) (js_dom s) = Abort BadAccess).
  { intros Hd. unfold json_parser_dom_callback, mbind, M_bind. by rewrite Hd. }
  apply aborts_bind, wp_mget. rewrite (cf_elems _ _ _ _ _ _ _ _ _ _ Hs), Hl, Hn. unfold depth_limit.
  rewrite (bool_decide_eq_true_2 (N.of_nat _ = _)) by lia. cbn [mwhen]. apply aborts_bind, wp_mput. apply aborts_bind, wp_mget.
  cbn [dom_stack dom_stack_bytes]. unfold mbind at 1, M_bind at 1. rewrite (bool_decide_eq_false_2 (_ ≤ _)%N); [done|].
  unfold uint32, sizeof_stack_elem. vm_compute. done.
Qed.

Lemma take_replicate {A} (x : A) n k rest : n < k → ∃ rest', take k (replicate (S n) x ++ rest) = replicate n x ++ x :: rest'.
Proof.
  intros Hk. exists (take (k - S n) rest). rewrite take_app, length_replicate, take_ge by (rewrite length_replicate; lia).
  by rewrite replicate_S_end, <- app_assoc.
Qed.
Lemma depth_chunk : depth_limit < chunk_size.
Proof. unfold chunk_size, depth_limit. lia. Qed.

Lemma parse_many_abort s a b c rest r i : eats s a b → parse_char c b = Abort r → parse_chars i (s ++ c :: rest) a = Abort r.
Proof.
  intros He Hc. revert i. induction He as [a|x s a b d Hx _ IH]; intros i; cbn [app parse_chars]; unfold mbind, M_bind.
  - by rewrite Hc.
  - rewrite Hx. by apply IH.
Qed.
Lemma read_abort t r : parse_chars 0 (take chunk_size t) JsonParser.new = Abort r → read_graph_file (text t) = Abort r.
Proof.
  intros Hp. unfold read_graph_file. rewrite String.list_ascii_of_string_of_list_ascii. cbn [parse_file].
  unfold JsonParser.parse, json_parser_string, mbind, M_bind. by rewrite Hp.
Qed.

(** C22: a text that opens 1025 arrays makes the tree builder write outside of its stack,
    whatever follows: [dom_push] grows the block to twice the number of its elements,
    counted in bytes, which is less than it was. *)
Theorem deep_nesting_aborts rest :
  read_graph_file (text (replicate (S depth_limit) "["%char ++ rest)) = Abort BadAccess.
Proof.
  destruct (open_many depth_limit 0 (Nat.le_refl _) JsonParser.new) as (b & Hb & Ho).
  { exists STATE_GO, [], []. split_and!; [set_solver|apply new_conf|done|done]. }
  destruct (take_replicate "["%char depth_limit chunk_size rest depth_chunk) as [rest' Ht].
  apply read_abort. rewrite Ht. eapply parse_many_abort; [exact Hb|]. by apply open_too_many.
Qed.

(** ** A bracket too many *)

(** [m] ends with the error [e]. *)
Definition fails {S} (m : M S json_error) (e : json_error) (Q : S → Prop) : S → Prop := returns m (λ r s', r = e ∧ Q s').
Lemma fails_first {S} (m k : M S json_error) e Q s : e ≠ SUCCESS → fails m e Q s → fails (CHK m k) e Q s.
Proof. intros He H. apply wp_bind. eapply wp_mono; [exact H| |done]. intros r s' [-> Hs]. by destruct e. Qed.
Lemma fails_then {S} (m k : M S json_error) e (Q : S → Prop) s : ok m (fails k e Q) s → fails (CHK m k) e Q s.
Proof. intros H. apply wp_bind. eapply wp_mono; [exact H| |done]. intros r s' [-> Hs]. exact Hs. Qed.

Lemma parse_chars_stop s a b c rest e Q i : eats s a b → fails (parse_char c) e Q b → e ≠ SUCCESS →
  ∃ j d, parse_chars i (s ++ c :: rest) a = Ret (e, j) d ∧ Q d.
Proof.
  intros He Hc Hne. revert i. induction He as [a|x s a b d' Hx _ IH]; intros i; cbn [app parse_chars]; unfold mbind, M_bind.
  - unfold fails, returns, wp in Hc. destruct (parse_char c a) as [r d| |]; [|done|done]. destruct Hc as [-> Hd]. exists i, d. by destruct e.
  - rewrite Hx. by apply IH.
Qed.

(** Behind a document. *)
Lemma closing_bracket m root a : conf 0 0 STATE_OK JSON_NONE false [] [] [] (Some root) a →
  fails (parse_char (end_char m)) JSON_ERROR_POP_EMPTY (λ b, root_structure (js_dom b) = Some root) a.
Proof.
  intros Ha. set (cl := match m with MODE_OBJECT => C_RCURB | MODE_ARRAY => C_RSQRB end).
  apply wp_bind. eapply (wp_next_class _ _ _ _ _ _ _ _ _ _ cl 0); [exact Ha|by destruct m; apply classified_ascii|].
  intros s Hs. apply wp_bind, wp_thep. rewrite (cf_state _ _ _ _ _ _ _ _ _ _ Hs).
  assert (state_transition_table STATE_OK cl = Do (end_action m) ∧ buffer_policy_table STATE_OK cl = 0) as [-> ->] by by destruct m.
  apply fails_then. apply wp_zoom, ok_ret. replace (lset l_parser (lget l_parser s) s) with s by by destruct s.
  assert (Hpop : ∀ b, conf 0 0 STATE_OK JSON_NONE false [] [] [] (Some root) b →
    fails (onParser (state_pop m)) JSON_ERROR_POP_EMPTY (λ b, root_structure (js_dom b) = Some root) b).
  { intros b Hb. apply wp_zoom, wp_bind, wp_mget. cbn [lget l_parser]. rewrite (cf_stack _ _ _ _ _ _ _ _ _ _ Hb).
    apply wp_ret. split; [done|]. apply Hb. }
  destruct m; apply fails_first; try done; apply fails_then; (eapply ok_mono; [by apply (do_buffer_ok _ _ _ _ _ _ _ _ _ _ Hs)|]);
    intros b Hb; (apply fails_first; [done|by apply Hpop]).
Qed.

(** A closing bracket behind the document ends the reading of the chunk without an
    error: [JsonParser::parse] takes the error for success and what follows in the
    chunk, whatever it is, is ignored. *)
Theorem extra_bracket_ignored v t m junk :
  document_text v t → length (t ++ end_char m :: junk) < chunk_size →
  read_graph_file (text (t ++ end_char m :: junk)) = Ret (Some v) tt.
Proof.
  intros Hd Hlen. assert (Hs : short t).
  { rewrite length_app in Hlen. unfold chunk_size in Hlen. unfold short, text_limit. lia. }
  destruct (document_eats v t Hd Hs) as (b & Hb & Hc). unfold read_graph_file. rewrite String.list_ascii_of_string_of_list_ascii.
  cbn [parse_file]. rewrite take_ge by lia. rewrite bool_decide_eq_true_2 by done.
  destruct (parse_chars_stop t _ b (end_char m) junk _ _ 0 Hb (closing_bracket m v b Hc) ltac:(done)) as (j & d & Hp & Hr).
  unfold JsonParser.parse, json_parser_string, mbind, M_bind. rewrite Hp. cbn. by rewrite Hr.
Qed.

Lemma extra_bracket_ignored_witness :
  read_graph_file (text (small_text ++ ["}"; " "; "o"; "o"; "p"; "s"]%char)) = Ret (Some small_value) tt.
Proof.
  apply (extra_bracket_ignored small_value small_text MODE_OBJECT [" "; "o"; "o"; "p"; "s"]%char); [exact small_document|].
  unfold chunk_size. cbn. lia.
Defined.

(** ** Documents of RFC 8259 that are refused *)

(** EINVAL is thrown. *)
Definition refused (t : list ascii) : bool :=
  match read_graph_file (text t) with Throw (Exception 22 _) _ => true | _ => false end.

(** [[0e5]]: no transition leaves the state behind a leading zero on an exponent; with
    a fraction between them, or another digit, it is read. *)
Example zero_exponent_refused :
  refused ["["; "0"; "e"; "5"; "]"]%char = true ∧ refused ["["; "-"; "0"; "E"; "1"; "]"]%char = true ∧
  refused ["["; "0"; "."; "0"; "e"; "5"; "]"]%char = false ∧ refused ["["; "1"; "e"; "5"; "]"]%char = false.
Proof. vm_compute. done. Qed.

(** A string of one escape for a code unit that is half of a pair. *)
Definition escaped_unit (ds : list ascii) : list ascii :=
  "["%char :: quote :: backslash :: "u"%char :: ds ++ [quote; "]"%char].
Example lone_surrogate_refused :
  refused (escaped_unit ["d"; "8"; "0"; "0"]%char) = true ∧ refused (escaped_unit ["D"; "C"; "0"; "0"]%char) = true ∧
  refused (escaped_unit ["d"; "7"; "f"; "f"]%char) = false.
Proof. vm_compute. done. Qed.
