(* ===== verification/JsonSafety.v ===== *)
(** * The tokenizer never leaves its memory

    Whatever the bytes of a graph file are, as long as it contains at most
    1024 opening brackets and is shorter than 2^30 characters, reading it ends with a tree, with
    none, or with [EINVAL]: every access is inside the buffer, the stacks and the
    tables, and no key is used that was freed.  The invariant ties the automaton to the
    stack of the tree: its states fall into kinds ([kind_of]), the tables respect the
    kinds ([tables_ok], by evaluation), and each kind says what the top
    of the stack is like ([shape]). *)

From Stdlib Require Import Ascii.
From S2P Require Import Prelude GraphModel GraphChecks GraphParser Json JsonText.

(** ** Kinds of states *)

(** Waiting for a key, for the first element, for the rest of a value; in a string, with
    the number of hexadecimal digits read; in a number; behind a value. *)
Inductive kind := Start | Key | First | Value | Str (digits : nat) | Number | Done | Comment | Unused.
#[export] Instance kind_eq_dec : EqDecision kind.
Proof. solve_decision. Defined.
#[export] Instance actions_eq_dec : EqDecision actions.
Proof. solve_decision. Defined.

Definition kind_of (st : states) : kind :=
  match st with
  | STATE_GO => Start
  | STATE_OK => Done
  | STATE__O | STATE__K => Key
  | STATE__A => First
  | STATE_CO | STATE__V | STATE_T1 | STATE_T2 | STATE_T3 | STATE_F1 | STATE_F2 | STATE_F3 | STATE_F4
  | STATE_N1 | STATE_N2 | STATE_N3 => Value
  | STATE__S | STATE_E0 | STATE_U1 | STATE_D1 | STATE_D2 => Str 0
  | STATE_U2 => Str 1 | STATE_U3 => Str 2 | STATE_U4 => Str 3
  | STATE_M0 | STATE_Z0 | STATE_I0 | STATE_R1 | STATE_R2 | STATE_X1 | STATE_X2 | STATE_X3 => Number
  | STATE_C1 | STATE_C2 | STATE_C3 => Comment
  | STATE_Y1 => Unused
  end.
(** The state a comment comes back to. *)
Definition resume (saved : states) : states := if after_A saved then STATE_OK else saved.

(** The classes of hexadecimal digits. *)
Definition hex_class (cl : classes) : bool :=
  match cl with
  | C_ZERO | C_DIGIT | C_a | C_b | C_c | C_d | C_e | C_f | C_ABCDF | C_E => true
  | _ => false
  end.
Definition opens_class (cl : classes) : bool := match cl with C_LCURB | C_LSQRB => true | _ => false end.

(** What the tables may do, by kinds: a move, and an action. *)
Definition move_ok (from to : kind) (cl : classes) (policy : nat) : bool :=
  match from, to with
  | Str d, Str d' => bool_decide (d' = 0) || bool_decide (d' = S d) && hex_class cl && bool_decide (policy = 1)
  | Key, Str 0 | First, Str 0 | Value, Str 0 | First, Value | Number, Done => true
  | _, _ => bool_decide (from = to)
  end.
Definition act_ok (st : states) (a : actions) (cl : classes) (policy : nat) : bool :=
  match a with
  | STATE_KS | STATE_FA | STATE_TR | STATE_NU => bool_decide (kind_of st = Value)
  | STATE_DE | STATE_DF => bool_decide (kind_of st = Number)
  | STATE_MX | STATE_ZX | STATE_IX => bool_decide (kind_of st ∈ [Value; First])
  | STATE_AB | STATE_OB => bool_decide (kind_of st ∈ [Start; Value; First]) && opens_class cl
  | STATE_SP => bool_decide (kind_of st ∈ [Done; Number])
  | STATE_AE => bool_decide (kind_of st ∈ [Done; Number; First])
  | STATE_OE => bool_decide (kind_of st ∈ [Done; Number; Key])
  | STATE_CB => bool_decide (kind_of st ∈ [Start; Done; Key; First; Value; Number]) && bool_decide (kind_of (resume st) ∈ [Start; Done; Key; First; Value])
  | STATE_YB => bool_decide (kind_of st ∈ [Start; Done; Key; First; Value; Number])
  | STATE_CE => bool_decide (kind_of st ∈ [Comment; Unused])
  | STATE_SE => bool_decide (kind_of st = Str 0)
  | STATE_UC => bool_decide (kind_of st = Str 3) && hex_class cl && bool_decide (policy = 1)
  end.
Definition table_ok (st : states) (cl : classes) : bool :=
  match state_transition_table st cl with
  | To st' => move_ok (kind_of st) (kind_of st') cl (buffer_policy_table st cl)
  | Do a => act_ok st a cl (buffer_policy_table st cl)
  | STATE___ => true
  end.
Lemma tables_ok st cl : table_ok st cl = true.
Proof. destruct st; destruct cl; vm_compute; reflexivity. Qed.

(** ** The invariant *)

(** The top of the stack can take a value. *)
Definition ready (elems : list stack_elem) : Prop := match elems with e :: _ => key e ≠ KFreed | [] => False end.
(** The two stacks go together; what is below the top waits for a value. *)
Definition framed (modes : list mode) (elems : list stack_elem) : Prop :=
  Forall2 (λ m e, m = MODE_ARRAY → key e = KNull) modes elems ∧ Forall (λ e, key e ≠ KFreed) (tail elems).

(** The last [d] characters of the buffer are digits. *)
Definition digits_last (d : nat) (buf : list ascii) : Prop :=
  ∃ b ds, buf = b ++ ds ∧ length ds = d ∧ Forall (λ c, (code c < 128)%N) ds.

Definition shape (kd : kind) (ty : json_type) (ek : bool) (modes : list mode) (elems : list stack_elem) (buf : list ascii) : Prop :=
  match kd with
  | Start => modes = [] ∧ ek = false ∧ ty = JSON_NONE
  | Key => head modes = Some MODE_OBJECT ∧ ek = true ∧ ty = JSON_NONE
  | First => head modes = Some MODE_ARRAY ∧ ek = false ∧ ty = JSON_NONE
  | Value => ready elems ∧ ek = false ∧ ty = JSON_NONE
  | Str d => (if ek then head modes = Some MODE_OBJECT else ready elems) ∧ ty = JSON_NONE ∧ digits_last d buf
  | Number => ready elems ∧ ek = false ∧ (ty = JSON_INT ∨ ty = JSON_FLOAT)
  | Done => ek = false ∧ (ty = JSON_NONE ∨ is_datum ty = true ∧ ready elems)
  | Comment | Unused => False
  end.
Definition shaped (st saved : states) (ty : json_type) (ek : bool) (modes : list mode) (elems : list stack_elem) (buf : list ascii) : Prop :=
  if bool_decide (kind_of st = Comment) then shape (kind_of (resume saved)) ty ek modes elems buf ∧ ty = JSON_NONE
  else shape (kind_of st) ty ek modes elems buf.

(** [n] structures were opened and [k] characters read. *)
Definition safe (n k : nat) (s : Json) : Prop := ∃ left multi st ty ek modes buf elems root,
  conf left multi st ty ek modes buf elems root s ∧ length modes ≤ n ∧ length buf ≤ k ∧ framed modes elems ∧
  shaped st (save_state (js_parser s)) ty ek modes elems buf.

Lemma safe_new : safe 0 0 JsonParser.new.
Proof.
  exists 0%N, 0%N, STATE_GO, JSON_NONE, false, [], [], [], None. split; [apply new_conf|].
  do 2 (split; [simpl; lia|]). split; [by repeat constructor|done].
Qed.

(** The loop goes on after these two results. *)
Definition goes_on (r : json_error) : Prop := r = SUCCESS ∨ r = JSON_ERROR_POP_EMPTY.
(** [m] does not abort, and [Q] holds if the loop goes on. *)
Definition sound {S} (m : M S json_error) (Q : S → Prop) : S → Prop := returns m (λ r s', goes_on r → Q s').
Lemma sound_ret {S} r (Q : S → Prop) s : (goes_on r → Q s) → sound (mret r) Q s.
Proof. done. Qed.
Lemma sound_error {S} r (Q : S → Prop) s : ¬ goes_on r → sound (mret r) Q s.
Proof. intros Hr. by apply wp_ret. Qed.
(** A callback that succeeds, then the rest. *)
Lemma sound_CHK {S} (m k : M S json_error) (Q : S → Prop) s :
  returns m (λ r s', match r with SUCCESS => sound k Q s' | _ => goes_on r → Q s' end) s → sound (CHK m k) Q s.
Proof.
  intros H. apply wp_bind. eapply wp_mono; [exact H| |done]. intros r s' Hr. destruct r; try done; by apply wp_ret.
Qed.
Lemma sound_ok {S} (m k : M S json_error) (P Q : S → Prop) s : ok m P s → (∀ s', P s' → sound k Q s') → sound (CHK m k) Q s.
Proof. intros Hm Hk. apply sound_CHK. eapply wp_mono; [exact Hm| |done]. intros r s' [-> Hs]. by apply Hk. Qed.

(** ** The saved state

    Only the actions for comments change it. *)

Section saved.
Context (sv : states).
Definition keeps {A} (m : M Json A) : Prop :=
  ∀ s a s', save_state (js_parser s) = sv → m s = Ret a s' → save_state (js_parser s') = sv.
Definition pkeeps {A} (m : M json_parser A) : Prop := ∀ p a p', save_state p = sv → m p = Ret a p' → save_state p' = sv.

Lemma keeps_bind {A B} (m : M Json A) (f : A → M Json B) : keeps m → (∀ a, keeps (f a)) → keeps (m ≫= f).
Proof.
  intros Hm Hf s b s' Hs H. unfold mbind, M_bind in H. destruct (m s) as [a s1| |] eqn:E; try done. eapply Hf; [|exact H]. by eapply Hm.
Qed.
Lemma pkeeps_bind {A B} (m : M json_parser A) (f : A → M json_parser B) : pkeeps m → (∀ a, pkeeps (f a)) → pkeeps (m ≫= f).
Proof.
  intros Hm Hf s b s' Hs H. unfold mbind, M_bind in H. destruct (m s) as [a s1| |] eqn:E; try done. eapply Hf; [|exact H]. by eapply Hm.
Qed.
Lemma keeps_thep {A} (f : json_parser → M Json A) : (∀ p, save_state p = sv → keeps (f p)) → keeps (thep ≫= f).
Proof. intros Hf [p d] b s' Hs H. eapply (Hf p); [exact Hs|exact Hs|exact H]. Qed.
Lemma pkeeps_mget {A} (f : json_parser → M json_parser A) : (∀ p, save_state p = sv → pkeeps (f p)) → pkeeps (mget ≫= f).
Proof. intros Hf p b s' Hs H. by eapply (Hf p). Qed.
Lemma keeps_ret {A} (a : A) : keeps (mret a).
Proof. by intros s b s' Hs [= _ <-]. Qed.
Lemma pkeeps_ret {A} (a : A) : pkeeps (mret a).
Proof. by intros s b s' Hs [= _ <-]. Qed.
Lemma pkeeps_abort {A} r : pkeeps (mabort r : M json_parser A).
Proof. by intros s b s'. Qed.
Lemma pkeeps_mput p : save_state p = sv → pkeeps (mput p).
Proof. by intros Hp s b s' Hs [= _ <-]. Qed.
Lemma pkeeps_modify f : (∀ p, save_state (f p) = save_state p) → pkeeps (modify f).
Proof. intros Hf s b s' Hs [= _ <-]. by rewrite Hf. Qed.
Lemma pkeeps_deref {A} (o : option A) : pkeeps (deref o).
Proof. intros s b s' Hs H. unfold deref in H. destruct o; [by injection H as _ <-|done]. Qed.
Lemma keeps_parser {A} (m : M json_parser A) : pkeeps m → keeps (onParser m).
Proof.
  intros Hm s a s' Hs H. unfold onParser, zoom in H. destruct (m (lget l_parser s)) as [b p| |] eqn:E; try done.
  injection H as _ <-. by eapply (Hm _ _ _ Hs).
Qed.
Lemma keeps_dom {A} (m : M json_parser_dom A) : keeps (zoom l_dom m).
Proof. intros s a s' Hs H. unfold zoom in H. destruct (m (lget l_dom s)); try done. by injection H as _ <-. Qed.
Lemma keeps_setp f : (∀ p, save_state (f p) = save_state p) → keeps (setp f).
Proof. intros Hf. by apply keeps_parser, pkeeps_modify. Qed.
End saved.

Ltac keep := repeat (match goal with
  | |- keeps _ (thep ≫= _) => apply keeps_thep; intros ? ?
  | |- keeps _ (_ ≫= _) => apply keeps_bind; [|intros ?]
  | |- keeps _ (mret _) => apply keeps_ret
  | |- keeps _ (setp _) => by apply keeps_setp
  | |- keeps _ (onParser _) => apply keeps_parser
  | |- keeps _ (zoom l_dom _) => apply keeps_dom
  | |- pkeeps _ (mget ≫= _) => apply pkeeps_mget; intros ? ?
  | |- pkeeps _ (_ ≫= _) => apply pkeeps_bind; [|intros ?]
  | |- pkeeps _ (mret _) => apply pkeeps_ret
  | |- pkeeps _ (mput _) => by apply pkeeps_mput
  | |- pkeeps _ (modify _) => by apply pkeeps_modify
  | |- pkeeps _ (deref _) => apply pkeeps_deref
  | |- pkeeps _ (mabort _) => apply pkeeps_abort
  | |- pkeeps _ (CHK _ _) => unfold CHK
  | |- keeps _ (CHK _ _) => unfold CHK
  | |- context [match ?x with _ => _ end] => destruct x
  end).

Lemma next_class_keeps sv c : keeps sv (onParser (next_class c)).
Proof. unfold next_class. keep. Qed.
Lemma buffer_push_pkeeps sv c : pkeeps sv (buffer_push c).
Proof. unfold buffer_push, buffer_grow, massert_index. keep. Qed.
Lemma do_buffer_keeps sv : keeps sv do_buffer.
Proof. unfold do_buffer, do_callback_withbuf, reset_buffer, massert_index. keep. Qed.
Lemma withbuf_keeps sv t : keeps sv (do_callback_withbuf t).
Proof. unfold do_callback_withbuf, massert_index. keep. Qed.
Lemma state_push_pkeeps sv m : pkeeps sv (state_push m).
Proof. unfold state_push, state_grow, massert_index. keep. Qed.
Lemma state_pop_pkeeps sv m : pkeeps sv (state_pop m).
Proof. unfold state_pop. keep. Qed.
Lemma decode_pkeeps sv : pkeeps sv decode_unicode_char.
Proof. unfold decode_unicode_char, store, hex. keep. Qed.

(** What holds after [m], and that the saved state is the same. *)
Lemma ok_keeps {Q : Json → Prop} (m : M Json json_error) s sv :
  keeps sv m → save_state (js_parser s) = sv → ok m Q s → ok m (λ s', Q s' ∧ save_state (js_parser s') = sv) s.
Proof.
  intros Hk Hs Hok. unfold ok, returns, wp in *. destruct (m s) as [r s'| |] eqn:E; try done. destruct Hok. split; [done|].
  split; [done|]. by eapply Hk.
Qed.

(** ** A character before the tables *)

Definition opens (c : ascii) : nat := if bool_decide (code c ∈ [91; 123]%N) then 1 else 0.

Lemma classified_hex left c cl left' : classified left c cl left' → hex_class cl = true → (code c < 128)%N.
Proof. intros [? ? Hc|? ? ? ? ?|? ? ? ?]; [intros _; by eapply ascii_below|done..]. Qed.
Lemma classified_opens left c cl left' : classified left c cl left' → opens_class cl = true → opens c = 1.
Proof.
  intros [? cl' Hc|? ? ? ? ?|? ? ? ?]; [|done..]. intros Ho.
  ascii_fact H c0 (λ c, match class_of c with Some cl => negb (opens_class cl) || bool_decide (opens c = 1) | None => true end).
  rewrite Hc, Ho in H. by apply bool_decide_eq_true in H.
Qed.
Lemma header_zero c : lookup_byte utf8_header_table c = 0%N → (code c < 128)%N.
Proof.
  ascii_fact H c (λ c, negb (bool_decide (lookup_byte utf8_header_table c = 0%N)) || bool_decide (code c < 128)%N).
  intros Hz. rewrite Hz in H. by apply bool_decide_eq_true in H.
Qed.

Section step.
Context (left multi : N) (st : states) (ty : json_type) (ek : bool) (modes : list mode) (buf : list ascii)
  (elems : list stack_elem) (root : option JsonVal) (sv : states).
Notation C left st buf s := (conf left multi st ty ek modes buf elems root s ∧ save_state (js_parser s) = sv).

Lemma next_class_sound c s : C left st buf s →
  returns (onParser (next_class c)) (λ x s', match x with
    | inl e => ¬ goes_on e
    | inr cl => ∃ left', classified left c cl left' ∧ C left' st buf s'
    end) s.
Proof.
  intros [Hs Hsv]. assert (Hgood : ∀ cl left', classified left c cl left' → returns (onParser (next_class c))
    (λ x s', x = inr cl ∧ C left' st buf s') s).
  { intros cl left' Hc. pose proof (next_class_keeps sv c s) as Hk.
    assert (Hw : returns (onParser (next_class c)) (λ x s', x = inr cl ∧ conf left' multi st ty ek modes buf elems root s') s).
    { eapply wp_next_class; [done|done|]. done. }
    unfold returns, wp in *. destruct (onParser (next_class c) s) as [x s'| |] eqn:E; try done. destruct Hw as [-> Hw].
    split; [done|]. split; [done|]. by eapply Hk. }
  assert (Hdone : ∀ cl left', classified left c cl left' → returns (onParser (next_class c)) (λ x s', match x with
    | inl e => ¬ goes_on e | inr cl => ∃ left', classified left c cl left' ∧ C left' st buf s' end) s).
  { intros cl left' Hc. eapply wp_mono; [by apply (Hgood cl left')| |done]. intros x s' [-> Hx]. eauto. }
  assert (Hbad : ∀ e, ¬ goes_on e → (∃ p, next_class c (js_parser s) = Ret (inl e) p) → returns (onParser (next_class c)) (λ x s', match x with
    | inl e => ¬ goes_on e | inr cl => ∃ left', classified left c cl left' ∧ C left' st buf s' end) s).
  { intros e He [p Hp]. apply wp_zoom. unfold wp. cbn [lget l_parser]. by rewrite Hp. }
  unfold goes_on in *. pose proof (cf_left _ _ _ _ _ _ _ _ _ _ Hs) as Hl.
  destruct (decide (left = 0%N)) as [->|Hne].
  - destruct (decide (lookup_byte utf8_header_table c = 255%N)) as [E|E].
    { apply (Hbad JSON_ERROR_UTF8); [intuition congruence|]. unfold next_class, mbind, M_bind, mget. rewrite Hl.
      rewrite (bool_decide_eq_false_2 (0 < 0)%N) by lia. unfold mput. rewrite E, bool_decide_eq_true_2 by done. by eexists. }
    destruct (decide (lookup_byte utf8_header_table c = 0%N)) as [E0|E0].
    2: { eapply Hdone. by apply (classified_lead c); [reflexivity|lia|]. }
    destruct (class_of c) as [cl|] eqn:Hcl; [eapply Hdone; by apply classified_ascii|].
    apply (Hbad JSON_ERROR_BAD_CHAR); [intuition congruence|]. unfold next_class, mbind, M_bind, mget. rewrite Hl.
    rewrite (bool_decide_eq_false_2 (0 < 0)%N) by lia. unfold mput. rewrite E0, !bool_decide_eq_false_2 by (done || lia).
    unfold class_of in Hcl. assert (Hlt : N.to_nat (code c) < length character_class) by (change (length character_class) with 128; pose proof (header_zero c E0); lia).
    apply lookup_lt_is_Some in Hlt as [x Hx]. rewrite Hx in *. cbn [deref]. destruct x; try done. by eexists.
  - destruct (decide (lookup_byte utf8_continuation_table c = 0%N)) as [E|E].
    { eapply Hdone. apply classified_more; [done|lia]. }
    apply (Hbad JSON_ERROR_UTF8); [intuition congruence|]. unfold next_class, mbind, M_bind, mget. rewrite Hl.
    rewrite bool_decide_eq_true_2 by lia. rewrite bool_decide_eq_false_2 by done. by eexists.
Qed.

Lemma push_sound policy c s : C left st buf s → (N.of_nat (length buf) + 1 < text_limit)%N →
  ok (onParser (match policy with 0 => mret SUCCESS | 2 => buffer_push_escape c | _ => buffer_push c end)) (λ s', C left st (pushed buf policy c) s') s.
Proof.
  intros [Hs Hsv] Hlen. destruct policy as [|[|[|policy]]]; cbn [pushed].
  - apply wp_zoom, wp_ret. split; [done|]. by destruct s.
  - apply ok_keeps; [apply keeps_parser, buffer_push_pkeeps|done|by apply buffer_push_ok].
  - apply ok_keeps; [apply keeps_parser, buffer_push_pkeeps|done|by apply buffer_push_ok].
  - apply ok_keeps; [apply keeps_parser, buffer_push_pkeeps|done|by apply buffer_push_ok].
Qed.
End step.

(** ** Moves *)

Lemma shape_buf kd ty ek modes elems buf buf' : (∀ d, kd ≠ Str d) → shape kd ty ek modes elems buf → shape kd ty ek modes elems buf'.
Proof. intros Hd. destruct kd; try done. by destruct (Hd digits). Qed.
Lemma resume_kind saved d : kind_of (resume saved) ≠ Str d.
Proof. by destruct saved. Qed.
Lemma digits_none buf : digits_last 0 buf.
Proof. exists buf, []. by rewrite app_nil_r. Qed.
Lemma digits_more d buf c : digits_last d buf → (code c < 128)%N → digits_last (S d) (buf ++ [c]).
Proof.
  intros (b & ds & -> & <- & Hds) Hc. exists b, (ds ++ [c]). rewrite app_assoc, length_app. simpl. split_and!; [done|lia|].
  apply Forall_app. by split; [|constructor].
Qed.

Lemma framed_array modes elems : framed modes elems → head modes = Some MODE_ARRAY → ready elems.
Proof. intros [Hf _] Hm. destruct Hf as [|m e modes elems He Hf]; [done|]. injection Hm as ->. simpl. by rewrite (He eq_refl). Qed.

Lemma move_shape left left' c cl st st' sv ty ek modes elems buf :
  classified left c cl left' → state_transition_table st cl = To st' → framed modes elems → shaped st sv ty ek modes elems buf →
  shaped st' sv ty ek modes elems (pushed buf (buffer_policy_table st cl) c).
Proof.
  intros Hc Ht Hf Hs. pose proof (tables_ok st cl) as Hok. unfold table_ok in Hok. rewrite Ht in Hok.
  set (policy := buffer_policy_table st cl) in *. clearbody policy. clear Ht. unfold shaped in *.
  case_bool_decide as Hcm.
  { rewrite Hcm in Hok. assert (kind_of st' = Comment) as -> by (destruct (kind_of st'); done).
    destruct Hs as [Hs Hty]. split; [|done]. eapply shape_buf; [apply resume_kind|done]. }
  assert (kind_of st' ≠ Comment) as Hcm' by (intros E; rewrite E in Hok; destruct (kind_of st); done).
  rewrite bool_decide_eq_false_2 by done. pose proof (framed_array _ _ Hf) as Harr.
  destruct (kind_of st) as [| | | |d| | | |], (kind_of st') as [| | | |d'| | | |]; try done; simpl in *;
    try (destruct d'; [|done]); try (destruct Hs as (? & -> & ?); split_and!; eauto using digits_none).
  - apply orb_prop in Hok as [->%bool_decide_eq_true|Hok]; [apply digits_none|].
    apply andb_prop in Hok as [[->%bool_decide_eq_true Hh]%andb_prop ->%bool_decide_eq_true]. apply digits_more; [done|by eapply classified_hex].
  - right. split; [|done]. by destruct select (_ ∨ _) as [-> | ->].
Qed.

(** ** Actions *)

Lemma do_action_keeps sv a : a ∉ [STATE_CB; STATE_YB] → keeps sv (do_action a).
Proof.
  intros Ha. unfold do_action. destruct a; try set_solver; cbn [actions_map call descr_state descr_type dobuffer];
    unfold act_sp, act_ab, act_ae, act_ob, act_oe, act_ce, act_se, act_uc, do_callback, reset_buffer; keep;
    auto using do_buffer_keeps, withbuf_keeps, state_push_pkeeps, state_pop_pkeeps, decode_pkeeps.
  all: try (apply do_buffer_keeps); try (apply withbuf_keeps).
Qed.

Lemma framed_cons m modes elems : framed (m :: modes) elems → ∃ e l, elems = e :: l ∧ (m = MODE_ARRAY → key e = KNull) ∧
  framed modes l ∧ Forall (λ e, key e ≠ KFreed) l.
Proof.
  intros [Hf Hk]. inversion Hf as [|? e ? l He Hl]; subst. exists e, l. split_and!; [done|done| |done].
  split; [done|]. simpl in Hk. destruct l as [|e' l']; [constructor|by inversion Hk].
Qed.
Lemma framed_length modes elems : framed modes elems → length elems = length modes.
Proof. intros [Hf _]. symmetry. by eapply Forall2_length. Qed.
Lemma add_array e v : key e = KNull → key (add e v) = KNull.
Proof. unfold add. by intros ->. Qed.

(** The frames after a value, a structure or nothing was handed to the top. *)
Lemma framed_top modes e e' l : framed modes (e :: l) → (key e = KNull → key e' = KNull) → framed modes (e' :: l).
Proof.
  intros [Hf Hk] He. inversion Hf as [|m ? modes' ? Hm Hl]; subst. split; [|done]. constructor; [|done]. intros Hm'. auto.
Qed.
Lemma filled_key ty buf e : key e = KNull → key (filled ty buf e) = KNull.
Proof. intros He. unfold filled. destruct (is_datum ty); [by apply add_array|done]. Qed.
Lemma framed_flushed ty buf modes elems : framed modes elems → framed modes (flushed ty buf elems).
Proof.
  intros Hf. destruct elems as [|e l]; [done|]. simpl. destruct (is_datum ty); [|done]. eapply framed_top; [done|apply add_array].
Qed.
Lemma framed_finished modes e l : framed modes l → Forall (λ e, key e ≠ KFreed) l → framed modes (finished e l).
Proof. intros Hf Hk. destruct l as [|p l]; [done|]. simpl. eapply framed_top; [done|apply add_array]. Qed.

(** Before every action that flushes the buffer. *)
Lemma shape_datum kd ty ek modes elems buf : shape kd ty ek modes elems buf → ty ≠ JSON_KEY ∧ (is_datum ty = true → ready elems).
Proof. destruct kd; simpl; naive_solver. Qed.
Lemma ready_cons elems : ready elems → ∃ e l, elems = e :: l ∧ key e ≠ KFreed.
Proof. destruct elems as [|e l]; [done|]. intros He. by exists e, l. Qed.

Lemma safe_intro n k left multi st sv ty ek modes buf elems root s :
  conf left multi st ty ek modes buf elems root s → save_state (js_parser s) = sv → length modes ≤ n → length buf ≤ k → framed modes elems →
  shaped st sv ty ek modes elems buf → safe n k s.
Proof. intros Hc <- Hn Hk Hf Hs. do 9 eexists. split_and!; [exact Hc|done..]. Qed.
Lemma ok_sound {S} (m : M S json_error) (Q : S → Prop) s : ok m Q s → sound m Q s.
Proof. intros Hok. eapply wp_mono; [exact Hok| |done]. by intros r s' [_ Hs'] _. Qed.

Lemma ended_key kd ty ek modes elems buf : shape kd ty ek modes elems buf → kd ∈ [Done; Number] → ek = false.
Proof. intros Hs Hkd. destruct kd; try set_solver; by destruct Hs as [? ?] || by destruct Hs as (? & ? & ?). Qed.

Section actions.
Context (n k : nat) (left multi : N) (st : states) (ty : json_type) (ek : bool) (modes : list mode) (buf : list ascii)
  (elems : list stack_elem) (root : option JsonVal) (sv : states) (s : Json).
Hypothesis Hc : conf left multi st ty ek modes buf elems root s.
Hypothesis Hsv : save_state (js_parser s) = sv.
Hypothesis Hn : length modes ≤ n.
Hypothesis Hk : length buf ≤ k.
Hypothesis Hf : framed modes elems.

(** An action that succeeds and leaves [st'] and so on. *)
Lemma ok_safe a left' multi' st' ty' ek' modes' buf' elems' root' n' :
  a ∉ [STATE_CB; STATE_YB] → ok (do_action a) (conf left' multi' st' ty' ek' modes' buf' elems' root') s →
  length modes' ≤ n' → length buf' ≤ k → framed modes' elems' → shaped st' sv ty' ek' modes' elems' buf' → sound (do_action a) (safe n' k) s.
Proof using Hsv.
  intros Ha Hok Hn' Hk' Hf' Hs'. eapply ok_sound, ok_mono; [exact (ok_keeps _ _ _ (do_action_keeps sv a Ha) Hsv Hok)|].
  intros s' [Hc' Hsv']. by eapply safe_intro.
Qed.

Lemma plain_sound a : call (actions_map a) = None →
  (∀ st', descr_state (actions_map a) = Some st' → shaped st' sv (descr_type (actions_map a)) ek modes elems buf) → sound (do_action a) (safe n k) s.
Proof using Hc Hsv Hn Hk Hf.
  intros Hcall Hst. destruct (descr_state (actions_map a)) as [st'|] eqn:E; [|by destruct a].
  eapply ok_safe; [destruct a; try done; set_solver|by eapply ok_do_plain|done|done|done|by apply Hst].
Qed.

Lemma begin_sound m : length modes < depth_limit → ek = false → ready elems ∨ elems = [] → sound (do_action (begin_action m)) (safe (S n) k) s.
Proof using Hc Hsv Hn Hk Hf.
  intros Hm -> Hr. pose proof (framed_length _ _ Hf) as Hlen.
  eapply ok_safe; [destruct m; set_solver|eapply ok_do_begin; [exact Hc|lia|done]|simpl; lia|done| |].
  - destruct Hf as [Hf2 Hk2]. split; [constructor; [done|done]|]. simpl. destruct elems as [|e l]; [constructor|].
    constructor; [by destruct Hr|done].
  - destruct m; [|by split_and!]. by split_and!.
Qed.

(** A closing bracket that closes nothing. *)
Lemma pop_empty m (rest : M Json json_error) : modes = [] → elems = [] → ty = JSON_NONE → ek = false → kind_of st = Done →
  returns (CHK do_buffer (CHK (onParser (state_pop m)) rest)) (λ r s', r = JSON_ERROR_POP_EMPTY ∧ safe n k s') s.
Proof using Hc Hsv Hn Hk Hf.
  intros Hm He -> -> Hst. subst modes elems. apply wp_bind.
  assert (Hbuf : ok do_buffer (conf left multi st JSON_NONE false [] [] [] root) s).
  { by apply (do_buffer_ok _ _ _ _ _ _ _ _ _ _ Hc). }
  eapply wp_mono; [exact (ok_keeps _ _ _ (do_buffer_keeps sv) Hsv Hbuf)| |done]. intros r s1 [-> [Hc1 Hsv1]].
  apply wp_bind, wp_zoom. unfold wp, state_pop, mbind, M_bind, mget. cbn [lget l_parser].
  rewrite (cf_stack _ _ _ _ _ _ _ _ _ _ Hc1). cbn. split; [done|].
  replace {| js_parser := js_parser s1; js_dom := js_dom s1 |} with s1 by by destruct s1.
  eapply safe_intro; [exact Hc1|exact Hsv1|done|simpl; lia|done|]. unfold shaped. rewrite Hst. split; [done|by left].
Qed.

(** Another mode on top: an error. *)
Lemma pop_other m m' l (rest : M Json json_error) : modes = m' :: l → m' ≠ m → ty ≠ JSON_KEY → (is_datum ty = true → ready elems) →
  returns (CHK do_buffer (CHK (onParser (state_pop m)) rest)) (λ r _, r = JSON_ERROR_POP_UNEXPECTED_MODE) s.
Proof using Hc Hsv Hn Hk Hf.
  intros Hm Hne Hty Hd. subst modes. apply wp_bind.
  assert (Hbuf : ok do_buffer (conf left multi st ty ek (m' :: l) [] (flushed ty buf elems) root) s).
  { apply (do_buffer_ok _ _ _ _ _ _ _ _ _ _ Hc); [done|]. intros H. apply ready_cons; auto. }
  eapply wp_mono; [exact Hbuf| |done]. intros r s1 [-> Hc1].
  apply wp_bind, wp_zoom. unfold wp, state_pop, mbind, M_bind, mget, mput. cbn [lget l_parser].
  rewrite (cf_stack _ _ _ _ _ _ _ _ _ _ Hc1). rewrite bool_decide_eq_false_2 by done. done.
Qed.

Lemma end_sound m kd : shape kd ty ek modes elems buf → kd ∈ [Done; Number] ∨ kd = (match m with MODE_ARRAY => First | MODE_OBJECT => Key end) →
  kd = kind_of st → sound (do_action (end_action m)) (safe n k) s.
Proof using Hc Hsv Hn Hk Hf.
  intros Hs Hkd Hst. destruct (shape_datum _ _ _ _ _ _ Hs) as [Hty Hd].
  assert (Hcases : modes = [] ∨ ∃ m' modes', modes = m' :: modes') by (destruct modes; eauto).
  destruct Hcases as [Hmodes|(m' & modes' & Hmodes)].
  - assert (elems = []) as He by (pose proof (framed_length _ _ Hf) as Hl; rewrite Hmodes in Hl; by destruct elems).
    assert (ty = JSON_NONE ∧ kd = Done ∧ ek = false) as (Hn' & -> & Hek).
    { destruct Hkd as [[->|[->|[]%not_elem_of_nil]%elem_of_cons]%elem_of_cons| ->]; [| |rewrite Hmodes in Hs; by destruct m, Hs].
      - rewrite He in Hs. by destruct Hs as [? [?|[_ []]]].
      - rewrite He in Hs. by destruct Hs. }
    apply sound_CHK.
    destruct m; (eapply wp_mono; [apply (pop_empty _ _ Hmodes He Hn' Hek (eq_sym Hst))|by intros r s' [-> ?]|done]).
  - destruct (decide (m' = m)) as [->|Hne].
    2: { apply sound_CHK.
         destruct m; (eapply wp_mono; [apply (pop_other _ m' modes' _ Hmodes Hne Hty Hd)|intros r s' ->; by intros [?|?]|done]). }
    pose proof Hf as Hf'. rewrite Hmodes in Hf'. destruct (framed_cons _ _ _ Hf') as (e & l & He & Hm & Hfl & Hkl).
    apply (ok_safe (end_action m) left multi STATE_OK JSON_NONE false modes' [] (finished (filled ty buf e) l) (new_root (filled ty buf e) l root) n);
      [destruct m; set_solver| |rewrite Hmodes in Hn; simpl in Hn; lia|simpl; lia| |].
    + eapply (ok_do_end m); [rewrite <- He, <- Hmodes; exact Hc|done| | |].
      * intros H. specialize (Hd H). rewrite He in Hd. exact Hd.
      * intros p l' ->. by inversion Hkl.
      * intros ->. destruct Hkd as [Hkd| ->]; [by eapply ended_key|]. by destruct Hs as (? & ? & ?).
    + by apply framed_finished.
    + split; [done|by left].
Qed.

Lemma comma_sound kd : shape kd ty ek modes elems buf → kd ∈ [Done; Number] → sound (do_action STATE_SP) (safe n k) s.
Proof using Hc Hsv Hn Hk Hf.
  intros Hs Hkd. destruct (shape_datum _ _ _ _ _ _ Hs) as [Hty Hd].
  assert (Hek : ek = false) by by eapply ended_key.
  assert (Hcases : modes = [] ∨ ∃ m modes', modes = m :: modes') by (destruct modes; eauto).
  destruct Hcases as [Hm|(m & modes' & Hm)].
  - apply sound_CHK. eapply (wp_mono _ (λ r _, r = JSON_ERROR_COMMA_OUT_OF_STRUCTURE) _ (λ _ _, False)); [|intros r s' ->; by intros [?|?]|done].
    apply (wp_bind do_buffer). eapply wp_mono; [apply (do_buffer_ok _ _ _ _ _ _ _ _ _ _ Hc Hty); intros H; apply ready_cons; auto| |done].
    intros r s1 [-> Hc1]. apply wp_bind, wp_thep. by rewrite (cf_stack _ _ _ _ _ _ _ _ _ _ Hc1), Hm.
  - pose proof Hf as Hf'. rewrite Hm in Hf'. destruct (framed_cons _ _ _ Hf') as (e & l & He & Hnull & Hfl & Hkl). rewrite He in Hf'.
    apply (ok_safe STATE_SP left multi (next_state m) JSON_NONE (key_mode m ek) (m :: modes') [] (filled ty buf e :: l) root n);
      [set_solver| |by rewrite <- Hm|simpl; lia| |].
    + apply (ok_do_comma m left multi st ty ek modes' buf e l root s); [by rewrite <- Hm, <- He|done|]. intros H. specialize (Hd H). by rewrite He in Hd.
    + eapply framed_top; [done|apply filled_key].
    + destruct m; [|done]. split_and!; [|done|done]. simpl. by rewrite filled_key by auto.
Qed.

Lemma string_sound : shape (Str 0) ty ek modes elems buf → sound (do_action STATE_SE) (safe n k) s.
Proof using Hc Hsv Hn Hk Hf.
  intros (Hek & Hty & _). assert (∃ e l, elems = e :: l ∧ (ek = false → key e ≠ KFreed)) as (e & l & He & Hkey).
  { destruct ek eqn:E.
    - destruct modes as [|m modes']; [done|]. destruct (framed_cons _ _ _ Hf) as (e & l & -> & _). by exists e, l.
    - destruct (ready_cons _ Hek) as (e & l & -> & ?). exists e, l. auto. }
  pose proof Hf as Hf'. rewrite He in Hf'.
  eapply ok_safe; [set_solver|apply (ok_do_string ek left multi st ty modes buf e l root s); [by rewrite <- He|done]|done|simpl; lia| |].
  - destruct ek; [|eapply framed_top; [done|apply add_array]]. destruct Hf' as [Hf2 Hk2].
    inversion Hf2 as [|m ? modes' ? Hm Hl]; subst. simpl in Hek. injection Hek as ->. by split; [constructor|].
  - by destruct ek; [|split; [|left]].
Qed.

(** *** Comments *)

Lemma resume_not_comment saved : kind_of (resume saved) ≠ Comment.
Proof. by destruct saved. Qed.
Lemma resume_shape kd : kd = kind_of st → shape kd ty ek modes elems buf → kd ∈ [Start; Done; Key; First; Value; Number] →
  shape (kind_of (resume st)) JSON_NONE ek modes (flushed ty buf elems) [].
Proof.
  intros Hkd Hs Hin. assert (Hek : kd ≠ Key → ek = false).
  { intros Hne. destruct kd; try done; try (by destruct Hs as (? & ? & ?)); try (by destruct Hs); set_solver. }
  unfold resume. destruct (after_A st) eqn:E.
  - split; [|by left]. apply Hek. intros ->. by destruct st.
  - rewrite <- Hkd. destruct kd; try (by destruct st); try (by exfalso; set_solver); simpl in *.
    + by destruct Hs as (-> & -> & _).
    + by destruct Hs as (-> & -> & _).
    + by destruct Hs as (-> & -> & _).
    + destruct Hs as (Hr & -> & ->). split_and!; [|done|done]. by destruct elems.
    + split; [by apply Hek|by left].
Qed.

Lemma begin_comment_sound kd : kd = kind_of st → shape kd ty ek modes elems buf → kd ∈ [Start; Done; Key; First; Value; Number] →
  sound (do_action STATE_CB) (safe n k) s.
Proof using Hc Hsv Hn Hk Hf.
  intros Hkd Hs Hin. destruct (shape_datum _ _ _ _ _ _ Hs) as [Hty Hd].
  eapply ok_sound, ok_CHK, ok_CHK. eapply ok_mono; [apply (do_buffer_ok _ _ _ _ _ _ _ _ _ _ Hc Hty); intros H; apply ready_cons; auto|].
  intros s1 Hc1. apply wp_bind, wp_thep. rewrite (cf_config _ _ _ _ _ _ _ _ _ _ Hc1), (cf_state _ _ _ _ _ _ _ _ _ _ Hc1). cbn [program_config allow_c_comments negb].
  apply ok_then, wp_zoom, wp_modify. apply wp_bind, wp_zoom, wp_modify. apply ok_then, wp_zoom, wp_modify.
  eapply (safe_intro n k left multi STATE_C1 st JSON_NONE ek modes [] (flushed ty buf elems) root); [conf_split Hc1|done|done|simpl; lia|by apply framed_flushed|].
  split; [|done]. by eapply resume_shape.
Qed.
Lemma yaml_comment_sound kd : shape kd ty ek modes elems buf → sound (do_action STATE_YB) (safe n k) s.
Proof using Hc.
  intros Hs. destruct (shape_datum _ _ _ _ _ _ Hs) as [Hty Hd]. apply sound_CHK.
  eapply (wp_mono _ (λ r _, r = JSON_ERROR_COMMENT_NOT_ALLOWED) _ (λ _ _, False)); [|intros r s' ->; by intros [?|?]|done].
  apply (wp_bind do_buffer). eapply wp_mono; [apply (do_buffer_ok _ _ _ _ _ _ _ _ _ _ Hc Hty); intros H; apply ready_cons; auto| |done].
  intros r s1 [-> Hc1]. apply wp_bind, wp_thep. by rewrite (cf_config _ _ _ _ _ _ _ _ _ _ Hc1).
Qed.
Lemma end_comment_sound : shape (kind_of (resume sv)) ty ek modes elems buf → ty = JSON_NONE → sound (do_action STATE_CE) (safe n k) s.
Proof using Hc Hsv Hn Hk Hf.
  intros Hs Hty. apply ok_sound, ok_CHK, ok_CHK, ok_ret. apply ok_then, wp_zoom, wp_modify. apply wp_bind, wp_ret. apply ok_then, wp_zoom, wp_modify.
  cbn [lget lset l_parser]. eapply (safe_intro n k left multi (resume sv) sv JSON_NONE ek modes buf elems root); [|exact Hsv|done|done|done|].
  - rewrite Hsv. conf_split Hc.
  - unfold shaped. rewrite bool_decide_eq_false_2 by apply resume_not_comment. by rewrite <- Hty.
Qed.
End actions.

(** ** Escapes *)

Lemma hex_defined c : (code c < 128)%N → ∃ h, hextable !! N.to_nat (code c) = Some h.
Proof.
  intros Hc. destruct (hextable !! N.to_nat (code c)) as [h|] eqn:E; [by exists h|].
  apply lookup_ge_None in E. change (length hextable) with 128 in E. lia.
Qed.

Section unicode.
Context (left : N) (st : states) (ty : json_type) (ek : bool) (modes : list mode) (elems : list stack_elem) (root : option JsonVal).

(** At most four bytes are stored over the digits. *)
Lemma store_returns (l : list N) multi b s :
  conf left multi st ty ek modes b elems root s → (N.of_nat (length b) + 4 < buffer_size (js_parser s))%N → length l ≤ 4 →
  returns (store l) (λ _ p, conf left multi st ty ek modes (b ++ map ascii_of_N l) elems root (mkJsonState p (js_dom s))) (js_parser s).
Proof.
  intros Hc Hsz Hl. apply wp_modify. destruct Hc as [? ? ? ? ? ? ? [? ?] Hb [? ?] ? [? ?] ?].
  split; cbn; try done; [by rewrite Hb|]. rewrite length_app, length_map. lia.
Qed.

Lemma decode_sound multi b ds s :
  conf left multi st ty ek modes (b ++ ds) elems root s → length ds = 4 → Forall (λ c, (code c < 128)%N) ds →
  returns (onParser decode_unicode_char) (λ r s', goes_on r → r = SUCCESS ∧
    ∃ multi' buf', conf left multi' st ty ek modes buf' elems root s' ∧ length buf' ≤ length b + 4) s.
Proof.
  intros Hc Hlen Hds. destruct ds as [|c1 [|c2 [|c3 [|c4 []]]]]; try discriminate Hlen.
  rewrite !Forall_cons in Hds. destruct Hds as (H1 & H2 & H3 & H4 & _).
  destruct (hex_defined _ H1) as [h1 T1], (hex_defined _ H2) as [h2 T2], (hex_defined _ H3) as [h3 T3], (hex_defined _ H4) as [h4 T4].
  apply wp_zoom, wp_bind, wp_mget. cbn [lget l_parser]. rewrite (cf_buffer _ _ _ _ _ _ _ _ _ _ Hc), (cf_multi _ _ _ _ _ _ _ _ _ _ Hc).
  rewrite length_app. cbn [length]. rewrite Nat.add_sub, drop_app_length.
  do 4 (apply wp_bind; eapply wp_deref; [eassumption|]). apply wp_bind, wp_modify.
  set (uval := N.lor _ _). clearbody uval.
  set (s' := lset l_parser (Parser.set_buffer (take (length b) (buffer (js_parser s))) (buffer_size (js_parser s)) (js_parser s)) s).
  assert (Hs' : conf left multi st ty ek modes b elems root s' ∧ (N.of_nat (length b) + 4 < buffer_size (js_parser s'))%N).
  { destruct Hc as [? ? ? ? ? ? ? [? ?] Hb [Hsz ?] ? [? ?] ?]. rewrite length_app in Hsz. cbn [length] in Hsz. split; [|cbn; lia].
    split; cbn; try done; [by rewrite Hb, take_app_length|lia]. }
  destruct Hs' as [Hs' Hsz]. change (Parser.set_buffer _ _ _) with (js_parser s').
  assert (Hstore : ∀ l, length l ≤ 4 → returns (store l;; mret SUCCESS) (λ r p, goes_on r → r = SUCCESS ∧
    ∃ multi' buf', conf left multi' st ty ek modes buf' elems root (lset l_parser p s) ∧ length buf' ≤ length b + 4) (js_parser s')).
  { intros l Hl. apply wp_bind. refine (wp_mono _ _ _ _ _ _ (store_returns l multi b s' Hs' Hsz Hl) _ _); [|done]. intros [] p Hc1. apply wp_ret. intros _. split; [done|].
    do 2 eexists. split; [exact Hc1|]. rewrite length_app, length_map. lia. }
  assert (Hlow : ∀ l, length l ≤ 4 → returns (store l;; modify (Parser.set_multi 0);; mret SUCCESS) (λ r p, goes_on r → r = SUCCESS ∧
    ∃ multi' buf', conf left multi' st ty ek modes buf' elems root (lset l_parser p s) ∧ length buf' ≤ length b + 4) (js_parser s')).
  { intros l Hl. apply wp_bind. refine (wp_mono _ _ _ _ _ _ (store_returns l multi b s' Hs' Hsz Hl) _ _); [|done]. intros [] p Hc1.
    apply wp_bind, wp_modify, wp_ret. intros _. split; [done|]. exists 0%N, (b ++ map ascii_of_N l).
    split; [conf_split Hc1|]. rewrite length_app, length_map. lia. }
  repeat case_match; try (apply Hstore; simpl; lia); try (apply wp_ret; by intros [?|?]).
  - apply Hlow. simpl. lia.
  - apply wp_bind, wp_modify, wp_ret. intros _. split; [done|]. exists (uval mod 2 ^ 16)%N, b. split; [conf_split Hs'|]. lia.
Qed.
End unicode.

Section unicode_action.
Context (n k : nat) (left multi : N) (st : states) (ty : json_type) (ek : bool) (modes : list mode) (buf : list ascii)
  (elems : list stack_elem) (root : option JsonVal) (sv : states) (s : Json).

Lemma unicode_sound : conf left multi st ty ek modes buf elems root s → save_state (js_parser s) = sv → length modes ≤ n → length buf ≤ k →
  framed modes elems → (if ek then head modes = Some MODE_OBJECT else ready elems) → ty = JSON_NONE → digits_last 4 buf →
  sound (do_action STATE_UC) (safe n k) s.
Proof.
  intros Hc Hsv Hn Hk Hf Hek Hty (b & ds & -> & Hlen & Hds). rewrite length_app in Hk. apply sound_CHK, (wp_bind (mret SUCCESS)), wp_ret.
  assert (Hdec : returns (onParser decode_unicode_char) (λ r s', (goes_on r → r = SUCCESS ∧
    ∃ multi' buf', conf left multi' st ty ek modes buf' elems root s' ∧ length buf' ≤ length b + 4) ∧ save_state (js_parser s') = sv) s).
  { pose proof (decode_sound left st ty ek modes elems root multi b ds s Hc Hlen Hds) as Hd. unfold returns, wp in *.
    destruct (onParser decode_unicode_char s) as [r s'| |] eqn:E; try done. split; [done|].
    by eapply (keeps_parser sv decode_unicode_char (decode_pkeeps sv) s). }
  apply wp_bind. eapply wp_mono; [exact Hdec| |done]. intros r s1 [Hr Hsv1].
  assert (Hcases : r = SUCCESS ∨ ¬ goes_on r).
  { destruct r; first [by left|right; by intros [?|?]|right; intros Hgo; by destruct (Hr Hgo)]. }
  destruct Hcases as [->|Hno].
  2: { eapply (wp_mono _ (λ r' _, ¬ goes_on r') _ (λ _ _, False)); [|intros r' s' Hr'; by destruct r'; first [destruct Hr'; by left|idtac]|done].
       destruct r; try done. }
  destruct (Hr (or_introl eq_refl)) as (_ & multi' & buf' & Hc1 & Hlen1).
  apply wp_bind, wp_zoom, wp_modify, wp_ret. set (st' := if bool_decide (multi' = 0%N) then STATE__S else STATE_D1).
  cbn [lget lset l_parser]. rewrite (cf_multi _ _ _ _ _ _ _ _ _ _ Hc1).
  apply ok_sound. apply wp_bind, wp_ret. apply ok_then, wp_zoom, wp_modify.
  eapply (safe_intro n k left multi' st' sv JSON_NONE ek modes buf' elems root); [|exact Hsv1|done|lia|done|].
  - conf_split Hc1.
  - unfold st', shaped. destruct (bool_decide (multi' = 0%N)); (split_and!; [done|done|apply digits_none]).
Qed.
End unicode_action.

(** ** One character, and all of them *)

Lemma pushed_length buf policy c : length (pushed buf policy c) ≤ S (length buf).
Proof. destruct policy as [|[|[|p]]]; simpl; rewrite ?length_app; simpl; lia. Qed.
Lemma open_action m n n' k left multi st sv kd ty ek modes buf elems root s :
  conf left multi st ty ek modes buf elems root s → save_state (js_parser s) = sv → length modes ≤ n → S n ≤ n' → n' ≤ depth_limit →
  length buf ≤ k → framed modes elems → shape kd ty ek modes elems buf → kd ∈ [Start; Value; First] → sound (do_action (begin_action m)) (safe n' k) s.
Proof.
  intros Hc Hsv Hn Hn' Hd Hk Hf Hs Hkd. eapply wp_mono; [eapply (begin_sound n k); try done; [lia| |]| |done].
  - destruct kd; try (by exfalso; set_solver); by destruct Hs as (? & ? & ?).
  - destruct kd; try (by exfalso; set_solver); destruct Hs as (H1 & ? & ?); [|left; by eapply framed_array|by left].
    right. pose proof (framed_length _ _ Hf). subst modes. by destruct elems.
  - intros r s' Hgo Hr. specialize (Hgo Hr). destruct Hgo as (? & ? & ? & ? & ? & ? & ? & ? & ? & ? & ? & ? & ? & ?). do 9 eexists. split_and!; try done. lia.
Qed.

(** An action of the table, in the state that reads it. *)
Lemma action_sound a n n' k left left0 multi st sv cl c ty ek modes buf elems root s :
  classified left0 c cl left → state_transition_table st cl = Do a →
  conf left multi st ty ek modes (pushed buf (buffer_policy_table st cl) c) elems root s → save_state (js_parser s) = sv →
  length modes ≤ n → n + opens c ≤ n' → n' ≤ depth_limit → length buf ≤ k →
  framed modes elems → shaped st sv ty ek modes elems buf → sound (do_action a) (safe n' (S k)) s.
Proof.
  intros Hcl Ht Hc Hsv Hn Hn' Hd Hk Hf Hs. pose proof (tables_ok st cl) as Hok. unfold table_ok in Hok. rewrite Ht in Hok. clear Ht.
  set (policy := buffer_policy_table st cl) in *. clearbody policy.
  assert (Hlen : length (pushed buf policy c) ≤ S k) by (pose proof (pushed_length buf policy c); lia).
  assert (Hnn : length modes ≤ n') by lia.
  unfold shaped in Hs. destruct (decide (kind_of st = Comment)) as [Hcm|Hcm].
  { rewrite bool_decide_eq_true_2 in Hs by done. destruct Hs as [Hs Hty].
    destruct a; simpl in Hok; rewrite Hcm in Hok; try done; try (by case_match).
    eapply end_comment_sound; try done. eapply shape_buf; [apply resume_kind|done]. }
  rewrite bool_decide_eq_false_2 in Hs by done.
  assert (Hplain : (∀ d, kind_of st ≠ Str d) → shape (kind_of st) ty ek modes elems (pushed buf policy c)).
  { intros Hd'. by eapply shape_buf. }
  (** What a value, an element and a number have in common. *)
  assert (Hval : kind_of st ∈ [Value; First; Number] → ek = false ∧ ready elems).
  { intros Hin. destruct (kind_of st); try (by exfalso; set_solver); destruct Hs as (H1 & H2 & _); (split; [done|]); [|done|done].
    by eapply framed_array. }
  destruct a; simpl in Hok.
  - apply bool_decide_eq_true in Hok. destruct Hval as [-> Hr]; [rewrite Hok; set_solver|].
    eapply plain_sound; try done. intros st' [= <-]. by split_and!.
  - apply bool_decide_eq_true in Hok. eapply comma_sound; try done. apply Hplain. intros d E. rewrite E in Hok. set_solver.
  - apply andb_prop in Hok as [Hok%bool_decide_eq_true Ho]. pose proof (classified_opens _ _ _ _ Hcl Ho).
    eapply (open_action MODE_ARRAY n); try done; [lia|]. apply Hplain. intros d E. rewrite E in Hok. set_solver.
  - apply bool_decide_eq_true in Hok. eapply (end_sound _ _ _ _ _ _ _ _ _ _ _ _ _ Hc Hsv Hnn Hlen Hf MODE_ARRAY); [apply Hplain| |done].
    + intros d E. rewrite E in Hok. set_solver.
    + set_solver.
  - apply andb_prop in Hok as [Hok%bool_decide_eq_true Ho]. pose proof (classified_opens _ _ _ _ Hcl Ho).
    eapply (open_action MODE_OBJECT n); try done; [lia|]. apply Hplain. intros d E. rewrite E in Hok. set_solver.
  - apply bool_decide_eq_true in Hok. eapply (end_sound _ _ _ _ _ _ _ _ _ _ _ _ _ Hc Hsv Hnn Hlen Hf MODE_OBJECT); [apply Hplain| |done].
    + intros d E. rewrite E in Hok. set_solver.
    + set_solver.
  - apply andb_prop in Hok as [Hok%bool_decide_eq_true _]. eapply (begin_comment_sound _ _ _ _ _ _ _ _ _ _ _ _ _ Hc Hsv Hnn Hlen Hf _ eq_refl); [|done].
    apply Hplain. intros d E. rewrite E in Hok. set_solver.
  - apply bool_decide_eq_true in Hok. eapply yaml_comment_sound; [exact Hc|]. apply Hplain. intros d E. rewrite E in Hok. set_solver.
  - apply bool_decide_eq_true in Hok. destruct (kind_of st); try done; set_solver.
  - apply bool_decide_eq_true in Hok. destruct Hval as [-> Hr]; [rewrite Hok; set_solver|].
    eapply plain_sound; try done. intros st' [= <-]. by split; [|right].
  - apply bool_decide_eq_true in Hok. destruct Hval as [-> Hr]; [rewrite Hok; set_solver|].
    eapply plain_sound; try done. intros st' [= <-]. by split; [|right].
  - apply bool_decide_eq_true in Hok. destruct Hval as [-> Hr]; [rewrite Hok; set_solver|].
    eapply plain_sound; try done. intros st' [= <-]. by split; [|right].
  - apply bool_decide_eq_true in Hok. destruct Hval as [-> Hr]; [rewrite Hok; set_solver|].
    eapply plain_sound; try done. intros st' [= <-]. by split_and!; [| |right].
  - apply bool_decide_eq_true in Hok. destruct Hval as [-> Hr]; [rewrite Hok; set_solver|].
    eapply plain_sound; try done. intros st' [= <-]. by split_and!; [| |right].
  - apply bool_decide_eq_true in Hok. rewrite Hok in Hs. eapply string_sound; try done.
    destruct Hs as (? & ? & _). split_and!; [done|done|apply digits_none].
  - apply bool_decide_eq_true in Hok. destruct Hval as [-> Hr]; [set_solver|].
    eapply plain_sound; try done. intros st' [= <-]. by split_and!; [| |left].
  - apply bool_decide_eq_true in Hok. destruct Hval as [-> Hr]; [set_solver|].
    eapply plain_sound; try done. intros st' [= <-]. by split_and!; [| |left].
  - apply bool_decide_eq_true in Hok. destruct Hval as [-> Hr]; [set_solver|].
    eapply plain_sound; try done. intros st' [= <-]. by split_and!; [| |left].
  - apply andb_prop in Hok as [[Hok%bool_decide_eq_true Hh]%andb_prop ->%bool_decide_eq_true]. rewrite Hok in Hs. destruct Hs as (Hek & Hty & Hds).
    eapply unicode_sound; try done. apply digits_more; [done|by eapply classified_hex].
Qed.


Lemma parse_char_sound n n' k c s :
  safe n k s → n + opens c ≤ n' → n' ≤ depth_limit → (N.of_nat k + 1 < text_limit)%N → sound (parse_char c) (safe n' (S k)) s.
Proof.
  intros (left0 & multi & st & ty & ek & modes & buf & elems & root & Hc & Hm & Hb & Hf & Hs) Hn Hd Hk.
  set (sv := save_state (js_parser s)) in *. apply wp_bind.
  eapply wp_mono; [eapply (next_class_sound _ _ _ _ _ _ _ _ _ sv); split; [exact Hc|done]| |done].
  clearbody sv. clear s Hc. intros [e|cl] s; [by intros He; apply sound_error|]. intros (left & Hcl & Hc & Hsv).
  apply wp_bind, wp_thep. rewrite (cf_state _ _ _ _ _ _ _ _ _ _ Hc).
  assert (Hp : ∀ m, (∀ s', conf left multi st ty ek modes (pushed buf (buffer_policy_table st cl) c) elems root s' ∧ save_state (js_parser s') = sv →
      sound m (safe n' (S k)) s') →
    sound (CHK (onParser match buffer_policy_table st cl with 0 => mret SUCCESS | 2 => buffer_push_escape c | _ => buffer_push c end) m) (safe n' (S k)) s).
  { intros m Hm'. eapply sound_ok; [apply (push_sound left multi st ty ek modes buf elems root sv); [by split|lia]|done]. }
  pose proof (pushed_length buf (buffer_policy_table st cl) c).
  destruct (state_transition_table st cl) as [st'|a|] eqn:Ht; [| |by apply sound_error; intros [?|?]].
  - apply Hp. intros s' [Hc' Hsv']. apply ok_sound. eapply ok_setp; [exact Hc'|].
    eapply (safe_intro n' (S k) left multi st' sv); [conf_split Hc'|exact Hsv'|lia|lia|done|by eapply move_shape].
  - apply Hp. intros s' [Hc' Hsv']. by eapply action_sound.
Qed.

Lemma safe_mono n n' k k' s : safe n k s → n ≤ n' → k ≤ k' → safe n' k' s.
Proof. intros (? & ? & ? & ? & ? & ? & ? & ? & ? & ? & ? & ? & ? & ?) Hn Hk. do 9 eexists. split_and!; try done; lia. Qed.

(** The structures a text opens, at most. *)
Definition openings (t : list ascii) : nat := list_sum (map opens t).
Lemma openings_cons c t : openings (c :: t) = opens c + openings t.
Proof. done. Qed.

(** All the characters of a chunk, or those up to the error. *)
Lemma parse_chars_sound t n k i s :
  safe n k s → n + openings t ≤ depth_limit → (N.of_nat (k + length t) < text_limit)%N →
  returns (parse_chars i t) (λ r s', goes_on r.1 → safe (n + openings t) (k + length t) s') s.
Proof.
  revert n k i s. induction t as [|c t IH]; intros n k i s Hs Hd Hk; cbn [parse_chars length] in *.
  - apply wp_ret. intros _. eapply safe_mono; [done|lia..].
  - rewrite openings_cons in *.
    apply wp_bind. eapply wp_mono; [by apply (parse_char_sound n (n + opens c) k); [|lia..]| |done].
    intros r s' Hr. assert (Hstop : ∀ r', r' = r → returns (mret (r, i)) (λ r s', goes_on r.1 → safe (n + (opens c + openings t)) (k + S (length t)) s') s').
    { intros _ _. apply wp_ret. intros Hgo. eapply safe_mono; [by apply Hr|lia..]. }
    destruct r; try by eapply Hstop. eapply wp_mono; [apply (IH (n + opens c) (S k)); [by apply Hr; left|lia..]| |done].
    intros r s2 H2 Hgo. eapply safe_mono; [by apply H2|lia..].
Qed.

(** What [JsonParser::parse] throws. *)
Definition EINVAL_only (e : exn) : Prop := ∃ msg, e = Exception EINVAL msg.

Lemma openings_app s t : openings (s ++ t) = openings s + openings t.
Proof. unfold openings. by rewrite map_app, list_sum_app. Qed.

Lemma parse_sound line t n k s :
  safe n k s → n + openings t ≤ depth_limit → (N.of_nat (k + length t) < text_limit)%N →
  wp (JsonParser.parse line t) (λ _, safe (n + openings t) (k + length t)) (λ e _, EINVAL_only e) s.
Proof.
  intros Hs Hd Hk. apply wp_bind. eapply wp_mono; [by apply parse_chars_sound| |done].
  intros [r j] s' Hr. destruct r; cbn [fst] in *; first [apply wp_ret, Hr; first [by left|by right]|by eexists].
Qed.

Lemma parse_file_sound fuel line t n k s :
  safe n k s → n + openings t ≤ depth_limit → (N.of_nat (k + length t) < text_limit)%N → length t < fuel →
  wp (parse_file fuel line t) (λ _ _, True) (λ e _, EINVAL_only e) s.
Proof.
  revert line t n k s. induction fuel as [|fuel IH]; intros line t n k s Hs Hd Hk Hfuel; [lia|]. cbn [parse_file].
  rewrite <- (take_drop chunk_size t), openings_app in Hd. rewrite <- (take_drop chunk_size t), length_app in Hk.
  apply wp_bind. eapply wp_mono; [apply (parse_sound _ _ n k); [done|lia|lia]| |done]. intros [] s' Hs'.
  case_bool_decide as Hlen; [by apply wp_ret|]. eapply IH; [exact Hs'|lia|lia|].
  rewrite length_drop. assert (0 < chunk_size) by (unfold chunk_size; lia). lia.
Qed.

Lemma read_safely t : openings t ≤ depth_limit → short t →
  match read_graph_file (text t) with
  | Ret _ _ => True
  | Throw e _ => ∃ msg, e = Exception EINVAL msg
  | Abort _ => False
  end.
Proof.
  intros Hd Hs. unfold read_graph_file. rewrite String.list_ascii_of_string_of_list_ascii.
  assert (H : wp (parse_file (S (length t)) 0 t) (λ _ _, True) (λ e _, EINVAL_only e) JsonParser.new).
  { eapply (parse_file_sound _ _ _ 0 0); [exact safe_new|done| |lia]. unfold short in Hs. simpl. lia. }
  unfold wp in H. by destruct (parse_file _ _ _ _).
Qed.

(** C6: whatever the bytes of a graph file are, if it contains at most 1024 opening
    brackets and is shorter than 2^30 characters, reading it ends, with a tree, with none or with
    [EINVAL]: no access of json.c or of the tree builder is out of bounds. *)
Theorem read_safe t : openings t ≤ depth_limit → short t →
  match read_graph_file (text t) with
  | Ret _ _ => True
  | Throw e _ => ∃ msg, e = Exception EINVAL msg
  | Abort _ => False
  end.
Proof. apply read_safely. Qed.

(** A closing bracket of the other kind, an escape cut short and a byte of no sequence. *)
Definition spoilt : list (list ascii) :=
  [["["; "1"; "}"]; ["["; "034"; "\"; "u"; "0"; "0"; "034"; "]"]; ["["; ascii_of_N 255]]%char.
Lemma read_safe_witness : Forall (λ t, openings t ≤ depth_limit ∧ short t ∧
  match read_graph_file (text t) with Ret _ _ => True | Throw e _ => ∃ msg, e = Exception EINVAL msg | Abort _ => False end) spoilt.
Proof.
  apply Forall_forall. intros t Ht. assert (openings t ≤ depth_limit ∧ short t) as [? ?].
  { revert t Ht. apply Forall_forall. repeat constructor; vm_compute; first [done|lia]. }
  split_and!; [done|done|by apply read_safe].
Defined.
