(* ===== verification/JsonPrinter.v ===== *)
(** * The printer of json.c

    [json_print_mode] turns a sequence of events into text, raw or indented.  The
    events of a well-formed tree are printed as a document of the grammar of
    JsonText.v, and reading it gives the tree back. *)

From stdpp Require Import pretty.
From Stdlib Require Import Ascii.
From S2P Require Import Prelude GraphModel GraphChecks GraphParser Json JsonText.

(** ** The printer *)

(** [indentstr] is a tab; the callback appends to [out]. *)
Record json_printer := mkPrinter {
  indentlevel : Z;
  afterkey : bool;
  enter_object : bool;
  first : bool;
  out : list ascii;
}.
Definition json_print_init : json_printer := mkPrinter 0 false true true [].

Definition esc (s : string) : list ascii := backslash :: String.list_ascii_of_string s.
Definition esc_quote : list ascii := [backslash; quote].
Definition esc_backslash : list ascii := [backslash; backslash].
Definition raw (n : N) : list ascii := [ascii_of_N n].
Definition character_escape : list (list ascii) :=
  [esc "u0000"; esc "u0001"; esc "u0002"; esc "u0003"; esc "u0004"; esc "u0005"; esc "u0006"; esc "u0007";
   esc "b"; esc "t"; esc "n"; esc "u000b"; esc "f"; esc "r"; esc "u000e"; esc "u000f";
   esc "u0010"; esc "u0011"; esc "u0012"; esc "u0013"; esc "u0014"; esc "u0015"; esc "u0016"; esc "u0017";
   esc "u0018"; esc "u0019"; esc "u001a"; esc "u001b"; esc "u001c"; esc "u001d"; esc "u001e"; esc "u001f";
   raw 32; raw 33; esc_quote; raw 35; raw 36; raw 37; raw 38; raw 39;
   raw 40; raw 41; raw 42; raw 43; raw 44; raw 45; raw 46; raw 47;
   raw 48; raw 49; raw 50; raw 51; raw 52; raw 53; raw 54; raw 55;
   raw 56; raw 57; raw 58; raw 59; raw 60; raw 61; raw 62; raw 63;
   raw 64; raw 65; raw 66; raw 67; raw 68; raw 69; raw 70; raw 71;
   raw 72; raw 73; raw 74; raw 75; raw 76; raw 77; raw 78; raw 79;
   raw 80; raw 81; raw 82; raw 83; raw 84; raw 85; raw 86; raw 87;
   raw 88; raw 89; raw 90; raw 91; esc_backslash; raw 93; raw 94; raw 95;
   raw 96; raw 97; raw 98; raw 99; raw 100; raw 101; raw 102; raw 103;
   raw 104; raw 105; raw 106; raw 107; raw 108; raw 109; raw 110; raw 111;
   raw 112; raw 113; raw 114; raw 115; raw 116; raw 117; raw 118; raw 119;
   raw 120; raw 121; raw 122; raw 123; raw 124; raw 125; raw 126; esc "u007f";
   esc "u0080"; esc "u0081"; esc "u0082"; esc "u0083"; esc "u0084"; esc "u0085"; esc "u0086"; esc "u0087";
   esc "u0088"; esc "u0089"; esc "u008a"; esc "u008b"; esc "u008c"; esc "u008d"; esc "u008e"; esc "u008f";
   esc "u0090"; esc "u0091"; esc "u0092"; esc "u0093"; esc "u0094"; esc "u0095"; esc "u0096"; esc "u0097";
   esc "u0098"; esc "u0099"; esc "u009a"; esc "u009b"; esc "u009c"; esc "u009d"; esc "u009e"; esc "u009f";
   esc "u00a0"; esc "u00a1"; esc "u00a2"; esc "u00a3"; esc "u00a4"; esc "u00a5"; esc "u00a6"; esc "u00a7";
   esc "u00a8"; esc "u00a9"; esc "u00aa"; esc "u00ab"; esc "u00ac"; esc "u00ad"; esc "u00ae"; esc "u00af";
   esc "u00b0"; esc "u00b1"; esc "u00b2"; esc "u00b3"; esc "u00b4"; esc "u00b5"; esc "u00b6"; esc "u00b7";
   esc "u00b8"; esc "u00b9"; esc "u00ba"; esc "u00bb"; esc "u00bc"; esc "u00bd"; esc "u00be"; esc "u00bf";
   esc "u00c0"; esc "u00c1"; esc "u00c2"; esc "u00c3"; esc "u00c4"; esc "u00c5"; esc "u00c6"; esc "u00c7";
   esc "u00c8"; esc "u00c9"; esc "u00ca"; esc "u00cb"; esc "u00cc"; esc "u00cd"; esc "u00ce"; esc "u00cf";
   esc "u00d0"; esc "u00d1"; esc "u00d2"; esc "u00d3"; esc "u00d4"; esc "u00d5"; esc "u00d6"; esc "u00d7";
   esc "u00d8"; esc "u00d9"; esc "u00da"; esc "u00db"; esc "u00dc"; esc "u00dd"; esc "u00de"; esc "u00df";
   esc "u00e0"; esc "u00e1"; esc "u00e2"; esc "u00e3"; esc "u00e4"; esc "u00e5"; esc "u00e6"; esc "u00e7";
   esc "u00e8"; esc "u00e9"; esc "u00ea"; esc "u00eb"; esc "u00ec"; esc "u00ed"; esc "u00ee"; esc "u00ef";
   esc "u00f0"; esc "u00f1"; esc "u00f2"; esc "u00f3"; esc "u00f4"; esc "u00f5"; esc "u00f6"; esc "u00f7";
   esc "u00f8"; esc "u00f9"; esc "u00fa"; esc "u00fb"; esc "u00fc"; esc "u00fd"; esc "u00fe"; esc "u00ff"].

Definition callback (s : list ascii) : M json_printer unit :=
  modify (λ p, mkPrinter (indentlevel p) (afterkey p) (enter_object p) (first p) (out p ++ s)).
Definition escape_of (c : ascii) : list ascii := nth (N.to_nat (N_of_ascii c)) character_escape [].

Definition print_string (data : list ascii) : M json_printer unit :=
  callback [quote];;
  foreach data (λ c,
    if bool_decide (N_of_ascii c < 36)%N then callback (escape_of c)
    else if bool_decide (c = backslash) then callback [backslash; backslash]
    else callback [c]);;
  callback [quote].
Definition print_binary_string (data : list ascii) : M json_printer unit :=
  callback [quote];; foreach data (λ c, callback (escape_of c));; callback [quote].
Definition print_indent : M json_printer unit :=
  callback [ascii_of_N 10];;
  p ← mget;
  foreach (seq 0 (Z.to_nat (indentlevel p))) (λ _, callback [ascii_of_N 9]).

Definition is_end (t : json_type) : bool := match t with JSON_ARRAY_END | JSON_OBJECT_END => true | _ => false end.
Definition set_flags (level : Z) (after enter : bool) (p : json_printer) : json_printer :=
  mkPrinter level after enter (first p) (out p).

(** The [switch] of [json_print_mode]. *)
Definition print_case (type : json_type) (data : list ascii) (pretty enterobj : bool) : M json_printer unit :=
  match type with
  | JSON_ARRAY_BEGIN =>
    callback ["["%char];; modify (λ p, set_flags (indentlevel p + 1) (afterkey p) (enter_object p) p);;
    modify (λ p, set_flags (indentlevel p) (afterkey p) true p)
  | JSON_OBJECT_BEGIN =>
    callback ["{"%char];; modify (λ p, set_flags (indentlevel p + 1) (afterkey p) (enter_object p) p);;
    modify (λ p, set_flags (indentlevel p) (afterkey p) true p)
  | JSON_ARRAY_END | JSON_OBJECT_END =>
    modify (λ p, set_flags (indentlevel p - 1) (afterkey p) (enter_object p) p);;
    mwhen (pretty && negb enterobj) print_indent;;
    callback [if bool_decide (type = JSON_OBJECT_END) then "}"%char else "]"%char]
  | JSON_INT | JSON_FLOAT => callback data
  | JSON_NULL => callback ["n"; "u"; "l"; "l"]%char
  | JSON_TRUE => callback ["t"; "r"; "u"; "e"]%char
  | JSON_FALSE => callback ["f"; "a"; "l"; "s"; "e"]%char
  | JSON_KEY =>
    print_string data;;
    callback (take (if pretty then 2 else 1) [":"; " "]%char);;
    modify (λ p, set_flags (indentlevel p) true (enter_object p) p)
  | JSON_STRING => print_string data
  | JSON_BSTRING => print_binary_string data
  | JSON_NONE => mret tt
  end.
Definition json_print_mode (type : json_type) (data : list ascii) (pretty : bool) : M json_printer json_error :=
  p ← mget;
  let enterobj := enter_object p in
  mwhen (negb enterobj && negb (afterkey p) && negb (is_end type)) (
    callback [","%char];;
    mwhen pretty print_indent);;
  mwhen (pretty && (enterobj && negb (first p) && negb (is_end type))) print_indent;;
  modify (λ p, mkPrinter (indentlevel p) false false false (out p));;
  print_case type data pretty enterobj;;
  mret SUCCESS.
Definition json_print_pretty (type : json_type) (data : list ascii) : M json_printer json_error := json_print_mode type data true.
Definition json_print_raw (type : json_type) (data : list ascii) : M json_printer json_error := json_print_mode type data false.

(** [json_print_args] over the list of its arguments: the first error ends it. *)
Fixpoint json_print_args (f : json_type → list ascii → M json_printer json_error) (args : list (json_type * list ascii)) : M json_printer json_error :=
  match args with
  | [] => mret SUCCESS
  | (type, data) :: args' =>
    match type with
    | JSON_NONE | JSON_BSTRING => json_print_args f args'
    | _ => CHK (f type data) (json_print_args f args')
    end
  end.

(** ** JsonVal::print (json/parser.cpp) *)

Definition newline : string := String.string_of_list_ascii [ascii_of_N 10].
Fixpoint indent_of (n : nat) : string := match n with O => "" | S n => "  " +:+ indent_of n end.
Fixpoint JsonVal_print (indent : nat) (v : JsonVal) : string :=
  let prefix := indent_of indent in
  match v with
  | mkJson JSON_OBJECT_BEGIN _ ms _ =>
    prefix +:+ "Object Begin (" +:+ pretty (length ms) +:+ ")" +:+ newline +:+
    foldr (λ kv os, prefix +:+ "  Key (" +:+ kv.1 +:+ ")" +:+ newline +:+ JsonVal_print (S indent) kv.2 +:+ os)
      (prefix +:+ "Object End" +:+ newline) ms
  | mkJson JSON_ARRAY_BEGIN vs _ _ =>
    prefix +:+ "Array Begin (" +:+ pretty (length vs) +:+ ")" +:+ newline +:+
    foldr (λ x os, JsonVal_print (S indent) x +:+ os) (prefix +:+ "Array End" +:+ newline) vs
  | mkJson JSON_FALSE _ _ _ => prefix +:+ "constant: false" +:+ newline
  | mkJson JSON_TRUE _ _ _ => prefix +:+ "constant: true" +:+ newline
  | mkJson JSON_NULL _ _ _ => prefix +:+ "constant: null" +:+ newline
  | mkJson JSON_INT _ _ data => prefix +:+ "integer: " +:+ data +:+ newline
  | mkJson JSON_STRING _ _ data => prefix +:+ "string: " +:+ data +:+ newline
  | mkJson JSON_FLOAT _ _ data => prefix +:+ "float: " +:+ data +:+ newline
  | _ => ""
  end.

(** ** The events of a tree

    What the callbacks of the tokenizer were given for it. *)

Fixpoint events (v : JsonVal) : list (json_type * list ascii) :=
  match v with
  | mkJson JSON_ARRAY_BEGIN vs _ _ => (JSON_ARRAY_BEGIN, []) :: concat (map events vs) ++ [(JSON_ARRAY_END, [])]
  | mkJson JSON_OBJECT_BEGIN _ ms _ =>
    (JSON_OBJECT_BEGIN, []) ::
      concat (map (λ kv, (JSON_KEY, String.list_ascii_of_string kv.1) :: events kv.2) ms) ++ [(JSON_OBJECT_END, [])]
  | mkJson type _ _ data => [(type, String.list_ascii_of_string data)]
  end.

(** A string the tokenizer can be given: ASCII characters and UTF-8 sequences. *)
Inductive utf8_string : list ascii → Prop :=
  | utf8_nil : utf8_string []
  | utf8_ascii c l : (code c < 128)%N → utf8_string l → utf8_string (c :: l)
  | utf8_sequence c k f l : utf8_follow (code c) = Some k → length f = k → Forall (λ x, utf8_further x = true) f →
      utf8_string l → utf8_string (c :: f ++ l).

(** The keys of a [std::map]: in order, each once. *)
Definition before (x y : string * JsonVal) : Prop := String.ltb x.1 y.1 = true.
#[export] Instance before_dec x y : Decision (before x y) := decide (String.ltb x.1 y.1 = true).
Inductive printable : nat → JsonVal → Prop :=
  | printable_constant d t s : (t, s) ∈ constants → printable d (tree_create_data t "")
  | printable_int d s : int_text s → printable d (tree_create_data JSON_INT (text s))
  | printable_float d s : float_text s → printable d (tree_create_data JSON_FLOAT (text s))
  | printable_string d s : utf8_string s → printable d (tree_create_data JSON_STRING (text s))
  | printable_structure d v : printable_tree d v → printable (S d) v
with printable_tree : nat → JsonVal → Prop :=
  | printable_array d vs : (∀ v, v ∈ vs → printable d v) → printable_tree d (array_of vs)
  | printable_object d ms : StronglySorted before ms →
      (∀ kv, kv ∈ ms → utf8_string (String.list_ascii_of_string kv.1) ∧ printable d kv.2) →
      printable_tree d (mkJson JSON_OBJECT_BEGIN [] ms "").

(** ** Strings *)

Definition printed (c : ascii) : list ascii :=
  if bool_decide (N_of_ascii c < 36)%N then escape_of c
  else if bool_decide (c = backslash) then [backslash; backslash] else [c].

Definition emit (s : list ascii) (p : json_printer) : json_printer :=
  mkPrinter (indentlevel p) (afterkey p) (enter_object p) (first p) (out p ++ s).
Lemma emit_emit s t p : emit t (emit s p) = emit (s ++ t) p.
Proof. unfold emit. simpl. by rewrite <- app_assoc. Qed.
Lemma emit_nil p : emit [] p = p.
Proof. unfold emit. rewrite app_nil_r. by destruct p. Qed.

Lemma callback_emit s p : callback s p = Ret tt (emit s p).
Proof. done. Qed.
Lemma bind_run {S A B} (m : M S A) (f : A → M S B) s a s' : m s = Ret a s' → (m ≫= f) s = f a s'.
Proof. unfold mbind, M_bind. by intros ->. Qed.
Lemma callback_bind {A} s (f : unit → M json_printer A) p : (callback s ≫= f) p = f tt (emit s p).
Proof. done. Qed.

(** A loop of callbacks. *)
Lemma foreach_emit {A} (f : A → M json_printer unit) (g : A → list ascii) l p :
  (∀ x p, f x p = Ret tt (emit (g x) p)) → foreach l f p = Ret tt (emit (concat (map g l)) p).
Proof.
  intros Hf. revert p. induction l as [|x l IH]; intros p; simpl; [by rewrite emit_nil|].
  unfold mbind, M_bind. rewrite Hf, IH. by rewrite emit_emit.
Qed.

Lemma print_string_emit s p : print_string s p = Ret tt (emit (quote :: concat (map printed s) ++ [quote]) p).
Proof.
  unfold print_string. rewrite callback_bind. rewrite (bind_run _ _ _ tt (emit (concat (map printed s)) (emit [quote] p))).
  - by rewrite callback_emit, !emit_emit.
  - apply foreach_emit. intros c p'. unfold printed. repeat case_bool_decide; done.
Qed.

(** The three ways to print an ASCII character. *)
Definition printed_ok (c : ascii) : bool :=
  bool_decide (128 ≤ code c)%N || bool_decide (printed c = [c]) && plain c ||
  match printed c with
  | [b; e] => bool_decide (b = backslash) && bool_decide ((e, code c) ∈ escapes)
  | b :: u :: ds => bool_decide (b = backslash) && bool_decide (u = "u"%char) && bool_decide (hex4 ds = Some (code c))
  | _ => false
  end.
Lemma printed_piece c : (code c < 128)%N → string_piece [c] (printed c).
Proof.
  intros Hc. pose proof (all_ascii printed_ok ltac:(vm_compute; reflexivity) c) as H. unfold printed_ok in H.
  rewrite bool_decide_eq_false_2 in H by lia. destruct (bool_decide (printed c = [c]) && plain c) eqn:E; simpl in H.
  { apply andb_prop in E as [E%bool_decide_eq_true Hp]. rewrite E. by constructor. }
  assert (Hu : hex4 (drop 2 (printed c)) = Some (code c) → string_piece [c] (backslash :: "u"%char :: drop 2 (printed c))).
  { intros Hds. assert ([c] = utf8 (code c)) as ->.
    { unfold utf8. rewrite bool_decide_eq_true_2 by lia. simpl. by rewrite ascii_N_embedding. }
    apply piece_unicode; [done|..]; unfold high_surrogate, low_surrogate; lia. }
  destruct (printed c) as [|b [|e [|x ds]]]; try done.
  - apply andb_prop in H as [->%bool_decide_eq_true He%bool_decide_eq_true].
    pose proof (piece_escape _ _ He) as Hp. by rewrite ascii_N_embedding in Hp.
  - apply andb_prop in H as [[->%bool_decide_eq_true ->%bool_decide_eq_true]%andb_prop He%bool_decide_eq_true]. by apply Hu.
Qed.
Lemma printed_high c : (128 ≤ code c)%N → printed c = [c].
Proof.
  intros Hc. unfold printed. rewrite bool_decide_eq_false_2 by lia. case_bool_decide as E; [|done].
  subst c. vm_compute in Hc. by destruct Hc.
Qed.

Lemma printed_string s : utf8_string s → string_text s (concat (map printed s)).
Proof.
  induction 1 as [|c l Hc _ IH|c k f l Hk Hf Hall _ IH]; [constructor| |].
  - apply (string_cons [c]); [by apply printed_piece|done].
  - simpl. rewrite map_app, concat_app.
    assert (Hc : (128 ≤ code c)%N) by (unfold utf8_follow in Hk; case_bool_decide; [done|lia]).
    rewrite (printed_high c Hc).
    assert (concat (map printed f) = f) as ->.
    { clear Hf. induction Hall as [|x f Hx _ IHf]; [done|]. simpl. rewrite IHf. unfold utf8_further in Hx. apply bool_decide_eq_true in Hx.
      rewrite printed_high by lia. done. }
    apply (string_cons (c :: f) (c :: f) l); [by apply (piece_utf8 c k)|done].
Qed.

(** ** One event *)

(** What comes before a datum, a key or a structure: a comma, then blanks. *)
Definition comma (p : json_printer) : list ascii := if negb (enter_object p) && negb (afterkey p) then [","%char] else [].
Definition indentation (level : Z) : list ascii := ascii_of_N 10 :: repeat (ascii_of_N 9) (Z.to_nat level).
Definition blanks (pretty : bool) (p : json_printer) : list ascii :=
  if pretty && (if enter_object p then negb (first p) else negb (afterkey p)) then indentation (indentlevel p) else [].
(** The printer behind a datum that was printed as [t]. *)
Definition put (t : list ascii) (p : json_printer) : json_printer := mkPrinter (indentlevel p) false false false (out p ++ t).

Lemma indentation_blank level : all blank (indentation level).
Proof. constructor; [done|]. by apply Forall_forall; intros x ->%list_elem_of_In%repeat_spec. Qed.
Lemma blanks_blank pretty p : all blank (blanks pretty p).
Proof. unfold blanks. destruct (pretty && _); [apply indentation_blank|constructor]. Qed.

Lemma print_indent_emit p : print_indent p = Ret tt (emit (indentation (indentlevel p)) p).
Proof.
  assert (Hrep : ∀ n i, concat (map (λ _, [ascii_of_N 9]) (seq i n)) = repeat (ascii_of_N 9) n).
  { induction n as [|n IH]; intros i; simpl; [done|]. by rewrite IH. }
  unfold print_indent. rewrite callback_bind. unfold mbind, M_bind, mget.
  rewrite (foreach_emit _ (λ _, [ascii_of_N 9])) by done. by rewrite Hrep, emit_emit.
Qed.

Lemma indent_run b p : mwhen b print_indent p = Ret tt (emit (if b then indentation (indentlevel p) else []) p).
Proof. destruct b; [apply print_indent_emit|]. by rewrite emit_nil. Qed.
Lemma mode_case type data pretty p : is_end type = false →
  json_print_mode type data pretty p = (print_case type data pretty (enter_object p);; mret SUCCESS) (put (comma p ++ blanks pretty p) p).
Proof.
  intros He. unfold json_print_mode. rewrite He. rewrite (bind_run mget _ p p p) by done.
  set (c := if negb (enter_object p) && negb (afterkey p) then ","%char :: (if pretty then indentation (indentlevel p) else []) else []).
  rewrite (bind_run _ _ _ tt (emit c p)).
  2: { unfold c. destruct (_ && _); [|by rewrite emit_nil].
       transitivity ((callback [","%char];; mwhen pretty print_indent) p); [done|]. rewrite callback_bind, indent_run, emit_emit. by destruct pretty. }
  rewrite (bind_run _ _ _ tt _ (indent_run _ _)). rewrite (bind_run _ _ _ tt (put (comma p ++ blanks pretty p) p)); [done|].
  unfold modify, put, emit, c, comma, blanks. cbn. do 2 f_equal. rewrite <- !app_assoc. f_equal. destruct pretty, (enter_object p), (first p), (afterkey p); simpl; by rewrite ?app_nil_r.
Qed.

(** ** Structures, keys and data *)

Definition punct_after_key (pretty : bool) : list ascii := if pretty then [" "%char] else [].
Lemma print_begin m pretty p :
  json_print_mode (begin_type m) [] pretty p =
  Ret SUCCESS (mkPrinter (indentlevel p + 1) false true false (out p ++ comma p ++ blanks pretty p ++ [begin_char m])).
Proof.
  rewrite mode_case by by destruct m. unfold put.
  by destruct m; cbv [print_case begin_type callback modify mbind M_bind mret M_ret set_flags]; simpl; rewrite <- !app_assoc.
Qed.
Lemma print_end m pretty p :
  json_print_mode (end_type m) [] pretty p =
  Ret SUCCESS (put ((if pretty && negb (enter_object p) then indentation (indentlevel p - 1) else []) ++ [end_char m])
    (mkPrinter (indentlevel p - 1) false false false (out p))).
Proof.
  unfold json_print_mode. rewrite (bind_run mget _ p p p) by done.
  assert (is_end (end_type m) = true) as -> by by destruct m. rewrite !andb_false_r.
  set (q := mkPrinter (indentlevel p - 1) false false false (out p)).
  assert (Hc : print_case (end_type m) [] pretty (enter_object p) (mkPrinter (indentlevel p) false false false (out p)) =
    (mwhen (pretty && negb (enter_object p)) print_indent;; callback [end_char m]) q) by by destruct m.
  rewrite (bind_run _ _ _ tt p), (bind_run _ _ _ tt p), (bind_run _ _ _ tt (mkPrinter (indentlevel p) false false false (out p))) by done.
  rewrite (bind_run _ _ _ tt (emit [end_char m] (emit (if pretty && negb (enter_object p) then indentation (indentlevel p - 1) else []) q)));
    [by rewrite emit_emit|]. rewrite Hc. by rewrite (bind_run _ _ _ tt _ (indent_run _ _)), callback_emit.
Qed.
Lemma print_key k pretty p :
  json_print_mode JSON_KEY k pretty p =
  Ret SUCCESS (mkPrinter (indentlevel p) true false false
    (out p ++ comma p ++ blanks pretty p ++ (quote :: concat (map printed k) ++ [quote]) ++ ":"%char :: punct_after_key pretty)).
Proof.
  rewrite mode_case by done. unfold print_case, put. unfold mbind, M_bind at 1 2. rewrite print_string_emit. cbn -[printed quote].
  unfold emit. cbn -[printed quote]. rewrite <- !app_assoc. destruct pretty; unfold set_flags; cbn -[printed quote]; by rewrite <- !app_assoc.
Qed.
Lemma print_datum type data body pretty p : is_end type = false →
  (∀ q, print_case type data pretty (enter_object p) q = Ret tt (emit body q)) →
  json_print_mode type data pretty p = Ret SUCCESS (put (comma p ++ blanks pretty p ++ body) p).
Proof.
  intros He Hb. rewrite mode_case by done. rewrite (bind_run _ _ _ tt _ (Hb _)). unfold emit, put. simpl. by rewrite <- !app_assoc.
Qed.

(** ** Trees *)

Section tree.
Context (pretty : bool).
Notation print := (json_print_args (λ type data, json_print_mode type data pretty)).

Lemma print_one type data (rest : list (json_type * list ascii)) p q :
  type ≠ JSON_NONE → type ≠ JSON_BSTRING → json_print_mode type data pretty p = Ret SUCCESS q →
  print ((type, data) :: rest) p = print rest q.
Proof. intros H1 H2 Hq. destruct type; try done; cbn [json_print_args]; unfold CHK; by rewrite (bind_run _ _ _ _ _ Hq). Qed.
Lemma print_app l1 l2 p q : print l1 p = Ret SUCCESS q → print (l1 ++ l2) p = print l2 q.
Proof.
  revert p. induction l1 as [|[type data] l1 IH]; intros p; simpl; [by intros [= ->]|].
  unfold CHK, mbind, M_bind. destruct type; try apply IH; destruct (json_print_mode _ _ _ p) as [[] r| |]; try done; apply IH.
Qed.

Lemma elements_pad d vs t b : elements_text d vs t → all blank b → elements_text d vs (t ++ b).
Proof.
  intros H Hb. induction H as [d b1 v t b2 ? ? ?|d b1 v t b2 vs ts ? ? ? ? IH].
  - rewrite <- !app_assoc. apply elements_last; [done|done|by apply Forall_app].
  - replace ((b1 ++ t ++ b2 ++ ","%char :: ts) ++ b) with (b1 ++ t ++ b2 ++ ","%char :: (ts ++ b)) by by rewrite <- !app_assoc.
    by apply elements_more; auto.
Qed.
Lemma member_pad d k v t b : member_text d k v t → all blank b → member_text d k v (t ++ b).
Proof.
  intros [d' b1 k' kt b2 b3 v' t' b4] Hb.
  replace ((b1 ++ (quote :: kt ++ [quote]) ++ b2 ++ ":"%char :: b3 ++ t' ++ b4) ++ b)
    with (b1 ++ (quote :: kt ++ [quote]) ++ b2 ++ ":"%char :: b3 ++ t' ++ (b4 ++ b)) by (rewrite <- !app_assoc; simpl; by rewrite <- !app_assoc).
  apply member_intro; auto. by apply Forall_app.
Qed.
Lemma members_pad d ms t b : members_text d ms t → all blank b → members_text d ms (t ++ b).
Proof.
  intros H Hb. induction H as [d k v t Ht|d k v t ms ts Ht ? IH].
  - by apply members_last, member_pad.
  - rewrite <- app_assoc. apply members_more; auto.
Qed.

(** Printing a list of events puts out a comma, if one is due, and a text of [ok]. *)
Definition prints (es : list (json_type * list ascii)) (ok : list ascii → Prop) : Prop :=
  ∀ p, ∃ t, print es p = Ret SUCCESS (put (comma p ++ t) p) ∧ ok t.
Definition prints_value (d : nat) (v : JsonVal) : Prop :=
  ∀ p, ∃ t, print (events v) p = Ret SUCCESS (put (comma p ++ blanks pretty p ++ t) p) ∧ value_text d v t.

Lemma print_elements d vs : vs ≠ [] → (∀ v, v ∈ vs → prints_value d v) → prints (concat (map events vs)) (elements_text d vs).
Proof.
  induction vs as [|v vs IH]; intros Hne Hvs; [done|]. intros p.
  destruct (Hvs v (list_elem_of_here _ _) p) as (t & Ht & Hv). simpl. rewrite (print_app _ _ _ _ Ht).
  destruct vs as [|v' vs].
  - exists (blanks pretty p ++ t). split; [done|]. rewrite <- (app_nil_r t). apply elements_last; [apply blanks_blank|done|constructor].
  - destruct (IH ltac:(done) ltac:(set_solver) (put (comma p ++ blanks pretty p ++ t) p)) as (ts & Hts & Hvs').
    exists (blanks pretty p ++ t ++ [] ++ ","%char :: ts). split; [|apply elements_more; auto using blanks_blank].
    rewrite Hts. unfold put. simpl. by rewrite <- !app_assoc.
Qed.

Lemma print_member d k v : utf8_string (String.list_ascii_of_string k) → prints_value d v →
  prints ((JSON_KEY, String.list_ascii_of_string k) :: events v) (member_text d k v).
Proof.
  intros Hk Hv p. rewrite (print_one JSON_KEY _ _ _ _ ltac:(done) ltac:(done) (print_key _ _ _)).
  set (kt := concat (map printed (String.list_ascii_of_string k))).
  set (q := mkPrinter _ true false false _). destruct (Hv q) as (t & Ht & Hvt).
  assert (comma q = [] ∧ blanks pretty q = []) as [Hc Hb] by (split; [done|unfold blanks; simpl; by rewrite andb_false_r]).
  exists (blanks pretty p ++ (quote :: kt ++ [quote]) ++ [] ++ ":"%char :: punct_after_key pretty ++ t ++ []). split.
  - rewrite Ht, Hc, Hb. unfold put, q. cbn [out indentlevel app]. do 2 f_equal. rewrite <- !app_assoc. do 3 f_equal.
    cbn [app]. f_equal. rewrite <- !app_assoc. cbn [app]. by rewrite app_nil_r.
  - rewrite <- (String.string_of_list_ascii_of_string k) at 1.
    apply member_intro; auto using blanks_blank, printed_string; try constructor.
    unfold punct_after_key. destruct pretty; repeat constructor.
Qed.

Lemma print_members d ms : ms ≠ [] →
  (∀ kv, kv ∈ ms → utf8_string (String.list_ascii_of_string kv.1) ∧ prints_value d kv.2) →
  prints (concat (map (λ kv, (JSON_KEY, String.list_ascii_of_string kv.1) :: events kv.2) ms)) (members_text d ms).
Proof.
  induction ms as [|[k v] ms IH]; intros Hne Hms; [done|]. intros p.
  destruct (Hms (k, v) (list_elem_of_here _ _)) as [Hk Hv].
  destruct (print_member d k v Hk Hv p) as (t & Ht & Hkv). cbn [map concat fst snd]. rewrite (print_app _ _ _ _ Ht).
  destruct ms as [|kv ms]; [exists t; split; [done|by apply members_last]|].
  destruct (IH ltac:(done) ltac:(set_solver) (put (comma p ++ t) p)) as (ts & Hts & Htext).
  exists (t ++ ","%char :: ts). split; [|by apply members_more]. rewrite Hts. unfold put. simpl. by rewrite <- !app_assoc.
Qed.

(** Brackets around what is printed between them. *)
Lemma print_structure m (es : list (json_type * list ascii)) (ok : list ascii → Prop) (P : list ascii → Prop) p :
  (es = [] ∧ P [] ∨ prints es ok ∧ ∀ t b, ok t → all blank b → P (t ++ b)) →
  ∃ t, print ((begin_type m, []) :: es ++ [(end_type m, [])]) p = Ret SUCCESS (put (comma p ++ blanks pretty p ++ begin_char m :: t ++ [end_char m]) p) ∧ P t.
Proof.
  intros Hes. rewrite (print_one (begin_type m) _ _ _ _ ltac:(by destruct m) ltac:(by destruct m) (print_begin _ _ _)).
  assert (Hend : ∀ q, print [(end_type m, [])] q = json_print_mode (end_type m) [] pretty q).
  { intros q. rewrite (print_one (end_type m) _ _ _ _ ltac:(by destruct m) ltac:(by destruct m) (print_end _ _ _)). by rewrite print_end. }
  destruct Hes as [[-> HP]|[Hes HP]].
  - exists []. split; [|done]. rewrite Hend, print_end. cbn [enter_object negb indentlevel]. rewrite andb_false_r. unfold put. cbn [out indentlevel].
    rewrite <- !app_assoc. simpl. by rewrite Z.add_simpl_r.
  - destruct (Hes (mkPrinter (indentlevel p + 1) false true false (out p ++ comma p ++ blanks pretty p ++ [begin_char m]))) as (t & Ht & Hok).
    rewrite (print_app _ _ _ _ Ht), Hend, print_end. unfold put. cbn [enter_object negb indentlevel out comma andb].
    rewrite andb_true_r, Z.add_simpl_r. eexists (t ++ if pretty then indentation (indentlevel p) else []). split.
    + do 2 f_equal. rewrite <- !app_assoc. done.
    + apply HP; [done|]. destruct pretty; [apply indentation_blank|constructor].
Qed.
End tree.

(** ** The members of an object *)

Lemma ltb_ahead k k' : String.ltb k' k = true → k ≠ k' ∧ String.ltb k k' = false.
Proof.
  unfold String.ltb. rewrite (String.compare_antisym k k'). intros H.
  destruct (String.compare k' k) eqn:E; simpl; try discriminate H. split; [|done]. intros ->.
  pose proof (String.compare_antisym k' k') as Ha. by rewrite E in Ha.
Qed.
Lemma map_insert_last k v l : Forall (λ x, String.ltb x.1 k = true) l → map_insert k v l = l ++ [(k, v)].
Proof.
  induction 1 as [|[k' x] l Hx _ IH]; [done|]. simpl in *. destruct (ltb_ahead _ _ Hx) as [Hne Hlt].
  rewrite decide_False by done. by rewrite Hlt, IH.
Qed.
Lemma sorted_members ms : StronglySorted before ms → object_of ms = mkJson JSON_OBJECT_BEGIN [] ms "".
Proof.
  intros Hs. unfold object_of. f_equal.
  cut (∀ o, StronglySorted before (o ++ ms) → fold_left (λ o kv, map_insert kv.1 kv.2 o) ms o = o ++ ms); [intros H; by apply (H [])|].
  clear Hs. induction ms as [|[k v] ms IH]; intros o Ho; simpl; [by rewrite app_nil_r|].
  rewrite map_insert_last.
  - rewrite IH; [by rewrite <- app_assoc|by rewrite <- app_assoc].
  - clear IH. apply Forall_forall. intros x Hx. apply list_elem_of_split in Hx as (l1 & l2 & ->). rewrite <- app_assoc in Ho.
    induction l1 as [|y l1 IH]; [|by inversion Ho; auto]. simpl in Ho. apply StronglySorted_inv in Ho as [_ Hall].
    rewrite Forall_app in Hall. destruct Hall as [_ Hall]. by inversion Hall.
Qed.

(** ** Printing a tree *)

Section printing.
Context (pretty : bool).
Notation print := (json_print_args (λ type data, json_print_mode type data pretty)).

Lemma print_leaf d type data body :
  is_end type = false → type ∉ [JSON_NONE; JSON_BSTRING; JSON_ARRAY_BEGIN; JSON_OBJECT_BEGIN] →
  (∀ enter q, print_case type (String.list_ascii_of_string data) pretty enter q = Ret tt (emit body q)) →
  value_text d (tree_create_data type data) body → prints_value pretty d (tree_create_data type data).
Proof.
  intros He Ht Hb Hv p. exists body. split; [|done].
  assert (events (tree_create_data type data) = [(type, String.list_ascii_of_string data)]) as -> by (destruct type; set_solver).
  rewrite (print_one pretty type _ [] p _ ltac:(set_solver) ltac:(set_solver) (print_datum _ _ _ _ _ He (Hb _))). done.
Qed.

Lemma print_constant d t s : (t, s) ∈ constants → prints_value pretty d (tree_create_data t "").
Proof.
  intros Ht. apply (print_leaf _ _ _ (String.list_ascii_of_string s)); [..|by apply value_constant];
    unfold constants in Ht; repeat (apply elem_of_cons in Ht as [[= -> ->]|Ht]); try done; try set_solver; by inversion Ht.
Qed.

Definition prints_structure (d : nat) (v : JsonVal) : Prop :=
  ∀ p, ∃ t, print (events v) p = Ret SUCCESS (put (comma p ++ blanks pretty p ++ t) p) ∧ structure_text d v t.

Lemma print_tree_step d : (∀ v, printable d v → prints_value pretty d v) → ∀ v, printable_tree d v → prints_structure d v.
Proof.
  intros Hd v Hv p. inversion Hv as [? vs Hvs|? ms Hsorted Hms]; subst; clear Hv.
  - destruct (print_structure pretty MODE_ARRAY (concat (map events vs)) (elements_text d vs)
      (λ t, structure_text d (array_of vs) ("["%char :: t ++ ["]"%char])) p) as (t & Ht & Hok); [|by exists ("["%char :: t ++ ["]"%char])].
    destruct (decide (vs = [])) as [->|Hne]; [left; split; [done|by apply array_empty]|right].
    split; [|intros t b Hok Hb; by apply array_elements, elements_pad]. apply print_elements; [done|]. intros w Hw. by apply Hd, Hvs.
  - rewrite <- (sorted_members ms Hsorted).
    destruct (print_structure pretty MODE_OBJECT
      (concat (map (λ kv, (JSON_KEY, String.list_ascii_of_string kv.1) :: events kv.2) ms)) (members_text d ms)
      (λ t, structure_text d (object_of ms) ("{"%char :: t ++ ["}"%char])) p) as (t & Ht & Hok).
    2: { exists ("{"%char :: t ++ ["}"%char]). split; [|done]. by rewrite (sorted_members ms Hsorted). }
    destruct (decide (ms = [])) as [->|Hne]; [left; split; [done|by apply object_empty]|right].
    split; [|intros t b Hok Hb; by apply object_members, members_pad]. apply print_members; [done|]. intros kv Hkv.
    destruct (Hms kv Hkv). auto.
Qed.

Lemma print_value d v : printable d v → prints_value pretty d v.
Proof.
  revert v. induction d as [|d IH]; intros v Hv;
    inversion Hv as [? t s Hc|? s Hi|? s Hf|? s Hu|? ? Ht]; subst; try by eapply print_constant.
  all: try by (eapply (print_leaf _ _ _ s); [done|set_solver|intros; cbn; by rewrite String.list_ascii_of_string_of_list_ascii|by constructor]).
  all: try by (eapply (print_leaf _ _ _ (quote :: concat (map printed s) ++ [quote])); [done|set_solver| |by apply value_string, printed_string];
    intros; cbn [print_case]; by rewrite String.list_ascii_of_string_of_list_ascii, print_string_emit).
  intros p. destruct (print_tree_step d IH v Ht p) as (t & Hp & Hs). exists t. split; [done|by apply value_structure].
Qed.
End printing.

Lemma print_document pretty d v : printable_tree d v → d < depth_limit →
  ∃ p, json_print_args (λ type data, json_print_mode type data pretty) (events v) json_print_init = Ret SUCCESS p ∧ document_text v (out p).
Proof.
  intros Hv Hd. destruct (print_tree_step pretty d (print_value pretty d) v Hv json_print_init) as (t & Hp & Ht).
  eexists. split; [exact Hp|].
  assert (out (put (comma json_print_init ++ blanks pretty json_print_init ++ t) json_print_init) = t) as -> by by destruct pretty.
  rewrite <- (app_nil_r t). by apply (document_intro d []); auto.
Qed.

(** C21: an array or object with UTF-8 strings, numbers of the grammar and members in
    the order of their map, nested no deeper than 1024, given to the printer, raw or
    indented, as the events the tokenizer makes of it, is printed without an error, and
    what is printed is a document that is read back into the same tree. *)
Theorem print_then_read pretty d v :
  printable_tree d v → d < depth_limit →
  ∃ p, json_print_args (λ type data, json_print_mode type data pretty) (events v) json_print_init = Ret SUCCESS p ∧
    document_text v (out p) ∧ (short (out p) → read_graph_file (text (out p)) = Ret (Some v) tt).
Proof.
  intros Hv Hd. destruct (print_document pretty d v Hv Hd) as (p & Hp & Hdoc). exists p. do 2 (split; [done|]).
  intros Hs. destruct (document_eats v _ Hdoc Hs) as (b & Hb & Hc). apply (eats_read _ _ _ Hb), (cf_root _ _ _ _ _ _ _ _ _ _ Hc).
Qed.

Lemma small_printable : printable_tree 1 small_value.
Proof.
  apply (printable_object 1 [("k", _)]); [by repeat constructor|]. intros kv ->%list_elem_of_singleton. split; [by repeat constructor|].
  apply printable_structure, printable_array. intros v [->| ->%list_elem_of_singleton]%elem_of_cons.
  - apply (printable_int 0 ["-"; "1"]%char). apply (int_intro ["-"] ["1"])%char; constructor; [done|constructor].
  - by eapply printable_constant; left.
Qed.
Lemma print_then_read_witness :
  ∃ p, json_print_args (λ type data, json_print_mode type data true) (events small_value) json_print_init = Ret SUCCESS p ∧
    text (out p) = String.concat (String.string_of_list_ascii [ascii_of_N 10])
      ["{"; text [ascii_of_N 9; quote] ++ "k" ++ text [quote] ++ ": ["; text [ascii_of_N 9; ascii_of_N 9] ++ "-1,";
       text [ascii_of_N 9; ascii_of_N 9] ++ "true"; text [ascii_of_N 9] ++ "]"; "}"]%string ∧
    read_graph_file (text (out p)) = Ret (Some small_value) tt.
Proof.
  destruct (print_then_read true 1 small_value small_printable ltac:(vm_compute; lia)) as (p & Hp & _ & Hr).
  exists p. split; [exact Hp|]. revert Hr. vm_compute in Hp. injection Hp as <-. intros Hr. split; [vm_compute; reflexivity|].
  apply Hr. vm_compute. reflexivity.
Defined.

(** A check for trees of ASCII strings. *)
Definition ascii_string (s : string) : bool := forallb (λ c, bool_decide (code c < 128)%N) (String.list_ascii_of_string s).
Fixpoint ascii_tree (d : nat) (v : JsonVal) : bool :=
  match d, v with
  | S d, mkJson JSON_ARRAY_BEGIN vs [] "" => forallb (ascii_tree d) vs
  | S d, mkJson JSON_OBJECT_BEGIN [] ms "" =>
    bool_decide (StronglySorted before ms) && forallb (λ kv, ascii_string kv.1 && ascii_tree d kv.2) ms
  | _, mkJson JSON_STRING [] [] data => ascii_string data
  | _, _ => false
  end.
Lemma ascii_string_sound s : ascii_string s = true → utf8_string (String.list_ascii_of_string s).
Proof.
  unfold ascii_string. induction (String.list_ascii_of_string s) as [|c l IH]; [constructor|]. simpl.
  intros [Hc%bool_decide_eq_true Hl]%andb_prop. apply utf8_ascii; auto.
Qed.
Lemma ascii_leaf d data : ascii_string data = true → printable d (mkJson JSON_STRING [] [] data).
Proof.
  intros Hs%ascii_string_sound. pose proof (printable_string d _ Hs) as Hp. by rewrite String.string_of_list_ascii_of_string in Hp.
Qed.
Lemma ascii_tree_sound d v : ascii_tree d v = true → printable d v.
Proof.
  revert v. induction d as [|d IH]; intros [ty vs ms data]; simpl;
    destruct ty; try discriminate; try (destruct vs, ms; try discriminate; by apply ascii_leaf).
  - destruct ms, data; try discriminate. intros Hvs. apply printable_structure, printable_array. intros v Hv.
    apply IH. rewrite forallb_forall in Hvs. by apply Hvs, list_elem_of_In.
  - destruct vs, data; try discriminate. intros [Hs%bool_decide_eq_true Hms]%andb_prop. apply printable_structure, printable_object; [done|].
    intros kv Hkv. rewrite forallb_forall in Hms. specialize (Hms kv ltac:(by apply list_elem_of_In)).
    apply andb_prop in Hms as [Hk Hv]. split; [by apply ascii_string_sound|by apply IH].
Qed.
