(* ===== verification/GraphFile.v ===== *)
(** * From the graph file to the graph (graphparser.cpp)

    [processFile] reads the file with the tokenizer of json.c and hands the tree to
    [processJson]: the theorem composes what JsonText.v and GraphParser.v show.  The
    graph it leaves is one the scan can start from. *)

From Stdlib Require Import Ascii.
From S2P Require Import Prelude GraphModel GraphChecks GraphDirty GraphParser Json JsonText JsonPrinter GraphCycle.

(** [GraphParser::processFile]: a file that cannot be opened reads as empty. *)
Definition processFile `{Allocator} (jsonGraphFile content : string) : M GState unit := λ s,
  match read_graph_file content with
  | Ret dom _ => GraphParser.processDom jsonGraphFile dom s
  | Throw e _ => Throw e s
  | Abort r => Abort r
  end.

(** A document as [processFile] wants it: the text of an object with an array of rules
    that have both their fields and do not name the graph file. *)
Record graph_document (path : string) (rules : JsonVal) (v : JsonVal) (t : list ascii) : Prop := {
  gd_text : document_text v t;
  gd_short : short t;
  gd_rules : getObject "rules" v = Some rules;
  gd_array : _type rules = JSON_ARRAY_BEGIN;
  gd_complete u : u ∈ _array rules → complete_rule u;
  gd_unnamed u : u ∈ _array rules → ¬ mentions u path;
}.

(** The graph of the rules: nothing is marked or hashed, the rules are those of the
    document in their order, the nodes are the names that occur and the graph file. *)
Record graph_of (path : string) (rules : JsonVal) (s : GState) : Prop := {
  gf_parsed : parsed s;
  gf_rules : Forall2 (describes s) (Graph.rules_ (g_graph s)) (filter is_rule (_array rules));
  gf_nodes p : known s p ↔ p = path ∨ ∃ u, u ∈ _array rules ∧ mentions u p;
}.

Section file.
Context `{Allocator}.

Lemma processDom_graph path rules v t :
  graph_document path rules v t →
  wp (processFile path (text t)) (λ _ s, graph_of path rules s)
    (λ e _, einval e ∧ (malformed_doc (_array rules) ∨ made_twice (_array rules))) no_graph.
Proof.
  intros [Ht Hs Hr Ha Hc Hu]. destruct (document_eats v t Ht Hs) as (b & Hb & Hconf).
  unfold wp, processFile. rewrite (eats_read t b (Some v) Hb) by apply (cf_root _ _ _ _ _ _ _ _ _ _ Hconf).
  unfold GraphParser.processDom. rewrite Hr, bool_decide_eq_true_2 by done.
  eapply wp_mono; [by apply processJson_exact| |done]. intros [] s (? & ? & ?). by split.
Qed.

(** C7: what [processFile] makes of the text of a document, from the first byte to the
    graph: the tokenizer accepts it whatever its layout, and either a field has the
    wrong type or two rules make the same file, which is reported as [EINVAL], or the
    graph of the document comes out, with all the invariants the builder asks for. *)
Theorem processFile_exact path rules v t :
  graph_document path rules v t →
  wp (processFile path (text t)) (λ _ s, graph_of path rules s ∧ consistent s)
    (λ e _, einval e ∧ (malformed_doc (_array rules) ∨ made_twice (_array rules))) no_graph.
Proof.
  intros Hd. eapply wp_mono; [by eapply processDom_graph| |done]. intros [] s Hs. split; [done|]. apply parsed_consistent, Hs.
Qed.
End file.

(** *** The text of a document *)

Definition printed_text (v : JsonVal) : list ascii :=
  match json_print_args json_print_pretty (events v) json_print_init with Ret _ p => out p | _ => [] end.
Lemma printed_document d v : ascii_tree (S d) v = true → _type v = JSON_OBJECT_BEGIN → d < depth_limit → document_text v (printed_text v).
Proof.
  intros Hv%ascii_tree_sound Ht Hd. inversion Hv as [? t s Hc| | | |? ? Htree]; subst; try done.
  - unfold constants in Hc. simpl in Ht. subst t. set_solver.
  - destruct (print_document true d v Htree Hd) as (p & Hp & Hdoc). unfold printed_text, json_print_pretty. by rewrite Hp.
Qed.

Definition two_rules_file : JsonVal := json_object [("rules", two_rules)].
Definition two_rules_text : list ascii := printed_text two_rules_file.
Lemma two_rules_document : graph_document "falcon.json" two_rules two_rules_file two_rules_text.
Proof.
  split.
  - apply (printed_document 6); [vm_compute; reflexivity|reflexivity|vm_compute; lia].
  - vm_compute. reflexivity.
  - reflexivity.
  - reflexivity.
  - intros u Hu. apply check_complete_sound. revert u Hu. apply Forall_forall. repeat constructor.
  - intros u Hu Hm%mentions_names. revert Hm. apply (bool_decide_unpack ("falcon.json" ∉ field_names "inputs" u ++ field_names "outputs" u)).
    revert u Hu. apply Forall_forall. repeat constructor.
Qed.
Lemma processFile_exact_witness :
  wp (@processFile first_fit "falcon.json" (text two_rules_text)) (λ _ s, graph_of "falcon.json" two_rules s ∧ consistent s)
    (λ e _, einval e ∧ (malformed_doc (_array two_rules) ∨ made_twice (_array two_rules))) no_graph.
Proof. apply (@processFile_exact first_fit "falcon.json" two_rules two_rules_file). exact two_rules_document. Defined.
