(* ===== verification/GraphReloader.v ===== *)
(** * Reloading the graph file (graph_reloader.cpp)

    The graph of the daemon is brought to the shape of a graph that was just parsed:
    a traversal of the new graph from its roots updates the rules of the old one,
    then the nodes it did not meet are deleted.  Both graphs are on the same heap;
    [g_graph] is the original one.  The theorems are about two changes of the graph
    file that the traversal does not survive. *)

From S2P Require Import Prelude GraphModel GraphChecks DepfileParser Fs Cache Watchman World Hash HashRecompute Scan ScanExact.

(** [NodeMap] is an [unordered_map]: it is iterated in some order. *)
Class NodeOrder := {
  node_order : gmap string N → list (string * N);
  node_order_perm m : node_order m ≡ₚ map_to_list m;
}.

Record Reloader := mkReloader {
  rl_w : World;                      (* the original graph, the files, watchman *)
  new_ : Graph.t;
  originalNodes_ : gmap string N;
  nodesSeen_ : gset N;
}.
Definition l_rlw : lens Reloader World := Lens rl_w (λ w s, mkReloader w (new_ s) (originalNodes_ s) (nodesSeen_ s)).
Definition set_originalNodes (m : gmap string N) (s : Reloader) : Reloader := mkReloader (rl_w s) (new_ s) m (nodesSeen_ s).
Definition set_nodesSeen (X : gset N) (s : Reloader) : Reloader := mkReloader (rl_w s) (new_ s) (originalNodes_ s) X.

Module GraphReloader.
Section reloader.
Context `{Allocator} `{SHA256} `{WatchEnv} `{DirTime} `{NodeOrder}.
Variable wm_fuel : nat.

Definition onWorld {A} (m : M World A) : M Reloader A := zoom l_rlw m.
Definition onHeap {A} (m : M GState A) : M Reloader A := zoom l_rlw (zoom l_graph m).
Definition onWatchman (m : M Watchman unit) : M Reloader unit := zoom l_rlw (zoom l_wm m).
Definition setNodes (f : gmap string N → gmap string N) : M Reloader unit :=
  onHeap (updGraph (λ g, Graph.setNodes (f (Graph.nodes_ g)) g)).
Definition insertSource (node : N) : M Reloader unit :=
  onHeap (updGraph (λ g, Graph.setSources ({[node]} ∪ Graph.sources_ g) g)).
Definition forget (path : string) : M Reloader unit :=
  modify (λ s, set_originalNodes (delete path (originalNodes_ s)) s).

(** The node of the updated graph for a node of the new one, made if there is none. *)
Definition getNodeFromAll (newN : N) : M Reloader N :=
  nn ← onHeap (readNode newN);
  g ← onHeap (gets g_graph);
  match Graph.nodes_ g !! Node.path_ nn with
  | None =>
    node ← onHeap (newNode (Node.new (Node.path_ nn) true));
    setNodes (<[Node.path_ nn := node]>);;
    onWatchman (watchNode wm_fuel (Node.path_ nn));;
    mret node
  | Some node =>
    n ← onHeap (readNode node);
    forget (Node.path_ n);;
    mret node
  end.

(** [find_if] by path, with what is left after [erase]. *)
Fixpoint take_path (path : string) (source : list N) : M GState (option (N * list N)) :=
  match source with
  | [] => mret None
  | x :: l =>
    n ← readNode x;
    if decide (path = Node.path_ n) then mret (Some (x, l))
    else r ← take_path path l; mret (prod_map id (cons x) <$> r)
  end.

(** [source] is changed: it is the second component. *)
Definition getNode (source : list N) (newN : N) : M Reloader (N * list N * bool) :=
  nn ← onHeap (readNode newN);
  found ← onHeap (take_path (Node.path_ nn) source);
  match found with
  | Some (node, source) =>
    n ← onHeap (readNode node);
    forget (Node.path_ n);;
    mret (node, source, true)
  | None => node ← getNodeFromAll newN; mret (node, source, false)
  end.

Definition deleteChildRule (node : N) : M Reloader unit := onHeap (
  n ← readNode node;
  match Node.childRule_ n with
  | None => mabort AssertFailed
  | Some rule =>
    updNode node (Node.assignChild None);;
    r ← readRule rule;
    match erase_first node (Rule.outputs_ r) with
    | None => mabort AssertFailed
    | Some outputs =>
      updRule rule (Rule.assignOutputs outputs);;
      mwhen (bool_decide (outputs = [])) (
        foreach (Rule.inputs_ r) (λ i, Node_removeParentRule i rule);;
        g ← gets g_graph;
        match erase_first rule (Graph.rules_ g) with
        | None => mabort AssertFailed
        | Some rules => updGraph (Graph.setRules rules)
        end;;
        deleteRule rule)
    end
  end).

Definition createNewRule (output : N) : M Reloader N := onHeap (
  rule ← newRule (Rule.new [] []);
  updRule rule (λ r, Rule.assignOutputs (Rule.outputs_ r ++ [output]) r);;
  Node_setChild output rule;;
  updGraph (λ g, Graph.setRules (Graph.rules_ g ++ [rule]) g);;
  mret rule).

Fixpoint clearSubGraph (fuel : nat) (n : N) : M Reloader unit :=
  match fuel with
  | O => mabort OutOfFuel
  | S fuel =>
    nd ← onHeap (readNode n);
    match Node.childRule_ nd with
    | None => mret tt
    | Some c =>
      r ← onHeap (readRule c);
      foreach (Rule.inputs_ r) (clearSubGraph fuel);;
      deleteChildRule n
    end
  end.

(** [node->isSource() || node->getState() == State::UP_TO_DATE] *)
Definition markIfReady (rule node : N) : M GState unit :=
  n ← readNode node;
  mwhen (Node.isSource n || negb (Node.isDirty n)) (Rule_markInputReady rule).

Definition updateRuleInputs_with (updateNode : N → N → M Reloader bool) (fuel : nat)
    (rule : N) (inputs : list N) (newR : N) : M Reloader bool :=
  nr ← onHeap (readRule newR);
  x ← foldM (Rule.inputs_ nr) (inputs, false) (λ acc it,
    ret ← getNode acc.1 it;
    let '(node, inputs, found) := ret in
    mwhen (negb found) (onHeap (updNode node (Node.addParentRule rule)));;
    changed ← updateNode node it;
    let r := acc.2 || negb found || changed in
    mwhen r (onWorld (updateNodeHash node true true);; mret tt);;
    onHeap (updRule rule (λ rd, Rule.assignInputs (Rule.inputs_ rd ++ [node]) (Rule.numImplicitDeps_ rd) rd));;
    onHeap (markIfReady rule node);;
    mret (inputs, r));
  foreach x.1 (λ it, onHeap (Node_removeParentRule it rule);; clearSubGraph fuel it);;
  mret x.2.

(** The outputs are moved out of the rule before they are looked for in it. *)
Definition updateRuleOutputs (rule newR : N) : M Reloader bool :=
  rd ← onHeap (readRule rule);
  onHeap (updRule rule (Rule.assignOutputs []));;
  nr ← onHeap (readRule newR);
  x ← foldM (Rule.outputs_ nr) (Rule.outputs_ rd, false) (λ acc it,
    ret ← getNode acc.1 it;
    let '(node, outputs, found) := ret in
    node ← (if found then mret node
            else node ← getNodeFromAll it; onHeap (updNode node (Node.assignChild (Some rule)));; mret node);
    onHeap (updRule rule (λ r, Rule.assignOutputs (Rule.outputs_ r ++ [node]) r));;
    mret (outputs, acc.2 || negb found));
  foreach x.1 deleteChildRule;;
  mret x.2.

Definition updateRuleDepfiles (rule : N) (implicitDepsBefore : list N) (newR : N) : M Reloader bool :=
  rd ← onHeap (readRule rule);
  nr ← onHeap (readRule newR);
  if negb (bool_decide (Rule.depfile_ rd = Rule.depfile_ nr)) then
    foreach implicitDepsBefore (λ it, onHeap (Node_removeParentRule it rule));;
    onHeap (updRule rule (Rule.setDepfile (Rule.depfile_ nr)));;
    onWorld (loadFromfile wm_fuel (Rule.depfile_ nr) rule true);;
    mret true
  else
    foreach implicitDepsBefore (λ it,
      onHeap (updRule rule (λ r, Rule.assignInputs (Rule.inputs_ r ++ [it]) (Rule.numImplicitDeps_ r) r));;
      n ← onHeap (readNode it);
      forget (Node.path_ n);;
      setNodes (<[Node.path_ n := it]>);;
      mwhen (Node.isSource n) (insertSource it);;
      onHeap (markIfReady rule it));;
    onHeap (updRule rule (λ r, Rule.assignInputs (Rule.inputs_ r) (length implicitDepsBefore) r));;
    mret false.

(** [updateSubGraph] of a rule, over the one of a node. *)
Definition updateRule_with (updateNode : N → N → M Reloader bool) (fuel : nat) (rule newR : N) : M Reloader bool :=
  rd ← onHeap (readRule rule);
  let explicits := length (Rule.inputs_ rd) - Rule.numImplicitDeps_ rd in
  onHeap (updRule rule (λ r, Rule.assignReady 0 (Rule.assignInputs [] 0 r)));;
  r1 ← updateRuleInputs_with updateNode fuel rule (take explicits (Rule.inputs_ rd)) newR;
  r2 ← updateRuleOutputs rule newR;
  rd' ← onHeap (readRule rule);
  nr ← onHeap (readRule newR);
  r3 ← (if negb (bool_decide (Rule.command_ rd' = Rule.command_ nr))
        then onHeap (updRule rule (Rule.setCommand (Rule.command_ nr)));; mret true else mret false);
  r4 ← updateRuleDepfiles rule (drop explicits (Rule.inputs_ rd)) newR;
  let r := r1 || r2 || r3 || r4 in
  mwhen r (onHeap (updRule rule (Rule.setState OUT_OF_DATE)));;
  mret r.

Fixpoint updateSubGraph (fuel : nat) (node newN : N) : M Reloader bool :=
  match fuel with
  | O => mabort OutOfFuel
  | S fuel =>
    s ← mget;
    if bool_decide (node ∈ nodesSeen_ s) then mret false
    else
      modify (λ s, set_nodesSeen ({[node]} ∪ nodesSeen_ s) s);;
      n ← onHeap (readNode node);
      nn ← onHeap (readNode newN);
      r ← match Node.childRule_ nn with
          | None =>
            if Node.isSource n then insertSource node;; mret false
            else
              deleteChildRule node;;
              onWorld (statNode node);;
              insertSource node;;
              mret true
          | Some newR =>
            rule ← match Node.childRule_ n with
                   | None => createNewRule node
                   | Some c => mret c
                   end;
            r ← updateRule_with (updateSubGraph fuel) fuel rule newR;
            n' ← onHeap (readNode node);
            mwhen r (c ← deref (Node.childRule_ n'); onWorld (updateRuleHash c true true));;
            mret r
          end;
      mwhen r (onHeap (updNode node (Node.setState OUT_OF_DATE)));;
      setNodes (<[Node.path_ n := node]>);;
      mret r
  end.

Definition updateRoots (fuel : nat) : M Reloader unit :=
  g ← onHeap (gets g_graph);
  modify (set_originalNodes (Graph.nodes_ g));;
  onHeap (updGraph (Graph.setRoots ∅));;
  onHeap (updGraph (Graph.setSources ∅));;
  s ← mget;
  foreach (set_elems (Graph.roots_ (new_ s))) (λ it,
    root ← getNodeFromAll it;
    ret ← updateSubGraph fuel root it;
    mwhen ret (onWorld (updateNodeHash root true true);; mret tt);;
    onHeap (updGraph (λ g, Graph.setRoots ({[root]} ∪ Graph.roots_ g) g))).

Definition cleanStaleSubgraph : M Reloader unit :=
  s ← mget;
  foreach (node_order (originalNodes_ s)) (λ it,
    n ← onHeap (readNode it.2);
    onHeap (massert (bool_decide (Node.parentRules_ n = [])));;
    onWatchman (unwatchNode wm_fuel (Node.path_ n));;
    mwhen (negb (Node.isSource n)) (deleteChildRule it.2);;
    setNodes (delete it.1);;
    onHeap (deleteNode it.2)).

Definition updateGraph (fuel : nat) : M Reloader unit := updateRoots fuel;; cleanStaleSubgraph.
End reloader.
End GraphReloader.

(** ** An output that goes away *)

Section outputs.
Context `{Allocator} `{WatchEnv} (wm_fuel : nat).
Import GraphReloader.

Definition path_of (g : GState) (n : N) : option string := Node.path_ <$> g_nodes g !! n.

Lemma take_path_spec path source g :
  (∀ x, x ∈ source → is_Some (g_nodes g !! x)) →
  returns (take_path path source) (λ found g', g' = g ∧
    match found with
    | None => ∀ x, x ∈ source → path_of g x ≠ Some path
    | Some (x, l) => path_of g x = Some path ∧ source ≡ₚ x :: l
    end) g.
Proof.
  induction source as [|x l IH]; intros Hex; [apply wp_ret; split; [done|set_solver]|].
  destruct (Hex x) as [nd Hn]; [set_solver|]. apply wp_bind. eapply wp_readNode; [exact Hn|]. case_decide as Hp.
  - apply wp_ret. split; [done|]. split; [|done]. unfold path_of. by rewrite Hn, Hp.
  - apply wp_bind. eapply wp_mono; [apply IH; set_solver| |done]. intros found g' [-> Hf]. apply wp_ret. split; [done|].
    destruct found as [[y k]|]; simpl.
    + destruct Hf as [Hy Hk]. split; [done|]. rewrite Hk. apply Permutation_swap.
    + intros y [->|Hy]%elem_of_cons; [|auto]. unfold path_of. rewrite Hn. simpl. congruence.
Qed.

Lemma asserts_onHeap {A} (m : M GState A) (Q : A → Reloader → Prop) s :
  returns m (λ a g, Q a (lset l_rlw (set_g g (rl_w s)) s)) (w_g (rl_w s)) → asserts (onHeap m) Q s.
Proof. intros Hm. apply asserts_returns, wp_zoom, wp_zoom. exact Hm. Qed.

Lemma getNode_found source it nn x0 s :
  g_nodes (w_g (rl_w s)) !! it = Some nn → (∀ x, x ∈ source → is_Some (g_nodes (w_g (rl_w s)) !! x)) →
  x0 ∈ source → path_of (w_g (rl_w s)) x0 = Some (Node.path_ nn) →
  asserts (getNode wm_fuel source it) (λ ret s', w_g (rl_w s') = w_g (rl_w s) ∧ ret.2 = true ∧
    path_of (w_g (rl_w s)) ret.1.1 = Some (Node.path_ nn) ∧ source ≡ₚ ret.1.1 :: ret.1.2) s.
Proof.
  intros Hit Hex Hx0 Hpath. apply asserts_bind, asserts_onHeap. eapply wp_readNode; [exact Hit|].
  apply asserts_bind, asserts_onHeap. eapply wp_mono; [by apply take_path_spec| |done].
  intros found g' [-> Hf]. destruct found as [[x l]|]; [|by destruct (Hf x0)]. destruct Hf as [Hx Hl].
  destruct (Hex x) as [nd Hn]; [rewrite Hl; set_solver|]. apply asserts_bind, asserts_onHeap. eapply wp_readNode; [exact Hn|].
  apply asserts_bind, asserts_returns, wp_modify, asserts_returns, wp_ret. by split_and!.
Qed.

(** The state of the loop over the new outputs: [left] is what was not taken yet. *)
Record retaking (g0 : GState) (rule : N) (rd : Rule.t) (taken left : list N) (g : GState) : Prop := {
  rt_nodes : g_nodes g = g_nodes g0;
  rt_rule : g_rules g !! rule = Some (Rule.assignOutputs taken rd);
  rt_split : Rule.outputs_ rd ≡ₚ taken ++ left;
  rt_other r : r ≠ rule → g_rules g !! r = g_rules g0 !! r;
}.

Lemma delete_taken_aborts g0 rule rd taken x l s :
  retaking g0 rule rd taken (x :: l) (w_g (rl_w s)) → structure_ok g0 → g_rules g0 !! rule = Some rd →
  asserts (deleteChildRule x) (λ _ _, False) s.
Proof.
  intros Hrt Hok Hr. assert (Hx : x ∈ Rule.outputs_ rd) by (rewrite (rt_split _ _ _ _ _ _ Hrt); set_solver).
  destruct (so_output _ Hok rule rd x Hr Hx) as (nd & Hn & Hc).
  assert (Hnot : x ∉ taken).
  { pose proof (so_outputs_nodup _ Hok rule rd Hr) as Hnd. rewrite (rt_split _ _ _ _ _ _ Hrt) in Hnd.
    apply NoDup_app in Hnd as (_ & Hd & _). intros Hin. apply (Hd x Hin). set_solver. }
  apply asserts_zoom, asserts_zoom. cbn [lget l_rlw l_graph]. apply asserts_bind, asserts_returns.
  eapply wp_readNode; [by rewrite (rt_nodes _ _ _ _ _ _ Hrt)|]. rewrite Hc.
  apply asserts_bind, asserts_returns. eapply wp_updNode; [by rewrite (rt_nodes _ _ _ _ _ _ Hrt)|].
  apply asserts_bind, asserts_returns. eapply wp_readRule; [apply (rt_rule _ _ _ _ _ _ Hrt)|].
  cbn [Rule.outputs_ Rule.assignOutputs]. apply erase_first_None in Hnot as ->. reflexivity.
Qed.

(** C28: [updateRuleOutputs] of a rule whose outputs all still point to it, and of a rule
    of the new graph that has some of these outputs, no others and not all, by distinct
    paths, fails an assertion: the outputs were moved out of the rule, so
    [deleteChildRule] does not find the one that goes away among them.  This is what
    ends the reload of [removed_output_reload] below; an output that the reload detached
    from the rule before does no harm ([output_to_source_reload]). *)
Theorem removed_output_aborts rule rd newR nr s :
  let g := w_g (rl_w s) in
  structure_ok g → g_rules g !! rule = Some rd → g_rules g !! newR = Some nr → rule ≠ newR →
  (∀ x y, x ∈ Rule.outputs_ rd → y ∈ Rule.outputs_ rd → path_of g x = path_of g y → x = y) →
  NoDup (path_of g <$> Rule.outputs_ nr) →
  (∀ o, o ∈ Rule.outputs_ nr → ∃ x, x ∈ Rule.outputs_ rd ∧ path_of g x = path_of g o) →
  (∃ x, x ∈ Rule.outputs_ rd ∧ ∀ o, o ∈ Rule.outputs_ nr → path_of g x ≠ path_of g o) →
  updateRuleOutputs wm_fuel rule newR s = Abort AssertFailed.
Proof.
  intros g Hok Hr Hnr Hne Hinj Hnd Hfound (gone & Hgone & Hnone). apply asserts_fails.
  apply asserts_bind, asserts_onHeap. eapply wp_readRule; [exact Hr|].
  apply asserts_bind, asserts_onHeap. eapply wp_updRule; [exact Hr|].
  apply asserts_bind, asserts_onHeap. eapply wp_readRule; [simpl; by rewrite lookup_insert_ne|].
  apply asserts_bind. apply (asserts_foldM (λ pre acc s', ∃ taken, retaking g rule rd taken acc.1 (w_g (rl_w s')) ∧
    ∀ x, x ∈ taken → ∃ o, o ∈ pre ∧ path_of g x = path_of g o)).
  - exists []. split; [|set_solver]. split; simpl; [done|by rewrite lookup_insert_eq|done|]. intros r Hne'. by rewrite lookup_insert_ne.
  - intros pre it post [left b] s1 Heq (taken & Hrt & Htaken). simpl in *.
    assert (Hit : it ∈ Rule.outputs_ nr) by (rewrite Heq; set_solver).
    destruct (so_output _ Hok newR nr it Hnr Hit) as (nn & Hnn & _). destruct (Hfound it Hit) as (x0 & Hx0 & Hp0).
    assert (Hx0left : x0 ∈ left).
    { rewrite (rt_split _ _ _ _ _ _ Hrt) in Hx0. apply elem_of_app in Hx0 as [Ht|?]; [|done]. destruct (Htaken x0 Ht) as (o & Ho & Hpo).
      exfalso. rewrite Heq, fmap_app in Hnd. apply NoDup_app in Hnd as (_ & Hd & _). apply (Hd (path_of g o)).
      - by apply list_elem_of_fmap_2.
      - rewrite <- Hpo, Hp0. simpl. set_solver. }
    assert (Hpath : path_of g it = Some (Node.path_ nn)) by (unfold path_of; by rewrite Hnn).
    assert (Hpg : ∀ n, path_of (w_g (rl_w s1)) n = path_of g n) by (intros n; unfold path_of; by rewrite (rt_nodes _ _ _ _ _ _ Hrt)).
    apply asserts_bind. eapply asserts_mono; [apply (getNode_found left it nn x0)|].
    { by rewrite (rt_nodes _ _ _ _ _ _ Hrt). }
    { intros x Hx. rewrite (rt_nodes _ _ _ _ _ _ Hrt). destruct (so_output _ Hok rule rd x Hr) as (nd & -> & _); [|by eexists].
      rewrite (rt_split _ _ _ _ _ _ Hrt). set_solver. }
    { done. }
    { rewrite Hpg. congruence. }
    intros [[node left'] found] s2 (Hg2 & Hf & Hpn & Hperm). simpl in *. subst found. rewrite Hpg in Hpn.
    apply asserts_bind. apply asserts_returns, wp_ret. apply asserts_bind, asserts_onHeap. rewrite Hg2.
    eapply wp_updRule; [apply (rt_rule _ _ _ _ _ _ Hrt)|]. apply asserts_returns, wp_ret. exists (taken ++ [node]). split.
    + split; simpl; [apply Hrt|by rewrite lookup_insert_eq| |].
      * rewrite (rt_split _ _ _ _ _ _ Hrt), Hperm, <- app_assoc. done.
      * intros r Hne'. rewrite lookup_insert_ne by done. by apply Hrt.
    + intros x [Hx|Hx%list_elem_of_singleton]%elem_of_app; [destruct (Htaken x Hx) as (o & Ho & ?); exists o; set_solver|].
      subst. exists it. split; [set_solver|congruence].
  - intros [left b] s1 (taken & Hrt & Htaken). simpl in *.
    destruct left as [|x l].
    + exfalso. rewrite (rt_split _ _ _ _ _ _ Hrt), app_nil_r in Hgone. destruct (Htaken gone Hgone) as (o & Ho & Hpo). by apply (Hnone o).
    + apply asserts_bind. simpl. apply asserts_bind. eapply asserts_mono; [by eapply (delete_taken_aborts g rule rd taken x l)|]. done.
Qed.
End outputs.

(** ** Runs *)

Definition sorted_order : NodeOrder.
Proof. refine {| node_order := map_to_list |}. done. Defined.

Definition hashed (nd : Node.t) : Node.t := Node.setHashDepfile "h" (Node.setHash "h" nd).
Definition hashed_rule (rd : Rule.t) : Rule.t := Rule.setHashDepfile "h" (Rule.setHash "h" rd).

(** In the old graph [a] and [b] are made of [x]; in the new one [b] is not. *)
Definition both_graphs : GState :=
  mkG (hashed <$> list_to_map
        [(1%N, mk_node "s" None [10%N] UP_TO_DATE); (2%N, mk_node "x" (Some 10%N) [11%N; 12%N] UP_TO_DATE);
         (3%N, mk_node "a" (Some 11%N) [] UP_TO_DATE); (4%N, mk_node "b" (Some 12%N) [] UP_TO_DATE);
         (21%N, mk_node "s" None [30%N; 32%N] UP_TO_DATE); (22%N, mk_node "x" (Some 30%N) [31%N] UP_TO_DATE);
         (23%N, mk_node "a" (Some 31%N) [] UP_TO_DATE); (24%N, mk_node "b" (Some 32%N) [] UP_TO_DATE)])
      (hashed_rule <$> list_to_map
        [(10%N, mk_rule [1%N] [2%N] "x" UP_TO_DATE 1); (11%N, mk_rule [2%N] [3%N] "a" UP_TO_DATE 1); (12%N, mk_rule [2%N] [4%N] "b" UP_TO_DATE 1);
         (30%N, mk_rule [21%N] [22%N] "x" UP_TO_DATE 1); (31%N, mk_rule [22%N] [23%N] "a" UP_TO_DATE 1); (32%N, mk_rule [21%N] [24%N] "b" UP_TO_DATE 1)])
      (Graph.mk {[3%N; 4%N]} {[1%N]} (list_to_map [("s", 1%N); ("x", 2%N); ("a", 3%N); ("b", 4%N)]) [10%N; 11%N; 12%N]).
Definition new_graph : Graph.t :=
  Graph.mk {[23%N; 24%N]} {[21%N]} (list_to_map [("s", 21%N); ("x", 22%N); ("a", 23%N); ("b", 24%N)]) [30%N; 31%N; 32%N].
Definition reloader_of (g : GState) (n : Graph.t) : Reloader :=
  mkReloader (world_of g (mkFS ∅ (λ _, true) 8)) n ∅ ∅.
Definition reloaded (r : Reloader) : option GState :=
  match @GraphReloader.updateGraph first_fit sum_sha silent_env no_dirs sorted_order 500 9 r with
  | Ret _ s => Some (w_g (rl_w s))
  | _ => None
  end.

(** Reloading a graph file in which one rule no longer reads [x], which another
    rule still reads and which its own rule makes before and after, deletes the rule
    of [x]: [clearSubGraph] does not ask who else needs it, and when the traversal
    has already been at [x] nobody makes the rule again.  The node ends up to date,
    without a rule and not among the sources; the graph is no longer one that
    [graph_ok] describes. *)
Theorem reload_loses_rule :
  graph_ok (mkG (filter (λ kv, kv.1 < 20)%N (g_nodes both_graphs)) (filter (λ kv, kv.1 < 20)%N (g_rules both_graphs)) (g_graph both_graphs)) ∧
  match reloaded (reloader_of both_graphs new_graph) with
  | Some g => (Node.childRule_ <$> g_nodes both_graphs !! 22%N, Node.childRule_ <$> g_nodes g !! 2%N, node_dirty g 2, g_rules g !! 10%N) =
                (Some (Some 30%N), Some None, false, None) ∧
              2%N ∉ Graph.sources_ (g_graph g) ∧ ¬ graph_ok g
  | None => False
  end.
Proof.
  split; [apply check_graph_sound; vm_compute; reflexivity|].
  destruct (reloaded (reloader_of both_graphs new_graph)) as [g|] eqn:E; [|vm_compute in E; discriminate].
  assert (Hg : Some g = reloaded (reloader_of both_graphs new_graph)) by done. clear E.
  assert (H2 : Node.childRule_ <$> g_nodes g !! 2%N = Some None ∧ node_dirty g 2 = false ∧ g_rules g !! 10%N = None ∧
    bool_decide (2%N ∈ Graph.sources_ (g_graph g)) = false).
  { revert Hg. vm_compute. intros [= ->]. done. }
  destruct H2 as (Hc & Hd & Hr & Hs%bool_decide_eq_false). split_and!; [|done|].
  - rewrite Hc, Hd, Hr. vm_compute. reflexivity.
  - intros Hok. apply Hs. apply (go_sources _ Hok). apply fmap_Some in Hc as (nd & Hn & Hch). eauto.
Qed.

(** Two files go away, one made of the other: when the iteration meets the input
    first, its parent rule is still there and the assertion fails. *)
Definition stale_chain : GState :=
  mkG (hashed <$> list_to_map
        [(1%N, mk_node "s" None [10%N; 12%N] UP_TO_DATE); (2%N, mk_node "t" (Some 10%N) [11%N] UP_TO_DATE);
         (3%N, mk_node "u" (Some 11%N) [] UP_TO_DATE); (4%N, mk_node "b" (Some 12%N) [] UP_TO_DATE);
         (21%N, mk_node "s" None [32%N] UP_TO_DATE); (24%N, mk_node "b" (Some 32%N) [] UP_TO_DATE)])
      (hashed_rule <$> list_to_map
        [(10%N, mk_rule [1%N] [2%N] "t" UP_TO_DATE 1); (11%N, mk_rule [2%N] [3%N] "u" UP_TO_DATE 1); (12%N, mk_rule [1%N] [4%N] "b" UP_TO_DATE 1);
         (32%N, mk_rule [21%N] [24%N] "b" UP_TO_DATE 1)])
      (Graph.mk {[3%N; 4%N]} {[1%N]} (list_to_map [("s", 1%N); ("t", 2%N); ("u", 3%N); ("b", 4%N)]) [10%N; 11%N; 12%N]).
Definition stale_new : Graph.t := Graph.mk {[24%N]} {[21%N]} (list_to_map [("s", 21%N); ("b", 24%N)]) [32%N].
Definition reverse_order : NodeOrder.
Proof. refine {| node_order m := reverse (map_to_list m) |}. intros m. apply reverse_Permutation. Defined.
Definition stale_run (o : NodeOrder) : bool :=
  match @GraphReloader.updateGraph first_fit sum_sha silent_env no_dirs o 500 9 (reloader_of stale_chain stale_new) with
  | Ret _ _ => true
  | _ => false
  end.
Example stale_order_matters : xorb (stale_run sorted_order) (stale_run reverse_order) = true.
Proof. vm_compute. reflexivity. Qed.

(** A rule that makes [a] and [b], and one that makes [a] only. *)
Definition one_output_less : GState :=
  mkG (list_to_map
        [(1%N, mk_node "s" None [10%N] UP_TO_DATE); (2%N, mk_node "a" (Some 10%N) [] UP_TO_DATE); (3%N, mk_node "b" (Some 10%N) [] UP_TO_DATE);
         (21%N, mk_node "s" None [30%N] UP_TO_DATE); (22%N, mk_node "a" (Some 30%N) [] UP_TO_DATE)])
      (list_to_map [(10%N, mk_rule [1%N] [2%N; 3%N] "ab" UP_TO_DATE 1); (30%N, mk_rule [21%N] [22%N] "a" UP_TO_DATE 1)])
      (Graph.mk {[2%N; 3%N]} {[1%N]} (list_to_map [("s", 1%N); ("a", 2%N); ("b", 3%N)]) [10%N]).

Lemma removed_output_aborts_witness :
  @GraphReloader.updateRuleOutputs first_fit silent_env 500 10 30 (reloader_of one_output_less Graph.new) = Abort AssertFailed.
Proof.
  apply (@removed_output_aborts first_fit silent_env 500 10 (mk_rule [1%N] [2%N; 3%N] "ab" UP_TO_DATE 1)
    30 (mk_rule [21%N] [22%N] "a" UP_TO_DATE 1)).
  - apply check_structure_sound. vm_compute. reflexivity.
  - vm_compute. reflexivity.
  - vm_compute. reflexivity.
  - done.
  - intros x y [->|[->|?%elem_of_nil]%elem_of_cons]%elem_of_cons [->|[->|?%elem_of_nil]%elem_of_cons]%elem_of_cons;
      vm_compute; done.
  - vm_compute. repeat constructor. apply not_elem_of_nil.
  - intros o [->|?%elem_of_nil]%elem_of_cons; [|done]. exists 2%N. split; [set_solver|vm_compute; reflexivity].
  - exists 3%N. split; [set_solver|]. intros o [->|?%elem_of_nil]%elem_of_cons; [vm_compute; discriminate|done].
Defined.

(** The whole reload of that change ends the same way. *)
Definition with_hashes (g : GState) : GState := mkG (hashed <$> g_nodes g) (hashed_rule <$> g_rules g) (g_graph g).
Definition one_output : Graph.t := Graph.mk {[22%N]} {[21%N]} (list_to_map [("s", 21%N); ("a", 22%N)]) [30%N].
Example removed_output_reload :
  @GraphReloader.updateGraph first_fit sum_sha silent_env no_dirs sorted_order 500 9
    (reloader_of (with_hashes one_output_less) one_output) = Abort AssertFailed.
Proof. vm_compute. reflexivity. Qed.

(** Not so when the file that is no longer made became a source of another rule and
    the traversal was there first: [b] then left its old rule, by [deleteChildRule],
    before the outputs of that rule are compared. *)
Definition output_to_source (a c : N) : GState :=
  with_hashes (mkG (list_to_map
        [(1%N, mk_node "s" None [10%N; 11%N] UP_TO_DATE); (2%N, mk_node "a" (Some 10%N) [] UP_TO_DATE);
         (3%N, mk_node "b" (Some 10%N) [] UP_TO_DATE); (4%N, mk_node "c" (Some 11%N) [] UP_TO_DATE);
         (21%N, mk_node "s" None [30%N] UP_TO_DATE); (a, mk_node "a" (Some 30%N) [] UP_TO_DATE);
         (23%N, mk_node "b" None [31%N] UP_TO_DATE); (c, mk_node "c" (Some 31%N) [] UP_TO_DATE)])
      (list_to_map [(10%N, mk_rule [1%N] [2%N; 3%N] "ab" UP_TO_DATE 1); (11%N, mk_rule [1%N] [4%N] "c" UP_TO_DATE 1);
         (30%N, mk_rule [21%N] [a] "a" UP_TO_DATE 1); (31%N, mk_rule [23%N] [c] "c" UP_TO_DATE 1)])
      (Graph.mk {[2%N; 3%N; 4%N]} {[1%N]} (list_to_map [("s", 1%N); ("a", 2%N); ("b", 3%N); ("c", 4%N)]) [10%N; 11%N])).
Definition c_of_b (a c : N) : Graph.t :=
  Graph.mk {[a; c]} {[21%N; 23%N]} (list_to_map [("s", 21%N); ("a", a); ("b", 23%N); ("c", c)]) [30%N; 31%N].
(** The reload with [a] and [c] at these addresses, by which the roots are ordered. *)
Definition reload_returns (a c : N) : bool :=
  match @GraphReloader.updateGraph first_fit sum_sha silent_env no_dirs sorted_order 500 9
    (reloader_of (output_to_source a c) (c_of_b a c)) with
  | Ret _ _ => true
  | _ => false
  end.
Example output_to_source_reload : (reload_returns 22 24, reload_returns 24 22) = (false, true).
Proof. vm_compute. reflexivity. Qed.
