(* ===== verification/ReloadUnchanged.v ===== *)
(** * Reloading a graph file that says the same

    The traversal of graph_reloader.cpp takes every rule apart and puts it together
    again.  When the new graph has the same files and rules as the old one, nothing
    changes: the rules come back as they were, no file is watched, forgotten or hashed
    again, and the traversal ends, although rules with several outputs are rebuilt more
    than once. *)

From S2P Require Import Prelude GraphModel GraphChecks DepfileParser Fs Cache Watchman World Hash HashRecompute Scan ScanExact GraphReloader.

(** ** Two graphs on one heap *)

(** The rule's inputs from the graph file and from its depfile. *)
Definition explicits (rd : Rule.t) : list N := take (length (Rule.inputs_ rd) - Rule.numImplicitDeps_ rd) (Rule.inputs_ rd).
Definition implicits (rd : Rule.t) : list N := drop (length (Rule.inputs_ rd) - Rule.numImplicitDeps_ rd) (Rule.inputs_ rd).

Section graphs.
Context (g : GState).

(** The node is in the map of the graph, under its path. *)
Definition listed (G : Graph.t) (n : N) : Prop := ∃ nd, g_nodes g !! n = Some nd ∧ Graph.nodes_ G !! Node.path_ nd = Some n.
Definition child_of (n : N) (r : N) (rd : Rule.t) : Prop :=
  ∃ nd, g_nodes g !! n = Some nd ∧ Node.childRule_ nd = Some r ∧ g_rules g !! r = Some rd.
Definition is_source (n : N) : Prop := ∃ nd, g_nodes g !! n = Some nd ∧ Node.childRule_ nd = None.

(** [G] is a graph of the heap, complete with the files of its rules. *)
Record whole (G : Graph.t) : Prop := {
  wh_nodes p n : Graph.nodes_ G !! p = Some n → path_of g n = Some p;
  wh_roots n : n ∈ Graph.roots_ G → listed G n;
  wh_sources n : n ∈ Graph.sources_ G ↔ listed G n ∧ is_source n;
  wh_inputs n r rd i : listed G n → child_of n r rd → i ∈ Rule.inputs_ rd → listed G i;
  wh_outputs n r rd o : listed G n → child_of n r rd → o ∈ Rule.outputs_ rd → listed G o;
}.

Definition same_path (n n' : N) : Prop := path_of g n = path_of g n'.
(** What the graph file says of a rule; a new rule has no implicit inputs yet. *)
Record same_rule (rd rd' : Rule.t) : Prop := {
  sr_inputs : Forall2 same_path (explicits rd) (Rule.inputs_ rd');
  sr_outputs : Forall2 same_path (Rule.outputs_ rd) (Rule.outputs_ rd');
  sr_command : Rule.command_ rd = Rule.command_ rd';
  sr_depfile : Rule.depfile_ rd = Rule.depfile_ rd';
}.
Definition same_child (n n' : N) : Prop :=
  is_source n ∧ is_source n' ∨
  ∃ r rd r' rd', child_of n r rd ∧ child_of n' r' rd' ∧ same_rule rd rd'.

(** What the traversal from the roots meets, and the implicit dependencies. *)
Inductive explored : N → Prop :=
  | explored_root n : n ∈ Graph.roots_ (g_graph g) → explored n
  | explored_input n r rd i : explored n → child_of n r rd → i ∈ explicits rd → explored i.
Definition kept (n : N) : Prop := explored n ∨ ∃ m r rd, explored m ∧ child_of m r rd ∧ n ∈ implicits rd.

(** [new] says the same as the graph of the daemon. *)
Record unchanged (new : Graph.t) : Prop := {
  un_old : whole (g_graph g);
  un_new : whole new;
  un_disjoint n : listed (g_graph g) n → listed new n → False;
  un_found n' : listed new n' → ∃ n, listed (g_graph g) n ∧ same_path n n';
  un_child n n' : listed (g_graph g) n → listed new n' → same_path n n' → same_child n n';
  un_roots n : n ∈ Graph.roots_ (g_graph g) ↔ ∃ n', n' ∈ Graph.roots_ new ∧ listed (g_graph g) n ∧ same_path n n';
  un_kept n : listed (g_graph g) n → kept n;
}.
End graphs.

(** ** The state of the traversal *)

(** The sources found, the nodes not met yet, and the nodes seen. *)
Record marks := Marks { m_src : gset N; m_orig : gmap string N; m_seen : gset N }.
Definition add_source (n : N) (m : marks) : marks := Marks ({[n]} ∪ m_src m) (m_orig m) (m_seen m).
Definition forgotten (p : string) (m : marks) : marks := Marks (m_src m) (delete p (m_orig m)) (m_seen m).
Definition seen (n : N) (m : marks) : marks := Marks (m_src m) (m_orig m) ({[n]} ∪ m_seen m).

Section traversal.
Context `{Allocator} `{SHA256} `{WatchEnv} `{DirTime} `{NodeOrder} (wm_fuel : nat).
Import GraphReloader.
Context (w0 : World) (new : Graph.t).
Notation g := (w_g w0).
Notation G := (g_graph g).

(** The daemon's graph with the rules [R] and the roots [ro]; nothing else changes. *)
Definition heap_at (R : gmap N Rule.t) (ro : gset N) (m : marks) : GState :=
  mkG (g_nodes g) R (Graph.mk ro (m_src m) (Graph.nodes_ G) (Graph.rules_ G)).
Definition reloader_at (R : gmap N Rule.t) (ro : gset N) (m : marks) : Reloader :=
  mkReloader (set_g (heap_at R ro m) w0) new (m_orig m) (m_seen m).

Implicit Types (R : gmap N Rule.t) (ro : gset N) (m : marks).

Lemma wp_onHeap {A} (c : M GState A) Q E R ro m :
  wp c (λ a h, Q a (lset l_rlw (set_g h w0) (reloader_at R ro m))) (λ e h, E e (lset l_rlw (set_g h w0) (reloader_at R ro m))) (heap_at R ro m) →
  wp (onHeap c) Q E (reloader_at R ro m).
Proof. intros Hc. by apply wp_zoom, wp_zoom. Qed.
Lemma wp_node n nd Q E R ro m : g_nodes g !! n = Some nd → Q nd (reloader_at R ro m) → wp (onHeap (readNode n)) Q E (reloader_at R ro m).
Proof. intros Hn HQ. apply wp_onHeap. by eapply wp_readNode. Qed.
Lemma wp_rule r rd Q E R ro m : R !! r = Some rd → Q rd (reloader_at R ro m) → wp (onHeap (readRule r)) Q E (reloader_at R ro m).
Proof. intros Hr HQ. apply wp_onHeap. by eapply wp_readRule. Qed.
Lemma wp_setRule r f rd Q E R ro m : R !! r = Some rd → Q tt (reloader_at (<[r := f rd]> R) ro m) →
  wp (onHeap (updRule r f)) Q E (reloader_at R ro m).
Proof. intros Hr HQ. apply wp_onHeap. by eapply wp_updRule. Qed.
Lemma wp_forget p Q E R ro m : Q tt (reloader_at R ro (forgotten p m)) → wp (forget p) Q E (reloader_at R ro m).
Proof. done. Qed.
Lemma wp_source n Q E R ro m : Q tt (reloader_at R ro (add_source n m)) → wp (insertSource n) Q E (reloader_at R ro m).
Proof. done. Qed.
Lemma wp_setNodes p n Q E R ro m : Graph.nodes_ G !! p = Some n → Q tt (reloader_at R ro m) → wp (setNodes (<[p := n]>)) Q E (reloader_at R ro m).
Proof. intros Hp HQ. apply wp_onHeap, wp_updGraph. cbn. by rewrite insert_id. Qed.

(** The rule with the inputs [l], as many of them ready as are. *)
Definition partial (rd : Rule.t) (l : list N) (k : nat) : Rule.t := Rule.assignReady (countb (node_ready g) l) (Rule.assignInputs l k rd).
Lemma partial_all r rd : counters_ok g → g_rules g !! r = Some rd → partial rd (Rule.inputs_ rd) (Rule.numImplicitDeps_ rd) = rd.
Proof. intros Hc Hr. unfold partial. rewrite <- (Hc r rd Hr). by destruct rd. Qed.

(** Counting an input that was just pushed. *)
Lemma wp_mark r rd l k i Q E R ro m : R !! r = Some (Rule.assignInputs (l ++ [i]) k (partial rd l k)) → is_Some (g_nodes g !! i) →
  Q tt (reloader_at (<[r := partial rd (l ++ [i]) k]> R) ro m) → wp (onHeap (markIfReady r i)) Q E (reloader_at R ro m).
Proof.
  intros Hr [nd Hn] HQ. apply wp_onHeap, wp_bind. eapply wp_readNode; [exact Hn|].
  assert (Hready : node_ready g i = Node.isSource nd || negb (Node.isDirty nd)) by (unfold node_ready; by rewrite Hn).
  assert (Hlast : countb (node_ready g) (l ++ [i]) = (if node_ready g i then 1 else 0) + countb (node_ready g) l).
  { rewrite countb_app, countb_cons, countb_nil. lia. }
  rewrite <- Hready. unfold partial in HQ. rewrite Hlast in HQ. destruct (node_ready g i); cbn [mwhen].
  - eapply wp_markInputReady; [exact Hr| |exact HQ]. cbn. rewrite length_app.
    pose proof (countb_le_length (node_ready g) l). simpl. lia.
  - apply wp_ret. by rewrite insert_id in HQ.
Qed.

(** *** Nodes by their paths *)

Lemma listed_path n : listed g G n → ∃ nd, g_nodes g !! n = Some nd ∧ path_of g n = Some (Node.path_ nd) ∧ Graph.nodes_ G !! Node.path_ nd = Some n.
Proof. intros (nd & Hn & Hp). exists nd. split_and!; [done|unfold path_of; by rewrite Hn|done]. Qed.

Lemma wp_getNode_head i i' l Q E R ro m : listed g G i → same_path g i i' →
  (∀ p, path_of g i = Some p → Q (i, l, true) (reloader_at R ro (forgotten p m))) →
  wp (getNode wm_fuel (i :: l) i') Q E (reloader_at R ro m).
Proof.
  intros Hl Hs HQ. destruct (listed_path i Hl) as (nd & Hn & Hp & _). unfold same_path in Hs. rewrite Hp in Hs.
  unfold path_of in Hs. destruct (g_nodes g !! i') as [nn|] eqn:Hnn; [|done]. injection Hs as Hpath.
  apply wp_bind. eapply wp_node; [exact Hnn|]. apply wp_bind, wp_onHeap, wp_bind. eapply wp_readNode; [exact Hn|].
  rewrite decide_True by done. apply wp_ret. apply wp_bind. eapply wp_node; [exact Hn|]. apply wp_bind, wp_forget, wp_ret. by apply HQ.
Qed.
Lemma wp_getNodeFromAll i i' Q E R ro m : listed g G i → same_path g i i' →
  (∀ p, path_of g i = Some p → Q i (reloader_at R ro (forgotten p m))) →
  wp (getNodeFromAll wm_fuel i') Q E (reloader_at R ro m).
Proof.
  intros Hl Hs HQ. destruct (listed_path i Hl) as (nd & Hn & Hp & Hmap). unfold same_path in Hs. rewrite Hp in Hs.
  unfold path_of in Hs. destruct (g_nodes g !! i') as [nn|] eqn:Hnn; [|done]. injection Hs as Hpath.
  apply wp_bind. eapply wp_node; [exact Hnn|]. apply wp_bind, wp_onHeap, wp_gets. cbn [g_graph heap_at Graph.nodes_]. rewrite <- Hpath, Hmap.
  apply wp_bind. eapply wp_node; [exact Hn|]. apply wp_bind, wp_forget, wp_ret. by apply HQ.
Qed.

(** *** Progress *)

Definition unmapped (n : N) m : Prop := ∀ p, path_of g n = Some p → m_orig m !! p = None.
(** Nothing is left to do below the node. *)
Record finished m (n : N) : Prop := {
  fi_source : is_source g n → n ∈ m_src m;
  fi_self : unmapped n m;
  fi_explicit r rd i : child_of g n r rd → i ∈ explicits rd → i ∈ m_seen m;
  fi_implicit r rd i : child_of g n r rd → i ∈ implicits rd → unmapped i m ∧ (is_source g i → i ∈ m_src m);
}.
Record goes m m' : Prop := {
  gs_src : m_src m ⊆ m_src m';
  gs_orig : m_orig m' ⊆ m_orig m;
  gs_seen : m_seen m ⊆ m_seen m';
  gs_found n : n ∈ m_src m' → n ∈ m_src m ∨ listed g G n ∧ is_source g n;
  gs_finished n : n ∈ m_seen m' → n ∈ m_seen m ∨ finished m' n;
}.

Lemma unmapped_goes m m' n : goes m m' → unmapped n m → unmapped n m'.
Proof. intros Hg Hu p Hp. specialize (Hu p Hp). eapply lookup_weaken_None; [exact Hu|apply Hg]. Qed.
Lemma finished_goes m m' n : goes m m' → finished m n → finished m' n.
Proof.
  intros Hg [Hf1 Hf2 Hf3 Hf4]. split; [intros; by apply Hg, Hf1|by eapply unmapped_goes|intros; eapply (gs_seen _ _ Hg), Hf3; eassumption|].
  intros r rd i Hc Hi. destruct (Hf4 r rd i Hc Hi) as [? ?]. split; [by eapply unmapped_goes|]. intros Hs. by apply Hg; auto.
Qed.
Lemma goes_refl m : goes m m.
Proof. split; auto. Qed.
Lemma goes_trans m1 m2 m3 : goes m1 m2 → goes m2 m3 → goes m1 m3.
Proof.
  intros Hg Hg'. split.
  - etrans; [apply Hg|apply Hg'].
  - etrans; [apply Hg'|apply Hg].
  - etrans; [apply Hg|apply Hg'].
  - intros n Hn. destruct (gs_found _ _ Hg' n Hn) as [Hn'|?]; [|by right]. by apply Hg.
  - intros n Hn. destruct (gs_finished _ _ Hg' n Hn) as [Hn'|?]; [|by right].
    destruct (gs_finished _ _ Hg n Hn') as [?|Hf]; [by left|]. right. by eapply finished_goes.
Qed.
Lemma goes_forget p m : goes m (forgotten p m).
Proof. split; auto. apply delete_subseteq. Qed.
Lemma goes_source n m : listed g G n → is_source g n → goes m (add_source n m).
Proof. intros Hl Hs. split; auto; cbn; [set_solver|]. intros x [->%elem_of_singleton|?]%elem_of_union; auto. Qed.
Lemma forget_unmapped n p m : path_of g n = Some p → unmapped n (forgotten p m).
Proof. intros Hp p' Hp'. assert (p' = p) as -> by congruence. apply lookup_delete_eq. Qed.

(** ** A rule *)

(** Rules that are apart while a node of rank [k] is updated: all their outputs are
    above it. *)
Context (rank : N → nat).
Definition busy (k : nat) (r : N) : Prop :=
  ∃ rd, g_rules g !! r = Some rd ∧ (∃ o, o ∈ Rule.outputs_ rd ∧ listed g G o) ∧ ∀ o, o ∈ Rule.outputs_ rd → k < rank o.
Definition agrees (k : nat) R : Prop := ∀ r, ¬ busy k r → R !! r = g_rules g !! r.

(** What the update of a node does: nothing, and it leaves the traversal further. *)
Definition harmless (update : N → N → M Reloader bool) (n n' : N) : Prop := ∀ R ro m,
  agrees (rank n) R → unmapped n m →
  returns (update n n') (λ r s, r = false ∧ ∃ m', s = reloader_at R ro m' ∧ goes m m' ∧ n ∈ m_seen m') (reloader_at R ro m).

Lemma Forall2_at {A B} (P : A → B → Prop) l k x post : Forall2 P l (k ++ x :: post) → ∃ l1 y l2,
  l = l1 ++ y :: l2 ∧ length l1 = length k ∧ P y x.
Proof.
  intros Hf. apply Forall2_app_inv_r in Hf as (l1 & l2 & Hf1 & Hf2 & ->). inversion Hf2 as [|y ? l2' ? Hy]; subst.
  exists l1, y, l2'. split_and!; [done|by eapply Forall2_length|done].
Qed.

Section rule.
Context (c newR : N) (rd nr : Rule.t) (fuel : nat) (updateNode : N → N → M Reloader bool) R0 (ro : gset N).
Hypothesis Hok : structure_ok g.
Hypothesis Hcount : counters_ok g.
Hypothesis Hc : g_rules g !! c = Some rd.
Hypothesis Hnew : R0 !! newR = Some nr.
Hypothesis Hne : newR ≠ c.
Hypothesis Hsame : same_rule g rd nr.
Hypothesis Hin : ∀ i, i ∈ Rule.inputs_ rd → listed g G i.
Hypothesis Hout : ∀ o, o ∈ Rule.outputs_ rd → listed g G o.
Hypothesis Hagrees : ∀ i x, i ∈ Rule.inputs_ rd → agrees (rank i) (<[c := x]> R0).
Hypothesis Hsub : ∀ i i', i ∈ explicits rd → i' ∈ Rule.inputs_ nr → same_path g i i' → harmless updateNode i i'.

Lemma explicit_input i : i ∈ explicits rd → i ∈ Rule.inputs_ rd.
Proof. apply subseteq_take. Qed.
Lemma exists_node n : listed g G n → is_Some (g_nodes g !! n).
Proof. intros (nd & Hn & _). by eexists. Qed.

Lemma inputs_same m : returns (updateRuleInputs_with wm_fuel updateNode fuel c (explicits rd) newR)
  (λ r s, r = false ∧ ∃ m', s = reloader_at (<[c := partial rd (explicits rd) 0]> R0) ro m' ∧ goes m m' ∧ ∀ i, i ∈ explicits rd → i ∈ m_seen m')
  (reloader_at (<[c := partial rd [] 0]> R0) ro m).
Proof using All.
  apply wp_bind. eapply wp_rule; [by rewrite lookup_insert_ne|]. apply wp_bind.
  eapply (wp_foldM (λ pre acc s, acc = (drop (length pre) (explicits rd), false) ∧ ∃ m',
    s = reloader_at (<[c := partial rd (take (length pre) (explicits rd)) 0]> R0) ro m' ∧ goes m m' ∧
    ∀ i, i ∈ take (length pre) (explicits rd) → i ∈ m_seen m')).
  - split; [done|]. exists m. split_and!; [done|apply goes_refl|set_solver].
  - intros pre i' post acc s Heq (-> & m1 & -> & Hg1 & Hs1). pose proof (sr_inputs _ _ _ Hsame) as Hf. rewrite Heq in Hf.
    destruct (Forall2_at _ _ _ _ _ Hf) as (l1 & i & l2 & Hl & Hlen & Hp). assert (Hi : i ∈ explicits rd) by (rewrite Hl; set_solver).
    rewrite Hl, <- Hlen in Hs1 |- *. rewrite take_app_length in Hs1 |- *. rewrite drop_app_length.
    pose proof (explicit_input i Hi) as Hi'. apply wp_bind. eapply wp_getNode_head; [by apply Hin|exact Hp|].
    intros p Hpath. cbn [negb mwhen]. apply wp_bind, wp_ret. apply wp_bind.
    eapply wp_mono; [apply (Hsub i i'); [done|rewrite Heq; set_solver|done|by apply Hagrees|by apply forget_unmapped]| |done].
    intros r s (-> & m2 & -> & Hg2 & Hi2). cbn [orb mwhen]. apply wp_bind, wp_ret.
    assert (Hg : goes m m2) by (eapply goes_trans; [exact Hg1|eapply goes_trans; [apply goes_forget|exact Hg2]]).
    apply wp_bind. eapply wp_setRule; [apply lookup_insert_eq|]. rewrite insert_insert_eq.
    apply wp_bind. eapply wp_mark; [apply lookup_insert_eq|by apply exists_node, Hin|]. rewrite insert_insert_eq.
    apply wp_ret. rewrite length_app, <- Hlen. cbn [length].
    replace (length l1 + 1) with (length (l1 ++ [i])) by (rewrite length_app; simpl; lia).
    replace (l1 ++ i :: l2) with ((l1 ++ [i]) ++ l2) by by rewrite <- app_assoc.
    rewrite take_app_length, drop_app_length. split; [done|]. exists m2. split_and!; [done|done|].
    intros x [Hx| ->%list_elem_of_singleton]%elem_of_app; [|done]. apply (gs_seen _ _ Hg2). by apply Hs1.
  - intros acc s (-> & m1 & -> & Hg1 & Hs1). assert (Hlen : length (Rule.inputs_ nr) = length (explicits rd)).
    { symmetry. eapply Forall2_length, Hsame. }
    rewrite Hlen, drop_all, firstn_all in *. apply wp_bind, wp_ret, wp_ret. split; [done|]. by exists m1.
Qed.

(** The outputs are taken out and put back. *)
Lemma outputs_same l m : returns (updateRuleOutputs wm_fuel c newR)
  (λ r s, r = false ∧ ∃ m', s = reloader_at (<[c := partial rd l 0]> R0) ro m' ∧ goes m m')
  (reloader_at (<[c := partial rd l 0]> R0) ro m).
Proof using All.
  apply wp_bind. eapply wp_rule; [apply lookup_insert_eq|]. apply wp_bind. eapply wp_setRule; [apply lookup_insert_eq|].
  rewrite insert_insert_eq. apply wp_bind. eapply wp_rule; [by rewrite lookup_insert_ne|]. apply wp_bind.
  eapply (wp_foldM (λ pre acc s, acc = (drop (length pre) (Rule.outputs_ rd), false) ∧ ∃ m',
    s = reloader_at (<[c := Rule.assignOutputs (take (length pre) (Rule.outputs_ rd)) (partial rd l 0)]> R0) ro m' ∧ goes m m')).
  - split; [done|]. exists m. split_and!; [done|apply goes_refl].
  - intros pre o' post acc s Heq (-> & m1 & -> & Hg1). pose proof (sr_outputs _ _ _ Hsame) as Hf. rewrite Heq in Hf.
    destruct (Forall2_at _ _ _ _ _ Hf) as (l1 & o & l2 & Hl & Hlen & Hp). assert (Ho : o ∈ Rule.outputs_ rd) by (rewrite Hl; set_solver).
    rewrite Hl, <- Hlen. rewrite take_app_length, drop_app_length. apply wp_bind. eapply wp_getNode_head; [by apply Hout|exact Hp|].
    intros p Hpath. apply wp_bind, wp_ret. apply wp_bind. eapply wp_setRule; [apply lookup_insert_eq|]. rewrite insert_insert_eq.
    apply wp_ret. rewrite length_app, <- Hlen. cbn [length].
    replace (length l1 + 1) with (length (l1 ++ [o])) by (rewrite length_app; simpl; lia).
    replace (l1 ++ o :: l2) with ((l1 ++ [o]) ++ l2) by by rewrite <- app_assoc.
    rewrite take_app_length, drop_app_length. split; [done|]. exists (forgotten p m1). split; [done|].
    eapply goes_trans; [exact Hg1|apply goes_forget].
  - intros acc s (-> & m1 & -> & Hg1). assert (Hlen : length (Rule.outputs_ nr) = length (Rule.outputs_ rd)).
    { symmetry. eapply Forall2_length, Hsame. }
    rewrite Hlen, drop_all, firstn_all. apply wp_bind, wp_ret, wp_ret. split; [done|]. by exists m1.
Qed.

Lemma node_is_source i nd : g_nodes g !! i = Some nd → Node.isSource nd = true ↔ is_source g i.
Proof using Type.
  intros Hn. unfold Node.isSource. rewrite bool_decide_eq_true. split; [by exists nd|]. intros (nd' & Hn' & ?). congruence.
Qed.

(** The implicit dependencies come back behind the others. *)
Lemma depfiles_same m : returns (updateRuleDepfiles wm_fuel c (implicits rd) newR)
  (λ r s, r = false ∧ ∃ m', s = reloader_at (<[c := rd]> R0) ro m' ∧ goes m m' ∧
     ∀ i, i ∈ implicits rd → unmapped i m' ∧ (is_source g i → i ∈ m_src m'))
  (reloader_at (<[c := partial rd (explicits rd) 0]> R0) ro m).
Proof using All.
  apply wp_bind. eapply wp_rule; [apply lookup_insert_eq|]. apply wp_bind. eapply wp_rule; [by rewrite lookup_insert_ne|].
  cbn [partial Rule.depfile_ Rule.assignReady Rule.assignInputs]. rewrite bool_decide_eq_true_2 by apply Hsame. cbn [negb]. apply wp_bind.
  eapply (wp_foreach (λ pre s, ∃ m', s = reloader_at (<[c := partial rd (explicits rd ++ pre) 0]> R0) ro m' ∧ goes m m' ∧
     ∀ i, i ∈ pre → unmapped i m' ∧ (is_source g i → i ∈ m_src m'))).
  - exists m. rewrite app_nil_r. split_and!; [done|apply goes_refl|set_solver].
  - intros pre i post s Heq (m1 & -> & Hg1 & Hm1). assert (Hi : i ∈ Rule.inputs_ rd).
    { apply (subseteq_drop (length (Rule.inputs_ rd) - Rule.numImplicitDeps_ rd)). change (i ∈ implicits rd). rewrite Heq. set_solver. }
    destruct (listed_path i (Hin i Hi)) as (nd & Hn & Hp & Hmap).
    apply wp_bind. eapply wp_setRule; [apply lookup_insert_eq|]. rewrite insert_insert_eq.
    apply wp_bind. eapply wp_node; [exact Hn|]. apply wp_bind, wp_forget, wp_bind. eapply wp_setNodes; [exact Hmap|]. apply wp_bind.
    set (m2 := if Node.isSource nd then add_source i (forgotten (Node.path_ nd) m1) else forgotten (Node.path_ nd) m1).
    assert (Hg2 : goes m1 m2).
    { eapply goes_trans; [apply (goes_forget (Node.path_ nd))|]. unfold m2. destruct (Node.isSource nd) eqn:E; [|apply goes_refl].
      apply goes_source; [by apply Hin|by apply (node_is_source i nd)]. }
    cut (wp (onHeap (markIfReady c i)) (λ _ s, ∃ m', s = reloader_at (<[c := partial rd (explicits rd ++ pre ++ [i]) 0]> R0) ro m' ∧ goes m m' ∧
      ∀ x, x ∈ pre ++ [i] → unmapped x m' ∧ (is_source g x → x ∈ m_src m')) (λ _ _, False)
      (reloader_at (<[c := Rule.assignInputs ((explicits rd ++ pre) ++ [i]) 0 (partial rd (explicits rd ++ pre) 0)]> R0) ro m2)).
    { intros Hcut. unfold m2 in Hcut. destruct (Node.isSource nd); [by apply wp_source|by apply wp_ret]. }
    eapply wp_mark; [apply lookup_insert_eq|by eexists|]. rewrite insert_insert_eq, <- app_assoc. exists m2.
    split_and!; [done|by eapply goes_trans|]. intros x [Hx| ->%list_elem_of_singleton]%elem_of_app.
    + destruct (Hm1 x Hx) as [? Hsrc]. split; [by eapply unmapped_goes|]. intros Hs. apply (gs_src _ _ Hg2), Hsrc, Hs.
    + unfold m2. split.
      * destruct (Node.isSource nd); by apply forget_unmapped.
      * intros Hs. apply (node_is_source _ _ Hn) in Hs as ->. cbn. set_solver.
  - intros s (m1 & -> & Hg1 & Hm1). apply wp_bind. eapply wp_setRule; [apply lookup_insert_eq|]. rewrite insert_insert_eq. apply wp_ret.
    split; [done|]. exists m1. split_and!; [|done|done]. f_equal. f_equal.
    change (Rule.assignInputs _ _ (partial rd ?l 0)) with (partial rd l (length (implicits rd))).
    assert (length (implicits rd) = Rule.numImplicitDeps_ rd) as ->.
    { unfold implicits. rewrite length_drop. pose proof (so_implicit _ Hok c rd Hc). lia. }
    unfold explicits, implicits. rewrite take_drop. by eapply partial_all.
Qed.

Lemma rule_same m : R0 !! c = Some rd → returns (updateRule_with wm_fuel updateNode fuel c newR)
  (λ r s, r = false ∧ ∃ m', s = reloader_at R0 ro m' ∧ goes m m' ∧ (∀ i, i ∈ explicits rd → i ∈ m_seen m') ∧
     ∀ i, i ∈ implicits rd → unmapped i m' ∧ (is_source g i → i ∈ m_src m'))
  (reloader_at R0 ro m).
Proof using All.
  intros Hr. apply wp_bind. eapply wp_rule; [exact Hr|]. apply wp_bind. eapply wp_setRule; [exact Hr|].
  apply wp_bind. eapply wp_mono; [apply inputs_same| |done]. intros r s (-> & m1 & -> & Hg1 & Hs1).
  apply wp_bind. eapply wp_mono; [apply outputs_same| |done]. intros r s (-> & m2 & -> & Hg2).
  apply wp_bind. eapply wp_rule; [apply lookup_insert_eq|]. apply wp_bind. eapply wp_rule; [by rewrite lookup_insert_ne|].
  apply wp_bind. cbn [partial Rule.command_ Rule.assignReady Rule.assignInputs]. rewrite bool_decide_eq_true_2 by apply Hsame. apply wp_ret.
  apply wp_bind. eapply wp_mono; [apply depfiles_same| |done]. intros r s (-> & m3 & -> & Hg3 & Hm3).
  apply wp_bind, wp_ret, wp_ret. split; [done|]. exists m3. rewrite insert_id by done. split_and!; [done| | |done].
  - eapply goes_trans; [exact Hg1|]. by eapply goes_trans.
  - intros i Hi. apply (gs_seen _ _ Hg3), (gs_seen _ _ Hg2). by apply Hs1.
Qed.
End rule.

(** ** The traversal *)

Hypothesis Hok : structure_ok g.
Hypothesis Hcount : counters_ok g.
Hypothesis Hun : unchanged g new.
Hypothesis Hrank : ∀ i o, feeds g i o → rank i < rank o.

Lemma child_unique n r rd r' rd' : child_of g n r rd → child_of g n r' rd' → r' = r ∧ rd' = rd.
Proof using Type. intros (nd & Hn & Hc & Hr) (nd' & Hn' & Hc' & Hr'). simplify_eq. naive_solver. Qed.
Lemma child_output n r rd : child_of g n r rd → n ∈ Rule.outputs_ rd.
Proof using Hok. intros (nd & Hn & Hc & Hr). destruct (so_child _ Hok n nd r Hn Hc) as (rd' & Hr' & Ho). by simplify_eq. Qed.
Lemma source_no_child n r rd : is_source g n → ¬ child_of g n r rd.
Proof using Type. intros (nd & Hn & Hc) (nd' & Hn' & Hc' & _). congruence. Qed.

(** The rules are where they are needed. *)
Lemma agrees_rule k R n r rd : agrees k R → child_of g n r rd → rank n ≤ k → R !! r = Some rd.
Proof using Hok.
  intros Hag Hc Hk. pose proof (child_output _ _ _ Hc) as Ho. destruct Hc as (nd & Hn & Hc & Hr). rewrite Hag; [done|].
  intros (rd' & Hr' & _ & Hb). assert (rd' = rd) as -> by congruence. specialize (Hb n Ho). lia.
Qed.
Lemma agrees_new k R n r rd : agrees k R → listed g new n → child_of g n r rd → R !! r = Some rd.
Proof using Hun.
  intros Hag Hl Hc. pose proof Hc as (nd & Hn & Hch & Hr). rewrite Hag; [done|].
  intros (rd' & Hr' & (o & Ho & Hlo) & _). assert (rd' = rd) as -> by congruence.
  eapply (un_disjoint _ _ Hun o); [done|]. by eapply (wh_outputs _ _ (un_new _ _ Hun) n).
Qed.
Lemma agrees_apart R n r rd i x : agrees (rank n) R → listed g G n → child_of g n r rd → i ∈ Rule.inputs_ rd → agrees (rank i) (<[r := x]> R).
Proof using Hok Hrank.
  intros Hag Hl Hc Hi r' Hb. pose proof (child_output _ _ _ Hc) as Ho. destruct Hc as (nd & Hn & Hch & Hr).
  assert (Hlt : ∀ o, o ∈ Rule.outputs_ rd → rank i < rank o) by (intros o Ho'; apply Hrank; by exists r, rd).
  rewrite lookup_insert_ne.
  - apply Hag. intros (rd' & Hr' & Hex & Hall). apply Hb. exists rd'. split_and!; [done|done|]. intros o Ho'. specialize (Hall o Ho'). specialize (Hlt n Ho). lia.
  - intros ->. apply Hb. exists rd. split_and!; [done|by exists n|done].
Qed.

Lemma update_same fuel n n' : rank n < fuel → listed g G n → listed g new n' → same_path g n n' →
  harmless (updateSubGraph wm_fuel fuel) n n'.
Proof using All.
  revert n n'. induction fuel as [|fuel IH]; intros n n' Hf Hl Hl' Hp; [lia|]. intros R ro m Hag Hm. cbn [updateSubGraph].
  apply wp_bind, wp_mget. cbn [nodesSeen_ reloader_at]. case_bool_decide as Hseen.
  { apply wp_ret. split; [done|]. exists m. split_and!; [done|apply goes_refl|done]. }
  apply wp_bind, wp_modify. change (set_nodesSeen _ _) with (reloader_at R ro (seen n m)).
  destruct (listed_path n Hl) as (nd & Hn & Hpath & Hmap). pose proof Hl' as (nn & Hnn & _).
  apply wp_bind. eapply wp_node; [exact Hn|]. apply wp_bind. eapply wp_node; [exact Hnn|]. apply wp_bind.
  eapply (wp_mono _ (λ r s, r = false ∧ ∃ m', s = reloader_at R ro m' ∧ goes (seen n m) m' ∧ finished m' n) _ (λ _ _, False)); [| |done].
  - destruct (un_child _ _ Hun n n' Hl Hl' Hp) as [[Hs Hs']|(r & rd & r' & rd' & Hc & Hc' & Hsame)].
    + destruct Hs' as (nn' & Hnn' & Hch'). assert (nn' = nn) as -> by congruence. rewrite Hch'.
      assert (Node.isSource nd = true) as -> by (by apply (node_is_source n nd Hn)). apply wp_bind, wp_source, wp_ret. split; [done|].
      exists (add_source n (seen n m)). split_and!; [done|by apply goes_source|]. split; [cbn; set_solver|done| |];
        intros r rd i Hc; by destruct (source_no_child n r rd Hs).
    + pose proof Hc as (nd1 & Hn1 & Hch & Hr). assert (nd1 = nd) as -> by congruence.
      pose proof Hc' as (nn1 & Hnn1 & Hch' & Hr'). assert (nn1 = nn) as -> by congruence.
      rewrite Hch', Hch. apply wp_bind, wp_ret, wp_bind.
      eapply wp_mono; [apply (rule_same r r' rd rd' fuel (updateSubGraph wm_fuel fuel) R ro); try done| |done].
      * by eapply agrees_new.
      * intros ->. assert (rd' = rd) as -> by congruence. apply (un_disjoint _ _ Hun n); [done|].
        eapply (wh_outputs _ _ (un_new _ _ Hun) n'); [done|done|]. by eapply child_output.
      * intros i. by eapply (wh_inputs _ _ (un_old _ _ Hun) n).
      * intros o. by eapply (wh_outputs _ _ (un_old _ _ Hun) n).
      * intros i x. by eapply agrees_apart.
      * intros i i' Hi Hi' Hpi. assert (i ∈ Rule.inputs_ rd) as Hii by by apply explicit_input. apply IH; [|by eapply (wh_inputs _ _ (un_old _ _ Hun) n)|by eapply (wh_inputs _ _ (un_new _ _ Hun) n')|done].
        assert (rank i < rank n); [|lia]. apply Hrank. exists r, rd. split_and!; [done|done|]. by eapply child_output.
      * by eapply agrees_rule.
      * intros b s (-> & m2 & -> & Hg & Hex & Him). apply wp_bind. eapply wp_node; [exact Hn|]. apply wp_bind, wp_ret, wp_ret.
        split; [done|]. exists m2. split_and!; [done|done|]. split.
        -- intros Hs. by destruct (source_no_child n r rd Hs).
        -- by eapply unmapped_goes.
        -- intros r1 rd1 i Hc1 Hi. destruct (child_unique _ _ _ _ _ Hc Hc1) as [-> ->]. by apply Hex.
        -- intros r1 rd1 i Hc1 Hi. destruct (child_unique _ _ _ _ _ Hc Hc1) as [-> ->]. by apply Him.
  - intros b s (-> & m2 & -> & Hg & Hfin). apply wp_bind, wp_ret, wp_bind. eapply wp_setNodes; [exact Hmap|]. apply wp_ret. split; [done|].
    exists m2. split_and!; [done| |apply (gs_seen _ _ Hg); cbn; set_solver]. destruct Hg as [Hg1 Hg2 Hg3 Hg4 Hg5].
    split; [done|done|cbn in Hg3; set_solver|done|]. intros x Hx. destruct (Hg5 x Hx) as [[->%elem_of_singleton|?]%elem_of_union|?]; auto.
Qed.

(** *** The roots, and what was not met *)

Lemma root_listed n : n ∈ Graph.roots_ G → listed g G n.
Proof using Hun. apply (wh_roots _ _ (un_old _ _ Hun)). Qed.

Lemma roots_same fuel seen0 orig0 : (∀ n, listed g G n → rank n < fuel) → seen0 = ∅ →
  returns (updateRoots wm_fuel fuel) (λ _ s, ∃ m, s = reloader_at (g_rules g) (Graph.roots_ G) m ∧ goes (Marks ∅ (Graph.nodes_ G) ∅) m ∧
    ∀ n, n ∈ Graph.roots_ G → n ∈ m_seen m) (mkReloader w0 new orig0 seen0).
Proof using All.
  intros Hfuel ->. apply wp_bind, wp_zoom, wp_zoom, wp_gets. apply wp_bind, wp_modify.
  apply wp_bind, wp_zoom, wp_zoom, wp_updGraph. apply wp_bind, wp_zoom, wp_zoom, wp_updGraph. apply wp_bind, wp_mget.
  set (m0 := Marks ∅ (Graph.nodes_ G) ∅).
  lazymatch goal with |- wp ?c ?Q ?E _ => change (wp c Q E (reloader_at (g_rules g) ∅ m0)) end.
  eapply (wp_foreach (λ pre s, ∃ ro m, s = reloader_at (g_rules g) ro m ∧ goes m0 m ∧ (∀ n, n ∈ ro → n ∈ m_seen m) ∧
    ∀ n, n ∈ ro ↔ listed g G n ∧ ∃ n', n' ∈ pre ∧ same_path g n n')).
  - exists ∅, m0. split_and!; [done|apply goes_refl|set_solver|set_solver].
  - intros pre n' post s Heq (ro & m & -> & Hg & Hro & Hpre).
    assert (Hl' : listed g new n').
    { apply (wh_roots _ _ (un_new _ _ Hun)), elem_of_set_elems. cbn in Heq. rewrite Heq. set_solver. }
    destruct (un_found _ _ Hun n' Hl') as (n & Hl & Hp). apply wp_bind. eapply wp_getNodeFromAll; [exact Hl|exact Hp|]. intros p Hpath.
    apply wp_bind. eapply wp_mono; [apply (update_same fuel n n'); [by apply Hfuel|done|done|done|by intros r _|by apply forget_unmapped]| |done].
    intros r s (-> & m1 & -> & Hg1 & Hn1). cbn [mwhen]. apply wp_bind, wp_ret. apply wp_onHeap, wp_updGraph.
    exists ({[n]} ∪ ro), m1. split_and!; [done| | |].
    + eapply goes_trans; [exact Hg|]. by eapply goes_trans; [apply goes_forget|].
    + intros x [->%elem_of_singleton|Hx]%elem_of_union; [done|]. apply (gs_seen _ _ Hg1). by apply Hro.
    + intros x. rewrite elem_of_union, elem_of_singleton, Hpre. split.
      * intros [->|(Hlx & y & Hy & Hpy)]; (split; [done|]); [exists n'|exists y]; (split; [set_solver|done]).
      * intros (Hlx & y & [Hy| ->%list_elem_of_singleton]%elem_of_app & Hpy); [right; split; [done|by exists y]|]. left.
        destruct (listed_path x Hlx) as (xd & Hx & Hpx & Hmx), (listed_path n Hl) as (nd & Hn & Hpn & Hmn). unfold same_path in *. congruence.
  - intros s (ro & m & -> & Hg & Hro & Hpre). assert (ro = Graph.roots_ G) as ->; [|by exists m].
    apply set_eq. intros n. rewrite Hpre, (un_roots _ _ Hun n). cbn. split.
    + intros (Hl & n' & Hn' & Hp). exists n'. rewrite elem_of_set_elems in Hn'. by split_and!.
    + intros (n' & Hn' & Hl & Hp). split; [done|]. exists n'. by rewrite elem_of_set_elems.
Qed.

(** Everything is met. *)
Lemma all_met m : goes (Marks ∅ (Graph.nodes_ G) ∅) m → (∀ n, n ∈ Graph.roots_ G → n ∈ m_seen m) →
  m_orig m = ∅ ∧ m_src m = Graph.sources_ G.
Proof using Hun.
  clear Hok Hcount Hrank rank. intros Hg Hroots. assert (Hfin : ∀ n, n ∈ m_seen m → finished m n) by (intros n Hn; by destruct (gs_finished _ _ Hg n Hn)).
  assert (Hseen : ∀ n, explored g n → n ∈ m_seen m).
  { intros n He. induction He as [n Hn|n r rd i He IH Hc Hi]; [by apply Hroots|]. by eapply (fi_explicit _ _ (Hfin n IH)). }
  assert (Hkept : ∀ n, listed g G n → unmapped n m ∧ (is_source g n → n ∈ m_src m)).
  { intros n Hl. destruct (un_kept _ _ Hun n Hl) as [He|(x & r & rd & He & Hc & Hi)].
    - pose proof (Hfin n (Hseen n He)) as Hf. split; [apply Hf|apply Hf].
    - by eapply (fi_implicit _ _ (Hfin x (Hseen x He))). }
  pose proof (un_old _ _ Hun) as Hold. split.
  - apply map_eq. intros p. rewrite lookup_empty. destruct (m_orig m !! p) as [n|] eqn:E; [|done]. exfalso.
    pose proof (lookup_weaken _ _ _ _ E (gs_orig _ _ Hg)) as Hp. cbn in Hp. pose proof (wh_nodes _ _ Hold p n Hp) as Hpath.
    assert (Hl : listed g G n).
    { unfold path_of in Hpath. destruct (g_nodes g !! n) as [nd|] eqn:Hn; [|done]. exists nd. split; [done|]. by injection Hpath as ->. }
    destruct (Hkept n Hl) as [Hu _]. specialize (Hu p Hpath). congruence.
  - apply set_eq. intros n. rewrite (wh_sources _ _ Hold n). split.
    + intros Hn. destruct (gs_found _ _ Hg n Hn) as [Hn'|?]; [set_solver|done].
    + intros [Hl Hs]. by apply Hkept.
Qed.
End traversal.

(** C29: reloading a graph file that says what the daemon's graph says leaves the graph,
    the files and watchman as they were: the heap after [updateGraph] is the heap
    before it. *)
Theorem reload_unchanged `{Allocator} `{SHA256} `{WatchEnv} `{DirTime} `{NodeOrder} wm_fuel fuel w new orig0 :
  structure_ok (w_g w) → counters_ok (w_g w) → acyclic (w_g w) → unchanged (w_g w) new → size (g_nodes (w_g w)) ≤ fuel →
  returns (GraphReloader.updateGraph wm_fuel fuel) (λ _ s, rl_w s = w) (mkReloader w new orig0 ∅).
Proof.
  intros Hok Hcount Hac Hun Hfuel. destruct (acyclic_bounded _ Hok Hac) as (rank & Hrank & Hbound).
  apply wp_bind.
  eapply wp_mono; [apply (roots_same wm_fuel w new rank Hok Hcount Hun Hrank); [|done]| |done].
  - intros n (nd & Hn & _). assert (rank n < size (g_nodes (w_g w))); [|lia]. apply Hbound. by eexists.
  - intros [] s (m & -> & Hg & Hroots). destruct (all_met w new Hun m Hg Hroots) as [Ho Hs]. apply wp_bind, wp_mget. cbn [originalNodes_ reloader_at].
    rewrite Ho. assert (node_order ∅ = []) as ->.
    { apply Permutation_nil. by rewrite node_order_perm, map_to_list_empty. }
    apply wp_ret. unfold reloader_at, heap_at. rewrite Hs. by destruct w as [[? ? []] ? ? ? ?].
Qed.

(** ** An example *)

Section checks.
Context (g : GState) (new : Graph.t).

Definition listedb (G : Graph.t) (n : N) : bool := on_node g n (λ nd, bool_decide (Graph.nodes_ G !! Node.path_ nd = Some n)).
Definition childb (n : N) : option (option (N * Rule.t)) :=
  nd ← g_nodes g !! n; match Node.childRule_ nd with None => Some None | Some r => rd ← g_rules g !! r; Some (Some (r, rd)) end.
Definition nodes_of (G : Graph.t) : list N := (map_to_list (Graph.nodes_ G)).*2.

Definition check_whole (G : Graph.t) : bool :=
  forallb (λ pn, bool_decide (path_of g pn.2 = Some pn.1)) (map_to_list (Graph.nodes_ G)) &&
  forallb (listedb G) (elements (Graph.roots_ G)) && forallb (listedb G) (elements (Graph.sources_ G)) &&
  forallb (λ n, match childb n with
    | Some None => bool_decide (n ∈ Graph.sources_ G)
    | Some (Some (r, rd)) => bool_decide (n ∉ Graph.sources_ G) && forallb (listedb G) (Rule.inputs_ rd) && forallb (listedb G) (Rule.outputs_ rd)
    | None => false
    end) (nodes_of G).

Lemma listedb_true G n : listedb G n = true ↔ listed g G n.
Proof.
  unfold listedb, on_node, listed. destruct (g_nodes g !! n) as [nd|]; [|split; [done|by intros (nd & ? & _)]].
  rewrite bool_decide_eq_true. split; [by exists nd|]. by intros (nd' & [= ->] & ?).
Qed.
Lemma listed_nodes G n : listed g G n → n ∈ nodes_of G.
Proof. intros (nd & _ & Hp). apply list_elem_of_fmap. exists (Node.path_ nd, n). split; [done|]. by apply elem_of_map_to_list. Qed.
Lemma childb_child n r rd : child_of g n r rd → childb n = Some (Some (r, rd)).
Proof. intros (nd & Hn & Hc & Hr). unfold childb. rewrite Hn. simpl. rewrite Hc. simpl. by rewrite Hr. Qed.
Lemma childb_source n : is_source g n ↔ childb n = Some None.
Proof.
  unfold childb, is_source. destruct (g_nodes g !! n) as [nd|]; simpl; [|split; [by intros (? & ? & _)|done]].
  destruct (Node.childRule_ nd) as [r|] eqn:E; [|split; [done|by exists nd]]. split.
  - intros (nd' & [= ->] & ?). congruence.
  - destruct (g_rules g !! r); simpl; discriminate.
Qed.

Lemma check_whole_sound G : check_whole G = true → whole g G.
Proof.
  unfold check_whole. rewrite !andb_true_iff. intros [[[Hpaths Hroots] Hsources] Hnodes].
  assert (Hn : ∀ n, listed g G n → match childb n with
    | Some None => bool_decide (n ∈ Graph.sources_ G)
    | Some (Some (r, rd)) => bool_decide (n ∉ Graph.sources_ G) && forallb (listedb G) (Rule.inputs_ rd) && forallb (listedb G) (Rule.outputs_ rd)
    | None => false end = true) by (intros n Hl; exact (forallb_elem _ _ _ Hnodes (listed_nodes G n Hl))).
  assert (Hc : ∀ n r rd, listed g G n → child_of g n r rd → forallb (listedb G) (Rule.inputs_ rd) = true ∧ forallb (listedb G) (Rule.outputs_ rd) = true).
  { intros n r rd Hl Hc. specialize (Hn n Hl). rewrite (childb_child n r rd Hc), !andb_true_iff in Hn. naive_solver. }
  split.
  - intros p n Hp. apply elem_of_map_to_list in Hp. by apply (forallb_elem _ _ _ Hpaths), bool_decide_eq_true in Hp.
  - intros n Hr. apply listedb_true, (forallb_elem _ _ _ Hroots). by apply elem_of_elements.
  - intros n. split.
    + intros Hs. assert (Hl : listed g G n) by (apply listedb_true, (forallb_elem _ _ _ Hsources); by apply elem_of_elements). split; [done|].
      specialize (Hn n Hl). apply childb_source. destruct (childb n) as [[[r rd]|]|]; [|done|done].
      rewrite !andb_true_iff, bool_decide_eq_true in Hn. naive_solver.
    + intros [Hl Hs%childb_source]. specialize (Hn n Hl). rewrite Hs in Hn. by apply bool_decide_eq_true in Hn.
  - intros n r rd i Hl Hc' Hi. destruct (Hc n r rd Hl Hc') as [Hin _]. by apply listedb_true, (forallb_elem _ _ _ Hin).
  - intros n r rd o Hl Hc' Ho. destruct (Hc n r rd Hl Hc') as [_ Hout]. by apply listedb_true, (forallb_elem _ _ _ Hout).
Qed.

Definition check_rule (rd rd' : Rule.t) : bool :=
  bool_decide (path_of g <$> explicits rd = path_of g <$> Rule.inputs_ rd') && bool_decide (path_of g <$> Rule.outputs_ rd = path_of g <$> Rule.outputs_ rd') &&
  bool_decide (Rule.command_ rd = Rule.command_ rd') && bool_decide (Rule.depfile_ rd = Rule.depfile_ rd').
Definition check_child (n n' : N) : bool :=
  match childb n, childb n' with
  | Some None, Some None => true
  | Some (Some (_, rd)), Some (Some (_, rd')) => check_rule rd rd'
  | _, _ => false
  end.
(** The nodes explored in [k] rounds. *)
Fixpoint explore (k : nat) (l : list N) : list N :=
  match k with
  | O => l
  | S k => explore k (l ++ flat_map (λ n, match childb n with Some (Some (_, rd)) => explicits rd | _ => [] end) l)
  end.
Definition check_kept (k : nat) : bool :=
  let l := explore k (elements (Graph.roots_ (g_graph g))) in
  forallb (λ n, bool_decide (n ∈ l) || existsb (λ m, match childb m with Some (Some (_, rd)) => bool_decide (n ∈ implicits rd) | _ => false end) l)
    (nodes_of (g_graph g)).
Definition check_unchanged (k : nat) : bool :=
  let old := nodes_of (g_graph g) in
  let news := nodes_of new in
  check_whole (g_graph g) && check_whole new && forallb (λ n, bool_decide (n ∉ news)) old &&
  forallb (λ n', existsb (λ n, listedb (g_graph g) n && bool_decide (path_of g n = path_of g n')) old) news &&
  forallb (λ n, forallb (λ n', implb (bool_decide (path_of g n = path_of g n')) (check_child n n')) news) old &&
  forallb (λ n, Bool.eqb (bool_decide (n ∈ Graph.roots_ (g_graph g)))
    (existsb (λ n', bool_decide (path_of g n = path_of g n')) (elements (Graph.roots_ new)))) old && check_kept k.

Lemma same_paths l l' : path_of g <$> l = path_of g <$> l' → Forall2 (same_path g) l l'.
Proof. revert l'. induction l as [|x l IH]; intros [|y l'] Heq; try done. injection Heq as Hx Hl. constructor; [done|by apply IH]. Qed.
Lemma childb_inv n r rd : childb n = Some (Some (r, rd)) → child_of g n r rd.
Proof.
  unfold childb. intros Hc. destruct (g_nodes g !! n) as [nd|] eqn:Hn; [|done]. simpl in Hc. destruct (Node.childRule_ nd) as [r'|] eqn:E; [|done].
  destruct (g_rules g !! r') as [rd'|] eqn:Hr; [|done]. simpl in Hc. simplify_eq. by exists nd.
Qed.
Lemma existsb_elem {A} (p : A → bool) (l : list A) : existsb p l = true ↔ ∃ x, x ∈ l ∧ p x = true.
Proof. rewrite existsb_exists. by setoid_rewrite list_elem_of_In. Qed.
Lemma explore_sound k l : (∀ n, n ∈ l → explored g n) → ∀ n, n ∈ explore k l → explored g n.
Proof.
  revert l. induction k as [|k IH]; intros l Hl; simpl; [done|]. apply IH. intros n [Hn|Hn]%elem_of_app; [by apply Hl|].
  apply list_elem_of_In, in_flat_map in Hn as (m & Hm%list_elem_of_In & Hn). destruct (childb m) as [[[r rd]|]|] eqn:E; [|done|done].
  apply list_elem_of_In in Hn. eapply explored_input; [by apply Hl|by apply childb_inv|done].
Qed.
Lemma check_kept_sound k n : check_kept k = true → n ∈ nodes_of (g_graph g) → kept g n.
Proof.
  intros Hk Hn. pose proof (forallb_elem _ _ _ Hk Hn) as H. cbv beta in H.
  assert (He : ∀ m, m ∈ explore k (elements (Graph.roots_ (g_graph g))) → explored g m).
  { apply explore_sound. intros m Hm%elem_of_elements. by apply explored_root. }
  apply orb_prop in H as [H%bool_decide_eq_true|(m & Hm & H)%existsb_elem]; [left; by apply He|right].
  destruct (childb m) as [[[r rd]|]|] eqn:E; [|done|done]. apply bool_decide_eq_true in H. exists m, r, rd. split_and!; [by apply He|by apply childb_inv|done].
Qed.

Lemma check_unchanged_sound k : check_unchanged k = true → unchanged g new.
Proof.
  unfold check_unchanged. rewrite !andb_true_iff. intros [[[[[[Ho%check_whole_sound Hn%check_whole_sound] Hd] Hf] Hc] Hr] Hk]. split; [done|done| | | | |].
  - intros n Hl%listed_nodes Hl'%listed_nodes. pose proof (forallb_elem _ _ _ Hd Hl) as H. by apply bool_decide_eq_true in H.
  - intros n' Hl'%listed_nodes. pose proof (forallb_elem _ _ _ Hf Hl') as H. apply existsb_elem in H as (n & _ & [Hl Hp]%andb_true_iff).
    exists n. split; [by apply listedb_true|by apply bool_decide_eq_true in Hp].
  - intros n n' Hl%listed_nodes Hl'%listed_nodes Hp. pose proof (forallb_elem _ _ _ Hc Hl) as H. cbv beta in H.
    pose proof (forallb_elem _ _ _ H Hl') as H'. cbv beta in H'. rewrite bool_decide_eq_true_2 in H' by done. simpl in H'. unfold check_child in H'.
    destruct (childb n) as [[[r rd]|]|] eqn:E, (childb n') as [[[r' rd']|]|] eqn:E'; try done.
    + right. exists r, rd, r', rd'. split_and!; [by apply childb_inv|by apply childb_inv|].
      unfold check_rule in H'. open_checks. split; [by apply same_paths|by apply same_paths|done|done].
    + left. split; by apply childb_source.
  - intros n. assert (Hiff : listed g (g_graph g) n → n ∈ Graph.roots_ (g_graph g) ↔ ∃ n', n' ∈ Graph.roots_ new ∧ same_path g n n').
    { intros Hl%listed_nodes. pose proof (forallb_elem _ _ _ Hr Hl) as H. apply Bool.eqb_prop in H.
      rewrite <- (bool_decide_eq_true (n ∈ Graph.roots_ (g_graph g))), H, existsb_elem. apply exist_proper. intros n'.
      by rewrite elem_of_elements, bool_decide_eq_true. }
    split.
    + intros Hin. pose proof (wh_roots _ _ Ho n Hin) as Hl. apply (Hiff Hl) in Hin as (n' & ? & ?). by exists n'.
    + intros (n' & Hin & Hl & Hp). apply (Hiff Hl). by exists n'.
  - intros n Hl%listed_nodes. by eapply check_kept_sound.
Qed.
End checks.

(** A source, a rule with two outputs and a header found in its depfile, and a rule that
    reads both outputs: as the daemon has them, and as they were just parsed. *)
Definition twin_graphs : GState :=
  mkG (list_to_map
        [(1%N, mk_node "source" None [10%N] OUT_OF_DATE); (2%N, mk_node "header" None [10%N] UP_TO_DATE);
         (3%N, mk_node "o1" (Some 10%N) [11%N] OUT_OF_DATE); (4%N, mk_node "o2" (Some 10%N) [11%N] UP_TO_DATE); (5%N, mk_node "all" (Some 11%N) [] OUT_OF_DATE);
         (21%N, mk_node "source" None [30%N] UP_TO_DATE); (23%N, mk_node "o1" (Some 30%N) [31%N] UP_TO_DATE);
         (24%N, mk_node "o2" (Some 30%N) [31%N] UP_TO_DATE); (25%N, mk_node "all" (Some 31%N) [] UP_TO_DATE)])
      (list_to_map
        [(10%N, Rule.mk [1%N; 2%N] [3%N; 4%N] 1 "cc" "deps" OUT_OF_DATE "" "" 0 2); (11%N, mk_rule [3%N; 4%N] [5%N] "" OUT_OF_DATE 1);
         (30%N, Rule.mk [21%N] [23%N; 24%N] 0 "cc" "deps" UP_TO_DATE "" "" 0 1); (31%N, mk_rule [23%N; 24%N] [25%N] "" UP_TO_DATE 2)])
      (Graph.mk {[5%N]} {[1%N; 2%N]} (list_to_map [("source", 1%N); ("header", 2%N); ("o1", 3%N); ("o2", 4%N); ("all", 5%N)]) [10%N; 11%N]).
Definition twin_new : Graph.t :=
  Graph.mk {[25%N]} {[21%N]} (list_to_map [("source", 21%N); ("o1", 23%N); ("o2", 24%N); ("all", 25%N)]) [30%N; 31%N].
Definition twin_rank (n : N) : nat := match n with 1%N | 2%N | 21%N => 0 | 5%N | 25%N => 2 | _ => 1 end.
Definition twin_world : World := world_of twin_graphs (mkFS ∅ (λ _, true) 8).

Lemma reload_unchanged_witness :
  returns (@GraphReloader.updateGraph first_fit sum_sha silent_env no_dirs sorted_order 500 9) (λ _ s, rl_w s = twin_world)
    (mkReloader twin_world twin_new ∅ ∅).
Proof.
  apply (@reload_unchanged first_fit sum_sha silent_env no_dirs sorted_order).
  - apply check_structure_sound. vm_compute. reflexivity.
  - apply check_counters_sound. vm_compute. reflexivity.
  - apply (check_rank_sound _ twin_rank). vm_compute. reflexivity.
  - apply (check_unchanged_sound _ _ 3). vm_compute. reflexivity.
  - vm_compute. lia.
Defined.
