(* ===== verification/GraphPrinters.v ===== *)
(** * The modules make and dot (graph_printers.cpp)

    The graph as a Makefile and as a Graphviz file.  An [std::ostream] is the string
    written to it.  On a well-formed graph the printers change nothing and write what
    the functions [makefile_rule], [dot_node] and [dot_rule] say. *)

From Stdlib Require Import Ascii.
From S2P Require Import Prelude GraphModel GraphChecks.

#[local] Open Scope string_scope.

(** [std::endl], and characters that are awkward in a string. *)
Definition endl : string := String (ascii_of_N 10) "".
Definition tab : string := String (ascii_of_N 9) "".
Definition dq : string := String (ascii_of_N 34) "".

(** A loop over an array that prints with [show] what its elements point at. *)
Definition print_nodes (l : list N) (show : Node.t → string) (os : string) : M GState string :=
  foldM l os (λ os n, nd ← readNode n; mret (os ++ show nd)).

(** ** The Makefile printer *)

Definition printRuleMakefile (rule : N) (os : string) : M GState string :=
  r ← readRule rule;
  os ← print_nodes (Rule.outputs_ r) (λ o, Node.path_ o ++ " ") os;
  os ← print_nodes (Rule.inputs_ r) (λ i, Node.path_ i ++ " ") (os ++ ": ");
  mret (os ++ endl ++ tab ++ Rule.command_ r ++ endl).
Definition printGraphMakefile (os : string) : M GState string :=
  g ← gets g_graph;
  foldM (Graph.rules_ g) os (λ os rule, printRuleMakefile rule os).

(** ** The Graphviz printer *)

Definition color (st : State) : string := if bool_decide (st = OUT_OF_DATE) then "red" else "black".
(** A name with the label of a node or a rule. *)
Definition dot_label (hash label col : string) : string :=
  dq ++ hash ++ dq ++ " [label=" ++ dq ++ label ++ dq ++ "  color=" ++ dq ++ col ++ dq ++ "  fillcolor=" ++ dq ++ "white" ++ dq ++ " ]" ++ endl.
Definition printNodeGraphviz (n : Node.t) : string :=
  "node [fontsize=10, shape=box, height=0.25, style=filled]" ++ endl ++
  dot_label (Node.hash_ n) (Node.path_ n) (color (Node.state_ n)).

(** [inputs.size() - r.getNumImplicitInputs()] is a [size_t]. *)
Definition num_explicit (r : Rule.t) : N :=
  ((N.of_nat (length (Rule.inputs_ r)) + 2 ^ 64 - N.of_nat (Rule.numImplicitDeps_ r)) mod 2 ^ 64)%N.
Definition dot_input (r : Rule.t) (i : nat) (input : Node.t) : string :=
  let shape := if bool_decide (N.of_nat i < num_explicit r)%N then "solid" else "dashed" in
  dq ++ Node.hash_ input ++ dq ++ " ->" ++ dq ++ Rule.hash_ r ++ dq ++ " [ color=" ++ dq ++ color (Node.state_ input) ++ dq ++
    ", style=" ++ shape ++ " ]" ++ endl.
Definition dot_output (r : Rule.t) (output : Node.t) : string :=
  "edge [fontsize=10, arrowhead=vee]" ++ endl ++
  dq ++ Rule.hash_ r ++ dq ++ " ->" ++ dq ++ Node.hash_ output ++ dq ++ " [ color=" ++ dq ++ color (Rule.state_ r) ++ dq ++ ", style=solid]" ++ endl.
Definition dot_rule_head (r : Rule.t) : string :=
  (if Rule.isPhony r then "node [fontsize=10, shape=circle, height=0.25, style=" ++ dq ++ "filled, dashed" ++ dq ++ "]"
   else "node [fontsize=10, shape=circle, height=0.25, style=filled]") ++ endl ++
  dot_label (Rule.hash_ r) (String.substring 0 5 (Rule.hash_ r)) (color (Rule.state_ r)).

Definition printRuleGraphviz (rule : N) (os : string) : M GState string :=
  r ← readRule rule;
  os ← foldM (imap pair (Rule.inputs_ r)) (os ++ dot_rule_head r)
    (λ os '(i, n), input ← readNode n; mret (os ++ dot_input r i input));
  print_nodes (Rule.outputs_ r) (dot_output r) os.
Definition printGraphGraphviz (os : string) : M GState string :=
  g ← gets g_graph;
  os ← print_nodes (map_to_list (Graph.nodes_ g)).*2 printNodeGraphviz
    (os ++ "digraph Falcon {" ++ endl ++ "rankdir=" ++ dq ++ "LR" ++ dq ++ endl ++ "edge [fontsize=10, arrowhead=vee]" ++ endl);
  os ← foldM (Graph.rules_ g) os (λ os rule, printRuleGraphviz rule os);
  mret (os ++ "}" ++ endl).

(** ** loadModule (main.cpp)

    What is printed, and the code [main] returns. *)
Definition loadModule (s : string) : M GState (string * Z) :=
  if bool_decide (s = "dot") then os ← printGraphGraphviz ""; mret (os, 0%Z)
  else if bool_decide (s = "make") then os ← printGraphMakefile ""; mret (os, 0%Z)
  else if bool_decide (s = "help") then
    mret ("list of available modules: " ++ endl ++ "  dot    show the graph in DOT format" ++ endl ++
          "  make   show the graph in Makefile format" ++ endl, 0%Z)
  else mret ("", 1%Z).

(** ** What is written *)

Section text.
Context (s : GState).
Definition node_text (show : Node.t → string) (n : N) : string := match g_nodes s !! n with Some nd => show nd | None => "" end.
Definition rule_text (show : Rule.t → string) (r : N) : string := match g_rules s !! r with Some rd => show rd | None => "" end.
Definition concat_map {A} (f : A → string) (l : list A) : string := foldr (λ x t, f x ++ t) "" l.

Definition makefile_rule (r : Rule.t) : string :=
  concat_map (node_text (λ o, Node.path_ o ++ " ")) (Rule.outputs_ r) ++ ": " ++
  concat_map (node_text (λ i, Node.path_ i ++ " ")) (Rule.inputs_ r) ++ endl ++ tab ++ Rule.command_ r ++ endl.
Definition makefile : string := concat_map (rule_text makefile_rule) (Graph.rules_ (g_graph s)).
Definition dot_rule (r : Rule.t) : string :=
  dot_rule_head r ++ concat_map (λ '(i, n), node_text (dot_input r i) n) (imap pair (Rule.inputs_ r)) ++
  concat_map (node_text (dot_output r)) (Rule.outputs_ r).
End text.

Lemma append_assoc_r (a b c : string) : (a ++ b) ++ c = a ++ b ++ c.
Proof. induction a as [|x a IH]; [done|]. exact (f_equal (String x) IH). Qed.
Lemma append_nil_end (a : string) : a ++ "" = a.
Proof. induction a as [|x a IH]; [done|]. exact (f_equal (String x) IH). Qed.

(** A loop that prints a text per element. *)
Lemma foldM_prints {A} (l : list A) (f : A → string) (body : string → A → M GState string) s os :
  (∀ x os, x ∈ l → body os x s = Ret (os ++ f x) s) → foldM l os body s = Ret (os ++ concat_map f l) s.
Proof.
  revert os. induction l as [|x l IH]; intros os Hb; simpl; [by rewrite append_nil_end|].
  unfold mbind, M_bind. rewrite Hb by set_solver. rewrite IH by (intros; apply Hb; set_solver). by rewrite append_assoc_r.
Qed.
Lemma concat_map_ext {A} (f g : A → string) l : (∀ x, x ∈ l → f x = g x) → concat_map f l = concat_map g l.
Proof. induction l as [|x l IH]; intros H; simpl; [done|]. rewrite H, IH by set_solver. done. Qed.

Lemma print_nodes_text l show s os :
  (∀ n, n ∈ l → is_Some (g_nodes s !! n)) → print_nodes l show os s = Ret (os ++ concat_map (node_text s show) l) s.
Proof.
  intros Hl. apply foldM_prints. intros n os' Hn. destruct (Hl n Hn) as [nd Hnd].
  unfold mbind, M_bind, readNode, deref, node_text. by rewrite Hnd.
Qed.

Section printed.
Context (s : GState) (Hok : structure_ok s) (Hg : graph_ok s).

Lemma rule_nodes r rd : g_rules s !! r = Some rd →
  (∀ n, n ∈ Rule.inputs_ rd → is_Some (g_nodes s !! n)) ∧ (∀ n, n ∈ Rule.outputs_ rd → is_Some (g_nodes s !! n)).
Proof.
  intros Hr. split; intros n Hn.
  - destruct (so_input s Hok r rd n Hr Hn) as (nd & ? & _). by eexists.
  - destruct (so_output s Hok r rd n Hr Hn) as (nd & ? & _). by eexists.
Qed.

Lemma printGraphMakefile_text os : printGraphMakefile os s = Ret (os ++ makefile s) s.
Proof.
  unfold printGraphMakefile, mbind at 1, M_bind at 1, gets. apply foldM_prints. intros r os' Hr.
  apply (go_rules s Hg) in Hr as [rd Hr]. destruct (rule_nodes r rd Hr) as [Hi Ho].
  unfold printRuleMakefile, mbind, M_bind, readRule, deref. rewrite Hr, !print_nodes_text by done.
  unfold rule_text. rewrite Hr. unfold makefile_rule. by rewrite !append_assoc_r.
Qed.

Lemma printRuleGraphviz_text r rd os : g_rules s !! r = Some rd → printRuleGraphviz r os s = Ret (os ++ dot_rule s rd) s.
Proof.
  intros Hr. destruct (rule_nodes r rd Hr) as [Hi Ho]. unfold printRuleGraphviz, mbind, M_bind, readRule, deref. rewrite Hr.
  rewrite (foldM_prints _ (λ '(i, n), node_text s (dot_input rd i) n)).
  - rewrite print_nodes_text by done. unfold dot_rule. by rewrite !append_assoc_r.
  - intros [i n] os' (k & x & [= -> ->] & Hx)%elem_of_lookup_imap. apply list_elem_of_lookup_2 in Hx.
    destruct (Hi x Hx) as [nd Hnd]. unfold readNode, deref, node_text. by rewrite Hnd.
Qed.

Definition graphviz : string :=
  "digraph Falcon {" ++ endl ++ "rankdir=" ++ dq ++ "LR" ++ dq ++ endl ++ "edge [fontsize=10, arrowhead=vee]" ++ endl ++
  concat_map (node_text s printNodeGraphviz) (map_to_list (Graph.nodes_ (g_graph s))).*2 ++
  concat_map (rule_text s (dot_rule s)) (Graph.rules_ (g_graph s)) ++ "}" ++ endl.
Lemma printGraphGraphviz_text : printGraphGraphviz "" s = Ret graphviz s.
Proof.
  unfold printGraphGraphviz, mbind, M_bind, gets. rewrite print_nodes_text.
  - rewrite (foldM_prints _ (rule_text s (dot_rule s))); [unfold graphviz; simpl; by rewrite !append_assoc_r|].
    intros r os' [rd Hr]%(go_rules s Hg). rewrite (printRuleGraphviz_text r rd) by done. unfold rule_text. by rewrite Hr.
  - intros n ([p n'] & -> & Hl)%list_elem_of_fmap. apply elem_of_map_to_list, (go_nodes s Hg) in Hl as (nd & ? & _). by eexists.
Qed.

(** What [--module] prints and returns; the graph stays. *)
Definition module_text (m : string) : string * Z :=
  if bool_decide (m = "dot") then (graphviz, 0%Z)
  else if bool_decide (m = "make") then (makefile s, 0%Z)
  else match loadModule m s with Ret x _ => x | _ => ("", 1%Z) end.
Lemma loadModule_text m : loadModule m s = Ret (module_text m) s.
Proof.
  unfold module_text, loadModule. repeat case_bool_decide; try done.
  - unfold mbind, M_bind. by rewrite printGraphGraphviz_text.
  - unfold mbind, M_bind. by rewrite printGraphMakefile_text.
Qed.
End printed.
