(* ===== verification/Daemon.v ===== *)
(** * The daemon (daemon_instance.cpp)

    The commands of the thrift service on the state of the daemon.  [setDirty] is
    what watchman triggers for a changed file, [startBuild] makes the plan that the
    build thread executes.  The theorems compose those of the components: a change of
    a source leaves the graph marked, hashed and consistent; a build is refused for
    stated reasons or starts with the plan of what is needed. *)

From Stdlib Require Import Ascii.
From S2P Require Import Json GraphFile.
From S2P Require Import StreamServer StreamBuild SubProcess.
From S2P Require Import Prelude GraphModel GraphChecks GraphDirty GraphCycle BuildPlan BuildCore BuildSchedule GraphConsistency.
From S2P Require Import DepfileParser Fs Cache Watchman World Hash HashRecompute Scan ScanExact LazyCache Builder GraphParser GraphReloader.

(** The stream server consumes the output of a build. *)
#[export] Instance server_consumer `{Allocator} : Consumer Server := {| consume := exec_event |}.

(** A build that was started: what its thread was constructed with. *)
Record Pending := mkPending { pd_plan : BuildPlan.t; pd_threads : nat; pd_interrupted : bool }.

Inductive StartBuildResult := OK | ERROR | BUSY.
Inductive FalconStatus := BUILDING | IDLE.

Record Daemon := mkDaemon {
  dm_w : World;                 (* [graph_], [cache_], [watchmanClient_] *)
  streamServer_ : Server;
  buildId_ : N;                 (* unsigned *)
  isBuilding_ : bool;
  builder_ : option Pending;    (* [builder_] and [plan_] *)
  sourcesMissing_ : gset N;
}.

Module DaemonInstance.
Section daemon.
Context `{Allocator} `{SHA256} `{WatchEnv} `{BuildEnv} `{DirTime} `{NodeOrder}.
(** [config_] and the bounds on the loops. *)
Variables (jsonGraphFile : string) (wm_fuel fuel : nat).

Definition l_w : lens Daemon World :=
  Lens dm_w (λ w d, mkDaemon w (streamServer_ d) (buildId_ d) (isBuilding_ d) (builder_ d) (sourcesMissing_ d)).
Definition l_server : lens Daemon Server :=
  Lens streamServer_ (λ s d, mkDaemon (dm_w d) s (buildId_ d) (isBuilding_ d) (builder_ d) (sourcesMissing_ d)).
Definition l_wc : lens Daemon (WC Server) :=
  Lens (λ d, mkWC (dm_w d) (streamServer_ d)) (λ x d, lset l_w (wc_w x) (lset l_server (wc_c x) d)).
Definition set_missing (X : gset N) (d : Daemon) : Daemon :=
  mkDaemon (dm_w d) (streamServer_ d) (buildId_ d) (isBuilding_ d) (builder_ d) X.
Definition set_building (id : N) (b : bool) (x : option Pending) (d : Daemon) : Daemon :=
  mkDaemon (dm_w d) (streamServer_ d) id b x (sourcesMissing_ d).
Definition onWorld {A} (m : M World A) : M Daemon A := zoom l_w m.
Definition onHeap {A} (m : M GState A) : M Daemon A := zoom l_w (zoom l_graph m).
Definition theGraph : M Daemon Graph.t := onHeap (gets g_graph).

(** ** Builds *)

(** The names with ", " between them. *)
Fixpoint listing (first : bool) (l : list string) : string :=
  match l with
  | [] => ""
  | x :: l' => ((if first then "" else ", ") +:+ x +:+ listing false l')%string
  end.

Definition paths (l : list N) : M Daemon (list string) :=
  foldM l [] (λ acc n, nd ← onHeap (readNode n); mret (acc ++ [Node.path_ nd])).

Definition checkSourcesMissing : M Daemon unit :=
  d ← mget;
  mwhen (negb (bool_decide (sourcesMissing_ d = ∅))) (
    ps ← paths (set_elems (sourcesMissing_ d));
    mthrow (InvalidBuildError ("Error, cannot build without: " +:+ listing true ps)%string)).

(** The targets by name, in the order of the set. *)
Definition findTargets (targets : list string) : M Daemon (gset N) :=
  g ← theGraph;
  if bool_decide (targets = []) then mret (Graph.roots_ g)
  else
    foldM targets ∅ (λ acc t,
      match Graph.nodes_ g !! t with
      | None => mthrow (InvalidBuildError ("Unknown target " +:+ t)%string)
      | Some n => mret ({[n]} ∪ acc)
      end).

(** [new BuildPlan]: the plan of the builder is a new object. *)
Definition newPlan (targets : gset N) : M GState BuildPlan.t := λ s,
  match makePlan fuel targets (mkP BuildPlan.empty s) with
  | Ret _ ps => Ret (p_plan ps) (p_g ps)
  | Throw e ps => Throw e (p_g ps)
  | Abort r => Abort r
  end.

(** [head] is what libgit2 says the head is, [time] the clock of the cache.  The build
    itself runs in the thread of the builder ([runBuild]). *)
Definition startBuild (head : option string) (time : N → Z) (targets : list string) (numThreads : nat)
    (lazyFetch : bool) : M Daemon StartBuildResult :=
  d ← mget;
  if isBuilding_ d then mret BUSY
  else
    mwhen (bool_decide (w_policy (dm_w d) = CACHE_GIT_REFS)) (onWorld (CacheManager.gitUpdateRef head));;
    checkSourcesMissing;;
    targetsToBuild ← findTargets targets;
    modify (λ d, set_building (buildId_ d) true (builder_ d) d);;
    zoom l_server (newBuild (buildId_ d));;
    mwhen lazyFetch (zoom l_wc (fetch time fuel targetsToBuild));;
    plan ← onHeap (newPlan targetsToBuild);
    modify (λ d, set_building (buildId_ d) (isBuilding_ d) (Some (mkPending plan numThreads false)) d);;
    mret OK.

Definition onBuildCompleted (res : BuildResult) : M Daemon unit :=
  d ← mget;
  massert (isBuilding_ d);;
  zoom l_server (endBuild res);;
  modify (λ d, set_building ((buildId_ d + 1) mod 2 ^ 32)%N false (builder_ d) d).

(** The thread of the builder and its callback. *)
Definition runBuild : M Daemon unit := λ d,
  match builder_ d with
  | None => Abort BadAccess
  | Some p =>
    match GraphParallelBuilder.buildThread true true (pd_threads p) wm_fuel fuel fuel
        (mkBuilder (dm_w d) (pd_plan p) newManager (streamServer_ d) SUCCEEDED (pd_interrupted p) 0) with
    | Ret res b => onBuildCompleted res (lset l_w (bd_w b) (lset l_server (bd_consumer b) d))
    | Throw e b => Throw e (lset l_w (bd_w b) (lset l_server (bd_consumer b) d))
    | Abort r => Abort r
    end
  end.

Definition getStatus : M Daemon FalconStatus := d ← mget; mret (if isBuilding_ d then BUILDING else IDLE).
Definition interruptBuild : M Daemon unit :=
  modify (λ d, set_building (buildId_ d) (isBuilding_ d)
    ((λ p, mkPending (pd_plan p) (pd_threads p) true) <$> builder_ d) d).

(** ** Questions about the graph *)

Definition dirtyPaths (l : list N) : M Daemon (gset string) :=
  foldM l ∅ (λ acc n, nd ← onHeap (readNode n); mret (if Node.isDirty nd then {[Node.path_ nd]} ∪ acc else acc)).
Definition getDirtySources : M Daemon (gset string) :=
  g ← theGraph; dirtyPaths (set_elems (Graph.sources_ g)).
Definition getDirtyTargets : M Daemon (gset string) :=
  g ← theGraph; dirtyPaths (node_order (Graph.nodes_ g)).*2.

Definition findTarget (target : string) : M Daemon N :=
  g ← theGraph;
  match Graph.nodes_ g !! target with
  | None => mthrow TargetNotFound
  | Some n => mret n
  end.

Definition getInputsOf (target : string) : M Daemon (gset string) :=
  n ← findTarget target;
  nd ← onHeap (readNode n);
  match Node.childRule_ nd with
  | None => mret ∅
  | Some c => r ← onHeap (readRule c); ps ← paths (Rule.inputs_ r); mret (list_to_set ps)
  end.
Definition getOutputsOf (target : string) : M Daemon (gset string) :=
  n ← findTarget target;
  nd ← onHeap (readNode n);
  foldM (Node.parentRules_ nd) ∅ (λ acc rule,
    r ← onHeap (readRule rule); ps ← paths (Rule.outputs_ r); mret (acc ∪ list_to_set ps)).
Definition getHashOf (target : string) : M Daemon string :=
  n ← findTarget target;
  nd ← onHeap (readNode n);
  mret (Node.hash_ nd).

(** ** Changes of files *)

(** [m] on another graph of the same heap: the graph it leaves, or none when it throws;
    then what it built is destroyed. *)
Definition tryGraph (g : Graph.t) (m : M GState unit) : M GState (option Graph.t) := λ s,
  match m (set_graph g s) with
  | Ret _ s' => Ret (Some (g_graph s')) (set_graph (g_graph s) s')
  | Throw _ s' =>
    match Graph_destroy s' with
    | Ret _ s'' => Ret None (set_graph (g_graph s) s'')
    | Throw e s'' => Throw e (set_graph (g_graph s) s'')
    | Abort r => Abort r
    end
  | Abort r => Abort r
  end.

Definition reloadGraph : M Daemon unit :=
  d ← mget;
  parsed ← onHeap (tryGraph Graph.new (processFile jsonGraphFile (read_all (w_fs (dm_w d)) jsonGraphFile)));
  match parsed with
  | None => mret tt
  | Some g =>
    checked ← onHeap (tryGraph g (checkGraphLoop fuel));
    match checked with
    | None => mret tt
    | Some g =>
      modify (set_missing ∅);;
      onWorld (λ w,
        match GraphReloader.updateGraph wm_fuel fuel (mkReloader w g ∅ ∅) with
        | Ret _ s => Ret tt (rl_w s)
        | Throw e s => Throw e (rl_w s)
        | Abort r => Abort r
        end);;
      onHeap (tryGraph g Graph_destroy);;
      mret tt
    end
  end.

(** The check at the end of a reload reports; it changes nothing. *)
Definition checkConsistency : M Daemon unit := onHeap (λ s,
  match check s fuel Checker.new with
  | Ret _ _ => Ret tt s
  | Throw e _ => Throw e s
  | Abort r => Abort r
  end).

(** The part of [setDirty] between the stat and the marking: whether to go on. *)
Definition noteFile (node : N) (nd : Node.t) : M Daemon bool :=
  d ← mget;
  match mtime (w_fs (dm_w d)) (Node.path_ nd) with
  | None =>
    mwhen (Node.isSource nd && Node.isExplicitDependency_ nd)
      (modify (λ d, set_missing ({[node]} ∪ sourcesMissing_ d) d));;
    mret true
  | Some t =>
    match Node.childRule_ nd with
    | None => modify (λ d, set_missing (sourcesMissing_ d ∖ {[node]}) d);; mret true
    | Some c =>
      r ← onHeap (readRule c);
      mret (negb (bool_decide (t ≤ Rule.timestamp_ r)%Z ||
                  (Node.isLazyFetched_ nd && bool_decide (t ≤ Node.timestamp_ nd)%Z)))
    end
  end.

Definition setDirty (target : string) : M Daemon unit :=
  if bool_decide (target = jsonGraphFile) then reloadGraph;; checkConsistency
  else
    node ← findTarget target;
    nd ← onHeap (readNode node);
    phony ← match Node.childRule_ nd with
            | None => mret false
            | Some c => r ← onHeap (readRule c); mret (Rule.isPhony r)
            end;
    if (phony : bool) then onHeap (Node_markDirty fuel node)
    else
      go ← noteFile node nd;
      if negb go then mret tt
      else
        mark ← match Node.childRule_ nd with
               | None => onWorld (recomputeNodeHash wm_fuel fuel true true true true node)
               | Some _ => mret true
               end;
        mwhen mark (
          onHeap (Node_markDirty fuel node);;
          nd' ← onHeap (readNode node);
          match Node.childRule_ nd' with
          | None => mret tt
          | Some c => onHeap (updRule c (Rule.setState OUT_OF_DATE))
          end).

(** [shutdown], up to the thrift server. *)
Definition shutdown : M Daemon unit :=
  g ← theGraph;
  ps ← paths (node_order (Graph.nodes_ g)).*2;
  onWorld (zoom l_wm (unwatchGraph wm_fuel ps));;
  interruptBuild.
End daemon.
End DaemonInstance.

(** ** Marking and hashing do not disturb each other *)

Lemma strip_node_eq nd nd' : strip_node nd = strip_node nd' →
  Node.state_ nd = Node.state_ nd' ∧ Node.childRule_ nd = Node.childRule_ nd' ∧ Node.isLazyFetched_ nd = Node.isLazyFetched_ nd'.
Proof. destruct nd, nd'. unfold strip_node, Node.setHash, Node.setHashDepfile. simpl. by intros [= _ -> _ _ -> -> _]. Qed.

(** What is read off a node but for its hashes is the same. *)
Lemma rehashed_read {A} (f : Node.t → A) (d : A) g g' n :
  rehashed g g' → (∀ nd nd', strip_node nd = strip_node nd' → f nd = f nd') →
  match g_nodes g' !! n with Some nd => f nd | None => d end = match g_nodes g !! n with Some nd => f nd | None => d end.
Proof.
  intros [H1 _ _] Hf. specialize (H1 n). destruct (g_nodes g !! n) as [nd|], (g_nodes g' !! n) as [nd'|]; try done.
  simpl in H1. apply (inj Some) in H1. symmetry. by apply Hf.
Qed.
Lemma rehashed_node_dirty g g' n : rehashed g g' → node_dirty g' n = node_dirty g n.
Proof. intros Hre. apply (rehashed_read _ _ g g'); [done|]. intros nd nd' (Hst & _)%strip_node_eq. unfold Node.isDirty. by rewrite Hst. Qed.
Lemma rehashed_node_lazy g g' n : rehashed g g' → node_lazy g' n = node_lazy g n.
Proof. intros Hre. apply (rehashed_read _ _ g g'); [done|]. by intros nd nd' (_ & _ & ?)%strip_node_eq. Qed.
Lemma rehashed_node_ready g g' n : rehashed g g' → node_ready g' n = node_ready g n.
Proof.
  intros Hre. apply (rehashed_read _ _ g g'); [done|]. intros nd nd' (Hst & Hc & _)%strip_node_eq.
  unfold Node.isDirty, Node.isSource. by rewrite Hst, Hc.
Qed.
Lemma rehashed_rule_lookup g g' r rd' : rehashed g g' → g_rules g' !! r = Some rd' →
  ∃ rd, g_rules g !! r = Some rd ∧ Rule.inputs_ rd = Rule.inputs_ rd' ∧ Rule.outputs_ rd = Rule.outputs_ rd' ∧
    Rule.isDirty rd = Rule.isDirty rd' ∧ Rule.numInputsReady_ rd = Rule.numInputsReady_ rd'.
Proof.
  intros [_ H1 _] Hr. specialize (H1 r). rewrite Hr in H1. apply fmap_Some in H1 as (rd & Hrd & Heq). exists rd. split; [done|].
  destruct rd, rd'. unfold strip_rule, Rule.setHash, Rule.setHashDepfile, Rule.isDirty in *. simpl in *.
  injection Heq as -> -> _ _ _ -> _ ->. done.
Qed.
Lemma rehashed_rule_dirty g g' r : rehashed g g' → rule_dirty g' r = rule_dirty g r.
Proof.
  intros Hre. unfold rule_dirty. destruct (g_rules g' !! r) as [rd'|] eqn:Hr.
  - destruct (rehashed_rule_lookup _ _ _ _ Hre Hr) as (rd & -> & _ & _ & -> & _). done.
  - pose proof (rh_rules _ _ Hre r) as H1. rewrite Hr in H1. by destruct (g_rules g !! r).
Qed.

Lemma rehashed_explicit g g' n : rehashed g g' → Node.isExplicitDependency_ <$> g_nodes g' !! n = Node.isExplicitDependency_ <$> g_nodes g !! n.
Proof.
  intros [H1 _ _]. specialize (H1 n). destruct (g_nodes g !! n) as [[]|], (g_nodes g' !! n) as [[]|]; try done.
  simpl in *. by injection H1 as -> -> -> -> -> -> ->.
Qed.
Lemma dirtied_explicit U V X s s' n : dirtied U V X s s' → Node.isExplicitDependency_ <$> g_nodes s' !! n = Node.isExplicitDependency_ <$> g_nodes s !! n.
Proof. intros Hd. rewrite (GraphDirty.d_nodes _ _ _ _ _ Hd). destruct (g_nodes s !! n); [|done]. simpl. unfold dirty_node. by case_decide. Qed.
Lemma rehashed_consistent g g' : rehashed g g' → consistent g → consistent g'.
Proof.
  intros Hre [Hok Hc Hi Ho Hch]. pose proof (rehashed_shape _ _ Hre) as Hsh. split.
  - by eapply structure_ok_shape.
  - intros r rd' Hr. destruct (rehashed_rule_lookup _ _ _ _ Hre Hr) as (rd & Hrd & <- & _ & _ & <-).
    rewrite (Hc r rd Hrd). apply countb_ext. intros i _. by rewrite (rehashed_node_ready g g').
  - intros r rd' i Hr. destruct (rehashed_rule_lookup _ _ _ _ Hre Hr) as (rd & Hrd & <- & _).
    rewrite (rehashed_node_dirty g g'), (rehashed_rule_dirty g g') by done. by apply Hi.
  - intros r rd' o Hr. destruct (rehashed_rule_lookup _ _ _ _ Hre Hr) as (rd & Hrd & _ & <- & _).
    rewrite (rehashed_node_dirty g g'), (rehashed_node_lazy g g'), (rehashed_rule_dirty g g') by done. by apply Ho.
  - intros n nd' r Hn Hc'. assert (Hsh' : same_shape g' g) by by symmetry. shape_node Hsh' Hn.
    rewrite (rehashed_node_dirty g g'), (rehashed_rule_dirty g g') by done. eapply Hch; [done|congruence].
Qed.

Lemma affected_same s s' n m : same_shape s s' → affected s' n m ↔ affected s n m.
Proof.
  intros Hs. assert (Hs' : same_shape s' s) by by symmetry.
  split; apply rtc_subrel; intros i o; by apply feeds_shape.
Qed.
Lemma affected_rule_shape s s' n r : same_shape s s' → affected_rule s' n r ↔ affected_rule s n r.
Proof.
  intros Hs. assert (Hs' : same_shape s' s) by by symmetry.
  split; intros (m & rd & Hm & Hr & Hi).
  - shape_rule Hs' Hr. exists m, x. split_and!; [by apply (affected_same s s')|done|congruence].
  - shape_rule Hs Hr. exists m, x. split_and!; [by apply (affected_same s s')|done|congruence].
Qed.

(** Marking leaves the hashes right. *)
Lemma marked_good `{SHA256} f s P R s' : marked s P R s' → (∀ x, good f s x) → ∀ x, good f s' x.
Proof.
  intros (U & V & Hd & _) Hg.
  assert (Hh : ∀ get l, (∀ i nd, get (dirty_node U i nd) = get nd) → hashes get s' l = hashes get s l).
  { intros get l Hget. unfold hashes. apply list_fmap_ext. intros k i _. rewrite (GraphDirty.d_nodes _ _ _ _ _ Hd). destruct (g_nodes s !! i); [|done]. simpl. apply Hget. }
  intros [n|r].
  - intros nd'. rewrite (GraphDirty.d_nodes _ _ _ _ _ Hd). intros (nd & Hn & ->)%fmap_Some.
    pose proof (Hg (ONode n) nd Hn) as Hgn. unfold node_target in *.
    assert (∀ c, (λ rd, (Rule.hash_ rd, Rule.hashDepfile_ rd)) <$> g_rules s' !! c = (λ rd, (Rule.hash_ rd, Rule.hashDepfile_ rd)) <$> g_rules s !! c) as Hrules.
    { intros c. rewrite (GraphDirty.d_rules _ _ _ _ _ Hd). destruct (g_rules s !! c); [|done]. simpl. unfold dirty_rule. by case_decide. }
    unfold dirty_node. destruct (decide (n ∈ U)); simpl; (destruct (Node.childRule_ nd) as [c|]; [|exact Hgn]); specialize (Hrules c);
      destruct (g_rules s' !! c), (g_rules s !! c); simpl in Hrules; try done; congruence.
  - intros rd'. rewrite (GraphDirty.d_rules _ _ _ _ _ Hd). intros (rd & Hr & ->)%fmap_Some.
    pose proof (Hg (ORule r) rd Hr) as Hgr. unfold rule_target in *. rewrite !Hh by (intros; unfold dirty_node; by case_decide).
    unfold dirty_rule. by case_decide.
Qed.

(** Nor does it take hashes or depfiles away. *)
Lemma marked_hashable w P R s' : hashable w → marked (w_g w) P R s' → hashable (set_g s' w).
Proof.
  intros [Hok Ha Hd] (U & V & Hm & _). assert (Hsh : same_shape (w_g w) s') by by eapply dirtied_shape.
  assert (Hn : ∀ n nd, g_nodes s' !! n = Some nd → ∃ nd0, g_nodes (w_g w) !! n = Some nd0 ∧
    Node.hash_ nd = Node.hash_ nd0 ∧ Node.hashDepfile_ nd = Node.hashDepfile_ nd0 ∧ Node.childRule_ nd = Node.childRule_ nd0).
  { intros n nd. rewrite (GraphDirty.d_nodes _ _ _ _ _ Hm). intros (nd0 & Hn & ->)%fmap_Some. exists nd0. unfold dirty_node. by case_decide. }
  assert (Hr : ∀ r rd, g_rules s' !! r = Some rd → ∃ rd0, g_rules (w_g w) !! r = Some rd0 ∧
    Rule.hash_ rd = Rule.hash_ rd0 ∧ Rule.hashDepfile_ rd = Rule.hashDepfile_ rd0 ∧ Rule.depfile_ rd = Rule.depfile_ rd0).
  { intros r rd. rewrite (GraphDirty.d_rules _ _ _ _ _ Hm). intros (rd0 & Hr & ->)%fmap_Some. exists rd0. unfold dirty_rule. by case_decide. }
  split; [by eapply structure_ok_shape|split|].
  - intros n nd (nd0 & Hn0 & -> & -> & _)%Hn. by apply (ah_node _ Ha n).
  - intros r rd (rd0 & Hr0 & -> & -> & _)%Hr. by apply (ah_rule _ Ha r).
  - intros n nd (nd0 & Hn0 & -> & -> & ->)%Hn. by apply (ah_source _ Ha n).
  - intros r rd (rd0 & Hr0 & _ & _ & Hdep)%Hr. unfold Rule.hasDepfile. rewrite Hdep. by apply (Hd r).
Qed.

(** ** A changed source *)

Section source.
Context {HA : Allocator} {HS : SHA256} {HW : WatchEnv} {HD : DirTime} {HO : NodeOrder}.
Context (jsonGraphFile : string) (wm_fuel fuel : nat).
Import DaemonInstance.

Definition the_graph (d : Daemon) : GState := w_g (dm_w d).
Definition content_hash (d : Daemon) (path : string) : string := Hasher [path; read_all (w_fs (dm_w d)) path].

(** The missing sources after the stat of a source. *)
Definition missing_after (d : Daemon) (n : N) (nd : Node.t) : gset N :=
  match mtime (w_fs (dm_w d)) (Node.path_ nd) with
  | None => if Node.isExplicitDependency_ nd then {[n]} ∪ sourcesMissing_ d else sourcesMissing_ d
  | Some _ => sourcesMissing_ d ∖ {[n]}
  end.

(** The graph and the missing sources change, nothing else of the daemon. *)
Definition updated (d : Daemon) (g : GState) (X : gset N) : Daemon :=
  mkDaemon (set_g g (dm_w d)) (streamServer_ d) (buildId_ d) (isBuilding_ d) (builder_ d) X.

Lemma updated_same d : updated d (the_graph d) (sourcesMissing_ d) = d.
Proof. unfold updated, the_graph. rewrite set_g_same. by destruct d. Qed.
Lemma wp_heap {A} (m : M GState A) (Q : A → Daemon → Prop) E d g X :
  wp m (λ a g', Q a (updated d g' X)) (λ e g', E e (updated d g' X)) g → wp (onHeap m) Q E (updated d g X).
Proof. intros Hm. apply wp_zoom, wp_zoom. exact Hm. Qed.
Lemma wp_on_heap {A} (m : M GState A) (Q : A → Daemon → Prop) E d :
  wp m (λ a g', Q a (updated d g' (sourcesMissing_ d))) (λ e g', E e (updated d g' (sourcesMissing_ d))) (the_graph d) →
  wp (onHeap m) Q E d.
Proof. intros Hm. rewrite <- (updated_same d). by apply wp_heap. Qed.
Lemma wp_theGraph (Q : Graph.t → Daemon → Prop) E d : Q (g_graph (the_graph d)) d → wp theGraph Q E d.
Proof. intros HQ. apply wp_on_heap, wp_gets. by rewrite updated_same. Qed.
Lemma wp_heap_readNode n nd (Q : Node.t → Daemon → Prop) E d :
  g_nodes (the_graph d) !! n = Some nd → Q nd d → wp (onHeap (readNode n)) Q E d.
Proof. intros Hn HQ. apply wp_on_heap. eapply wp_readNode; [exact Hn|]. by rewrite updated_same. Qed.
Lemma wp_heap_readRule r rd (Q : Rule.t → Daemon → Prop) E d :
  g_rules (the_graph d) !! r = Some rd → Q rd d → wp (onHeap (readRule r)) Q E d.
Proof. intros Hr HQ. apply wp_on_heap. eapply wp_readRule; [exact Hr|]. by rewrite updated_same. Qed.

Lemma returns_world {A} (m : M World A) (Q : A → Daemon → Prop) d g X :
  returns m (λ a w', ∃ g', w' = set_g g' (dm_w d) ∧ Q a (updated d g' X)) (set_g g (dm_w d)) → returns (onWorld m) Q (updated d g X).
Proof. intros Hm. apply wp_zoom. eapply wp_mono; [exact Hm| |done]. intros a w' (g' & -> & HQ). exact HQ. Qed.

Lemma noteFile_source d n nd :
  Node.childRule_ nd = None →
  returns (noteFile n nd) (λ go d', go = true ∧ d' = updated d (the_graph d) (missing_after d n nd))
    (updated d (the_graph d) (sourcesMissing_ d)).
Proof.
  intros Hc. rewrite updated_same. apply wp_bind, wp_mget. unfold missing_after, updated, the_graph. rewrite set_g_same.
  destruct (mtime _ _) as [t|].
  - rewrite Hc. apply wp_bind, wp_modify, wp_ret. done.
  - unfold Node.isSource. rewrite Hc. cbn [bool_decide decide andb mwhen]. apply wp_bind.
    destruct (Node.isExplicitDependency_ nd); [apply wp_modify, wp_ret; done|apply wp_ret, wp_ret; by destruct d].
Qed.

Lemma marked_not_rule g0 g n nd P R :
  marked g0 P R g → g_nodes g0 !! n = Some nd → Node.childRule_ nd = None →
  ∃ nd', g_nodes g !! n = Some nd' ∧ Node.childRule_ nd' = None.
Proof.
  intros (U & V & Hd & _) Hn Hc. eexists. split; [by rewrite (GraphDirty.d_nodes _ _ _ _ _ Hd), Hn|]. unfold dirty_node. by case_decide.
Qed.

Record source_changed (d d' : Daemon) (n : N) (nd : Node.t) : Prop := {
  sc_daemon : d' = updated d (the_graph d') (missing_after d n nd);
  sc_shape : same_shape (the_graph d) (the_graph d');
  sc_consistent : consistent (the_graph d');
  sc_explicit m : Node.isExplicitDependency_ <$> g_nodes (the_graph d') !! m = Node.isExplicitDependency_ <$> g_nodes (the_graph d) !! m;
  sc_hashable : hashable (dm_w d');
  sc_good x : good (w_fs (dm_w d)) (the_graph d') x;
  sc_dirty m : is_Some (g_nodes (the_graph d) !! m) → node_dirty (the_graph d') m = true ↔
    node_dirty (the_graph d) m = true ∨
    Node.hash_ nd ≠ content_hash d (Node.path_ nd) ∧ affected (the_graph d) n m;
  sc_dirty_rule r : is_Some (g_rules (the_graph d) !! r) → rule_dirty (the_graph d') r = true ↔
    rule_dirty (the_graph d) r = true ∨
    Node.hash_ nd ≠ content_hash d (Node.path_ nd) ∧ affected_rule (the_graph d) n r;
}.

Lemma source_unchanged d n nd g1 :
  consistent (the_graph d) → rehashed (the_graph d) g1 → hashable (set_g g1 (dm_w d)) → (∀ x, good (w_fs (dm_w d)) g1 x) → Node.hash_ nd = content_hash d (Node.path_ nd) →
  source_changed d (updated d g1 (missing_after d n nd)) n nd.
Proof.
  intros Hcs Hre Hh Hg1 Heq. split; cbn; [done|by apply rehashed_shape|by apply (rehashed_consistent (the_graph d))|intros m; by apply rehashed_explicit|done|done| |].
  - intros m _. unfold the_graph at 1. cbn. rewrite (rehashed_node_dirty (the_graph d) g1) by done. tauto.
  - intros r _. unfold the_graph at 1. cbn. rewrite (rehashed_rule_dirty (the_graph d) g1) by done. tauto.
Qed.

Lemma source_marked d n nd g1 g2 :
  consistent (the_graph d) → rehashed (the_graph d) g1 → hashable (set_g g1 (dm_w d)) → (∀ x, good (w_fs (dm_w d)) g1 x) →
  g_nodes (the_graph d) !! n = Some nd → Node.childRule_ nd = None → Node.hash_ nd ≠ content_hash d (Node.path_ nd) →
  marked g1 (affected g1 n) (affected_rule g1 n) g2 →
  source_changed d (updated d g2 (missing_after d n nd)) n nd.
Proof.
  intros Hcs Hre Hh Hg1 Hn Hc Hneq Hm. pose proof (rehashed_consistent _ _ Hre Hcs) as Hcs1.
  pose proof (rehashed_shape _ _ Hre) as Hsh1. pose proof (marked_shape _ _ _ Hm) as Hsh2.
  destruct (same_shape_node _ _ _ _ Hsh1 Hn) as (nd1 & Hn1 & Hshn). unfold node_shape in Hshn.
  destruct (marked_not_rule _ _ _ nd1 _ _ Hm Hn1) as (nd2 & Hn2 & Hc2); [congruence|].
  assert (Hsh : same_shape (the_graph d) g2) by (by transitivity g1). destruct Hm as (U & V & Hd & HU & HV).
  assert (Hm : marked g1 (affected g1 n) (affected_rule g1 n) g2) by (by exists U, V). split; unfold the_graph; cbn.
  - done.
  - done.
  - split; [by eapply structure_ok_shape; [|apply Hcs]|by eapply marked_counters; [|apply Hcs1]| | |].
    + eapply marked_inputs_ok; [apply Hcs1|done|apply Hcs1].
    + eapply marked_outputs_ok; [apply Hcs1|done|apply Hcs1].
    + intros m nd' r Hm' Hcm. eapply (marked_child_ok g1 g2 n); try done; try apply Hcs1. intros ->. congruence.
  - intros m. by rewrite (dirtied_explicit _ _ _ _ _ m Hd), (rehashed_explicit _ _ m Hre).
  - by apply (marked_hashable _ _ _ _ Hh Hm).
  - by eapply marked_good.
  - intros m [md Hmd]. destruct (same_shape_node _ _ _ _ Hsh1 Hmd) as (md1 & Hmd1 & _).
    rewrite (dirtied_node_dirty _ _ _ _ _ m Hd) by by eexists.
    rewrite orb_true_iff, bool_decide_eq_true, HU, (rehashed_node_dirty _ _ m Hre), (affected_same (the_graph d) g1) by done. tauto.
  - intros r [xd Hxd]. destruct (same_shape_rule _ _ _ _ Hsh1 Hxd) as (xd1 & Hxd1 & _).
    rewrite (dirtied_rule_dirty _ _ _ _ _ r Hd) by by eexists.
    rewrite orb_true_iff, bool_decide_eq_true, HV, (rehashed_rule_dirty _ _ r Hre), (affected_rule_shape (the_graph d) g1) by done. tauto.
Qed.

(** [setDirty] on a source file, on a consistent acyclic graph without depfiles
    whose other hashes are right: it returns; if the content of the file has the
    hash the node had, no state changes; otherwise exactly what depends on the
    file is marked.  Afterwards every hash is right, the graph is consistent, and the
    file is among the missing sources exactly if it is gone and was named in the
    graph file. *)
Theorem setDirty_source d target n nd :
  consistent (the_graph d) → acyclic (the_graph d) → hashable (dm_w d) → target ≠ jsonGraphFile →
  Graph.nodes_ (g_graph (the_graph d)) !! target = Some n → g_nodes (the_graph d) !! n = Some nd →
  Node.childRule_ nd = None → (∀ x, x ≠ ONode n → good (w_fs (dm_w d)) (the_graph d) x) →
  size (g_nodes (the_graph d)) ≤ fuel →
  returns (setDirty jsonGraphFile wm_fuel fuel target) (λ _ d', source_changed d d' n nd) d.
Proof.
  intros Hcs Hac Hh Hne Htarget Hn Hc Hgood Hfuel. unfold setDirty. rewrite bool_decide_eq_false_2 by done.
  apply wp_bind, wp_bind, wp_theGraph. rewrite Htarget. apply wp_ret.
  apply wp_bind. eapply wp_heap_readNode; [exact Hn|]. rewrite Hc. apply wp_bind, wp_ret. apply wp_bind.
  pose proof (noteFile_source d n nd Hc) as Hnote. rewrite updated_same in Hnote.
  eapply wp_mono; [exact Hnote| |done]. intros go d1 [-> ->]. cbn [negb].
  apply wp_bind, returns_world. unfold the_graph at 1. rewrite set_g_same.
  eapply wp_mono; [by apply (recompute_run wm_fuel true true fuel n nd (dm_w d))| |done].
  intros mark w1 [((g1 & -> & Hre) & Hh1 & Hg1) ->]. exists g1. split; [done|].
  assert (Htouched : negb (bool_decide ((Node.hash_ nd, Node.hashDepfile_ nd) = node_target (w_fs (dm_w d)) (w_g (dm_w d)) nd)) = true ↔
    Node.hash_ nd ≠ content_hash d (Node.path_ nd)).
  { rewrite negb_true_iff, bool_decide_eq_false. unfold node_target, content_hash. rewrite Hc.
    rewrite <- (ah_source _ (hb_hashed _ Hh) n nd Hn Hc). split; congruence. }
  cbn [w_g set_g] in Hg1. destruct (negb _) eqn:Hmark; cbn [mwhen].
  2: { apply wp_ret, source_unchanged; try done. destruct (decide (Node.hash_ nd = content_hash d (Node.path_ nd))) as [|Hz]; [done|].
       by apply Htouched in Hz. }
  pose proof (rehashed_consistent _ _ Hre Hcs) as Hcs1. pose proof (rehashed_shape _ _ Hre) as Hsh1.
  destruct (same_shape_node _ _ _ _ Hsh1 Hn) as (nd1 & Hn1 & Hshn). unfold node_shape in Hshn.
  apply wp_bind, wp_heap. eapply wp_mono; [apply (markDirty_marked g1 n fuel); [apply Hcs1|by rewrite <- Hsh1|apply Hcs1|by eexists|]| |done].
  { by rewrite <- (rehashed_size _ _ Hre). }
  intros [] g2 Hm. destruct (marked_not_rule _ _ _ nd1 _ _ Hm Hn1) as (nd2 & Hn2 & Hc2); [congruence|].
  apply wp_bind, wp_heap. eapply wp_readNode; [exact Hn2|]. rewrite Hc2. apply wp_ret.
  apply (source_marked d n nd g1); try done. by apply Htouched.
Qed.
End source.

(** ** Starting a build *)

Section start.
Context {HA : Allocator} {HS : SHA256} {HW : WatchEnv} {HD : DirTime} {HO : NodeOrder}.
Context (wm_fuel fuel : nat).
Import DaemonInstance.

Lemma paths_spec l d :
  (∀ n, n ∈ l → is_Some (g_nodes (the_graph d) !! n)) → returns (paths l) (λ _ d', d' = d) d.
Proof.
  intros Hl. apply (wp_foldM (λ _ _ d', d' = d)); [done| |done]. intros pre n post acc d' -> ->.
  destruct (Hl n) as [nd Hn]; [set_solver|]. apply wp_bind. eapply wp_heap_readNode; [exact Hn|]. by apply wp_ret.
Qed.

(** The nodes a build is for. *)
Definition targets_of (d : Daemon) (targets : list string) (T : gset N) : Prop :=
  match targets with
  | [] => T = Graph.roots_ (g_graph (the_graph d))
  | _ => ∀ n, n ∈ T ↔ ∃ t, t ∈ targets ∧ Graph.nodes_ (g_graph (the_graph d)) !! t = Some n
  end.

Lemma findTargets_spec targets d :
  wp (findTargets targets) (λ T d', d' = d ∧ targets_of d targets T)
    (λ e d', d' = d ∧ ∃ t, t ∈ targets ∧ Graph.nodes_ (g_graph (the_graph d)) !! t = None ∧
       e = InvalidBuildError ("Unknown target " +:+ t)%string) d.
Proof.
  unfold findTargets. apply wp_bind. apply wp_theGraph. destruct targets as [|t0 l]; [by apply wp_ret|].
  cbn [bool_decide decide list_eq_nil_dec]. set (targets := t0 :: l).
  apply (wp_foldM (λ pre T d', d' = d ∧ ∀ n, n ∈ T ↔ ∃ t, t ∈ pre ∧ Graph.nodes_ (g_graph (the_graph d)) !! t = Some n)).
  - split; [done|]. set_solver.
  - intros pre t post T d' Heq [-> HT']. destruct (Graph.nodes_ (g_graph (the_graph d)) !! t) as [n|] eqn:Ht.
    + apply wp_ret. split; [done|]. intros m. rewrite elem_of_union, elem_of_singleton, HT'. setoid_rewrite elem_of_app.
      setoid_rewrite list_elem_of_singleton. naive_solver.
    + apply wp_mthrow. split; [done|]. exists t. split_and!; [rewrite Heq; set_solver|done|done].
  - intros T d' [-> HT']. split; [done|exact HT'].
Qed.

Lemma newPlan_spec T g :
  consistent g → acyclic g → (∀ t, t ∈ T → is_Some (g_nodes g !! t)) → size (g_rules g) < fuel →
  returns (newPlan fuel T) (λ p g', g' = g ∧ planned g T (mkP p g) ∧ (∀ r, r ∈ BuildPlan.rules_ p ↔ needed g T r) ∧
    (BuildPlan.rules_ p ≠ ∅ → BuildPlan.hasWork p = true)) g.
Proof.
  intros Hc Hac HT' Hf. pose proof (makePlan_spec g T fuel Hc Hac HT' Hf) as Hp. unfold newPlan, returns, wp in *.
  destruct (makePlan fuel T (mkP BuildPlan.empty g)) as [[] ps| |] eqn:E; [|done|done]. destruct Hp as (Hg & Hinv & Hcov & Hwork).
  destruct ps as [p g']. simpl in *. subst g'. split_and!; [done|by exists fuel| |done]. intros r. by apply plan_needed.
Qed.

(** What a refused build says. *)
Definition refused (d : Daemon) (targets : list string) (e : exn) : Prop :=
  sourcesMissing_ d ≠ ∅ ∧ (∃ desc, e = InvalidBuildError desc) ∨
  sourcesMissing_ d = ∅ ∧ ∃ t, t ∈ targets ∧ Graph.nodes_ (g_graph (the_graph d)) !! t = None ∧
    e = InvalidBuildError ("Unknown target " +:+ t)%string.

(** The build that was started. *)
Record build_started (d d' : Daemon) (targets : list string) (numThreads : nat) (T : gset N) (plan : BuildPlan.t) : Prop := {
  bs_targets : targets_of d targets T;
  bs_world : dm_w d' = dm_w d;
  bs_building : isBuilding_ d' = true;
  bs_id : buildId_ d' = buildId_ d;
  bs_missing : sourcesMissing_ d' = sourcesMissing_ d;
  bs_pending : builder_ d' = Some (mkPending plan numThreads false);
  bs_plan : planned (the_graph d) T (mkP plan (the_graph d));
  bs_needed r : r ∈ BuildPlan.rules_ plan ↔ needed (the_graph d) T r;
  bs_work : BuildPlan.rules_ plan ≠ ∅ → BuildPlan.hasWork plan = true;
  bs_server : ∃ k b tl, builds_ (streamServer_ d') = (k, b) :: tl ∧ id b = buildId_ d ∧ buildCompleted b = false ∧
    StreamServer.buf b = header (buildId_ d) ∧ firstChunk b = true;
}.

Lemma startBuild_spec b d head time targets numThreads :
  consistent (the_graph d) → acyclic (the_graph d) → graph_ok (the_graph d) → w_policy (dm_w d) ≠ CACHE_GIT_REFS →
  size (g_rules (the_graph d)) < fuel → (∀ n, n ∈ sourcesMissing_ d → is_Some (g_nodes (the_graph d) !! n)) →
  server_ok b (streamServer_ d) → idle (streamServer_ d) → room (streamServer_ d) →
  wp (startBuild fuel head time targets numThreads false)
    (λ res d', if isBuilding_ d then res = BUSY ∧ d' = d
               else res = OK ∧ sourcesMissing_ d = ∅ ∧ server_ok b (streamServer_ d') ∧
                 in_pipe (streamServer_ d') ≤ in_pipe (streamServer_ d) + 8 ∧ pipe_size (streamServer_ d') = pipe_size (streamServer_ d) ∧
                 ∃ T plan, build_started d d' targets numThreads T plan)
    (λ e d', isBuilding_ d = false ∧ d' = d ∧ refused d targets e) d.
Proof.
  intros Hc Hac Hg Hpol Hf Hmiss Hok Hidle Hroom. apply wp_bind, wp_mget. destruct (isBuilding_ d) eqn:Hb; [by apply wp_ret|].
  rewrite bool_decide_eq_false_2 by done. apply wp_bind, wp_ret. apply wp_bind, wp_bind, wp_mget. unfold mwhen at 1.
  case_bool_decide as Hm; cbn [negb].
  2: { apply wp_bind. eapply (wp_mono _ _ _ (λ _ _, False)); [apply paths_spec| |done].
       { intros n Hn. apply Hmiss. by apply elem_of_set_elems. }
       intros ps d' ->. apply wp_mthrow. split_and!; [done|done|]. left. eauto. }
  apply wp_ret. apply wp_bind. eapply wp_mono; [apply findTargets_spec| |].
  2: { intros e d' (-> & t & Ht). split_and!; [done|done|]. right. eauto. }
  intros T d' [-> HT']. apply wp_bind, wp_modify. apply wp_bind, wp_zoom. cbn [lget lset l_server set_building streamServer_].
  eapply (wp_mono _ _ _ (λ _ _, False)); [apply (wp_with_wakes 8); [apply wakes_newBuild|by apply (newBuild_spec b)]| |done]. intros [] s' ([Hpend Hsize] & Hok' & k & bi & tl & Hbs & Hbuf & Hcp & Hfirst & Hid).
  apply wp_bind, wp_ret. apply wp_bind, wp_zoom, wp_zoom. cbn [lget lset l_w l_graph dm_w].
  eapply (wp_mono _ _ _ (λ _ _, False)); [apply (newPlan_spec T (the_graph d)); try done| |done].
  { intros t Ht. destruct targets as [|t0 l]; simpl in HT'.
    - subst T. apply (go_roots _ Hg) in Ht as (nd & ? & _). by eexists.
    - apply HT' in Ht as (p & _ & Hp). apply (go_nodes _ Hg) in Hp as (nd & ? & _). by eexists. }
  intros plan g' (-> & Hplan & Hneed & Hwork). apply wp_bind, wp_modify, wp_ret. split_and!; [done|done|done|done|done|]. exists T, plan.
  split; cbn; try done; [apply set_g_same|]. exists k, bi, tl. done.
Qed.

(** [startBuild] without lazy fetching, under a policy without git: while a
    build runs it answers BUSY and changes nothing; with missing sources or an
    unknown target it throws and changes nothing, in particular the daemon does not
    stay in the building state; otherwise the stream server has a new build, and the
    plan holds exactly the rules that the targets need, all roots if there are none. *)
Theorem startBuild_exact b d head time targets numThreads :
  consistent (the_graph d) → acyclic (the_graph d) → graph_ok (the_graph d) → w_policy (dm_w d) ≠ CACHE_GIT_REFS →
  size (g_rules (the_graph d)) < fuel → (∀ n, n ∈ sourcesMissing_ d → is_Some (g_nodes (the_graph d) !! n)) →
  server_ok b (streamServer_ d) → idle (streamServer_ d) → room (streamServer_ d) →
  wp (startBuild fuel head time targets numThreads false)
    (λ res d', if isBuilding_ d then res = BUSY ∧ d' = d
               else res = OK ∧ sourcesMissing_ d = ∅ ∧ ∃ T plan, build_started d d' targets numThreads T plan)
    (λ e d', isBuilding_ d = false ∧ d' = d ∧ refused d targets e) d.
Proof.
  intros. eapply wp_mono; [by apply (startBuild_spec b)| |done]. intros res d'. destruct (isBuilding_ d); [done|].
  intros (-> & Hm & _ & _ & _ & Hs). by split_and!.
Qed.
End start.

(** ** A changed output *)

Lemma siblings_unaffected s r rd n o :
  structure_ok s → acyclic s → g_rules s !! r = Some rd → n ∈ Rule.outputs_ rd → o ∈ Rule.outputs_ rd → o ≠ n → ¬ affected s n o.
Proof.
  intros Hok [rank Hrank] Hr Hn Ho Hne Ha. apply rtc_inv_r in Ha as [->|(i & Hi & (r' & rd' & Hr' & Hin & Hout))]; [done|].
  destruct (so_output s Hok r rd o Hr Ho) as (nd & Hnd & Hc). destruct (so_output s Hok r' rd' o Hr' Hout) as (nd' & Hnd' & Hc').
  assert (r' = r) as -> by congruence. simplify_eq.
  assert (Hle : rank n ≤ rank i) by (clear -Hi Hrank; induction Hi as [|x y z Hxy _ IH]; [done|specialize (Hrank _ _ Hxy); lia]).
  assert (rank i < rank n); [|lia]. apply Hrank. by exists r, rd.
Qed.

(** The states after [markDirty] on an output and [setState] on its rule. *)
Section marked_output.
Context (s s1 : GState) (n r : N) (nd : Node.t) (rd rd1 : Rule.t).
Hypothesis Hcs : consistent s.
Hypothesis Hn : g_nodes s !! n = Some nd.
Hypothesis Hchild : Node.childRule_ nd = Some r.
Hypothesis Hr : g_rules s !! r = Some rd.
Hypothesis Hmark : marked s (affected s n) (affected_rule s n) s1.
Hypothesis Hr1 : g_rules s1 !! r = Some rd1.
Definition with_rule_dirty : GState := set_rules (<[r := Rule.setState OUT_OF_DATE rd1]> (g_rules s1)) s1.

Lemma output_marked : marked s (affected s n) (λ x, affected_rule s n x ∨ x = r) with_rule_dirty.
Proof.
  destruct Hmark as (U & V & Hd & HU & HV). exists U, ({[r]} ∪ V). split_and!; [by apply dirtied_set_rule|done|].
  intros x. rewrite elem_of_union, elem_of_singleton, HV. tauto.
Qed.

Lemma output_node_dirty m : is_Some (g_nodes s !! m) →
  node_dirty with_rule_dirty m = true ↔ node_dirty s m = true ∨ affected s n m.
Proof.
  intros Hm. destruct output_marked as (U & V & Hd & HU & _).
  rewrite (dirtied_node_dirty _ _ _ _ _ m Hd) by done. rewrite orb_true_iff, bool_decide_eq_true, HU. tauto.
Qed.

Lemma output_rule_dirty x : is_Some (g_rules s !! x) →
  rule_dirty with_rule_dirty x = true ↔ rule_dirty s x = true ∨ affected_rule s n x ∨ x = r.
Proof.
  intros Hx. destruct output_marked as (U & V & Hd & _ & HV).
  rewrite (dirtied_rule_dirty _ _ _ _ _ x Hd) by done. rewrite orb_true_iff, bool_decide_eq_true, HV. tauto.
Qed.

Lemma output_shape : same_shape s with_rule_dirty.
Proof. destruct output_marked as (U & V & Hd & _). by eapply dirtied_shape. Qed.

Lemma output_counters : counters_ok with_rule_dirty.
Proof. destruct output_marked as (U & V & Hd & _). eapply dirtied_counters; [done|apply Hcs]. Qed.

Lemma rule_dirty_more x : rule_dirty s1 x = true → rule_dirty with_rule_dirty x = true.
Proof.
  unfold rule_dirty. simpl. destruct (decide (r = x)) as [<-|Hne]; [by rewrite lookup_insert_eq|by rewrite lookup_insert_ne].
Qed.
Lemma rule_dirty_itself : rule_dirty with_rule_dirty r = true.
Proof. unfold rule_dirty. simpl. by rewrite lookup_insert_eq. Qed.

Lemma output_lazy m : ¬ affected s n m → node_lazy with_rule_dirty m = node_lazy s m.
Proof.
  destruct output_marked as (U & V & Hd & HU & _). intros Hm. unfold node_lazy. rewrite (GraphDirty.d_nodes _ _ _ _ _ Hd).
  destruct (g_nodes s !! m); [|done]. cbn. unfold dirty_node. by rewrite decide_False by by rewrite HU.
Qed.

(** The rule of a node that is marked is right about its outputs only if they are
    marked too. *)
Lemma output_consistent :
  acyclic s → n ∈ Rule.outputs_ rd →
  consistent with_rule_dirty ↔ ∀ o, o ∈ Rule.outputs_ rd → o ≠ n → node_lazy s o = true ∨ node_dirty s o = true.
Proof.
  intros Hac Hno. pose proof (c_structure s Hcs) as Hok. split.
  - intros Hc o Ho Hne. shape_rule output_shape Hr.
    pose proof (siblings_unaffected s r rd n o Hok Hac Hr Hno Ho Hne) as Hun.
    destruct (c_outputs _ Hc r x o Hl rule_dirty_itself) as [Hz|Hz]; [congruence|left; by rewrite <- output_lazy|right].
    destruct (so_output s Hok r rd o Hr Ho) as (od & Hod & _). by apply output_node_dirty in Hz as [Hz|Hz]; [| |by eexists].
  - intros Hall. split.
    + eapply structure_ok_shape; [apply output_shape|done].
    + apply output_counters.
    + intros x xd i Hx Hi Hd. apply rule_dirty_more.
      assert (Hxs : ∃ xd1, g_rules s1 !! x = Some xd1 ∧ Rule.inputs_ xd1 = Rule.inputs_ xd).
      { simpl in Hx. destruct (decide (r = x)) as [<-|Hne]; [rewrite lookup_insert_eq in Hx|rewrite lookup_insert_ne in Hx by done]; simplify_eq; by eexists. }
      destruct Hxs as (xd1 & Hx1 & Heq). eapply (marked_inputs_ok s s1 n); [done|done|apply Hcs|exact Hx1|by rewrite Heq|exact Hd].
    + intros x xd o Hx Hd Ho. assert (Hb : same_shape with_rule_dirty s) by (symmetry; apply output_shape). destruct (decide (x = r)) as [->|Hne].
      * shape_rule Hb Hx. assert (x = rd) as -> by congruence. assert (Hor : o ∈ Rule.outputs_ rd) by congruence.
        destruct (so_output s Hok r rd o Hr Hor) as (od & Hod & _). destruct (decide (o = n)) as [->|Hon].
        -- right. apply output_node_dirty; [by eexists|right; apply rtc_refl].
        -- rewrite output_lazy by by eapply (siblings_unaffected s r rd n o). destruct (Hall o) as [?|?]; [done|done|by left|right].
           apply output_node_dirty; [by eexists|by left].
      * simpl in Hx. rewrite lookup_insert_ne in Hx by done. unfold rule_dirty in Hd. simpl in Hd. rewrite lookup_insert_ne in Hd by done.
        eapply (marked_outputs_ok s s1 n); [done|done|apply Hcs|exact Hx|exact Hd|exact Ho].
    + intros m md c Hm Hc Hd. destruct (decide (m = n)) as [->|Hne].
      * assert (Hb : same_shape with_rule_dirty s) by (symmetry; apply output_shape). shape_node Hb Hm.
        assert (c = r) as -> by congruence. apply rule_dirty_itself.
      * apply rule_dirty_more. eapply (marked_child_ok s s1 n); [done|done|apply Hcs|exact Hm|done|done|exact Hd].
Qed.
End marked_output.

Section output.
Context {HA : Allocator} {HS : SHA256} {HW : WatchEnv} {HD : DirTime} {HO : NodeOrder}.
Context (jsonGraphFile : string) (wm_fuel fuel : nat).
Import DaemonInstance.

(** The file of an output that the daemon wrote itself. *)
Definition own_write (d : Daemon) (nd : Node.t) (rd : Rule.t) : bool :=
  match mtime (w_fs (dm_w d)) (Node.path_ nd) with
  | None => false
  | Some t => bool_decide (t ≤ Rule.timestamp_ rd)%Z || (Node.isLazyFetched_ nd && bool_decide (t ≤ Node.timestamp_ nd)%Z)
  end.

(** An output [n] of the rule [r] was changed by somebody else. *)
Record output_changed (d d' : Daemon) (n r : N) (rd : Rule.t) : Prop := {
  oc_daemon : d' = updated d (the_graph d') (sourcesMissing_ d);
  oc_shape : same_shape (the_graph d) (the_graph d');
  oc_counters : counters_ok (the_graph d');
  oc_dirty m : is_Some (g_nodes (the_graph d) !! m) →
    node_dirty (the_graph d') m = true ↔ node_dirty (the_graph d) m = true ∨ affected (the_graph d) n m;
  oc_dirty_rule x : is_Some (g_rules (the_graph d) !! x) →
    rule_dirty (the_graph d') x = true ↔ rule_dirty (the_graph d) x = true ∨ affected_rule (the_graph d) n x ∨ x = r;
  oc_consistent : consistent (the_graph d') ↔ ∀ o, o ∈ Rule.outputs_ rd → o ≠ n →
    node_lazy (the_graph d) o = true ∨ node_dirty (the_graph d) o = true;
}.

Lemma noteFile_output d n nd r rd :
  Node.childRule_ nd = Some r → g_rules (the_graph d) !! r = Some rd →
  returns (noteFile n nd) (λ go d', go = negb (own_write d nd rd) ∧ d' = d) d.
Proof.
  intros Hc Hr. apply wp_bind, wp_mget. unfold own_write. destruct (mtime _ _) as [t|].
  - rewrite Hc. apply wp_bind. eapply wp_heap_readRule; [exact Hr|]. by apply wp_ret.
  - unfold Node.isSource. rewrite Hc. cbn [bool_decide decide andb mwhen]. apply wp_bind, wp_ret. by apply wp_ret.
Qed.

(** C14: [setDirty] on a generated file, on a consistent acyclic graph: nothing changes
    if the file is as old as what the daemon itself wrote; otherwise what depends
    on it is marked, and the rule that makes it, the counters staying right.  The
    graph is consistent afterwards exactly if the other outputs of that rule were
    dirty or fetched already. *)
Theorem setDirty_output d target n nd r rd :
  consistent (the_graph d) → acyclic (the_graph d) → target ≠ jsonGraphFile →
  Graph.nodes_ (g_graph (the_graph d)) !! target = Some n → g_nodes (the_graph d) !! n = Some nd →
  Node.childRule_ nd = Some r → g_rules (the_graph d) !! r = Some rd → Rule.isPhony rd = false →
  size (g_nodes (the_graph d)) ≤ fuel →
  returns (setDirty jsonGraphFile wm_fuel fuel target)
    (λ _ d', if own_write d nd rd then d' = d else output_changed d d' n r rd) d.
Proof.
  intros Hcs Hac Hne Htarget Hn Hc Hr Hph Hfuel. unfold setDirty. rewrite bool_decide_eq_false_2 by done.
  apply wp_bind, wp_bind, wp_theGraph. rewrite Htarget. apply wp_ret.
  apply wp_bind. eapply wp_heap_readNode; [exact Hn|]. rewrite Hc. apply wp_bind, wp_bind.
  eapply wp_heap_readRule; [exact Hr|]. apply wp_ret. rewrite Hph. apply wp_bind.
  eapply wp_mono; [by apply (noteFile_output d n nd r rd)| |done]. intros go d1 [-> ->]. rewrite negb_involutive.
  destruct (own_write d nd rd); [by apply wp_ret|]. apply wp_bind, wp_ret. cbn [mwhen]. apply wp_bind, wp_on_heap.
  eapply wp_mono; [apply (markDirty_marked (the_graph d) n fuel); try done; [apply Hcs|apply Hcs]| |done].
  intros [] g1 Hm. pose proof (marked_shape _ _ _ Hm) as Hsh. destruct (same_shape_node _ _ _ _ Hsh Hn) as (nd1 & Hn1 & Hshn).
  destruct (same_shape_rule _ _ _ _ Hsh Hr) as (rd1 & Hr1 & Hshr). unfold node_shape in Hshn.
  apply wp_bind, wp_heap. eapply wp_readNode; [exact Hn1|]. replace (Node.childRule_ nd1) with (Some r) by congruence.
  apply wp_heap. eapply wp_updRule; [exact Hr1|].
  assert (Hno : n ∈ Rule.outputs_ rd).
  { destruct (so_child _ (c_structure _ Hcs) n nd r Hn Hc) as (x & Hx & ?). congruence. }
  split; unfold the_graph; cbn.
  - done.
  - by eapply (output_shape (the_graph d) g1 n r rd1).
  - by eapply (output_counters (the_graph d) g1 n r rd1).
  - by apply (output_node_dirty (the_graph d) g1 n r rd1).
  - by apply (output_rule_dirty (the_graph d) g1 n r rd1).
  - by apply (output_consistent (the_graph d) g1 n r nd rd rd1).
Qed.
End output.

(** ** Runs *)

Definition daemon_over (w : World) : Daemon := mkDaemon w (newServer 64) 0 false None ∅.

Definition changed_source : Node.t := default (mk_node "" None [] UP_TO_DATE) (g_nodes (w_g changed_world) !! 1%N).

Lemma setDirty_source_witness :
  returns (@DaemonInstance.setDirty first_fit sum_sha silent_env no_dirs sorted_order "falcon.json" 9 4 "source")
    (λ _ d', @source_changed sum_sha no_dirs (daemon_over changed_world) d' 1 changed_source) (daemon_over changed_world).
Proof.
  apply (@setDirty_source first_fit sum_sha silent_env no_dirs sorted_order).
  - apply check_consistent. vm_compute. reflexivity.
  - apply (check_rank_sound _ two_outputs_rank). vm_compute. reflexivity.
  - apply check_hashable_sound. vm_compute. reflexivity.
  - done.
  - vm_compute. reflexivity.
  - vm_compute. reflexivity.
  - vm_compute. reflexivity.
  - intros x. apply check_good_sound. vm_compute. reflexivity.
  - vm_compute. lia.
Defined.

Lemma startBuild_exact_witness :
  returns (@DaemonInstance.startBuild first_fit 4 None (λ _, 0%Z) [] 2 false)
    (λ res d', res = OK ∧ ∃ T plan, build_started (daemon_over (world_of two_outputs_dirty (mkFS ∅ (λ _, true) 1))) d' [] 2 T plan)
    (daemon_over (world_of two_outputs_dirty (mkFS ∅ (λ _, true) 1))).
Proof.
  eapply wp_mono; [apply (@startBuild_exact first_fit 4 true (daemon_over (world_of two_outputs_dirty (mkFS ∅ (λ _, true) 1))))| |].
  - apply check_consistent. vm_compute. reflexivity.
  - apply (check_rank_sound _ two_outputs_rank). vm_compute. reflexivity.
  - apply check_graph_sound. vm_compute. reflexivity.
  - done.
  - vm_compute. lia.
  - intros n Hn. by apply elem_of_empty in Hn.
  - apply newServer_ok.
  - done.
  - vm_compute. lia.
  - intros res d' (-> & _ & H). split; [done|exact H].
  - intros e d' (_ & _ & [[H _]|(_ & t & H & _)]); [by apply H|by apply elem_of_nil in H].
Defined.

(** "o1" was removed. *)
Definition without_o1 : World := world_of two_outputs (mkFS {["source" := File "s" 1; "o2" := File "b" 1]} (λ _, true) 2).

Lemma setDirty_output_witness :
  returns (@DaemonInstance.setDirty first_fit sum_sha silent_env no_dirs sorted_order "falcon.json" 9 4 "o1")
    (λ _ d', output_changed (daemon_over without_o1) d' 2 10 (mk_rule [1%N] [2%N; 3%N] "gen" UP_TO_DATE 1)) (daemon_over without_o1).
Proof.
  apply (@setDirty_output first_fit sum_sha silent_env no_dirs sorted_order "falcon.json" 9 4 (daemon_over without_o1) "o1"
    2 (mk_node "o1" (Some 10%N) [11%N] UP_TO_DATE) 10 (mk_rule [1%N] [2%N; 3%N] "gen" UP_TO_DATE 1)).
  - apply check_consistent. vm_compute. reflexivity.
  - apply (check_rank_sound _ two_outputs_rank). vm_compute. reflexivity.
  - done.
  - vm_compute. reflexivity.
  - vm_compute. reflexivity.
  - reflexivity.
  - vm_compute. reflexivity.
  - reflexivity.
  - vm_compute. lia.
Defined.

