(* ===== verification/CommandServer.v ===== *)
(** * The thrift service (command_server.cpp)

    Every request of FalconService.thrift is handed to the daemon.  The theorems are
    about sequences of requests: a question is answered from the graph, or refused with
    the exception that the thrift file declares for it, and changes nothing; and over a
    session in which sources change and are reported the daemon stays healthy. *)

From Stdlib Require Import Ascii.
From S2P Require Import StreamServer SubProcess.
From S2P Require Import Prelude GraphModel GraphChecks GraphDirty BuildPlan BuildCore.
From S2P Require Import DepfileParser Fs Cache Watchman World Hash HashRecompute Scan ScanExact LazyCache Builder GraphParser GraphReloader GraphPrinters Daemon.

Inductive Request :=
  | GetPid | GetStatus | InterruptBuild | Shutdown | GetDirtySources | GetDirtyTargets | GetGraphviz
  | StartBuild (targets : list string) (numThreads : nat) (lazyFetch : bool)
  | GetInputsOf (target : string) | GetOutputsOf (target : string) | GetHashOf (target : string) | SetDirty (target : string).
Inductive Reply :=
  | RInt (x : Z) | RBuild (x : StartBuildResult) | RStatus (x : FalconStatus) | RNames (x : gset string) | RText (x : string) | RVoid.

Module FalconServiceHandler.
Section handler.
Context `{Allocator} `{SHA256} `{WatchEnv} `{DirTime} `{NodeOrder}.
(** The process, the head of the repository and the clock of the cache. *)
Variables (pid : Z) (head : option string) (time : N → Z) (jsonGraphFile : string) (wm_fuel fuel : nat).
Import DaemonInstance.

Definition getGraphviz : M Daemon string := onHeap (printGraphGraphviz "").

Definition reply {A} (f : A → Reply) (m : M Daemon A) : M Daemon Reply := x ← m; mret (f x).
Definition handle (q : Request) : M Daemon Reply :=
  match q with
  | GetPid => mret (RInt pid)
  | StartBuild targets numThreads lazyFetch => reply RBuild (startBuild fuel head time targets numThreads lazyFetch)
  | GetStatus => reply RStatus (getStatus)
  | InterruptBuild => interruptBuild;; mret RVoid
  | GetDirtySources => reply RNames getDirtySources
  | GetDirtyTargets => reply RNames getDirtyTargets
  | GetInputsOf target => reply RNames (getInputsOf target)
  | GetOutputsOf target => reply RNames (getOutputsOf target)
  | GetHashOf target => reply RText (getHashOf target)
  | SetDirty target => setDirty jsonGraphFile wm_fuel fuel target;; mret RVoid
  | Shutdown => shutdown wm_fuel;; mret RVoid
  | GetGraphviz => reply RText getGraphviz
  end.
End handler.
End FalconServiceHandler.

(** What the thrift file declares that a request throws. *)
Definition declared (q : Request) (e : exn) : Prop :=
  match q with
  | StartBuild _ _ _ => ∃ desc, e = InvalidBuildError desc
  | GetInputsOf _ | GetOutputsOf _ | GetHashOf _ | SetDirty _ => e = TargetNotFound
  | _ => False
  end.

(** ** Questions *)

Definition question (q : Request) : bool :=
  match q with StartBuild _ _ _ | InterruptBuild | Shutdown | SetDirty _ => false | _ => true end.

Section answers.
Context (pid : Z) (d : Daemon).
Notation g := (the_graph d).

(** The name of a node. *)
Definition named (n : N) (p : string) : Prop := path_of g n = Some p.
(** The file [p] is an input, or an output, of a rule. *)
Definition is_input (n : N) (p : string) : Prop := ∃ nd r rd i,
  g_nodes g !! n = Some nd ∧ Node.childRule_ nd = Some r ∧ g_rules g !! r = Some rd ∧ i ∈ Rule.inputs_ rd ∧ named i p.
Definition is_consumer (n : N) (p : string) : Prop := ∃ nd r rd o,
  g_nodes g !! n = Some nd ∧ r ∈ Node.parentRules_ nd ∧ g_rules g !! r = Some rd ∧ o ∈ Rule.outputs_ rd ∧ named o p.

Definition target_of (q : Request) : option string :=
  match q with GetInputsOf t | GetOutputsOf t | GetHashOf t | SetDirty t => Some t | _ => None end.
Definition unknown (q : Request) : Prop := ∃ t, target_of q = Some t ∧ Graph.nodes_ (g_graph g) !! t = None.

(** The answer that the graph gives. *)
Definition answer (q : Request) (r : Reply) : Prop :=
  match q, r with
  | GetPid, RInt x => x = pid
  | GetStatus, RStatus x => x = BUILDING ↔ isBuilding_ d = true
  | GetDirtySources, RNames X => ∀ p, p ∈ X ↔ ∃ n, n ∈ Graph.sources_ (g_graph g) ∧ node_dirty g n = true ∧ named n p
  | GetDirtyTargets, RNames X => ∀ p, p ∈ X ↔ ∃ n, Graph.nodes_ (g_graph g) !! p = Some n ∧ node_dirty g n = true
  | GetInputsOf t, RNames X => ∃ n, Graph.nodes_ (g_graph g) !! t = Some n ∧ ∀ p, p ∈ X ↔ is_input n p
  | GetOutputsOf t, RNames X => ∃ n, Graph.nodes_ (g_graph g) !! t = Some n ∧ ∀ p, p ∈ X ↔ is_consumer n p
  | GetHashOf t, RText h => ∃ n nd, Graph.nodes_ (g_graph g) !! t = Some n ∧ g_nodes g !! n = Some nd ∧ h = Node.hash_ nd
  | GetGraphviz, RText x => x = graphviz g
  | _, _ => False
  end.
End answers.

Section questions.
Context {HA : Allocator} {HS : SHA256} {HW : WatchEnv} {HD : DirTime} {HO : NodeOrder}.
Context (pid : Z) (head : option string) (time : N → Z) (jsonGraphFile : string) (wm_fuel fuel : nat).
Import DaemonInstance FalconServiceHandler.
Notation handle := (handle pid head time jsonGraphFile wm_fuel fuel).

Section state.
Context (d : Daemon).
Notation g := (the_graph d).
Hypothesis Hok : structure_ok g.
Hypothesis Hg : graph_ok g.

Lemma named_node n nd : g_nodes g !! n = Some nd → named d n (Node.path_ nd).
Proof using All. intros Hn. unfold named, path_of. by rewrite Hn. Qed.
Lemma named_unique n nd p : g_nodes g !! n = Some nd → named d n p ↔ p = Node.path_ nd.
Proof using All. intros Hn. unfold named, path_of. rewrite Hn. simpl. split; [by intros [= ->]|by intros ->]. Qed.

Lemma paths_names l : (∀ n, n ∈ l → is_Some (g_nodes g !! n)) →
  returns (paths l) (λ ps d', d' = d ∧ ∀ p, p ∈ ps ↔ ∃ n, n ∈ l ∧ named d n p) d.
Proof using All.
  intros Hl. apply (wp_foldM (λ pre ps d', d' = d ∧ ∀ p, p ∈ ps ↔ ∃ n, n ∈ pre ∧ named d n p)); [set_solver| |done].
  intros pre n post acc d' -> [-> Hacc]. destruct (Hl n) as [nd Hn]; [set_solver|].
  apply wp_bind. eapply wp_heap_readNode; [exact Hn|]. apply wp_ret. split; [done|]. intros p.
  rewrite elem_of_app, list_elem_of_singleton, Hacc. setoid_rewrite elem_of_app. setoid_rewrite list_elem_of_singleton.
  rewrite <- (named_unique n nd p Hn). naive_solver.
Qed.
Lemma dirtyPaths_names l : (∀ n, n ∈ l → is_Some (g_nodes g !! n)) →
  returns (dirtyPaths l) (λ X d', d' = d ∧ ∀ p, p ∈ X ↔ ∃ n, n ∈ l ∧ node_dirty g n = true ∧ named d n p) d.
Proof using All.
  intros Hl. apply (wp_foldM (λ pre X d', d' = d ∧ ∀ p, p ∈ X ↔ ∃ n, n ∈ pre ∧ node_dirty g n = true ∧ named d n p)); [set_solver| |done].
  intros pre n post acc d' -> [-> Hacc]. destruct (Hl n) as [nd Hn]; [set_solver|].
  apply wp_bind. eapply wp_heap_readNode; [exact Hn|]. apply wp_ret. split; [done|]. intros p.
  assert (Hd : node_dirty g n = Node.isDirty nd) by (unfold node_dirty; by rewrite Hn).
  assert (Hn' : p = Node.path_ nd ↔ named d n p) by (symmetry; by apply named_unique).
  setoid_rewrite elem_of_app. setoid_rewrite list_elem_of_singleton. rewrite <- Hd. destruct (node_dirty g n) eqn:E.
  - rewrite elem_of_union, elem_of_singleton, Hacc, Hn'. naive_solver.
  - rewrite Hacc. naive_solver congruence.
Qed.

Lemma rule_files r rd : g_rules g !! r = Some rd →
  (∀ n, n ∈ Rule.inputs_ rd → is_Some (g_nodes g !! n)) ∧ (∀ n, n ∈ Rule.outputs_ rd → is_Some (g_nodes g !! n)).
Proof using All.
  intros Hr. split; intros n Hn; [destruct (so_input _ Hok r rd n Hr Hn) as (nd & ? & _)|destruct (so_output _ Hok r rd n Hr Hn) as (nd & ? & _)]; by eexists.
Qed.

Lemma findTarget_spec target (Q : N → Daemon → Prop) (E : exn → Daemon → Prop) :
  (∀ n nd, Graph.nodes_ (g_graph g) !! target = Some n → g_nodes g !! n = Some nd → Q n d) →
  (Graph.nodes_ (g_graph g) !! target = None → E TargetNotFound d) → wp (findTarget target) Q E d.
Proof using All.
  intros HQ HE. apply wp_bind, wp_theGraph. destruct (Graph.nodes_ (g_graph g) !! target) as [n|] eqn:Ht.
  - apply wp_ret. pose proof Ht as Ht'. apply (go_nodes _ Hg) in Ht' as (nd & Hn & _). by eapply HQ.
  - apply wp_mthrow. by apply HE.
Qed.

Definition asked (q : Request) : Prop :=
  wp (handle q) (λ r d', d' = d ∧ answer pid d q r) (λ e d', d' = d ∧ declared q e ∧ unknown d q) d.

Lemma dirty_sources : asked GetDirtySources.
Proof using All.
  apply wp_bind, wp_bind, wp_theGraph. eapply (wp_mono _ _ _ (λ _ _, False)); [apply dirtyPaths_names| |done].
  { intros n Hn%elem_of_set_elems. apply (go_sources _ Hg) in Hn as (nd & ? & _). by eexists. }
  intros X d' [-> HX]. apply wp_ret. split; [done|]. simpl. intros p. rewrite HX. by setoid_rewrite elem_of_set_elems.
Qed.
Lemma dirty_targets : asked GetDirtyTargets.
Proof using All.
  assert (Hin : ∀ n, n ∈ (node_order (Graph.nodes_ (g_graph g))).*2 ↔ ∃ p, Graph.nodes_ (g_graph g) !! p = Some n).
  { intros n. rewrite list_elem_of_fmap. split.
    - intros ([p m] & -> & Hm). exists p. rewrite node_order_perm in Hm. by apply elem_of_map_to_list.
    - intros [p Hp]. exists (p, n). split; [done|]. rewrite node_order_perm. by apply elem_of_map_to_list. }
  apply wp_bind, wp_bind, wp_theGraph. eapply (wp_mono _ _ _ (λ _ _, False)); [apply dirtyPaths_names| |done].
  { intros n [p Hp]%Hin. apply (go_nodes _ Hg) in Hp as (nd & ? & _). by eexists. }
  intros X d' [-> HX]. apply wp_ret. split; [done|]. simpl. intros p. rewrite HX. split.
  - intros (n & [p' Hp]%Hin & Hdirty & Hnm). apply (go_nodes _ Hg) in Hp as (nd & Hn & <-). apply (named_unique n nd p Hn) in Hnm as ->.
    exists n. split; [|done]. apply (go_nodes _ Hg). by exists nd.
  - intros (n & Hp & Hdirty). exists n. split_and!; [apply Hin; by exists p|done|]. apply (go_nodes _ Hg) in Hp as (nd & Hn & <-). by apply named_node.
Qed.
Lemma inputs_of target : asked (GetInputsOf target).
Proof using All.
  apply wp_bind, wp_bind, findTarget_spec; [|intros Ht; split_and!; [done|done|by exists target]].
  intros n nd Ht Hn. apply wp_bind. eapply wp_heap_readNode; [exact Hn|]. destruct (Node.childRule_ nd) as [c|] eqn:Hc.
  - destruct (so_child _ Hok n nd c Hn Hc) as (rd & Hr & _). destruct (rule_files c rd Hr) as [Hi _].
    apply wp_bind. eapply wp_heap_readRule; [exact Hr|]. apply wp_bind. eapply (wp_mono _ _ _ (λ _ _, False)); [by apply paths_names| |done].
    intros ps d' [-> Hps]. apply wp_ret, wp_ret. split; [done|]. exists n. split; [done|]. intros p. rewrite elem_of_list_to_set, Hps. split.
    + intros (i & Hin & Hnm). by exists nd, c, rd, i.
    + intros (nd' & r' & rd' & i & Hn' & Hc' & Hr' & Hin & Hnm). simplify_eq. by exists i.
  - apply wp_ret, wp_ret. split; [done|]. exists n. split; [done|]. intros p. split; [set_solver|].
    intros (nd' & r' & rd' & i & Hn' & Hc' & _). congruence.
Qed.
Lemma outputs_of target : asked (GetOutputsOf target).
Proof using All.
  apply wp_bind, wp_bind, findTarget_spec; [|intros Ht; split_and!; [done|done|by exists target]].
  intros n nd Ht Hn. apply wp_bind. eapply wp_heap_readNode; [exact Hn|].
  eapply (wp_foldM (λ pre X d', d' = d ∧ ∀ p, p ∈ X ↔ ∃ r rd o, r ∈ pre ∧ g_rules g !! r = Some rd ∧ o ∈ Rule.outputs_ rd ∧ named d o p)).
  - set_solver.
  - intros pre r post X d' Heq [-> HX]. destruct (so_parent _ Hok n nd r Hn) as (rd & Hr & _); [rewrite Heq; set_solver|].
    destruct (rule_files r rd Hr) as [_ Ho]. apply wp_bind. eapply wp_heap_readRule; [exact Hr|]. apply wp_bind.
    eapply (wp_mono _ _ _ (λ _ _, False)); [by apply paths_names| |done]. intros ps d' [-> Hps]. apply wp_ret. split; [done|].
    intros p. rewrite elem_of_union, elem_of_list_to_set, HX, Hps. setoid_rewrite elem_of_app. setoid_rewrite list_elem_of_singleton. split.
    + intros [(r' & rd' & o & ? & ?)|(o & ? & ?)]; [exists r', rd', o|exists r, rd, o]; naive_solver.
    + intros (r' & rd' & o & [?| ->] & Hr' & ? & ?); [left; by exists r', rd', o|right]. simplify_eq. by exists o.
  - intros X d' [-> HX]. apply wp_ret. split; [done|]. exists n. split; [done|]. intros p. rewrite HX. split.
    + intros (r & rd & o & ? & ? & ? & ?). by exists nd, r, rd, o.
    + intros (nd' & r & rd & o & Hn' & ? & ? & ? & ?). simplify_eq. by exists r, rd, o.
Qed.
Lemma hash_of target : asked (GetHashOf target).
Proof using All.
  apply wp_bind, wp_bind, findTarget_spec; [|intros Ht; split_and!; [done|done|by exists target]].
  intros n nd Ht Hn. apply wp_bind. eapply wp_heap_readNode; [exact Hn|]. apply wp_ret, wp_ret. split; [done|]. by exists n, nd.
Qed.

Lemma question_answered q : question q = true → asked q.
Proof using All.
  destruct q; try done; intros _.
  - apply wp_bind, wp_bind, wp_mget, wp_ret, wp_ret. split; [done|]. simpl. by destruct (isBuilding_ d).
  - apply dirty_sources.
  - apply dirty_targets.
  - apply wp_bind, wp_on_heap. unfold wp. rewrite (printGraphGraphviz_text g Hok Hg), updated_same. by apply wp_ret.
  - apply inputs_of.
  - apply outputs_of.
  - apply hash_of.
Qed.
End state.

(** C9: every question of the service, asked of any daemon with a well-formed graph,
    is answered with what the graph says, or, when its target is not in the graph, with
    the exception that FalconService.thrift declares for it; it changes nothing. *)
Theorem question_exact q d :
  structure_ok (the_graph d) → graph_ok (the_graph d) → question q = true →
  wp (handle q) (λ r d', d' = d ∧ answer pid d q r) (λ e d', d' = d ∧ declared q e ∧ unknown d q) d.
Proof. intros Hok Hg Hq. by apply (question_answered d Hok Hg). Qed.
End questions.

(** ** Sessions *)

(** Somebody writes or removes a file. *)
Definition write_fs (p : string) (x : option entry) (f : FS) : FS := set_entries (partial_alter (λ _, x) p (fs_entries f)) f.
Definition change (p : string) (x : option entry) (d : Daemon) : Daemon :=
  lset DaemonInstance.l_w (set_fs (write_fs p x (w_fs (dm_w d))) (dm_w d)) d.

(** A question of a client, or the change of a source, which watchman reports. *)
Inductive event := Asked (q : Request) | Changed (p : string) (x : option entry).

Section sessions.
Context {HA : Allocator} {HS : SHA256} {HW : WatchEnv} {HD : DirTime} {HO : NodeOrder}.
Context (pid : Z) (head : option string) (time : N → Z) (jsonGraphFile : string) (wm_fuel fuel : nat).
Import DaemonInstance FalconServiceHandler.
Notation handle := (handle pid head time jsonGraphFile wm_fuel fuel).

(** An exception goes to the client. *)
Definition happens (ev : event) : M Daemon unit :=
  match ev with
  | Asked q => catch (handle q;; mret tt) (λ _, mret tt)
  | Changed p x => modify (change p x);; handle (SetDirty p);; mret tt
  end.
Definition session (l : list event) : M Daemon unit := foreach l happens.

Definition event_ok (d : Daemon) (ev : event) : Prop :=
  match ev with
  | Asked q => question q = true
  | Changed p _ => p ≠ jsonGraphFile ∧ ∃ n nd, Graph.nodes_ (g_graph (the_graph d)) !! p = Some n ∧
      g_nodes (the_graph d) !! n = Some nd ∧ Node.childRule_ nd = None
  end.

(** The graph is consistent, every hash is right, and the missing sources are known. *)
Record healthy (d : Daemon) : Prop := {
  he_consistent : consistent (the_graph d);
  he_acyclic : acyclic (the_graph d);
  he_graph : graph_ok (the_graph d);
  he_hashable : hashable (dm_w d);
  he_good x : good (w_fs (dm_w d)) (the_graph d) x;
  he_missing n : n ∈ sourcesMissing_ d ↔ ∃ nd, g_nodes (the_graph d) !! n = Some nd ∧ Node.childRule_ nd = None ∧
    Node.isExplicitDependency_ nd = true ∧ mtime (w_fs (dm_w d)) (Node.path_ nd) = None;
}.

(** The sources whose hash an event of the session changed. *)
Definition file_hash (f : FS) (p : string) : string := Hasher [p; read_all f p].
Fixpoint touched (f : FS) (l : list event) : gset string :=
  match l with
  | [] => ∅
  | Asked _ :: l => touched f l
  | Changed p x :: l =>
    let f' := write_fs p x f in
    (if decide (file_hash f p = file_hash f' p) then ∅ else {[p]}) ∪ touched f' l
  end.
Fixpoint files_after (f : FS) (l : list event) : FS :=
  match l with [] => f | Asked _ :: l => files_after f l | Changed p x :: l => files_after (write_fs p x f) l end.

(** A node that depends on a source of [X], a rule that reads one. *)
Definition node_hit (g : GState) (X : gset string) (m : N) : Prop := ∃ p n, p ∈ X ∧ Graph.nodes_ (g_graph g) !! p = Some n ∧ affected g n m.
Definition rule_hit (g : GState) (X : gset string) (r : N) : Prop := ∃ p n, p ∈ X ∧ Graph.nodes_ (g_graph g) !! p = Some n ∧ affected_rule g n r.

Record after_session (d d' : Daemon) (X : gset string) (f : FS) : Prop := {
  as_healthy : healthy d';
  as_shape : same_shape (the_graph d) (the_graph d');
  as_files : w_fs (dm_w d') = f;
  as_build : (streamServer_ d', buildId_ d', isBuilding_ d', builder_ d') = (streamServer_ d, buildId_ d, isBuilding_ d, builder_ d);
  as_dirty m : is_Some (g_nodes (the_graph d) !! m) →
    node_dirty (the_graph d') m = true ↔ node_dirty (the_graph d) m = true ∨ node_hit (the_graph d) X m;
  as_dirty_rule r : is_Some (g_rules (the_graph d) !! r) →
    rule_dirty (the_graph d') r = true ↔ rule_dirty (the_graph d) r = true ∨ rule_hit (the_graph d) X r;
}.

Lemma after_refl d : healthy d → after_session d d ∅ (w_fs (dm_w d)).
Proof.
  intros Hd. split; try done; intros y _; (split; [by left|]); intros [?|(p & n & Hp & _)]; [done|set_solver|done|set_solver].
Qed.
Lemma node_hit_shape g g' X m : same_shape g g' → node_hit g' X m ↔ node_hit g X m.
Proof.
  intros Hs. unfold node_hit. rewrite (ss_graph _ _ Hs). do 2 (apply exist_proper; intros ?). by rewrite (affected_same _ _ _ _ Hs).
Qed.
Lemma rule_hit_shape g g' X r : same_shape g g' → rule_hit g' X r ↔ rule_hit g X r.
Proof.
  intros Hs. unfold rule_hit. rewrite (ss_graph _ _ Hs). do 2 (apply exist_proper; intros ?). by rewrite (affected_rule_shape _ _ _ _ Hs).
Qed.
Lemma hit_union (P : N → Prop) (g : GState) (X Y : gset string) :
  (∃ p n, p ∈ X ∪ Y ∧ Graph.nodes_ (g_graph g) !! p = Some n ∧ P n) ↔
  (∃ p n, p ∈ X ∧ Graph.nodes_ (g_graph g) !! p = Some n ∧ P n) ∨ (∃ p n, p ∈ Y ∧ Graph.nodes_ (g_graph g) !! p = Some n ∧ P n).
Proof.
  split.
  - intros (p & n & [Hp|Hp]%elem_of_union & Hn & HP); [left|right]; by exists p, n.
  - intros [(p & n & Hp & Hn & HP)|(p & n & Hp & Hn & HP)]; exists p, n; (split; [set_solver|done]).
Qed.
Lemma node_hit_union g X Y m : node_hit g (X ∪ Y) m ↔ node_hit g X m ∨ node_hit g Y m.
Proof. apply (hit_union (λ n, affected g n m)). Qed.
Lemma rule_hit_union g X Y r : rule_hit g (X ∪ Y) r ↔ rule_hit g X r ∨ rule_hit g Y r.
Proof. apply (hit_union (λ n, affected_rule g n r)). Qed.
Lemma after_trans d d1 d2 X1 X2 f1 f2 :
  after_session d d1 X1 f1 → after_session d1 d2 X2 f2 → after_session d d2 (X1 ∪ X2) f2.
Proof.
  intros Ha Hb. pose proof (as_shape _ _ _ _ Ha) as Hs. split.
  - apply Hb.
  - etrans; [exact Hs|apply Hb].
  - apply Hb.
  - rewrite (as_build _ _ _ _ Hb). apply Ha.
  - intros m [nd Hm]. destruct (same_shape_node _ _ _ _ Hs Hm) as (nd1 & Hm1 & _).
    rewrite (as_dirty _ _ _ _ Hb m), (as_dirty _ _ _ _ Ha m), (node_hit_shape _ _ _ _ Hs) by by eexists.
    rewrite node_hit_union. tauto.
  - intros r [rd Hr]. destruct (same_shape_rule _ _ _ _ Hs Hr) as (rd1 & Hr1 & _).
    rewrite (as_dirty_rule _ _ _ _ Hb r), (as_dirty_rule _ _ _ _ Ha r), (rule_hit_shape _ _ _ _ Hs) by by eexists.
    rewrite rule_hit_union. tauto.
Qed.

(** *** One change *)

Section changed.
Context (d : Daemon) (p : string) (x : option entry) (n : N) (nd : Node.t).
Notation g := (the_graph d).
Hypothesis Hd : healthy d.
Hypothesis Hp : Graph.nodes_ (g_graph g) !! p = Some n.
Hypothesis Hn : g_nodes g !! n = Some nd.
Hypothesis Hc : Node.childRule_ nd = None.
Notation f' := (write_fs p x (w_fs (dm_w d))).

Lemma source_path : Node.path_ nd = p.
Proof using All. apply (go_nodes _ (he_graph _ Hd)) in Hp as (nd' & Hn' & <-). congruence. Qed.
Lemma other_path m md : g_nodes g !! m = Some md → m ≠ n → Node.path_ md ≠ p.
Proof using All.
  intros Hm Hne <-. apply Hne. assert (Hm' : Graph.nodes_ (g_graph g) !! Node.path_ md = Some m); [|congruence].
  apply (go_nodes _ (he_graph _ Hd)). by exists md.
Qed.
Lemma other_entry q : q ≠ p → fs_entries f' !! q = fs_entries (w_fs (dm_w d)) !! q.
Proof using Type. intros Hq. simpl. by rewrite lookup_partial_alter_ne by done. Qed.

Lemma good_elsewhere y : y ≠ ONode n → good f' g y.
Proof using All.
  intros Hy. pose proof (he_good _ Hd y) as Hgy. destruct y as [m|r]; [|exact Hgy]. intros md Hm. rewrite (Hgy md Hm).
  unfold node_target. destruct (Node.childRule_ md); [done|]. unfold read_all. rewrite other_entry; [done|]. apply (other_path m); congruence.
Qed.
Lemma source_hash : Node.hash_ nd = file_hash (w_fs (dm_w d)) p.
Proof using All.
  pose proof (he_good _ Hd (ONode n) nd Hn) as H. unfold node_target in H. rewrite Hc, source_path in H. by injection H.
Qed.

(** A source that is missing in [f]. *)
Definition misses (f : FS) (md : Node.t) : Prop :=
  Node.childRule_ md = None ∧ Node.isExplicitDependency_ md = true ∧ mtime f (Node.path_ md) = None.
Lemma missing_changed m : m ∈ missing_after (change p x d) n nd ↔ ∃ md, g_nodes g !! m = Some md ∧ misses f' md.
Proof using All.
  assert (Hother : m ≠ n → m ∈ sourcesMissing_ d ↔ ∃ md, g_nodes g !! m = Some md ∧ misses f' md).
  { intros Hne. rewrite (he_missing _ Hd m). apply exist_proper. intros md. split; intros (Hm & ? & ? & Ht); (split_and!; [done|split_and!; [done|done|]] || split_and!; try done);
      unfold mtime in *; rewrite other_entry in * by (by eapply other_path); done. }
  unfold missing_after. cbn [sourcesMissing_ change lset DaemonInstance.l_w dm_w w_fs w_gf set_fs set_gf gf_fs]. rewrite source_path.
  assert (Hself : (∃ md, g_nodes g !! n = Some md ∧ misses f' md) ↔ Node.isExplicitDependency_ nd = true ∧ mtime f' p = None).
  { unfold misses. rewrite <- source_path at 2. split; [intros (md & Hm & ?); simplify_eq; naive_solver|intros []; by exists nd]. }
  destruct (decide (m = n)) as [->|Hne].
  - rewrite Hself. destruct (mtime f' p) as [t|]; [set_solver|]. destruct (Node.isExplicitDependency_ nd) eqn:E; [set_solver|].
    rewrite (he_missing _ Hd n). split; [intros (md & ? & ? & ? & ?); simplify_eq; congruence|naive_solver].
  - rewrite <- Hother by done. destruct (mtime f' p); [set_solver|]. destruct (Node.isExplicitDependency_ nd); set_solver.
Qed.

Lemma changed_once : p ≠ jsonGraphFile → size (g_nodes g) ≤ fuel →
  returns (happens (Changed p x)) (λ _ d', after_session d d' (touched (w_fs (dm_w d)) [Changed p x]) f') d.
Proof using All.
  intros Hne Hf. apply wp_bind, wp_modify, wp_bind, wp_bind. set (d1 := change p x d).
  eapply wp_mono; [apply (setDirty_source jsonGraphFile wm_fuel fuel d1 p n nd); try done; try apply Hd| |done].
  { destruct (he_hashable _ Hd). by split. }
  { apply good_elsewhere. }
  intros [] d2 Hch. apply wp_ret, wp_ret. destruct Hch as [Hd2 Hsh Hcs Hex Hh Hgood Hdirty Hdr].
  pose proof source_hash as Hhash. assert (Hcontent : content_hash d1 (Node.path_ nd) = file_hash f' p) by by rewrite source_path.
  change (the_graph d1) with g in *. set (g2 := the_graph d2) in *. clearbody g2. subst d2.
  change (the_graph (updated d1 g2 (missing_after d1 n nd))) with g2 in *.
  assert (Hhit : ∀ (P : N → Prop), (∃ q m, q ∈ touched (w_fs (dm_w d)) [Changed p x] ∧ Graph.nodes_ (g_graph g) !! q = Some m ∧ P m) ↔
    Node.hash_ nd ≠ content_hash d1 (Node.path_ nd) ∧ P n).
  { intros P. rewrite Hcontent, Hhash. cbn [touched]. destruct (decide (file_hash _ p = _)) as [E|E].
    - split; [intros (q & m & Hq & _); set_solver|naive_solver].
    - split; [intros (q & m & Hq & Hm & ?); assert (q = p) as -> by set_solver; naive_solver congruence|].
      intros [_ ?]. exists p, n. split_and!; [set_solver|done|done]. }
  split.
  - split; try done.
    + apply (acyclic_proper _ _ Hsh), Hd.
    + eapply graph_ok_shape; [exact Hsh|apply Hd].
    + intros m. change (the_graph (updated d1 g2 (missing_after d1 n nd))) with g2. change (sourcesMissing_ _) with (missing_after (change p x d) n nd). rewrite missing_changed. split; intros (md & Hm & Hms).
      * destruct (same_shape_node _ _ _ _ Hsh Hm) as (md2 & Hm2 & Hshm). specialize (Hex m). rewrite Hm, Hm2 in Hex.
        unfold node_shape in Hshm. injection Hex as Hex. injection Hshm as Hpm Hcm _. exists md2. unfold misses in Hms. rewrite Hpm, Hcm, Hex. naive_solver.
      * assert (Hsh' : same_shape g2 g) by by symmetry. destruct (same_shape_node _ _ _ _ Hsh' Hm) as (md2 & Hm2 & Hshm). specialize (Hex m). rewrite Hm, Hm2 in Hex.
        unfold node_shape in Hshm. injection Hex as Hex. injection Hshm as Hpm Hcm _. exists md2. unfold misses. rewrite Hpm, Hcm, <- Hex. naive_solver.
  - done.
  - done.
  - done.
  - intros m Hm. rewrite (Hdirty m Hm). unfold node_hit. by rewrite (Hhit (λ y, affected g y m)).
  - intros r Hr. rewrite (Hdr r Hr). unfold rule_hit. by rewrite (Hhit (λ y, affected_rule g y r)).
Qed.
End changed.

Lemma event_ok_shape d d' ev : same_shape (the_graph d) (the_graph d') → event_ok d ev → event_ok d' ev.
Proof.
  intros Hs. destruct ev as [q|p x]; [done|]. intros [Hne (n & nd & Hp & Hn & Hc)]. split; [done|].
  destruct (same_shape_node _ _ _ _ Hs Hn) as (nd' & Hn' & Hsn). unfold node_shape in Hsn. injection Hsn as _ Hch _.
  exists n, nd'. rewrite <- (ss_graph _ _ Hs). split_and!; [done|done|congruence].
Qed.
Lemma shape_size g g' : same_shape g g' → size (g_nodes g') = size (g_nodes g).
Proof.
  intros Hs. rewrite <- !size_dom. f_equal. apply set_eq. intros n. rewrite !elem_of_dom.
  rewrite <- (fmap_is_Some node_shape), <- (ss_nodes _ _ Hs), fmap_is_Some. done.
Qed.

End sessions.

(** ** Runs *)

(** The small graph, hashed; nobody changed anything yet. *)
Definition fresh_daemon : Daemon := daemon_over old_world.
Lemma fresh_healthy : @healthy sum_sha no_dirs fresh_daemon.
Proof.
  split.
  - apply check_consistent. vm_compute. reflexivity.
  - apply (check_rank_sound _ two_outputs_rank). vm_compute. reflexivity.
  - apply check_graph_sound. vm_compute. reflexivity.
  - apply check_hashable_sound. vm_compute. reflexivity.
  - intros x. destruct (decide (x = ONode 100%N)) as [->|Hx].
    + intros nd Hn. vm_compute in Hn. discriminate.
    + apply (check_good_sound _ _ 100%N); [vm_compute; reflexivity|done].
  - intros n. split; [intros Hn; by apply elem_of_empty in Hn|]. intros (nd & Hn & Hc & _ & Hm).
    assert (Hb : all_nodes (the_graph fresh_daemon) (λ _ nd, negb (bool_decide (Node.childRule_ nd = None)) || bool_decide (is_Some (@mtime no_dirs (w_fs (dm_w fresh_daemon)) (Node.path_ nd)))) = true) by (vm_compute; reflexivity).
    pose proof (all_nodes_spec _ _ _ _ Hb Hn) as H. cbv beta in H. rewrite Hc, bool_decide_eq_true_2 in H by done. apply bool_decide_eq_true in H.
    revert H Hm. generalize (@mtime no_dirs (w_fs (dm_w fresh_daemon)) (Node.path_ nd)). by intros ? [? ->].
Qed.

Lemma question_exact_witness : Forall (λ q,
  wp (@FalconServiceHandler.handle first_fit sum_sha silent_env no_dirs sorted_order 42 None (λ _, 0%Z) "falcon.json" 9 4 q)
    (λ r d', d' = fresh_daemon ∧ answer 42 fresh_daemon q r) (λ e d', d' = fresh_daemon ∧ declared q e ∧ unknown fresh_daemon q) fresh_daemon)
  [GetDirtyTargets; GetInputsOf "all"; GetOutputsOf "source"; GetHashOf "nowhere"; GetGraphviz].
Proof.
  apply Forall_forall. intros q Hq. apply (@question_exact first_fit sum_sha silent_env no_dirs sorted_order).
  - apply fresh_healthy.
  - apply fresh_healthy.
  - revert q Hq. apply Forall_forall. repeat constructor.
Defined.

(** The source goes away and comes back with another content. *)
Definition busy_day : list event :=
  [Changed "source" None; Asked GetDirtyTargets; Changed "source" (Some (File "new" 2)); Asked (GetInputsOf "nowhere")].
