(* ===== verification/ReloadBroken.v ===== *)
(** * A broken graph file (daemon_instance.cpp, graphparser.cpp)

    While the daemon runs somebody edits the graph file, watchman reports it, and the
    daemon reads it again.  A file that is no document, or has no rules, is refused
    without a trace: everything the daemon has, the graph above all, stays as it was. *)

From Stdlib Require Import Ascii.
From S2P Require Import Watchman StreamServer SubProcess.
From S2P Require Import Prelude GraphModel GraphChecks GraphDirty GraphCycle BuildPlan GraphConsistency.
From S2P Require Import DepfileParser Fs Cache World Hash HashRecompute Scan ScanExact LazyCache Builder GraphParser GraphReloader GraphPrinters Daemon CommandServer.
From S2P Require Import Json JsonText JsonSafety GraphFile.

(** The rules of a graph file, if it gets so far. *)
Definition rules_in (content : string) : option JsonVal :=
  match read_graph_file content with
  | Ret (Some v) _ =>
    match getObject "rules" v with
    | Some rules => if bool_decide (_type rules = JSON_ARRAY_BEGIN) then Some rules else None
    | None => None
    end
  | _ => None
  end.

Lemma processFile_refuses `{Allocator} path t s : openings t ≤ depth_limit → short t → rules_in (text t) = None →
  ∃ msg, processFile path (text t) s = Throw (Exception EINVAL msg) s.
Proof.
  intros Hd Hs Hr. pose proof (read_safely t Hd Hs) as Hread. unfold rules_in in Hr. unfold processFile.
  destruct (read_graph_file (text t)) as [[v|] u|e u|].
  - unfold GraphParser.processDom. destruct (getObject "rules" v) as [rules|]; [|by eexists]. by case_bool_decide; [|eexists].
  - by eexists.
  - destruct Hread as [msg ->]. by exists msg.
  - done.
Qed.

Section reload.
Context `{Allocator} `{SHA256} `{WatchEnv} `{DirTime} `{NodeOrder}.
Context (jsonGraphFile : string) (wm_fuel fuel : nat).
Import DaemonInstance.

(** The parser's own graph is empty when it throws. *)
Lemma tryGraph_refuses (m : M GState unit) e s : m (set_graph Graph.new s) = Throw e (set_graph Graph.new s) →
  tryGraph Graph.new m s = Ret None s.
Proof.
  intros Hm. unfold tryGraph. rewrite Hm. unfold Graph_destroy, mbind, M_bind, gets, updGraph. cbn. by destruct s.
Qed.

Lemma reloadGraph_refuses d t : read_all (w_fs (dm_w d)) jsonGraphFile = text t →
  openings t ≤ depth_limit → short t → rules_in (text t) = None →
  reloadGraph jsonGraphFile wm_fuel fuel d = Ret tt d.
Proof.
  intros Hf Hd Hs Hr. unfold reloadGraph. unfold mbind, M_bind, mget, onHeap, zoom. cbn. rewrite Hf.
  destruct (processFile_refuses jsonGraphFile t (set_graph Graph.new (w_g (dm_w d))) Hd Hs Hr) as [msg Hp].
  rewrite (tryGraph_refuses _ _ _ Hp). cbn. by destruct d as [[] ? ? ? ? ?].
Qed.

(** C27: setDirty of the graph file, on an acyclic graph whose rules have outputs, when what is in it now is refused: it is not JSON,
    or has no array of rules, whatever else the bytes are.  The daemon does not end
    and nothing of it changes: neither the graph, nor what is known to be missing, nor
    a build, nor the clients. *)
Theorem broken_file_refused d t :
  structure_ok (the_graph d) → graph_ok (the_graph d) → acyclic (the_graph d) → has_outputs (the_graph d) →
  size (g_nodes (the_graph d)) < fuel →
  read_all (w_fs (dm_w d)) jsonGraphFile = text t →
  openings t ≤ depth_limit → short t → rules_in (text t) = None →
  setDirty jsonGraphFile wm_fuel fuel jsonGraphFile d = Ret tt d.
Proof.
  intros Hst Hg Hac Hout Hfuel Hf Hd Hs Hr. unfold setDirty. rewrite bool_decide_eq_true_2 by done.
  unfold mbind, M_bind. rewrite (reloadGraph_refuses d t Hf Hd Hs Hr). unfold checkConsistency, onHeap, zoom. cbn.
  destruct (proj1 (returns_inv _ _ _) (check_spec (the_graph d) fuel Hst Hg Hac Hout Hfuel)) as (u & c & E & _).
  change (w_g (dm_w d)) with (the_graph d). rewrite E. cbn. by destruct d as [[] ? ? ? ? ?].
Qed.
End reload.

(** ** A run: the file was cut short while it was written *)

Definition cut_short : list ascii := ["{"; "034"; "r"; "u"; "l"; "e"; "s"; "034"; ":"; "["; "{"]%char.
Definition disturbed_daemon : Daemon :=
  lset DaemonInstance.l_w (lset l_wfs (write_fs "falcon.json" (Some (File (text cut_short) 9)) (w_fs (dm_w fresh_daemon))) (dm_w fresh_daemon)) fresh_daemon.
Lemma broken_file_refused_witness :
  @DaemonInstance.setDirty first_fit sum_sha silent_env no_dirs sorted_order "falcon.json" 9 5 "falcon.json" disturbed_daemon = Ret tt disturbed_daemon.
Proof.
  apply (@broken_file_refused first_fit sum_sha silent_env no_dirs sorted_order "falcon.json" 9 5 disturbed_daemon cut_short).
  - apply check_structure_sound. vm_compute. reflexivity.
  - apply check_graph_sound. vm_compute. reflexivity.
  - apply (check_rank_sound _ two_outputs_rank). vm_compute. reflexivity.
  - apply check_outputs_sound. vm_compute. reflexivity.
  - vm_compute. lia.
  - vm_compute. reflexivity.
  - vm_compute. lia.
  - unfold short. vm_compute. reflexivity.
  - vm_compute. reflexivity.
Defined.
