(* ===== verification/BuildCommand.v ===== *)
(** * A build from the command to its last byte

    startBuild makes the plan, the build thread executes it, and the stream server gets
    the events: the theorem composes the three.  The thread is run once with a log in
    place of the server (EventLog.v); the server takes this log (StreamBuild.v), so the
    thread does the same with the server. *)

From Stdlib Require Import Ascii.
From S2P Require Import Watchman StreamServer StreamBuild SubProcess.
From S2P Require Import Prelude GraphModel GraphChecks GraphDirty BuildPlan BuildCore BuildSchedule.
From S2P Require Import DepfileParser Fs Cache World Hash HashRecompute Scan ScanExact LazyCache Builder EventLog GraphParser GraphReloader GraphPrinters Daemon CommandServer.

Section build.
Context {HA : Allocator} {HS : SHA256} {HW : WatchEnv} {HE : BuildEnv} {HD : DirTime} {HO : NodeOrder}.
Context (pid : Z) (head : option string) (time : N → Z) (jsonGraphFile : string) (wm_fuel fuel : nat).
Import DaemonInstance FalconServiceHandler.

(** The builder whose thread a daemon runs, with any consumer. *)
Definition builder_of {C} (c : C) (d : Daemon) (p : Pending) : Builder C :=
  mkBuilder (dm_w d) (pd_plan p) newManager c SUCCEEDED (pd_interrupted p) 0.
(** What this thread reports. *)
Definition reported (d : Daemon) : Log :=
  match builder_ d with
  | None => []
  | Some p =>
    match GraphParallelBuilder.buildThread true true (pd_threads p) wm_fuel fuel fuel (builder_of [] d p) with
    | Ret _ b | Throw _ b => bd_consumer b
    | Abort _ => []
    end
  end.

(** A client asks for a build, and the thread it starts runs to its end. *)
Definition build (targets : list string) (numThreads : nat) : M Daemon Reply :=
  r ← handle pid head time jsonGraphFile wm_fuel fuel (StartBuild targets numThreads false);
  match r with
  | RBuild OK => runBuild wm_fuel fuel;; mret r
  | _ => mret r
  end.

(** A daemon between two builds. *)
Record ready (v : bool) (d : Daemon) : Prop := {
  rd_settled : settled (the_graph d);
  rd_acyclic : acyclic (the_graph d);
  rd_graph : graph_ok (the_graph d);
  rd_hashable : hashable (dm_w d);
  rd_policy : w_policy (dm_w d) ≠ CACHE_GIT_REFS;
  rd_missing n : n ∈ sourcesMissing_ d → is_Some (g_nodes (the_graph d) !! n);
  rd_server : server_ok v (streamServer_ d);
  rd_idle : idle (streamServer_ d);
  rd_waiting : isBuilding_ d = false;
}.

(** The build is over: the daemon is ready for the next one; the client's stream is one
    JSON document, with what was reported and the result. *)
Record built (v : bool) (d d' : Daemon) (T : gset N) (res : BuildResult) (es : Log) : Prop := {
  bt_ready : ready v d';
  bt_shape : same_hashes (the_graph d) (the_graph d');
  bt_id : buildId_ d' = ((buildId_ d + 1) mod 2 ^ 32)%N;
  bt_reports : reports_ok true es;
  bt_stream : ∃ k b tl, builds_ (streamServer_ d') = (k, b) :: tl ∧ id b = buildId_ d ∧
    StreamServer.buf b = header (buildId_ d) ++ chunks true es ++ footer res;
  bt_others r : ¬ needed (the_graph d) T r → rule_dirty (the_graph d') r = rule_dirty (the_graph d) r;
  bt_done : res = SUCCEEDED → (∀ k, env_interrupted k = false) →
    (∀ r, needed (the_graph d) T r → rule_dirty (the_graph d') r = false) ∧
    ∀ t r, t ∈ T → ¬ needs (the_graph d') t r;
}.

Hypothesis env_start_ok : ∀ m, ∃ out err pid, env_start m = Started out err pid ∧ out ≠ err ∧
  out ≠ (-1)%Z ∧ err ≠ (-1)%Z ∧ map_ m !! out = None ∧ map_ m !! err = None.
Hypothesis env_polls_ok : ∀ k, Forall good_poll (env_polls k) ∧ Exists hangup (env_polls k).
Hypothesis env_wait_ok : ∀ k p errno, env_wait k p ≠ WaitFailed errno.

Lemma hashable_keeps w : w_policy w ≠ CACHE_GIT_REFS → hashable w → keeps_everything w.
Proof.
  intros Hp [Hs [Hn Hr _] _]. split; [done|]. split_and!; [done|intros n nd Hnd; by apply (Hn n nd)|intros r rd Hrd; by apply (Hr r rd)].
Qed.
Lemma hashable_same w w' : same_hashes (w_g w) (w_g w') → hashable w → hashable w'.
Proof.
  intros [Hs Hn Hr] [Hok [H1 H2 H3] Hd]. assert (Hsy : same_shape (w_g w') (w_g w)) by by symmetry.
  split; [by rewrite <- Hs|split|].
  - intros n nd' Hnd'. specialize (Hn n). rewrite Hnd' in Hn. simpl in Hn. symmetry in Hn. apply fmap_Some in Hn as (nd & Hnd & [= -> ->]). by apply (H1 n).
  - intros r rd' Hrd'. specialize (Hr r). rewrite Hrd' in Hr. simpl in Hr. symmetry in Hr. apply fmap_Some in Hr as (rd & Hrd & [= -> ->]). by apply (H2 r).
  - intros n nd' Hnd' Hc. destruct (same_shape_node _ _ _ _ Hsy Hnd') as (nd & Hnd & Heq).
    specialize (Hn n). rewrite Hnd', Hnd in Hn. simpl in Hn. injection Hn as -> ->. apply (H3 n nd Hnd). unfold node_shape in Heq. congruence.
  - intros r rd' Hrd'. destruct (same_shape_rule _ _ _ _ Hsy Hrd') as (rd & Hrd & Heq).
    rewrite <- (hasDepfile_shape _ _ Heq). by apply (Hd r).
Qed.

(** *** The thread *)

Section thread.
Context (v : bool) (d0 d : Daemon) (targets : list string) (n : nat) (T : gset N) (plan : BuildPlan.t).
Hypothesis Hd0 : ready v d0.
Hypothesis Hd : build_started d0 d targets n T plan.
Hypothesis HT : ∀ t, t ∈ T → is_Some (g_nodes (the_graph d0) !! t).
Hypothesis Hn : 0 < n.
Hypothesis Hfuel : 2 * size (g_rules (the_graph d0)) < fuel.
Notation p := (mkPending plan n false).
Notation b0 := (mkB (mkP plan (the_graph d0)) ∅ ∅).

Lemma started_initial : initial (the_graph d0) T b0.
Proof using Hd. split_and!; [apply Hd|done|done]. Qed.
Lemma started_schedule : schedule_ok T b0.
Proof using Hd0 Hd HT. apply (initial_schedule (the_graph d0)); [apply Hd0|apply Hd0|done|apply started_initial]. Qed.
Lemma plan_size : size (BuildPlan.rules_ plan) ≤ size (g_rules (the_graph d0)).
Proof using Hd0 Hd HT.
  rewrite <- (size_dom (g_rules (the_graph d0))). apply subseteq_size. intros r Hr. apply elem_of_dom. by apply (sc_rules _ _ started_schedule).
Qed.

(** What the thread leaves behind. *)
Definition thread_done (res : BuildResult) (w : World) : Prop :=
  settled (w_g w) ∧ acyclic (w_g w) ∧ same_hashes (the_graph d0) (w_g w) ∧ w_policy w ≠ CACHE_GIT_REFS ∧
  (∀ r, ¬ needed (the_graph d0) T r → rule_dirty (w_g w) r = rule_dirty (the_graph d0) r) ∧
  (res = SUCCEEDED → (∀ k, env_interrupted k = false) →
    (∀ r, needed (the_graph d0) T r → rule_dirty (w_g w) r = false) ∧ ∀ t r, t ∈ T → ¬ needs (w_g w) t r).

Lemma thread_returns :
  returns (GraphParallelBuilder.buildThread true true n wm_fuel fuel fuel)
    (λ res y, thread_done res (bd_w y)) (builder_of ([] : Log) d p).
Proof using All.
  pose proof (remembers_cache (the_graph d0) true keeps_everything _) as HB.
  assert (Hw : dm_w d = dm_w d0) by apply Hd.
  eapply wp_mono; [apply (buildThread_runs true true n wm_fuel fuel (remembers (the_graph d0) keeps_everything)
    env_start_ok env_polls_ok env_wait_ok T fuel _ b0 (the_graph d0))| |done].
  - apply Hd0.
  - apply Hd0.
  - done.
  - done.
  - apply started_initial.
  - split_and!; [done|done|]. cbn. by rewrite Hw.
  - cbn. rewrite Hw. split; [apply hashable_keeps; apply Hd0|]. split; reflexivity.
  - intros r rd Hr. by apply (hb_nodep _ (rd_hashable _ _ Hd0) r).
  - cbn. pose proof plan_size. lia.
  - intros res y (tr & b' & Hrun & Hps & _ & [[Hpol _] Hsame] & _ & _ & Hdone).
    destruct (runs_inv _ _ _ _ _ started_schedule Hrun) as ([Hst Hac _ _ _ _ _ _ _ _] & _ & _ & _ & Hdirty).
    unfold b_graph in Hst, Hac, Hdirty. rewrite Hps in Hst, Hac, Hdirty. cbn in Hst, Hac, Hdirty. split_and!; try done.
    + intros r Hr. destruct (rule_dirty (the_graph d0) r) eqn:E; [|apply Hdirty; by left].
      apply not_false_iff_true. intros [?|Hfin]%Hdirty; [congruence|]. apply Hr, (bs_needed _ _ _ _ _ _ Hd).
      exact (runs_planned _ _ _ _ _ _ started_schedule Hrun Hfin).
    + intros Hres Hni. destruct (Hdone Hres) as [H1 H2]; [done|]. split; [|done]. intros r Hr. by apply H1.
Qed.

Lemma reported_log res y :
  GraphParallelBuilder.buildThread true true n wm_fuel fuel fuel (builder_of ([] : Log) d p) = Ret res y → reported d = bd_consumer y.
Proof using Hd. intros E. unfold reported. rewrite (bs_pending _ _ _ _ _ _ Hd). cbn [pd_threads]. by rewrite E. Qed.

Lemma graph_ok_same g g' : same_hashes g g' → graph_ok g → graph_ok g'.
Proof using Type. intros Hs. apply graph_ok_shape. apply Hs. Qed.

(** [runBuild]: the thread reports to the server, and the callback ends the build. *)
Lemma runBuild_spec :
  server_ok v (streamServer_ d) → room_for (S (length (reported d))) (streamServer_ d) →
  ∃ res, returns (runBuild wm_fuel fuel) (λ _ d', built v d0 d' T res (reported d)) d.
Proof using All.
  intros Hok Hroom. destruct (proj1 (returns_inv _ _ _) thread_returns) as (res & y & E & Hdone). exists res.
  pose proof (reported_log res y E) as Hlog. 
  assert (Hrep : reports_ok true (bd_consumer y)) by (by eapply buildThread_reports; [| |exact E]).
  destruct (replays_buildThread (C := Server) _ _ _ _ _ _ _ (streamServer_ d) _ _ E) as (es & Hes & Hrun). cbn in Hes. subst es.
  destruct (bs_server _ _ _ _ _ _ Hd) as (k & b & tl & Hb & Hid & Hc & Hbuf & Hf). unfold room_for in Hroom. rewrite Hlog in *.
  destruct (stream_events v (bd_consumer y) (streamServer_ d) k b tl) as (s1 & Es & Hok1 & Hp1 & Hz1 & b1 & Hb1 & Hbuf1 & Hc1 & Hid1); try done.
  { by rewrite Hf. }
  { unfold room_for. lia. }
  specialize (Hrun s1 Es). cbn in Hrun. unfold returns, wp, runBuild. rewrite (bs_pending _ _ _ _ _ _ Hd). cbn [pd_threads pd_plan pd_interrupted].
  rewrite Hrun. cbn [bd_w bd_consumer]. set (d1 := lset l_w (bd_w y) (lset l_server s1 d)).
  cut (returns (onBuildCompleted res) (λ _ d', built v d0 d' T res (bd_consumer y)) d1); [done|].
  apply wp_bind, wp_mget, wp_bind, wp_massert; [exact (bs_building _ _ _ _ _ _ Hd)|].
  apply wp_bind, wp_zoom. eapply (wp_mono _ _ _ (λ _ _, False)); [apply (endBuild_spec v s1 k b1 tl res); try done| |done].
  { unfold room, in_pipe, pipe_size in *. cbn [length] in Hroom. lia. }
  intros [] s2 (Hok2 & b2 & Hb2 & Hbuf2 & Hc2 & Hid2). apply wp_modify. destruct Hdone as (Hst & Hac & Hsame & Hpol & Hoth & Hres).
  split; [split|..]; try done.
  - by apply (graph_ok_same (the_graph d0)), Hd0.
  - apply (hashable_same (dm_w d0)), Hd0. exact Hsame.
  - change (∀ m, m ∈ sourcesMissing_ d → is_Some (g_nodes (w_g (bd_w y)) !! m)). rewrite (bs_missing _ _ _ _ _ _ Hd).
    intros m [nd Hm]%(rd_missing _ _ Hd0). destruct (same_shape_node _ _ _ _ (sh_shape _ _ Hsame) Hm) as (nd' & Hm' & _). by exists nd'.
  - unfold idle. cbn. by rewrite Hb2.
  - cbn. by rewrite (bs_id _ _ _ _ _ _ Hd).
  - exists k, b2, tl. split_and!; [done|congruence|]. rewrite Hbuf2, Hbuf1, Hbuf, Hf. by rewrite <- (assoc_L (++)).
Qed.
End thread.

(** The pipe to poll has room for the build: nobody else empties it. *)
Definition pipe_suffices (targets : list string) (n : nat) (d : Daemon) : Prop :=
  room (streamServer_ d) ∧
  match startBuild fuel head time targets n false d with
  | Ret OK d1 => room_for (S (length (reported d1))) (streamServer_ d1)
  | _ => True
  end.

Lemma targets_known v d targets T : ready v d → targets_of d targets T → ∀ t, t ∈ T → is_Some (g_nodes (the_graph d) !! t).
Proof.
  intros Hd HT t Ht. destruct targets as [|t0 l]; simpl in HT.
  - subst T. apply (go_roots _ (rd_graph _ _ Hd)) in Ht as (nd & ? & _). by eexists.
  - apply HT in Ht as (q & _ & Hq). apply (go_nodes _ (rd_graph _ _ Hd)) in Hq as (nd & ? & _). by eexists.
Qed.

(** C4: a build from the command of the client to the end of its thread, whatever the
    commands print.  The daemon is [ready]: between two builds, with an acyclic graph
    that is settled (counters right, the outputs of a dirty rule all dirty) and has its
    hashes and no depfile, and a cache policy other than git references.  The client asks
    for at least one thread and no lazy fetch; starting a command, polling and waiting
    for it succeed, and the event pipe has room.
    If a source is missing or a target unknown the build is refused and nothing changes.
    Otherwise it terminates and nothing fails: the daemon is ready for the next
    build; the stream of the build consists of its header, one element for
    each event and the result; only rules that the targets need have changed, and if
    the result is SUCCEEDED and nobody interrupted, all of these are up to date. *)
Theorem build_exact v d targets n :
  ready v d → 0 < n → 2 * size (g_rules (the_graph d)) < fuel → pipe_suffices targets n d →
  wp (build targets n)
    (λ r d', r = RBuild OK ∧ sourcesMissing_ d = ∅ ∧ ∃ T res es, targets_of d targets T ∧ built v d d' T res es)
    (λ e d', d' = d ∧ refused d targets e) d.
Proof.
  intros Hd Hn Hfuel [Hroom Hpipe]. unfold build. cbn [handle]. unfold reply. apply wp_bind, wp_bind.
  pose proof (startBuild_spec fuel v d head time targets n (settled_consistent _ (rd_settled _ _ Hd)) (rd_acyclic _ _ Hd)
    (rd_graph _ _ Hd) (rd_policy _ _ Hd) ltac:(lia) (rd_missing _ _ Hd) (rd_server _ _ Hd) (rd_idle _ _ Hd) Hroom) as Hs.
  rewrite (rd_waiting _ _ Hd) in Hs. unfold wp in *. destruct (startBuild _ _ _ _ _ _ d) as [r d1|e d1|] eqn:E; [|naive_solver|done].
  destruct Hs as (-> & Hmiss & Hok & _ & _ & T & plan & Hstart). pose proof (targets_known v d targets T Hd (bs_targets _ _ _ _ _ _ Hstart)) as HT.
  destruct (runBuild_spec v d d1 targets n T plan Hd Hstart HT Hn Hfuel Hok Hpipe) as (res & Hrun).
  apply returns_inv in Hrun as ([] & d2 & Er & Hbuilt). cbn. unfold mbind, M_bind. rewrite Er. cbn.
  split_and!; [done|done|]. exists T, res, (reported d1). split; [apply Hstart|done].
Qed.
End build.

(** ** A run: the source changed since the last build *)

Definition edited_daemon : Daemon :=
  final (@session first_fit sum_sha silent_env no_dirs sorted_order 42 None (λ _, 0%Z) "falcon.json" 9 5 [Changed "source" (Some (File "new" 2))] fresh_daemon) fresh_daemon.
Lemma edited_ready : ready true edited_daemon.
Proof.
  split.
  - apply check_settled; vm_compute; reflexivity.
  - apply (check_rank_sound _ two_outputs_rank). vm_compute. reflexivity.
  - apply check_graph_sound. vm_compute. reflexivity.
  - apply check_hashable_sound. vm_compute. reflexivity.
  - by vm_compute.
  - intros n Hn. assert (E : bool_decide (sourcesMissing_ edited_daemon = ∅) = true) by (vm_compute; reflexivity).
    apply bool_decide_eq_true in E. rewrite E in Hn. destruct (not_elem_of_empty n Hn).
  - assert (E : streamServer_ edited_daemon = newServer 64) by (vm_compute; reflexivity). rewrite E. apply newServer_ok.
  - by vm_compute.
  - by vm_compute.
Qed.

Lemma build_exact_witness :
  wp (@build first_fit sum_sha silent_env good_env no_dirs sorted_order 42 None (λ _, 0%Z) "falcon.json" 9 5 ["all"] 2)
    (λ r d', r = RBuild OK ∧ sourcesMissing_ edited_daemon = ∅ ∧ ∃ T res es,
       targets_of edited_daemon ["all"] T ∧ @built good_env true edited_daemon d' T res es)
    (λ e d', d' = edited_daemon ∧ refused edited_daemon ["all"] e) edited_daemon.
Proof.
  apply (@build_exact first_fit sum_sha silent_env good_env no_dirs sorted_order).
  - exact good_env_start.
  - intros k. split; [repeat constructor|].
    + eexists. split; [reflexivity|]. intros fd ev [= <-] errno. done.
    + apply Exists_cons_hd. by exists (λ _, Some Eof).
  - done.
  - exact edited_ready.
  - lia.
  - vm_compute. lia.
  - split; [vm_compute; lia|]. vm_compute. lia.
Defined.
