(* ===== verification/StartRace.v ===== *)
(** * Two clients that start a build (daemon_instance.cpp)

    The server of the commands has a thread per client.  DaemonInstance::startBuild
    looks at isBuilding_ at its beginning and sets it later, and nothing is locked in
    between.  The operation of Daemon.v is taken apart at this place; the theorem runs
    it for two clients, both looking before one of them sets the flag. *)

From Stdlib Require Import Ascii.
From S2P Require Import Watchman StreamServer StreamBuild SubProcess.
From S2P Require Import Prelude GraphModel GraphChecks GraphDirty BuildPlan BuildCore BuildSchedule.
From S2P Require Import DepfileParser Fs Cache World Hash HashRecompute Scan ScanExact LazyCache Builder EventLog GraphParser GraphReloader GraphPrinters Daemon CommandServer BuildCommand.

Section race.
Context {HA : Allocator} {HS : SHA256} {HW : WatchEnv} {HE : BuildEnv} {HD : DirTime} {HO : NodeOrder}.
Context (head : option string) (time : N → Z) (fuel : nat).
Import DaemonInstance.

(** Up to the assignment of isBuilding_: [None] is BUSY. *)
Definition look (targets : list string) : M Daemon (option (gset N)) :=
  d ← mget;
  if isBuilding_ d then mret None
  else
    mwhen (bool_decide (w_policy (dm_w d) = CACHE_GIT_REFS)) (onWorld (CacheManager.gitUpdateRef head));;
    checkSourcesMissing;;
    targetsToBuild ← findTargets targets;
    mret (Some targetsToBuild).
(** And from there on. *)
Definition go (numThreads : nat) (lazyFetch : bool) (looked : option (gset N)) : M Daemon StartBuildResult :=
  match looked with
  | None => mret BUSY
  | Some targetsToBuild =>
    d ← mget;
    modify (λ d, set_building (buildId_ d) true (builder_ d) d);;
    zoom l_server (newBuild (buildId_ d));;
    mwhen lazyFetch (zoom l_wc (fetch time fuel targetsToBuild));;
    plan ← onHeap (newPlan fuel targetsToBuild);
    modify (λ d, set_building (buildId_ d) (isBuilding_ d) (Some (mkPending plan numThreads false)) d);;
    mret OK
  end.

(** One client: the operation. *)
Definition one_client (targets : list string) (n : nat) : M Daemon StartBuildResult := x ← look targets; go n false x.
(** Two: both look, and then go on one after the other. *)
Definition two_clients (targets1 targets2 : list string) (n1 n2 : nat) : M Daemon (StartBuildResult * StartBuildResult) :=
  x1 ← look targets1; x2 ← look targets2; r1 ← go n1 false x1; r2 ← go n2 false x2; mret (r1, r2).

Lemma look_spec targets d : w_policy (dm_w d) ≠ CACHE_GIT_REFS → isBuilding_ d = false → sourcesMissing_ d = ∅ →
  wp (look targets) (λ x d', d' = d ∧ ∃ T, x = Some T ∧ targets_of d targets T) (λ e _, refused d targets e) d.
Proof.
  intros Hp Hb Hm. apply wp_bind, wp_mget. rewrite Hb, bool_decide_eq_false_2 by done. apply wp_bind, wp_ret.
  apply wp_bind, wp_bind, wp_mget. unfold mwhen at 1. rewrite bool_decide_eq_true_2 by done. apply wp_ret.
  apply wp_bind. eapply wp_mono; [apply findTargets_spec| |].
  - intros T d' [-> HT]. apply wp_ret. split; [done|by exists T].
  - intros e d' (-> & t & Ht). right. eauto.
Qed.

Lemma checkSources_returns d d' : checkSourcesMissing d = Ret tt d' → d' = d.
Proof.
  unfold checkSourcesMissing. unfold mbind at 1, M_bind at 1, mget, mwhen. destruct (negb _); [|by intros [= <-]].
  unfold mbind, M_bind. by destruct (paths _ d).
Qed.
(** The two halves are the operation. *)
Lemma one_client_starts targets n d : w_policy (dm_w d) ≠ CACHE_GIT_REFS →
  one_client targets n d = startBuild fuel head time targets n false d.
Proof.
  intros Hp. unfold one_client, look, startBuild. unfold mbind, M_bind, mget, mwhen. destruct (isBuilding_ d) eqn:Hb; [done|].
  rewrite bool_decide_eq_false_2 by done. cbn. destruct (checkSourcesMissing d) as [[] d1| |] eqn:E1; [|done|done].
  apply checkSources_returns in E1 as ->. pose proof (findTargets_spec targets d) as Ht. unfold wp in Ht.
  destruct (findTargets targets d) as [T d1| |]; [|done|done]. destruct Ht as [-> _]. done.
Qed.

(** A build that is admitted while another one has just begun. *)
Lemma second_newBuild n x T d k b tl : x = Some T →
  builds_ (streamServer_ d) = (k, b) :: tl → buildCompleted b = false → go n false x d = Abort AssertFailed.
Proof.
  intros -> Hb Hc. unfold go, modify, zoom, newBuild. unfold mbind, M_bind, mget. cbn. unfold empty_builds, front. rewrite Hb. cbn.
  unfold mbind, M_bind, mget, massert. rewrite Hb. cbn. by rewrite Hc.
Qed.

(** C37: two clients start a build at the same time, each of them a build that would be
    accepted, and both look at isBuilding_ before one of them has set it.  Both are
    admitted, and the second one ends the daemon: newBuild asserts that the last build
    is completed. *)
Theorem two_clients_abort v d targets1 targets2 n1 n2 :
  ready v d → size (g_rules (the_graph d)) < fuel → room (streamServer_ d) →
  (∃ d1, startBuild fuel head time targets1 n1 false d = Ret OK d1) →
  (∃ d2, startBuild fuel head time targets2 n2 false d = Ret OK d2) →
  two_clients targets1 targets2 n1 n2 d = Abort AssertFailed.
Proof.
  intros Hd Hfuel Hroom [d1 E1] [d2 E2]. pose proof (rd_policy _ _ Hd) as Hpol. pose proof (rd_waiting _ _ Hd) as Hb.
  pose proof (startBuild_spec fuel v d head time targets1 n1 (settled_consistent _ (rd_settled _ _ Hd)) (rd_acyclic _ _ Hd)
    (rd_graph _ _ Hd) Hpol Hfuel (rd_missing _ _ Hd) (rd_server _ _ Hd) (rd_idle _ _ Hd) Hroom) as Hs.
  unfold wp in Hs. rewrite E1, Hb in Hs. destruct Hs as (_ & Hm & _ & _ & _ & T & plan & [_ _ _ _ _ _ _ _ _ (k & b & tl & Hbs & _ & Hc & _)]).
  rewrite <- (one_client_starts targets1 n1 d Hpol) in E1. rewrite <- (one_client_starts targets2 n2 d Hpol) in E2.
  pose proof (look_spec targets1 d Hpol Hb Hm) as H1. pose proof (look_spec targets2 d Hpol Hb Hm) as H2.
  unfold one_client, wp in *. unfold two_clients. unfold mbind, M_bind in *.
  destruct (look targets1 d) as [x1 e1| |]; [|done|done]. destruct H1 as (-> & T1 & -> & _).
  destruct (look targets2 d) as [x2 e2| |]; [|done|done]. destruct H2 as (-> & T2 & -> & _).
  rewrite E1. by rewrite (second_newBuild n2 (Some T2) T2 d1 k b tl eq_refl Hbs Hc).
Qed.
End race.

(** ** A run *)

Lemma two_clients_abort_witness :
  @two_clients first_fit None (λ _, 0%Z) 5 ["all"] [] 2 1 edited_daemon = Abort AssertFailed.
Proof.
  apply (@two_clients_abort first_fit None (λ _, 0%Z) 5 true).
  - exact edited_ready.
  - vm_compute. lia.
  - vm_compute. lia.
  - eexists. vm_compute. reflexivity.
  - eexists. vm_compute. reflexivity.
Defined.
