(* ===== verification/Startup.v ===== *)
(** * Start-up (main.cpp, options.cpp)

    [main] from the options on: the graph file is parsed, the graph checked for loops
    and scanned, and then printed by a module or handed to a daemon.  The theorem
    composes the whole path from the text of the graph file to the marked graph.  What
    was read from the command line (CommandLine.v) is the argument [Options]. *)

From Stdlib Require Import Ascii.
From S2P Require Import Json JsonText JsonPrinter.
From S2P Require Import EventNotifier StreamServer GraphPrinters GraphFile.
From S2P Require Import Prelude GraphModel GraphChecks GraphDirty GraphCycle BuildPlan GraphConsistency GraphParser.
From S2P Require Import Fs Cache Watchman World Hash HashRecompute Scan ScanExact Daemon.

(** ** Options *)

(** [vm_]: what boost read; an option without a default may be absent. *)
Record Options := mkOptions {
  opt_graph : string;
  opt_api_port : Z;
  opt_stream_port : Z;
  opt_working_directory : string;
  opt_daemon : bool;
  opt_program_name : string;
  opt_log_directory : string;
  opt_module : option string;
}.

Module GlobalConfig.
Record t := mk {
  jsonGraphFile_ : string;
  networkAPIPort_ : Z;
  networkStreamPort_ : Z;
  workingDirectoryPath_ : string;
  falconDir_ : string;
  runDaemonBuilder_ : bool;
  programName_ : string;
  logDirectory_ : string;
}.
Definition setWorkingDirectoryPath (s : string) (c : t) : t :=
  mk (jsonGraphFile_ c) (networkAPIPort_ c) (networkStreamPort_ c) s (s +:+ "/.falcon") (runDaemonBuilder_ c) (programName_ c) (logDirectory_ c).
Definition setJsonGraphFile (f : string) (c : t) : t :=
  mk f (networkAPIPort_ c) (networkStreamPort_ c) (workingDirectoryPath_ c) (falconDir_ c) (runDaemonBuilder_ c) (programName_ c) (logDirectory_ c).
Definition new (opt : Options) : t :=
  let c := setJsonGraphFile (opt_graph opt) (mk "" 0 0 "" "" false "" "") in
  let c := mk (jsonGraphFile_ c) (opt_api_port opt) (opt_stream_port opt) (workingDirectoryPath_ c) (falconDir_ c) (runDaemonBuilder_ c) (programName_ c) (logDirectory_ c) in
  let c := setWorkingDirectoryPath (opt_working_directory opt) c in
  mk (jsonGraphFile_ c) (networkAPIPort_ c) (networkStreamPort_ c) (workingDirectoryPath_ c) (falconDir_ c)
     (opt_daemon opt) (opt_program_name opt) (opt_log_directory opt).
End GlobalConfig.

(** ** main *)

(** [main] returns a code after printing, or leaves a daemon. *)
Inductive MainResult := Exited (code : Z) (printed : string) | Daemonized (daemon : Daemon).

Section main.
Context `{Allocator} `{SHA256} `{WatchEnv} `{DirTime}.
(** The sizes of the pipe and the bounds on the loops; whether libgit2 finds a repository
    in a directory. *)
Variables (pipe_capacity : nat) (is_repository : string → bool) (wm_fuel fuel : nat).

(** The constructor of [CacheManager]: it only keeps what it is given, and sets the policy. *)
Definition newCacheManager (workingDirectory falconDir : string) (w : World) : World :=
  let dir := (falconDir +:+ "/cache")%string in
  mkWorld (w_g w) (mkGF (CacheGitDirectory.new dir) (w_fs w))
    (if is_repository workingDirectory then CACHE_GIT_REFS else CACHE_EVERYTHING) dir (w_wm w).

Definition new_server : Server := mkServer [] (EventNotifier.new pipe_capacity) [] [] ∅ ∅.

(** The constructor of [DaemonInstance] and [loadConf]; that of [WatchmanClient] asserts
    that the path of the socket is short. *)
Definition newDaemon (c : GlobalConfig.t) (w : World) : option Daemon :=
  wm ← newWatchman (GlobalConfig.workingDirectoryPath_ c);
  Some (mkDaemon (set_wm wm w) new_server 0 false None ∅).

(** The start of [DaemonInstance::start]: then the servers run. *)
Definition start : M Daemon unit :=
  g ← DaemonInstance.theGraph;
  ps ← DaemonInstance.paths (map_to_list (Graph.nodes_ g)).*2;
  catch (DaemonInstance.onWorld (zoom l_wm (watchGraph wm_fuel ps)))
    (λ e, match e with Exception _ _ => mret tt | _ => mthrow e end);;
  DaemonInstance.checkConsistency fuel.

(** [try { m } catch (falcon::Exception& e) { return e.getCode(); }], then [k]. *)
Definition or_exit (m : M World unit) (k : M World MainResult) : M World MainResult :=
  r ← catch (m;; mret None) (λ e, match e with Exception code _ => mret (Some code) | _ => mthrow e end);
  match r with Some code => mret (Exited code "") | None => k end.

Definition main (opt : Options) : M World MainResult :=
  let c := GlobalConfig.new opt in
  let graphFile := GlobalConfig.jsonGraphFile_ c in
  zoom l_wfs (fs_ops.mkdir (GlobalConfig.falconDir_ c));;
  w ← mget;
  or_exit (zoom l_graph (processFile graphFile (read_all (w_fs w) graphFile)))
  (or_exit (zoom l_graph (checkGraphLoop fuel)) (
    modify (newCacheManager (GlobalConfig.workingDirectoryPath_ c) (GlobalConfig.falconDir_ c));;
    scan wm_fuel fuel;;
    match opt_module opt with
    | Some m => r ← zoom l_graph (loadModule m); mret (Exited r.2 r.1)
    | None => w ← mget; d ← deref (newDaemon c w); mret (Daemonized d)
    end)).
End main.

(** ** The graph of a document, as the scan wants it *)

(** What the scan is understood for: rules without depfiles, each with an output, and no
    file that needs itself. *)
Record plain_rules (rules : JsonVal) : Prop := {
  pr_depfile u : u ∈ _array rules → is_rule u = true → field "depfile" u = "";
  pr_outputs u outs : u ∈ _array rules → is_rule u = true → getObject "outputs" u = Some outs → _array outs ≠ [];
  pr_acyclic : ∃ rank : string → nat, ∀ u ins outs x y, u ∈ _array rules → is_rule u = true →
    getObject "inputs" u = Some ins → getObject "outputs" u = Some outs → x ∈ _array ins → y ∈ _array outs →
    rank (_data x) < rank (_data y);
}.
(** The names that occur, with repetitions. *)
Definition doc_names (rules : JsonVal) : list string := concat (map (λ u, field_names "inputs" u ++ field_names "outputs" u) (_array rules)).

Section graph.
Context (path : string) (rules : JsonVal) (s : GState) (Hs : graph_of path rules s).

Lemma rule_of_document r rd : g_rules s !! r = Some rd → ∃ u, u ∈ _array rules ∧ is_rule u = true ∧ describes s r u.
Proof.
  intros Hr. assert (Hin : r ∈ Graph.rules_ (g_graph s)) by (apply (go_rules s (pa_graph s (gf_parsed _ _ _ Hs))); by eexists).
  apply list_elem_of_lookup in Hin as [i Hi]. destruct (Forall2_lookup_l _ _ _ _ _ (gf_rules _ _ _ Hs) Hi) as (u & Hu & Hd).
  apply list_elem_of_lookup_2, list_elem_of_filter in Hu as [Hu Hin]. exists u. split_and!; [done|by destruct (is_rule u)|done].
Qed.

Lemma graph_unscanned : plain_rules rules → unscanned s.
Proof.
  intros [Hdep Hout _]. pose proof (gf_parsed _ _ _ Hs) as Hp. split; [apply Hp|apply Hp|]. intros r rd Hr.
  destruct (pa_rules s Hp r rd Hr) as (Hst & Hready & _). do 2 (split; [done|]).
  destruct (rule_of_document r rd Hr) as (u & Hu & Hru & rd' & ins & outs & Hr' & Hi & Ho & Hni & Hno & Hk & _ & Hd).
  simplify_eq. rewrite Hd. split; [by apply Hdep|]. destruct (_array outs) as [|x l] eqn:Houts; [by destruct (Hout u outs Hu Hru Ho)|].
  destruct (Hk x) as [n Hn]; [right; set_solver|]. apply (go_nodes s (pa_graph s Hp)) in Hn as (nd & Hn & Hpath).
  assert (n ∈ Rule.outputs_ rd) as Hin; [|intros Hnil; rewrite Hnil in Hin; by inversion Hin].
  apply Hno. exists nd, x. rewrite Houts. split_and!; [done|by left|done].
Qed.

Lemma graph_acyclic : plain_rules rules → acyclic s.
Proof.
  intros [_ _ (rank & Hrank)]. exists (λ n, match g_nodes s !! n with Some nd => rank (Node.path_ nd) | None => 0 end).
  intros i o (r & rd & Hr & Hi & Ho).
  destruct (rule_of_document r rd Hr) as (u & Hu & Hru & rd' & ins & outs & Hr' & Hins & Houts & Hni & Hno & _).
  simplify_eq. apply Hni in Hi as (nd & x & -> & Hx & ->). apply Hno in Ho as (nd' & y & -> & Hy & ->). eauto.
Qed.

Lemma graph_size : size (Graph.nodes_ (g_graph s)) ≤ S (length (doc_names rules)).
Proof.
  rewrite <- (size_dom (D := gset string)). change (S (length (doc_names rules))) with (length (path :: doc_names rules)).
  apply submseteq_length, NoDup_submseteq; [apply NoDup_elements|]. intros p Hp%elem_of_elements%elem_of_dom.
  apply (gf_nodes _ _ _ Hs) in Hp as [->|(u & Hu & Hm%mentions_names)]; [set_solver|]. apply elem_of_cons. right.
  unfold doc_names. apply list_elem_of_In, in_concat. eexists. split; [|by apply list_elem_of_In].
  apply in_map_iff. exists u. split; [done|by apply list_elem_of_In].
Qed.
End graph.

(** ** From the graph file to the marked graph *)

Section start_up.
Context `{Allocator} `{SHA256} `{WatchEnv} `{DirTime} (pipe_capacity : nat) (is_repository : string → bool) (wm_fuel fuel : nat).

(** The world the scan starts from: the graph of the document, the files as they were
    but for the directory of falcon, and the cache manager. *)
Record prepared (opt : Options) (rules : JsonVal) (w w1 : World) : Prop := {
  pp_graph : graph_of (opt_graph opt) rules (w_g w1);
  pp_files p : p ≠ (opt_working_directory opt +:+ "/.falcon")%string → fs_entries (w_fs w1) !! p = fs_entries (w_fs w) !! p;
  pp_policy : w_policy w1 = if is_repository (opt_working_directory opt) then CACHE_GIT_REFS else CACHE_EVERYTHING;
  pp_dir : w_dir w1 = ((opt_working_directory opt +:+ "/.falcon") +:+ "/cache")%string;
}.

(** What [main] ends with once the graph is scanned. *)
Definition outcome_of (opt : Options) (w : World) : MainResult :=
  match opt_module opt with
  | Some m => Exited (module_text (w_g w) m).2 (module_text (w_g w) m).1
  | None => Daemonized (mkDaemon (set_wm (mkWatchman (opt_working_directory opt) false [] 0) w) (new_server pipe_capacity) 0 false None ∅)
  end.

Lemma wp_or_exit (m : M World unit) (k : M World MainResult) (Q : MainResult → World → Prop) w :
  wp m (λ _ w', returns k Q w') (λ e w', ∃ code msg, e = Exception code msg ∧ Q (Exited code "") w') w →
  returns (or_exit m k) Q w.
Proof.
  intros Hm. apply wp_bind. apply wp_catch, wp_bind. eapply wp_mono; [exact Hm| |].
  - intros [] w' Hk. by apply wp_ret.
  - intros e w' (code & msg & -> & HQ). by apply wp_ret, wp_ret.
Qed.

Lemma graph_ready path rules g : graph_of path rules g → plain_rules rules → length (doc_names rules) + 1 < fuel →
  returns (checkGraphLoop fuel) (λ _ g', g' = g) g ∧ unscanned g ∧ acyclic g ∧ graph_ok g ∧ size (g_nodes g) ≤ fuel.
Proof.
  intros Hg Hplain Hfuel. pose proof (gf_parsed _ _ _ Hg) as Hp. pose proof (pa_graph _ Hp) as Hok. pose proof (graph_size _ _ _ Hg) as Hsize.
  assert (Hac : acyclic g) by by eapply graph_acyclic.
  split_and!; [|by eapply graph_unscanned|done|done|].
  - eapply wp_mono; [apply checkGraphLoop_finds; [apply Hp|done|]| |].
    + unfold paths_of. rewrite size_dom. lia.
    + intros [] g' [-> _]. done.
    + intros e g' (_ & _ & root & m & _ & _ & Hl). by apply (acyclic_no_loop g m (pa_structure _ Hp) Hac).
  - pose proof (graph_ok_nodes_size g Hok) as Hsz. rewrite size_dom in Hsz. lia.
Qed.

Lemma scanned_module w w' m : graph_ok (w_g w) → structure_ok (w_g w) → scanned w w' →
  loadModule m (w_g w') = Ret (module_text (w_g w') m) (w_g w').
Proof.
  intros Hg Hok Hs. apply loadModule_text; [by eapply structure_ok_shape; [apply (sd_shape _ _ Hs)|]|by eapply graph_ok_shape; [apply (sd_shape _ _ Hs)|]].
Qed.

(** The end of [main]. *)
Lemma finish_spec opt rules w w1 :
  prepared opt rules w w1 → plain_rules rules → length (doc_names rules) + 1 < fuel →
  String.length (opt_working_directory opt +:+ "/.watchman.socket") < UNIX_PATH_MAX →
  returns (scan wm_fuel fuel;;
    match opt_module opt with
    | Some m => r ← zoom l_graph (loadModule m); mret (Exited r.2 r.1)
    | None => w ← mget; d ← deref (newDaemon pipe_capacity (GlobalConfig.new opt) w); mret (Daemonized d)
    end) (λ r w', scanned w1 w' ∧ r = outcome_of opt w') w1.
Proof.
  intros Hprep Hplain Hfuel Hsock. destruct (graph_ready _ _ _ (pp_graph _ _ _ _ Hprep) Hplain Hfuel) as (_ & Hu & Hac & Hok & Hsize).
  apply wp_bind. eapply wp_mono; [by apply scan_finds| |done]. intros [] w' Hs. unfold outcome_of. destruct (opt_module opt) as [m|].
  - apply wp_bind, wp_zoom. unfold wp. cbn [lget l_graph]. rewrite (scanned_module w1 w' m Hok (us_structure _ Hu) Hs).
    cbn [mret M_ret]. split; [|done]. by destruct w'.
  - apply wp_bind, wp_mget. apply wp_bind. eapply wp_deref; [|by apply wp_ret]. unfold newDaemon, newWatchman.
    cbn [GlobalConfig.new GlobalConfig.workingDirectoryPath_ GlobalConfig.setWorkingDirectoryPath socketPath_ workingDirectory_].
    by rewrite bool_decide_eq_true_2.
Qed.

(** C3: start-up, from the bytes of the graph file to the marked graph.  When the graph
    file is the text of a document whose rules have no depfiles and make no file from
    itself, [main] ends with [EINVAL] because a field has the wrong type or two rules
    make the same file, or it reaches the end of the scan: the rules that are marked
    are those of the document that are outdated by the files on the disk, every hash is
    the one of its file or inputs, nothing on the disk was changed but the directory of
    falcon, and the graph is printed by the module or is the one of a new daemon. *)
Theorem main_exact opt rules v t time w :
  fs_entries (w_fs w) !! opt_graph opt = Some (File (text t) time) → w_g w = no_graph →
  graph_document (opt_graph opt) rules v t → plain_rules rules → length (doc_names rules) + 1 < fuel →
  String.length (opt_working_directory opt +:+ "/.watchman.socket") < UNIX_PATH_MAX →
  returns (main pipe_capacity is_repository wm_fuel fuel opt) (λ r w',
    (r = Exited EINVAL "" ∧ (malformed_doc (_array rules) ∨ made_twice (_array rules))) ∨
    ∃ w1, prepared opt rules w w1 ∧ scanned w1 w' ∧ r = outcome_of opt w') w.
Proof.
  intros Hfile Hempty Hdoc Hplain Hfuel Hsock. unfold main. apply wp_bind, wp_zoom.
  eapply wp_mono; [apply mkdir_spec| |done]. intros _ f1 (_ & Hf1 & _). cbn [lget lset l_wfs] in *.
  assert (Hsame : ∀ p, p ≠ (opt_working_directory opt +:+ "/.falcon")%string → fs_entries f1 !! p = fs_entries (w_fs w) !! p).
  { intros p Hp. destruct Hf1 as [->|(_ & _ & ->)]; [done|]. simpl. by rewrite lookup_insert_ne. }
  assert (Hread : read_all f1 (opt_graph opt) = text t).
  { unfold read_all. assert (fs_entries f1 !! opt_graph opt = Some (File (text t) time)) as ->; [|done].
    destruct Hf1 as [->|(Hnone & _ & ->)]; [done|]. simpl. rewrite lookup_insert_ne; [done|]. intros Heq.
    cbn in Hnone. rewrite Heq in Hnone. congruence. }
  apply wp_bind, wp_mget. apply wp_or_exit, wp_zoom. cbn [lget lset l_graph]. change (w_fs (set_fs f1 w)) with f1.
  cbn [GlobalConfig.new GlobalConfig.jsonGraphFile_ GlobalConfig.setWorkingDirectoryPath GlobalConfig.setJsonGraphFile].
  rewrite Hread. change (w_g (set_fs f1 w)) with (w_g w). rewrite Hempty.
  eapply wp_mono; [by apply (processDom_graph (opt_graph opt) rules v t)| |].
  2: { intros e g [(msg & ->) Hwhy]. exists EINVAL, msg. split; [done|]. by left. }
  intros [] g Hg. apply wp_or_exit, wp_zoom. cbn [lget lset l_graph].
  eapply wp_mono; [apply (graph_ready (opt_graph opt) rules g Hg Hplain Hfuel)| |done].
  intros [] g' ->. apply wp_bind, wp_modify. set (w1 := newCacheManager _ _ _ _).
  assert (Hprep : prepared opt rules w w1) by by split.
  eapply wp_mono; [by apply (finish_spec opt rules w w1)| |done]. intros r w' [Hs Hr]. right. by exists w1.
Qed.
End start_up.

(** *** A start *)

Definition some_options (m : option string) : Options := mkOptions "falcon.json" 4242 4343 "/w" true "falcon" "" m.
(** The graph file with two rules; "source" is newer than "o2", and "all" is missing. *)
Definition some_world : World :=
  mkWorld no_graph
    (mkGF (CacheGitDirectory.new "")
      (mkFS {["falcon.json" := File (text two_rules_text) 1; "source" := File "new" 7; "o1" := File "one" 8; "o2" := File "two" 3;
              "/w" := Dir]} (λ _, true) 9))
    CACHE_EVERYTHING "" (mkWatchman "" false [] 0).
Definition some_main (m : option string) : outcome World MainResult :=
  @main first_fit sum_sha silent_env no_dirs 64 (λ _, false) 9 20 (some_options m) some_world.

(** The daemon: its graph has both rules marked. *)
Example some_main_daemon :
  match some_main None with
  | Ret (Daemonized d) w =>
    (map (rule_dirty (w_g (dm_w d))) (Graph.rules_ (g_graph (w_g (dm_w d)))), fs_entries (w_fs w) !! "/w/.falcon", w_dir (dm_w d), workingDirectory_ (w_wm (dm_w d)))
  | _ => ([], None, "", "")
  end = ([true; true], Some Dir, "/w/.falcon/cache", "/w").
Proof. vm_compute. reflexivity. Qed.
Example some_main_make :
  match some_main (Some "make") with Ret r _ => r | _ => Exited 0 "" end =
  Exited 0 ("o1 o2 : source " +:+ endl +:+ tab +:+ "gen" +:+ endl +:+ "all : o1 o2 " +:+ endl +:+ tab +:+ endl).
Proof. vm_compute. reflexivity. Qed.

Definition makes_a_file (u : JsonVal) : bool :=
  match getObject "outputs" u with Some outs => negb (bool_decide (length (_array outs) = 0)) | None => true end.
Definition some_rank (p : string) : nat := if decide (p = "source") then 0 else if decide (p = "all") then 2 else 1.
Definition ranked (u : JsonVal) : bool :=
  match getObject "inputs" u, getObject "outputs" u with
  | Some ins, Some outs => forallb (λ x, forallb (λ y, bool_decide (some_rank (_data x) < some_rank (_data y))) (_array outs)) (_array ins)
  | _, _ => true
  end.
Lemma two_rules_plain : plain_rules two_rules.
Proof.
  split.
  - intros u Hu _. revert u Hu. apply Forall_forall. repeat constructor.
  - intros u outs Hu _ Ho Hnil. assert (Hall : Forall (λ u, makes_a_file u = true) (_array two_rules)) by repeat constructor.
    rewrite Forall_forall in Hall. specialize (Hall u Hu). unfold makes_a_file in Hall. by rewrite Ho, Hnil in Hall.
  - exists some_rank. intros u ins outs x y Hu _ Hi Ho Hx Hy.
    assert (Hall : Forall (λ u, ranked u = true) (_array two_rules)) by repeat constructor.
    rewrite Forall_forall in Hall. specialize (Hall u Hu). unfold ranked in Hall. rewrite Hi, Ho in Hall.
    rewrite forallb_forall in Hall. specialize (Hall x ltac:(by apply list_elem_of_In)).
    rewrite forallb_forall in Hall. specialize (Hall y ltac:(by apply list_elem_of_In)). by apply bool_decide_eq_true in Hall.
Qed.

Lemma main_exact_witness :
  returns (@main first_fit sum_sha silent_env no_dirs 64 (λ _, false) 9 20 (some_options None)) (λ r w',
    (r = Exited EINVAL "" ∧ (malformed_doc (_array two_rules) ∨ made_twice (_array two_rules))) ∨
    ∃ w1, prepared (λ _, false) (some_options None) two_rules some_world w1 ∧ @scanned sum_sha no_dirs w1 w' ∧
      r = outcome_of 64 (some_options None) w') some_world.
Proof.
  apply (@main_exact first_fit sum_sha silent_env no_dirs 64 (λ _, false) 9 20 (some_options None) two_rules two_rules_file two_rules_text 1).
  - vm_compute. reflexivity.
  - reflexivity.
  - exact two_rules_document.
  - exact two_rules_plain.
  - vm_compute. lia.
  - vm_compute. lia.
Defined.
