(* ===== verification/CommandLine.v ===== *)
(** * The command line (options.cpp, logging.cpp, main.cpp)

    Options on top of boost::program_options, whose parsers and [store] are the class
    [Boost]: what boost documents about them is the class [BoostLaws].  The theorem is about
    types and priorities: every value that is read has the type it is read with, the
    command line is preferred to the configuration file, and that to the default. *)

From Stdlib Require Import Ascii.
From S2P Require Import Json JsonText JsonPrinter.
From S2P Require Import EventNotifier StreamServer GraphPrinters GraphFile.
From S2P Require Import Prelude GraphModel GraphChecks GraphParser.
From S2P Require Import Fs Cache Watchman World Hash Scan Daemon Startup.

(** ** boost::program_options *)

(** [po::value<T>()] with its default, or none; the severities of glog are integers. *)
Inductive value := VString (s : string) | VInt (n : Z).
Inductive semantic := Switch | StringValue (default : option string) | IntValue (default : option Z).
Record option_description := mkOption { od_name : string; od_semantic : semantic; od_description : string }.
Notation description := (list option_description).

Definition has_type (v : value) (t : semantic) : bool :=
  match v, t with VString _, (Switch | StringValue _) | VInt _, IntValue _ => true | _, _ => false end.
Definition default_value (t : semantic) : option value :=
  match t with Switch => None | StringValue d => VString <$> d | IntValue d => VInt <$> d end.
(** The name in front of the comma. *)
Fixpoint long_name (s : string) : string :=
  match s with
  | EmptyString => ""
  | String c s' => if decide (c = ","%char) then "" else String c (long_name s')
  end.
Fixpoint described (d : description) (k : string) : option option_description :=
  match d with
  | [] => None
  | o :: d' => if decide (long_name (od_name o) = k) then Some o else described d' k
  end.

(** The values, with whether they are defaults. *)
Notation variables_map := (gmap string (value * bool)).

Class Boost := {
  parsed : Type;
  parse_command_line : list string → description → string + parsed;
  parse_config_file : string → description → string + parsed;
  store : parsed → variables_map → string + variables_map;
  described_by : parsed → description;          (* the options that were looked for *)
  values_of : parsed → string → option value;   (* and those that were found *)
}.
(** "If the map already has a non-defaulted value of an option, that value is not
    changed"; a value found replaces a default; options not found get their default. *)
Definition stored `{Boost} (p : parsed) (vm : variables_map) (k : string) : option (value * bool) :=
  match vm !! k with
  | Some (v, false) => Some (v, false)
  | old =>
    match values_of p k with
    | Some v => Some (v, false)
    | None => match old with Some x => Some x | None => (λ v, (v, true)) <$> (described (described_by p) k ≫= λ o, default_value (od_semantic o)) end
    end
  end.
Class BoostLaws `{Boost} : Prop := {
  store_ok p vm vm' : store p vm = inr vm' → ∀ k, vm' !! k = stored p vm k;
  command_line_described argv d p : parse_command_line argv d = inr p → described_by p = d;
  config_file_described f d p : parse_config_file f d = inr p → described_by p = d;
  values_described p k v : values_of p k = Some v → ∃ o, described (described_by p) k = Some o ∧ has_type v (od_semantic o) = true;
}.

(** ** Options *)

(** The flags of glog. *)
Record LogFlags := mkLog { logtostderr : bool; stderrthreshold : Z; log_dir : string; minloglevel : Z; verbosity : Z; initialized : option string }.

Module Options.
Record t := mk {
  cliDesc_ : description;
  cFileDesc_ : description;
  desc_ : description;
  vm_ : variables_map;
  programName_ : string;
  logDirectory_ : string;
  log : LogFlags;
}.
Definition new (flags : LogFlags) : t := mk [mkOption "help,h" Switch "produce this help message"] [] [] ∅ "" "" flags.
Definition addCLIOption (name : string) (s : semantic) (desc : string) (o : t) : t :=
  mk (cliDesc_ o ++ [mkOption name s desc]) (cFileDesc_ o) (desc_ o) (vm_ o) (programName_ o) (logDirectory_ o) (log o).
Definition addCFileOption (name : string) (s : semantic) (desc : string) (o : t) : t :=
  mk (cliDesc_ o) (cFileDesc_ o ++ [mkOption name s desc]) (desc_ o) (vm_ o) (programName_ o) (logDirectory_ o) (log o).
Definition set_desc (d : description) (o : t) : t := mk (cliDesc_ o) (cFileDesc_ o) d (vm_ o) (programName_ o) (logDirectory_ o) (log o).
Definition set_vm (vm : variables_map) (o : t) : t := mk (cliDesc_ o) (cFileDesc_ o) (desc_ o) vm (programName_ o) (logDirectory_ o) (log o).
Definition set_program (s : string) (o : t) : t := mk (cliDesc_ o) (cFileDesc_ o) (desc_ o) (vm_ o) s (logDirectory_ o) (log o).
Definition set_log_directory (s : string) (o : t) : t := mk (cliDesc_ o) (cFileDesc_ o) (desc_ o) (vm_ o) (programName_ o) s (log o).
Definition set_log (l : LogFlags) (o : t) : t := mk (cliDesc_ o) (cFileDesc_ o) (desc_ o) (vm_ o) (programName_ o) (logDirectory_ o) l.

Definition defaultlogging (programName : string) (lvl : Z) (logDir : string) (l : LogFlags) : LogFlags :=
  if bool_decide (logDir = "") then mkLog true (stderrthreshold l) (log_dir l) lvl (-1) (Some programName)
  else mkLog (logtostderr l) 3 logDir lvl (-1) (Some programName).

Section options.
Context `{Boost}.
Variables (strerror : Z → string).

(** [vm_[k].as<T>()]: boost::bad_any_cast for a value of another type or none, which is
    not a falcon::Exception: nobody catches it. *)
Definition as_string (k : string) : M t string :=
  o ← mget; match vm_ o !! k with Some (VString s, _) => mret s | _ => mabort BadAccess end.
Definition as_int (k : string) : M t Z :=
  o ← mget; match vm_ o !! k with Some (VInt n, _) => mret n | _ => mabort BadAccess end.
Definition isOptionSetted (k : string) : M t bool := o ← mget; mret (bool_decide (is_Some (vm_ o !! k))).

(** A call of boost in a [try] block. *)
Definition boost {A} (r : string + A) : M t A :=
  match r with inl what => mthrow (Exception EINVAL what) | inr a => mret a end.
Definition storing (p : parsed) : M t unit := o ← mget; vm ← boost (store p (vm_ o)); modify (set_vm vm).
(** The name of the file is read in the [try] block, too. *)
Definition config_name : M t string :=
  o ← mget; match vm_ o !! "config" with Some (VString s, _) => mret s | _ => mthrow (Exception EINVAL "bad_any_cast") end.

Definition parseOptions (argv : list string) : M t unit :=
  modify (λ o, set_desc (desc_ o ++ cliDesc_ o ++ cFileDesc_ o) o);;
  o ← mget;
  p ← boost (parse_command_line argv (desc_ o)); storing p;;
  config ← isOptionSetted "config";
  mwhen config (
    configFileName ← config_name;
    f ← boost (parse_config_file configFileName (cFileDesc_ o)); storing f;;
    p ← boost (parse_command_line argv (desc_ o)); storing p);;
  help ← isOptionSetted "help";
  mwhen help (mthrow (Exception 0 (strerror 0)));;
  name ← deref (head argv);
  modify (set_program name);;
  logs ← isOptionSetted "log-dir";
  mwhen logs (d ← as_string "log-dir"; modify (set_log_directory d));;
  lvl ← as_int "log-level";
  modify (λ o, set_log (defaultlogging (programName_ o) lvl (logDirectory_ o) (log o)) o).
End options.
End Options.

(** ** main, up to the configuration *)

Section main.
Context `{Boost}.
Variables (strerror : Z → string) (pwd : option string).
Import Options.

(** Without PWD no option is declared. *)
Definition setOptions : M t unit :=
  match pwd with
  | None => mret tt
  | Some pwdString =>
    modify (addCLIOption "daemon,d" Switch "daemonize the build system");;
    modify (addCLIOption "module,M" (StringValue None) "use -M help for more info");;
    modify (addCLIOption "config,f" (StringValue None) "falcon configuration file");;
    modify (addCFileOption "working-directory" (StringValue (Some pwdString)) "falcon working directory path");;
    modify (addCFileOption "graph" (StringValue (Some "makefile.json")) "falcon graph file");;
    modify (addCFileOption "api-port" (IntValue (Some 4242%Z)) "the API listening port");;
    modify (addCFileOption "stream-port" (IntValue (Some 4343%Z)) "stream port");;
    modify (addCFileOption "log-level" (IntValue (Some 1%Z)) "define the log level");;
    modify (addCFileOption "log-dir" (StringValue None) "write log files in the given directory")
  end.

(** What the constructor of GlobalConfig and [main] read from the options. *)
Definition readOptions : M t Startup.Options :=
  graph ← as_string "graph"; api ← as_int "api-port"; stream ← as_int "stream-port"; dir ← as_string "working-directory";
  daemon ← isOptionSetted "daemon";
  o ← mget;
  is_module ← isOptionSetted "module";
  module ← (if (is_module : bool) then m ← as_string "module"; mret (Some m) else mret None);
  mret (mkOptions graph api stream dir daemon (programName_ o) (logDirectory_ o) module).

(** [main] returns the code of the exception, or goes on with the configuration; what it
    prints meanwhile (the help, the error) is left out. *)
Definition commandLine (argv : list string) : M t (Z + Startup.Options) :=
  setOptions;;
  r ← catch (parseOptions strerror argv;; mret None) (λ e, match e with Exception code _ => mret (Some code) | _ => mthrow e end);
  match r with
  | Some code => mret (inl code)
  | None => o ← readOptions; mret (inr o)
  end.
End main.

(** ** What the options are *)

Definition cli_options : description :=
  [mkOption "help,h" Switch "produce this help message"; mkOption "daemon,d" Switch "daemonize the build system";
   mkOption "module,M" (StringValue None) "use -M help for more info"; mkOption "config,f" (StringValue None) "falcon configuration file"].
Definition file_options (pwd : string) : description :=
  [mkOption "working-directory" (StringValue (Some pwd)) "falcon working directory path";
   mkOption "graph" (StringValue (Some "makefile.json")) "falcon graph file";
   mkOption "api-port" (IntValue (Some 4242%Z)) "the API listening port"; mkOption "stream-port" (IntValue (Some 4343%Z)) "stream port";
   mkOption "log-level" (IntValue (Some 1%Z)) "define the log level"; mkOption "log-dir" (StringValue None) "write log files in the given directory"].
Definition all_options (pwd : string) : description := cli_options ++ file_options pwd.
#[local] Arguments all_options : simpl never.

Definition given_string (d : string) (x : option value) : string := match x with Some (VString s) => s | _ => d end.
Definition given_int (d : Z) (x : option value) : Z := match x with Some (VInt n) => n | _ => d end.
Definition default_of (d : description) (k : string) : option value := described d k ≫= λ o, default_value (od_semantic o).

Lemma described_app d d' k : described (d ++ d') k = match described d k with Some o => Some o | None => described d' k end.
Proof.
  induction d as [|o d IH]; simpl; [done|]. by case_decide.
Qed.
Lemma described_name d k o : described d k = Some o → o ∈ d ∧ long_name (od_name o) = k.
Proof.
  induction d as [|o' d IH]; simpl; [done|]. case_decide; [intros [= ->]; split; [left|done]|]. intros [? ?]%IH. split; [by right|done].
Qed.
(** An option of the file is not one of the others. *)
Lemma described_file pwd k o : described (file_options pwd) k = Some o → described (all_options pwd) k = Some o.
Proof.
  intros Ho. unfold all_options. rewrite described_app. destruct (described cli_options k) as [o'|] eqn:E; [|done]. exfalso.
  apply described_name in E as [Hin <-]. revert Ho. unfold cli_options in Hin. rewrite !elem_of_cons in Hin.
  destruct Hin as [->|[->|[->|[->|Hin]]]]; [done..|by apply elem_of_nil in Hin].
Qed.
Lemma default_typed t v : default_value t = Some v → has_type v t = true.
Proof. destruct t as [|[d|]|[d|]]; intros [= <-]; done. Qed.

Section reading.
Context `{BoostLaws} (strerror : Z → string) (pwd : string) (argv : list string).
Notation d := (all_options pwd).

(** Every value has the type of its option. *)
Definition typed (vm : variables_map) : Prop :=
  ∀ k v b, vm !! k = Some (v, b) → ∃ o, described d k = Some o ∧ has_type v (od_semantic o) = true.
Definition looks_in (p : parsed) : Prop := ∀ k o, described (described_by p) k = Some o → described d k = Some o.

Lemma stored_typed p vm vm' : typed vm → looks_in p → store p vm = inr vm' → typed vm'.
Proof using All.
  intros Ht Hp Hs k v b. rewrite (store_ok _ _ _ Hs k). unfold stored. intros Hk.
  assert (Hval : ∀ w, values_of p k = Some w → ∃ o, described d k = Some o ∧ has_type w (od_semantic o) = true).
  { intros w (o & Ho & Hw)%values_described. exists o. split; [by apply Hp|done]. }
  destruct (vm !! k) as [[w c]|] eqn:E.
  - destruct c; [|simplify_eq; by eapply Ht]. destruct (values_of p k) as [w'|]; simplify_eq; [by apply Hval|by eapply Ht].
  - destruct (values_of p k) as [w|]; [simplify_eq; by apply Hval|]. apply fmap_Some in Hk as (w & (o & Ho & Hw)%bind_Some & [= -> ->]).
    exists o. split; [by apply Hp|by apply default_typed].
Qed.

(** What was read from the command line, the file and the defaults, in this order. *)
Definition chosen (cli : parsed) (file : string → option value) (k : string) : option value :=
  match values_of cli k with Some v => Some v | None => file k end.
Definition holds (cli : parsed) (file : string → option value) (vm : variables_map) : Prop :=
  ∀ k, fst <$> vm !! k = match chosen cli file k with Some v => Some v | None => default_of d k end.
(** The file that the command line names. *)
Definition configured (cli : parsed) (file : string → option value) : Prop :=
  match values_of cli "config" with
  | Some (VString name) => ∃ f, parse_config_file name (file_options pwd) = inr f ∧ file = values_of f
  | _ => file = λ _, None
  end.

(** After the command line alone. *)
Lemma first_store cli vm : parse_command_line argv d = inr cli → store cli ∅ = inr vm →
  typed vm ∧ ∀ k, vm !! k = match values_of cli k with Some v => Some (v, false) | None => (λ v, (v, true)) <$> default_of d k end.
Proof using All.
  intros Hp Hs. pose proof (command_line_described _ _ _ Hp) as Hd. split.
  - eapply stored_typed; [|by intros k o; rewrite Hd|exact Hs]. by intros k v b ?%lookup_empty_Some.
  - intros k. rewrite (store_ok _ _ _ Hs k). unfold stored. rewrite lookup_empty, Hd. done.
Qed.
(** After the file and the command line again. *)
Lemma later_stores cli vm f name vm2 vm3 :
  parse_command_line argv d = inr cli → store cli ∅ = inr vm → parse_config_file name (file_options pwd) = inr f →
  store f vm = inr vm2 → store cli vm2 = inr vm3 → typed vm3 ∧ holds cli (values_of f) vm3.
Proof using All.
  intros Hp Hs1 Hf Hs2 Hs3. destruct (first_store cli vm Hp Hs1) as [Ht Hvm]. pose proof (config_file_described _ _ _ Hf) as Hdf.
  pose proof (command_line_described _ _ _ Hp) as Hd. split.
  - eapply stored_typed; [|by intros k o; rewrite Hd|exact Hs3]. eapply stored_typed; [exact Ht| |exact Hs2].
    intros k o. rewrite Hdf. apply described_file.
  - intros k. rewrite (store_ok _ _ _ Hs3 k). unfold stored. rewrite (store_ok _ _ _ Hs2 k). unfold stored. rewrite Hvm, Hd, Hdf.
    fold (default_of d k) (default_of (file_options pwd) k). unfold chosen. destruct (values_of cli k) as [v|]; [done|].
    assert (Hdef : ∀ v, default_of (file_options pwd) k = Some v → default_of d k = Some v).
    { intros v (o & Ho & Hv)%bind_Some. unfold default_of. by rewrite (described_file _ _ _ Ho). }
    destruct (default_of d k) as [v|], (values_of f k) as [w|]; simpl; try done.
    by destruct (default_of (file_options pwd) k) as [v|]; [specialize (Hdef v eq_refl)|].
Qed.

Import Options.
Implicit Types s : t.

(** *** Reading a value *)

Section values.
Context (cli : parsed) (file : string → option value) (s : t).
Hypothesis Ht : typed (vm_ s).
Hypothesis Hh : holds cli file (vm_ s).

Lemma wp_as_string k dflt nm desc Q E : described d k = Some (mkOption nm (StringValue dflt) desc) →
  (dflt = None → is_Some (vm_ s !! k)) → Q (given_string (default "" dflt) (chosen cli file k)) s → wp (as_string k) Q E s.
Proof using Ht Hh.
  intros Ho Hset HQ. apply wp_bind, wp_mget. specialize (Hh k). unfold default_of in Hh. rewrite Ho in Hh. simpl in Hh.
  destruct (vm_ s !! k) as [[v b]|] eqn:Hk.
  - destruct (Ht k v b Hk) as (o & Ho' & Hv). simplify_eq. destruct v as [x|]; [|done]. apply wp_ret. simpl in Hh.
    destruct (chosen cli file k) as [v|]; [by simplify_eq|]. by destruct dflt; simplify_eq/=.
  - destruct (chosen cli file k); [done|]. destruct dflt; [done|]. destruct (Hset eq_refl) as [? [=]].
Qed.
Lemma wp_as_int k dflt nm desc Q E : described d k = Some (mkOption nm (IntValue (Some dflt)) desc) →
  Q (given_int dflt (chosen cli file k)) s → wp (as_int k) Q E s.
Proof using Ht Hh.
  intros Ho HQ. apply wp_bind, wp_mget. specialize (Hh k). unfold default_of in Hh. rewrite Ho in Hh. simpl in Hh.
  destruct (vm_ s !! k) as [[v b]|] eqn:Hk; [|by destruct (chosen cli file k)].
  destruct (Ht k v b Hk) as (o & Ho' & Hv). simplify_eq. destruct v as [|x]; [done|]. apply wp_ret. simpl in Hh.
  by destruct (chosen cli file k) as [v|]; simplify_eq.
Qed.
(** An option without a default. *)
Lemma set_iff k o : described d k = Some o → default_value (od_semantic o) = None → is_Some (vm_ s !! k) ↔ is_Some (chosen cli file k).
Proof using Hh.
  intros Ho Hd. specialize (Hh k). unfold default_of in Hh. rewrite Ho in Hh. simpl in Hh. rewrite Hd in Hh.
  destruct (vm_ s !! k) as [x|], (chosen cli file k) as [v|]; [|done|done|].
  - split; intros _; [by exists v|by exists x].
  - by split; intros [? ?].
Qed.
Lemma wp_setted k o Q E : described d k = Some o → default_value (od_semantic o) = None →
  Q (bool_decide (is_Some (chosen cli file k))) s → wp (isOptionSetted k) Q E s.
Proof using Hh.
  intros Ho Hd HQ. apply wp_bind, wp_mget, wp_ret. by rewrite (bool_decide_ext _ _ (set_iff k o Ho Hd)).
Qed.
End values.

(** *** parseOptions *)

(** Some call of boost fails. *)
Definition boost_failed : Prop :=
  (∃ e, parse_command_line argv d = inl e) ∨ (∃ f e, parse_config_file f (file_options pwd) = inl e) ∨ ∃ p vm e, store p vm = inl e.
Lemma wp_storing p Q (E : exn → t → Prop) s :
  (∀ vm, store p (vm_ s) = inr vm → Q tt (set_vm vm s)) → (∀ what s', boost_failed → E (Exception EINVAL what) s') → wp (storing p) Q E s.
Proof using Type.
  intros HQ HE. apply wp_bind, wp_mget, wp_bind. unfold boost. destruct (store p (vm_ s)) as [what|vm] eqn:Es.
  - apply wp_mthrow, HE. right. right. by exists p, (vm_ s), what.
  - by apply wp_ret, wp_modify, HQ.
Qed.

(** The variables after all calls of boost. *)
Definition read_all (cli : parsed) (file : string → option value) (s : t) : Prop :=
  parse_command_line argv d = inr cli ∧ configured cli file ∧ typed (vm_ s) ∧ holds cli file (vm_ s).
Lemma config_from_cli cli (vm : variables_map) : (∀ k, vm !! k = match values_of cli k with Some v => Some (v, false) | None => (λ v, (v, true)) <$> default_of d k end) →
  vm !! "config" = (λ v, (v, false)) <$> values_of cli "config".
Proof using Type. intros ->. by destruct (values_of cli "config"). Qed.

Definition parsed_ok (flags : LogFlags) (s : t) : Prop := ∃ cli file, read_all cli file s ∧ ¬ is_Some (chosen cli file "help") ∧ head argv = Some (programName_ s) ∧
  logDirectory_ s = given_string "" (chosen cli file "log-dir") ∧
  log s = defaultlogging (programName_ s) (given_int 1 (chosen cli file "log-level")) (logDirectory_ s) flags.
Definition parse_failed (e : exn) : Prop :=
  (∃ what, e = Exception EINVAL what) ∧ boost_failed ∨
  e = Exception 0 (strerror 0) ∧ ∃ cli file, parse_command_line argv d = inr cli ∧ configured cli file ∧ is_Some (chosen cli file "help").

Lemma wp_boost {A} (r : string + A) Q (E : exn → t → Prop) s :
  (∀ a, r = inr a → Q a s) → (∀ what, r = inl what → E (Exception EINVAL what) s) → wp (boost r) Q E s.
Proof using Type. intros HQ HE. unfold boost. destruct r; [by apply wp_mthrow, HE|by apply wp_ret, HQ]. Qed.

Lemma parseOptions_spec flags s :
  argv ≠ [] → s = Options.mk cli_options (file_options pwd) [] ∅ "" "" flags →
  wp (parseOptions strerror argv) (λ _ s', parsed_ok flags s') (λ e _, parse_failed e) s.
Proof using All.
  intros Hargv ->. apply wp_bind, wp_modify. change (set_desc _ _) with (Options.mk cli_options (file_options pwd) d ∅ "" "" flags).
  apply wp_bind, wp_mget. cbn [desc_ cFileDesc_].
  apply wp_bind, wp_boost; [|intros what Hw; left; split; [by eexists|left; by eexists]]. intros cli Hcli.
  apply wp_bind, wp_storing; [|intros what s' Hf; left; split; [by eexists|done]]. cbn. intros vm Hvm.
  destruct (first_store cli vm Hcli Hvm) as [Ht Hlook]. pose proof (config_from_cli cli vm Hlook) as Hcfg.
  apply wp_bind. unfold isOptionSetted at 1. apply wp_bind, wp_mget, wp_ret. cbn [vm_ set_vm].
  apply wp_bind. apply (wp_mono _ (λ _ s', ∃ file vm', s' = set_vm vm' (Options.mk cli_options (file_options pwd) d ∅ "" "" flags) ∧ read_all cli file s')
    _ (λ e _, parse_failed e)).
  - unfold mwhen. rewrite Hcfg. destruct (values_of cli "config") as [v|] eqn:Hv; simpl.
    2: { apply wp_ret. exists (λ _, None), vm. split; [done|]. split_and!; [done|by unfold configured; rewrite Hv|done|].
         intros k. cbn [vm_ set_vm]. rewrite Hlook. unfold chosen. destruct (values_of cli k); [done|]. by destruct (default_of d k). }
    apply wp_bind, wp_bind, wp_mget. cbn. rewrite Hcfg.
    assert (∃ name, v = VString name) as [name ->].
    { destruct (values_described cli "config" v Hv) as (o & Ho & Hty). rewrite (command_line_described _ _ _ Hcli) in Ho.
      injection Ho as <-. destruct v as [name|]; [by exists name|done]. }
    apply wp_ret. apply wp_bind, wp_boost; [|intros what Hw; left; split; [by eexists|right; left; by do 2 eexists]]. intros f Hf.
    apply wp_bind, wp_storing; [|intros what s' ?; left; split; [by eexists|done]]. cbn. intros vm2 Hvm2.
    apply wp_bind, wp_boost; [|intros what Hw; congruence]. intros cli' Hcli'. assert (cli' = cli) as -> by congruence.
    apply wp_storing; [|intros what s' ?; left; split; [by eexists|done]]. cbn. intros vm3 Hvm3.
    destruct (later_stores cli vm f name vm2 vm3 Hcli Hvm Hf Hvm2 Hvm3) as [Ht3 Hh3].
    exists (values_of f), vm3. split; [done|]. split_and!; [done| |done|done]. unfold configured. rewrite Hv. by exists f.
  - intros [] s1 (file & vm' & -> & Hread). pose proof Hread as (_ & Hcf & Ht1 & Hh1).
    apply wp_bind. eapply wp_setted; [exact Hh1|reflexivity|reflexivity|]. unfold mwhen at 1.
    case_bool_decide as Hhelp; [apply wp_bind, wp_mthrow; right; split; [done|by exists cli, file]|]. apply wp_bind, wp_ret.
    destruct (head argv) as [name|] eqn:Hname; [|by destruct argv]. apply wp_bind. eapply wp_deref; [done|]. apply wp_bind, wp_modify.
    apply wp_bind. eapply wp_setted; [exact Hh1|reflexivity|reflexivity|].
    apply wp_bind. eapply (wp_mono _ (λ _ s', s' = set_log_directory (given_string "" (chosen cli file "log-dir")) (set_program name (set_vm vm' (Options.mk cli_options (file_options pwd) d ∅ "" "" flags))))
      _ (λ _ _, False)); [| |done].
    + unfold mwhen. case_bool_decide as Hdir; [|apply wp_ret; by destruct (chosen cli file "log-dir"); [destruct Hdir|]].
      apply wp_bind. eapply (wp_as_string cli file _); [exact Ht1|exact Hh1|reflexivity| |by apply wp_modify].
      intros _. by apply (set_iff cli file _ Hh1 "log-dir" _ eq_refl eq_refl).
    + intros [] s2 ->. apply wp_bind. eapply (wp_as_int cli file); [exact Ht1|exact Hh1|reflexivity|].
      apply wp_modify. exists cli, file. by split_and!.
  - done.
Qed.

(** The options as [main] goes on with them. *)
Definition read_as (cli : parsed) (file : string → option value) (o : Startup.Options) : Prop :=
  opt_graph o = given_string "makefile.json" (chosen cli file "graph") ∧
  opt_api_port o = given_int 4242 (chosen cli file "api-port") ∧
  opt_stream_port o = given_int 4343 (chosen cli file "stream-port") ∧
  opt_working_directory o = given_string pwd (chosen cli file "working-directory") ∧
  opt_daemon o = bool_decide (is_Some (chosen cli file "daemon")) ∧
  opt_log_directory o = given_string "" (chosen cli file "log-dir") ∧
  opt_module o = match chosen cli file "module" with Some (VString m) => Some m | _ => None end.

Lemma readOptions_spec flags s : parsed_ok flags s →
  returns readOptions (λ o s', s' = s ∧ ∃ cli file, read_all cli file s ∧ ¬ is_Some (chosen cli file "help") ∧ read_as cli file o ∧
    head argv = Some (opt_program_name o) ∧ log s = defaultlogging (opt_program_name o) (given_int 1 (chosen cli file "log-level")) (opt_log_directory o) flags) s.
Proof using All.
  intros (cli & file & Hread & Hhelp & Hname & Hdir & Hlog). pose proof Hread as (_ & _ & Ht & Hh).
  apply wp_bind. eapply (wp_as_string cli file); [exact Ht|exact Hh|reflexivity|done|].
  apply wp_bind. eapply (wp_as_int cli file); [exact Ht|exact Hh|reflexivity|].
  apply wp_bind. eapply (wp_as_int cli file); [exact Ht|exact Hh|reflexivity|].
  apply wp_bind. eapply (wp_as_string cli file); [exact Ht|exact Hh|reflexivity|done|].
  apply wp_bind. eapply wp_setted; [exact Hh|reflexivity|reflexivity|]. apply wp_bind, wp_mget.
  apply wp_bind. eapply wp_setted; [exact Hh|reflexivity|reflexivity|]. apply wp_bind.
  eapply (wp_mono _ (λ m s', s' = s ∧ m = match chosen cli file "module" with Some (VString m) => Some m | _ => None end) _ (λ _ _, False)); [| |done].
  - case_bool_decide as Hm.
    + apply wp_bind. eapply (wp_as_string cli file); [exact Ht|exact Hh|reflexivity| |].
      { intros _. by apply (set_iff cli file _ Hh "module" _ eq_refl eq_refl). }
      apply wp_ret. split; [done|]. assert (Hs : is_Some (vm_ s !! "module")) by by apply (set_iff cli file _ Hh "module" _ eq_refl eq_refl).
      destruct Hs as [[v b] Hv]. destruct (Ht "module" v b Hv) as (o & [= <-] & Hty). specialize (Hh "module"). rewrite Hv in Hh. simpl in Hh.
      destruct (chosen cli file "module") as [w|]; [|by destruct Hm]. injection Hh as <-. by destruct v.
    + apply wp_ret. split; [done|]. destruct (chosen cli file "module"); [destruct Hm; by eexists|done].
  - intros m s' [-> ->]. apply wp_ret. split; [done|]. exists cli, file. by split_and!.
Qed.

(** C26: the command line, with PWD set and boost as it is documented.  Whatever is
    given, main never gets a value of a type it does not expect, which would end it: it
    stops with EINVAL when a call of boost fails, with 0 when help is asked for, and
    goes on otherwise, with each option as the command line gives it, else the
    configuration file, else its default. *)
Theorem command_line_exact flags : argv ≠ [] →
  returns (commandLine strerror (Some pwd) argv) (λ r s', match r with
    | inl code => code = EINVAL ∧ boost_failed ∨
        code = 0%Z ∧ ∃ cli file, parse_command_line argv d = inr cli ∧ configured cli file ∧ is_Some (chosen cli file "help")
    | inr o => ∃ cli file, parse_command_line argv d = inr cli ∧ configured cli file ∧ ¬ is_Some (chosen cli file "help") ∧
        read_as cli file o ∧ head argv = Some (opt_program_name o) ∧
        log s' = defaultlogging (opt_program_name o) (given_int 1 (chosen cli file "log-level")) (opt_log_directory o) flags
    end) (Options.new flags).
Proof.
  intros Hargv. apply wp_bind. repeat apply wp_bind, wp_modify. apply wp_modify. apply wp_bind, wp_catch, wp_bind.
  eapply wp_mono; [apply (parseOptions_spec flags); [done|reflexivity]| |].
  - intros [] s Hs. apply wp_ret, wp_bind. eapply wp_mono; [by apply (readOptions_spec flags)| |done].
    intros o s' (-> & cli & file & (Hp & Hc & _) & Hread). apply wp_ret. by exists cli, file.
  - intros e s' [[[what ->] Hf]|[-> Hhelp]]; apply wp_ret, wp_ret; [by left|by right].
Qed.
End reading.

(** ** A small boost, to evaluate

    The arguments are names, each with the text of its value. *)

Record sparsed := mkParsed { sp_options : description; sp_values : list (string * value) }.
Fixpoint digits (n : Z) (s : string) : Z :=
  match s with EmptyString => n | String c s' => digits (10 * n + (Z.of_N (N_of_ascii c) - 48)) s' end.
Definition convert (d : description) (k v : string) : option value :=
  o ← described d k; Some (match od_semantic o with IntValue _ => VInt (digits 0 v) | _ => VString v end).
Fixpoint pairs (d : description) (l : list string) : string + list (string * value) :=
  match l with
  | [] => inr []
  | k :: v :: l =>
    match convert d k v, pairs d l with
    | Some x, inr r => inr ((k, x) :: r)
    | None, _ => inl ("unrecognised option " +:+ k)%string
    | _, inl e => inl e
    end
  | [k] => inl ("the required argument is missing: " +:+ k)%string
  end.
Definition lookup_value (p : sparsed) (k : string) : option value :=
  o ← described (sp_options p) k;
  x ← list_find (λ kv, kv.1 = k) (sp_values p);
  if has_type x.2.2 (od_semantic o) then Some x.2.2 else None.

Definition small_stored (p : sparsed) (vm : variables_map) (k : string) : option (value * bool) :=
  match vm !! k with
  | Some (v, false) => Some (v, false)
  | old =>
    match lookup_value p k with
    | Some v => Some (v, false)
    | None => match old with Some x => Some x | None => (λ v, (v, true)) <$> (described (sp_options p) k ≫= λ o, default_value (od_semantic o)) end
    end
  end.
Definition small_store (p : sparsed) (vm : variables_map) : variables_map :=
  map_imap (λ k _, small_stored p vm k) (gset_to_gmap tt (dom vm ∪ list_to_set ((λ o, long_name (od_name o)) <$> sp_options p))).
Definition small_conf : list string := ["graph"; "conf.json"; "api-port"; "7"].
#[local] Instance small_boost : Boost := {|
  parsed := sparsed;
  parse_command_line := λ argv d, match pairs d (tail argv) with inl e => inl e | inr l => inr (mkParsed d l) end;
  parse_config_file := λ f d, if decide (f = "falcon.conf") then match pairs d small_conf with inl e => inl e | inr l => inr (mkParsed d l) end else inl "can not read options configuration file";
  store := λ p vm, inr (small_store p vm);
  described_by := sp_options;
  values_of := lookup_value |}.

Lemma small_laws : BoostLaws.
Proof.
  split.
  - intros p vm vm' [= <-] k. unfold small_store. rewrite map_lookup_imap, lookup_gset_to_gmap. change (stored p vm k) with (small_stored p vm k).
    destruct (decide (k ∈ dom vm ∪ list_to_set ((λ o, long_name (od_name o)) <$> sp_options p))) as [Hin|Hout].
    { by rewrite option_guard_True by done. }
    rewrite option_guard_False by done. simpl. unfold small_stored, lookup_value. apply not_elem_of_union in Hout as [Hv Hd].
    apply not_elem_of_dom in Hv as ->. destruct (described (sp_options p) k) as [o|] eqn:E; [|done]. exfalso.
    apply described_name in E as [Ho <-]. apply Hd, elem_of_list_to_set, list_elem_of_fmap. by exists o.
  - intros argv d p Hp. cbn in Hp. destruct (pairs d (tail argv)); [done|]. by injection Hp as <-.
  - intros f d p Hp. cbn -[pairs small_conf] in Hp. case_decide; [|done]. destruct (pairs d small_conf); [done|]. by injection Hp as <-.
  - intros p k v Hv. cbn in *. unfold lookup_value in Hv. apply bind_Some in Hv as (o & Ho & ([i [k' x]] & _ & Hx)%bind_Some).
    exists o. split; [done|]. cbn in Hx. destruct (has_type x (od_semantic o)) eqn:E; [|done]. by injection Hx as <-.
Qed.

(** The port of the command line, the graph of the file, the default of the rest. *)
Definition some_argv : list string := ["falcon"; "config"; "falcon.conf"; "api-port"; "99"].
Definition quiet_log : LogFlags := mkLog false 2 "" 0 0 None.
Lemma command_line_exact_witness :
  returns (commandLine (λ _, "Success") (Some "/work") some_argv) (λ r s', match r with
    | inl code => code = EINVAL ∧ boost_failed "/work" some_argv ∨
        code = 0%Z ∧ ∃ cli file, parse_command_line some_argv (all_options "/work") = inr cli ∧ configured "/work" cli file ∧ is_Some (chosen cli file "help")
    | inr o => ∃ cli file, parse_command_line some_argv (all_options "/work") = inr cli ∧ configured "/work" cli file ∧ ¬ is_Some (chosen cli file "help") ∧
        read_as "/work" cli file o ∧ head some_argv = Some (opt_program_name o) ∧
        Options.log s' = Options.defaultlogging (opt_program_name o) (given_int 1 (chosen cli file "log-level")) (opt_log_directory o) quiet_log
    end) (Options.new quiet_log).
Proof. apply (@command_line_exact small_boost small_laws). discriminate. Defined.

Example some_options :
  match commandLine (λ _, "Success") (Some "/work") some_argv (Options.new quiet_log) with
  | Ret (inr o) _ => (opt_graph o, opt_api_port o, opt_stream_port o, opt_working_directory o) = ("conf.json", 99%Z, 4343%Z, "/work")
  | _ => False
  end.
Proof. vm_compute. reflexivity. Qed.

(** Without PWD no option is declared, and the log level is missing when it is read. *)
Example no_pwd_aborts : commandLine (λ _, "Success") None ["falcon"] (Options.new quiet_log) = Abort BadAccess.
Proof. vm_compute. reflexivity. Qed.
